(** * wallet-tracking: the query-and-aggregation engine of the TypeScript tools

    A shallow embedding of

    - [utils.ts]: [retryOperation], [isValidTimestamp], [isValidBlockNumber];
    - [block-finder.ts]: the [find] action and [findBlockByTimestamp];
    - [eth-transfers.ts]: [processBlock] and the address ranking of [fetch];
    - [transfer-events.ts]: the log-decoding loop and the token ranking of
      [fetch], the token statistics and ranking of [analyze];

    with the two built-ins the rankings rest on, [Map] and
    [Array.prototype.sort].

    JavaScript numbers that hold block heights, timestamps and counters are
    modelled as [Z] (exact below 2^53, which every input used here respects);
    [bigint] is [Z]; strings are [string].  Asynchronous code is sequential
    here: every [await] in the embedded functions waits for one promise, or
    for two that are started in a fixed order.  The one exception is the
    [Promise.all] of the batches of [fetch]: the calls it awaits take
    their steps interleaved, in an order that the model leaves open.

    Effects are explicit.  A computation of type [Eff W A] runs in a world
    [w : W] (the remote node and the network between it and the client) and
    yields how it ended, the world after it, and the trace of what it did:
    RPC round trips, console lines, timer sleeps, files written.  Banner,
    summary and progress lines printed with [console.log] by the command
    actions are not part of the trace; the lines of [retryOperation], of
    [findBlockByTimestamp] in verbose mode and every [console.warn] and
    [console.error] are. *)

From Stdlib Require Import ZArith List String Ascii Bool Arith Lia.
From Stdlib Require Import DecimalString HexadecimalString DecimalZ.
From Stdlib Require Import Sorted Permutation.
Import ListNotations.

Local Open Scope string_scope.
Local Open Scope list_scope.
Local Open Scope Z_scope.

(* ===================================================================== *)
(** * The run-time: outcomes, events, the effect monad                    *)
(* ===================================================================== *)

Module Js.

(** [new Error(message)], and whatever else a promise rejects with. *)
Record JsError : Type := Error { message : string }.

(** A transaction as an object: the properties that [processBlock]
    reads. *)
Record TransactionResponse : Type := {
  tx_hash : string;
  tx_from : string;
  tx_to : option string;
  tx_value : Z;
  tx_gasLimit : Z;
  tx_gasPrice : option Z
}.

(** An element of [block.transactions].  ethers v6, which the tools are
    written against, lists the hashes of the transactions there, also in
    a block fetched with [getBlock(n, true)]: the bodies are then under
    [block.prefetchedTransactions], which the tools do not read.  An
    element that is an object with the properties of a transaction is
    what a provider of another make hands out.  The code reads either
    kind by its properties, and a hash string has none of them. *)
Inductive TransactionEntry : Type :=
| TxHash (hash : string)
| TxObject (tx : TransactionResponse).

(** A block as the provider hands it out.  [hash] is [null] on a pending
    block. *)
Record Block : Type := {
  number : Z;
  timestamp : Z;
  hash : option string;
  transactions : option (list TransactionEntry)
}.

Inductive BlockTag : Type :=
| Latest
| Height (n : Z).

(** [ethers.Filter]: a [null] topic matches anything. *)
Record Filter : Type := {
  fromBlock : Z;
  toBlock : Z;
  address : option string;
  topics : list (option string)
}.

(** [ethers.Log]. *)
Record Log : Type := {
  log_address : string;
  log_topics : option (list string);
  log_data : string;
  log_blockNumber : Z;
  log_transactionHash : string;
  log_index : Z
}.

Inductive RpcCall : Type :=
| GetBlock (tag : BlockTag) (prefetchTxs : bool)
| GetBalance (addr : string) (blockTag : option Z)
| GetLogs (f : Filter)
| CallSymbol (contract : string)
| CallDecimals (contract : string).

Inductive Event : Type :=
| Rpc (c : RpcCall)
| ConsoleLog (line : string)
| ConsoleWarn (line : string)
| ConsoleError (line : string) (err : option JsError)
| Sleep (ms : Z)
| SaveJson (filename : string).

(** How a computation ends.  [Exited] is [process.exit(code)], which no
    [catch] intercepts.  [OutOfFuel] belongs to the model only: a [while]
    loop is unrolled a given number of times, and the theorems show that
    the unrolling used is never too short. *)
Inductive Outcome (A : Type) : Type :=
| Returned (a : A)
| Thrown (e : JsError)
| Exited (code : Z)
| OutOfFuel.

Arguments Returned {A} a.
Arguments Thrown {A} e.
Arguments Exited {A} code.
Arguments OutOfFuel {A}.

Definition Eff (W A : Type) : Type := W -> Outcome A * W * list Event.

Section Monad.
Context {W : Type}.

Definition ret {A} (a : A) : Eff W A := fun w => (Returned a, w, []).

Definition bind {A B} (m : Eff W A) (k : A -> Eff W B) : Eff W B :=
  fun w =>
    match m w with
    | (Returned a, w1, t1) =>
        let '(r, w2, t2) := k a w1 in (r, w2, t1 ++ t2)
    | (Thrown e, w1, t1) => (Thrown e, w1, t1)
    | (Exited c, w1, t1) => (Exited c, w1, t1)
    | (OutOfFuel, w1, t1) => (OutOfFuel, w1, t1)
    end.

Definition throw {A} (e : JsError) : Eff W A := fun w => (Thrown e, w, []).

Definition process_exit {A} (code : Z) : Eff W A :=
  fun w => (Exited code, w, []).

Definition out_of_fuel {A} : Eff W A := fun w => (OutOfFuel, w, []).

Definition emit (ev : Event) : Eff W unit :=
  fun w => (Returned tt, w, [ev]).

(** [try { m } catch (error) { handler error }]. *)
Definition try_catch {A} (m : Eff W A) (handler : JsError -> Eff W A)
  : Eff W A :=
  fun w =>
    match m w with
    | (Thrown e, w1, t1) =>
        let '(r, w2, t2) := handler e w1 in (r, w2, t1 ++ t2)
    | other => other
    end.

Definition when (b : bool) (m : Eff W unit) : Eff W unit :=
  if b then m else ret tt.

End Monad.

Declare Scope eff_scope.
Delimit Scope eff_scope with eff.
Notation "x <- m ;; k" := (bind m (fun x => k))
  (at level 61, m at next level, right associativity) : eff_scope.
Notation "m ;; k" := (bind m (fun _ => k))
  (at level 61, right associativity) : eff_scope.

(** How one JSON-RPC round trip settles. *)
Inductive Settled (A : Type) : Type :=
| Fulfilled (a : A)
| Rejected (e : JsError).

Arguments Fulfilled {A} a.
Arguments Rejected {A} e.

(** The remote endpoint behind [ethers.JsonRpcProvider]: what each call
    answers in a given world, and the world it leaves.  Nothing is assumed
    about it: a call may reject, and it may answer differently the next
    time. *)
Record Provider (W : Type) : Type := {
  eth_getBlock : BlockTag -> bool -> W -> Settled (option Block) * W;
  eth_getBalance : string -> option Z -> W -> Settled Z * W;
  eth_getLogs : Filter -> W -> Settled (list Log) * W;
  erc20_symbol : string -> W -> Settled string * W;
  erc20_decimals : string -> W -> Settled Z * W
}.

Arguments eth_getBlock {W} p tag prefetch w.
Arguments eth_getBalance {W} p addr tag w.
Arguments eth_getLogs {W} p f w.
Arguments erc20_symbol {W} p contract w.
Arguments erc20_decimals {W} p contract w.

(** One round trip: the call is recorded in the trace whether it is
    fulfilled or rejected. *)
Definition round_trip {W A} (c : RpcCall) (reply : W -> Settled A * W)
  : Eff W A :=
  fun w =>
    match reply w with
    | (Fulfilled a, w') => (Returned a, w', [Rpc c])
    | (Rejected e, w') => (Thrown e, w', [Rpc c])
    end.

Section Calls.
Context {W : Type} (provider : Provider W).

(** [provider.getBlock(tag)] and [provider.getBlock(tag, true)]. *)
Definition getBlock (tag : BlockTag) (prefetchTxs : bool)
  : Eff W (option Block) :=
  round_trip (GetBlock tag prefetchTxs) (eth_getBlock provider tag prefetchTxs).

Definition getBalance (addr : string) (blockTag : option Z) : Eff W Z :=
  round_trip (GetBalance addr blockTag) (eth_getBalance provider addr blockTag).

Definition getLogs (f : Filter) : Eff W (list Log) :=
  round_trip (GetLogs f) (eth_getLogs provider f).

Definition symbol (contract : string) : Eff W string :=
  round_trip (CallSymbol contract) (erc20_symbol provider contract).

Definition decimals (contract : string) : Eff W Z :=
  round_trip (CallDecimals contract) (erc20_decimals provider contract).
End Calls.

(** [String(n)] for an integral number, [n.toString()] for a bigint. *)
Definition toString (n : Z) : string :=
  DecimalString.NilZero.string_of_int (Z.to_int n).

(** [s.toLowerCase()] on the ASCII letters. *)
Definition lower_ascii (c : ascii) : ascii :=
  let n := nat_of_ascii c in
  if ((65 <=? n) && (n <=? 90))%nat then ascii_of_nat (n + 32) else c.

Fixpoint toLowerCase (s : string) : string :=
  match s with
  | EmptyString => EmptyString
  | String c rest => String (lower_ascii c) (toLowerCase rest)
  end.

(** What follows a [0x] or [0X] prefix, if the string has one. *)
Definition hex_digits (s : string) : option string :=
  match s with
  | String c1 (String c2 digits) =>
      if Ascii.eqb c1 "0" && (Ascii.eqb c2 "x" || Ascii.eqb c2 "X")
      then Some digits else None
  | _ => None
  end.

(** [BigInt(s)] on the strings this program builds: the empty string is
    [0n], a [0x] prefix announces hexadecimal digits, anything else is a
    decimal numeral with an optional minus sign.  [None] is the
    [SyntaxError].  (Surrounding white space, a leading [+] and the [0b]
    and [0o] prefixes, which [BigInt] also accepts, do not occur in the
    strings passed here and are outside this definition.) *)
Definition BigInt (s : string) : option Z :=
  match s with
  | EmptyString => Some 0
  | _ =>
      match hex_digits s with
      | Some EmptyString => None
      | Some digits =>
          option_map Z.of_hex_uint
            (HexadecimalString.NilEmpty.uint_of_string (toLowerCase digits))
      | None => option_map Z.of_int (DecimalString.NilZero.int_of_string s)
      end
  end.

(** [s.slice(k)]. *)
Definition slice (k : nat) (s : string) : string :=
  substring k (String.length s - k) s.

(** Truthiness of a possibly missing string: [null], [undefined] and the
    empty string are falsy. *)
Definition truthy (s : option string) : bool :=
  match s with
  | Some (String _ _) => true
  | _ => false
  end.

End Js.

Import Js.
Local Open Scope eff_scope.

(* ===================================================================== *)
(** * Built-ins: [Map] and [Array.prototype.sort]                         *)
(* ===================================================================== *)

(** [Map<string, V>]: iteration follows the order in which keys were first
    set, and [set] on a key that is present keeps its place. *)
Module JsMap.
Section WithValues.
Context {V : Type}.

Definition t : Type := list (string * V).

Definition empty : t := [].

Fixpoint get (m : t) (key : string) : option V :=
  match m with
  | [] => None
  | (k, v) :: rest => if String.eqb k key then Some v else get rest key
  end.

Definition has (m : t) (key : string) : bool :=
  match get m key with
  | Some _ => true
  | None => false
  end.

Fixpoint set (m : t) (key : string) (v : V) : t :=
  match m with
  | [] => [(key, v)]
  | (k, v') :: rest =>
      if String.eqb k key then (k, v) :: rest
      else (k, v') :: set rest key v
  end.

(** [Array.from(m.entries())]. *)
Definition entries (m : t) : list (string * V) := m.

Definition keys (m : t) : list string := map fst m.
End WithValues.

Arguments t V : clear implicits.
End JsMap.

(** [Array.prototype.sort(comparefn)] as Node's engine runs it (V8's
    [ArrayTimSort], builtins/array-sort.tq).  An array of fewer than 64
    elements is one run: [CountAndMakeRun] finds the initial run, turning a
    strictly descending one around, and [BinaryInsertionSort] inserts the
    remaining elements one by one.  Longer arrays are cut into several runs
    that are merged afterwards; the merge is not modelled, and [sort]
    answers [None] there. *)
Module V8.
Section Sort.
Context {A : Type}.
Variable comparefn : A -> A -> Z.

(** The [while (left < right)] search of [BinaryInsertionSort] for the
    slot of [pivot] among the sorted elements. *)
Fixpoint insertion_point (fuel : nat) (sorted : list A) (pivot : A)
    (left right : nat) : nat :=
  if (left <? right)%nat then
    match fuel with
    | O => left
    | S fuel' =>
        let mid := (left + Nat.div2 (right - left))%nat in
        match nth_error sorted mid with
        | Some element =>
            if comparefn pivot element <? 0
            then insertion_point fuel' sorted pivot left mid
            else insertion_point fuel' sorted pivot (S mid) right
        | None => left
        end
    end
  else left.

Definition insert_at (k : nat) (x : A) (l : list A) : list A :=
  firstn k l ++ x :: skipn k l.

(** The outer [for (; start < high; ++start)] loop. *)
Fixpoint insert_all (sorted pending : list A) : list A :=
  match pending with
  | [] => sorted
  | pivot :: rest =>
      let left := insertion_point (List.length sorted) sorted pivot
                                  0 (List.length sorted) in
      insert_all (insert_at left pivot sorted) rest
  end.

(** [BinaryInsertionSort(0, start, length)]. *)
Definition BinaryInsertionSort (l : list A) (startArg : nat) : list A :=
  let start := if (startArg =? 0)%nat then 1%nat else startArg in
  insert_all (firstn start l) (skipn start l).

(** The [for] loop of [CountAndMakeRun]. *)
Fixpoint run_length (isDescending : bool) (previousElement : A)
    (rest : list A) (runLength : nat) : nat :=
  match rest with
  | [] => runLength
  | currentElement :: rest' =>
      let order := comparefn currentElement previousElement in
      if (if isDescending then 0 <=? order else order <? 0) then runLength
      else run_length isDescending currentElement rest' (S runLength)
  end.

(** [CountAndMakeRun(0, length)]: the length of the initial run and the
    array with that run made ascending. *)
Definition CountAndMakeRun (l : list A) : nat * list A :=
  match l with
  | elementHigh :: elementLow :: rest =>
      let order := comparefn elementLow elementHigh in
      let isDescending := order <? 0 in
      let runLength := run_length isDescending elementLow rest 2 in
      (runLength,
       if isDescending
       then rev (firstn runLength l) ++ skipn runLength l
       else l)
  | _ => (1%nat, l)
  end.

Definition sort (l : list A) : option (list A) :=
  if (List.length l <? 2)%nat then Some l
  else if (List.length l <? 64)%nat then
    let '(currentRunLength, l') := CountAndMakeRun l in
    Some (if (currentRunLength <? List.length l)%nat
          then BinaryInsertionSort l' currentRunLength
          else l')
  else None.
End Sort.
End V8.

(** [xs.slice(0, n)] for a number [n]; [None] is [NaN], which counts as 0,
    and a negative [n] counts from the end. *)
Definition slice0 {A : Type} (n : option Z) (xs : list A) : list A :=
  match n with
  | None => []
  | Some n =>
      if n <? 0 then firstn (Z.to_nat (Z.of_nat (List.length xs) + n)) xs
      else firstn (Z.to_nat n) xs
  end.

(* ===================================================================== *)
(** * utils.ts                                                            *)
(* ===================================================================== *)

Module Utils.

Record BlockInfo : Type := {
  number : Z;
  timestamp : Z;
  hash : option string
}.

Section Retry.
Context {W A : Type}.
Variable operation : Eff W A.
Variables maxRetries delay : Z.

(** The [for] loop of [retryOperation] from counter value [i] on.
    [fuel] bounds the unrolling. *)
Fixpoint retry_loop (fuel : nat) (i : Z) : Eff W A :=
  if i <? maxRetries then
    match fuel with
    | O => out_of_fuel
    | S fuel' =>
        try_catch operation (fun error =>
          if i =? maxRetries - 1 then throw error
          else
            emit (ConsoleLog ("Attempt " ++ toString (i + 1)
                              ++ " failed, retrying in "
                              ++ toString delay ++ "ms...")%string) ;;
            emit (Sleep delay) ;;
            retry_loop fuel' (i + 1))
    end
  else throw (Error "Max retries exceeded").

(** [retryOperation(operation, maxRetries, delay)]: the counter runs
    from 0 to [maxRetries - 1], so [maxRetries] rounds suffice. *)
Definition retryOperation : Eff W A :=
  retry_loop (Z.to_nat maxRetries) 0.
End Retry.

(** The defaults of [retryOperation]. *)
Definition defaultMaxRetries : Z := 3.
Definition defaultDelay : Z := 1000.

(** [isValidBlockNumber] on a number; [None] is [NaN]. *)
Definition isValidBlockNumber (blockNumber : option Z) : bool :=
  match blockNumber with
  | Some num => 0 <=? num
  | None => false
  end.

(** [isValidTimestamp]; [None] is [NaN], on which both comparisons are
    false. *)
Definition isValidTimestamp (timestamp : option Z) : bool :=
  match timestamp with
  | Some t => (1420000000 <? t) && (t <? 9999999999)
  | None => false
  end.

(** [calculateTimeDifference], the [seconds] field. *)
Definition calculateTimeDifference (targetTimestamp blockTimestamp : Z) : Z :=
  Z.abs (blockTimestamp - targetTimestamp).

(** [new Date(timestamp * 1000)] holds a time value when the milliseconds
    are within 8.64e15 of the epoch, and [NaN] beyond. *)
Definition validDate (timestamp : Z) : bool :=
  Z.abs (timestamp * 1000) <=? 8640000000000000.

(** [formatTimestamp(timestamp)], that is [new Date(timestamp *
    1000).toISOString()], for what it does to the run: [toISOString]
    throws a [RangeError] on a date that holds [NaN].  The text it returns
    only goes into console lines and saved objects and is not modelled. *)
Definition formatTimestamp {W} (timestamp : Z) : Eff W unit :=
  if validDate timestamp then ret tt
  else throw (Error "Invalid time value").

(** [saveToJson(data, filename)].  Whether [createOutputDir] and
    [fs.writeFileSync] go through is up to the file system, which [fs]
    stands for: [fs filename] is the error they throw for this name, if
    any.  The file counts as saved, in the trace, when they did not
    throw. *)
Definition saveToJson {W} (fs : string -> option JsError) (filename : string)
  : Eff W unit :=
  match fs filename with
  | Some error => throw error
  | None => emit (SaveJson filename)
  end.

End Utils.

(* ===================================================================== *)
(** * block-finder.ts                                                     *)
(* ===================================================================== *)

Module BlockFinder.
Import Utils.

(** [const maxIterations = 50; // Safety limit] *)
Definition maxIterations : Z := 50.

(** The mutable locals of [findBlockByTimestamp]. *)
Record Locals : Type := {
  low : Z;
  high : Z;
  result : option BlockInfo;
  iterations : Z
}.

(** How one round of the [while] loop leaves: by falling through to the
    next test of the loop condition, or by [break]. *)
Inductive Round : Type :=
| Next (st : Locals)
| Break (st : Locals).

Definition newline : string := String (ascii_of_nat 10) EmptyString.

Section Finder.
Context {W : Type} (provider : Provider W).
Variable targetTimestamp : Z.
Variable verbose : bool.

Definition say (line : string) : Eff W unit :=
  when verbose (emit (ConsoleLog line)).

(** The body of the [while] loop. *)
Definition search_round (st : Locals) : Eff W Round :=
  let mid := (low st + high st) / 2 in
  say ("Iteration: " ++ toString (iterations st + 1))%string ;;
  say ("Range: " ++ toString (low st) ++ " - " ++ toString (high st))%string ;;
  say ("Middle block: " ++ toString mid)%string ;;
  try_catch
    (block <- retryOperation (getBlock provider (Height mid) false)
                             defaultMaxRetries defaultDelay ;;
     match block with
     | None => throw (Error ("Block " ++ toString mid ++ " not found")%string)
     | Some block =>
         say ("Timestamp: " ++ toString (Js.timestamp block))%string ;;
         st' <- (if Js.timestamp block <? targetTimestamp then
                   say "Timestamp lower, searching in upper range" ;;
                   ret {| low := mid + 1;
                          high := high st;
                          result := result st;
                          iterations := iterations st |}
                 else
                   say "Timestamp greater or equal, searching in lower range" ;;
                   ret {| low := low st;
                          high := mid - 1;
                          result := Some {| number := Js.number block;
                                            timestamp := Js.timestamp block;
                                            hash := Js.hash block |};
                          iterations := iterations st |}) ;;
         say "---" ;;
         ret (Next {| low := low st';
                      high := high st';
                      result := result st';
                      iterations := iterations st' + 1 |})
     end)
    (fun error =>
       emit (ConsoleError ("Error fetching block " ++ toString mid ++ ":")%string
                          (Some error)) ;;
       ret (Break st)).

(** [while (low <= high && iterations < maxIterations) { ... }],
    unrolled [fuel] times. *)
Fixpoint search_loop (fuel : nat) (st : Locals) : Eff W Locals :=
  if (low st <=? high st) && (iterations st <? maxIterations) then
    match fuel with
    | O => out_of_fuel
    | S fuel' =>
        r <- search_round st ;;
        match r with
        | Next st' => search_loop fuel' st'
        | Break st' => ret st'
        end
    end
  else ret st.
End Finder.

(** [findBlockByTimestamp(provider, targetTimestamp, low, high, verbose)]. *)
Definition findBlockByTimestamp {W} (fuel : nat) (provider : Provider W)
    (targetTimestamp low high : Z) (verbose : bool)
  : Eff W (option BlockInfo) :=
  say verbose (newline ++ "=== Binary Search ===")%string ;;
  st <- search_loop provider targetTimestamp verbose fuel
          {| low := low; high := high; result := None; iterations := 0 |} ;;
  say verbose ("Search completed in " ++ toString (iterations st)
               ++ " iterations")%string ;;
  ret (result st).

(** The options of the [find] command after commander parsed them:
    [timestamp] is [parseInt(options.timestamp)], [None] being [NaN]. *)
Record FindOptions : Type := {
  opt_timestamp : option Z;
  opt_address : option string;
  opt_output : string;
  opt_verbose : bool
}.

Section Find.
Context {W : Type} (provider : Provider W).

(** [ethers.getAddress], which throws on a string that is no address
    ([None] here); [isValidAddress] of config.ts wraps it. *)
Variable getAddress : string -> option string.

(** The file system under [saveToJson]. *)
Variable fs : string -> option JsError.

Definition isValidAddress (address : string) : bool :=
  match getAddress address with
  | Some _ => true
  | None => false
  end.

(** The action of the [find] command.  [formatTimestamp] is called for
    the "Target date" line, for the "Block date" line and twice more in
    the object that is saved. *)
Definition find (fuel : nat) (options : FindOptions) : Eff W unit :=
  try_catch
    (let targetTimestamp := opt_timestamp options in
     if negb (isValidTimestamp targetTimestamp) then
       emit (ConsoleError "Invalid timestamp. Must be a valid Unix timestamp." None) ;;
       process_exit 1
     else
       match targetTimestamp with
       | None => ret tt (* not reached: [NaN] is no valid timestamp *)
       | Some targetTimestamp =>
           formatTimestamp targetTimestamp ;;
           currentBlock <- retryOperation (getBlock provider Latest false)
                             defaultMaxRetries defaultDelay ;;
           match currentBlock with
           | None => throw (Error "Failed to get current block")
           | Some currentBlock =>
               result <- findBlockByTimestamp fuel provider targetTimestamp
                           0 (Js.number currentBlock) (opt_verbose options) ;;
               match result with
               | Some result =>
                   formatTimestamp (timestamp result) ;;
                   if truthy (opt_address options) then
                     let address := match opt_address options with
                                    | Some a => a
                                    | None => EmptyString
                                    end in
                     (if negb (isValidAddress address) then
                        emit (ConsoleError "Invalid Ethereum address" None) ;;
                        process_exit 1
                      else ret tt) ;;
                     retryOperation
                       (getBalance provider address (Some (number result)))
                       defaultMaxRetries defaultDelay ;;
                     formatTimestamp targetTimestamp ;;
                     formatTimestamp (timestamp result) ;;
                     saveToJson fs (opt_output options)
                   else
                     formatTimestamp targetTimestamp ;;
                     formatTimestamp (timestamp result) ;;
                     saveToJson fs (opt_output options)
               | None => ret tt
               end
           end
       end)
    (fun error =>
       emit (ConsoleError "Error:" (Some error)) ;;
       process_exit 1).
End Find.

End BlockFinder.

(* ===================================================================== *)
(** * eth-transfers.ts                                                    *)
(* ===================================================================== *)

Module EthTransfers.
Import Utils.

(** [EthTransfer] of utils.ts. *)
Record EthTransfer : Type := {
  from : string;
  to : string;
  value : string;
  blockNumber : Z;
  transactionHash : string;
  gasUsed : Z;
  gasPrice : Z
}.

(** The two options [processBlock] reads: [options.from], [options.to]. *)
Record FetchOptions : Type := {
  opt_from : option string;
  opt_to : option string
}.

(** [options.x && tx.x.toLowerCase() !== options.x.toLowerCase()]: a
    filter that is set and that the address does not match. *)
Definition filtered_out (filter : option string) (addr : string) : bool :=
  match filter with
  | Some (String _ _ as wanted) =>
      negb (String.eqb (toLowerCase addr) (toLowerCase wanted))
  | _ => false
  end.

(** The [for (const tx of block.transactions)] loop of [processBlock];
    [transfers] is the array built so far.  An element that is a hash
    string is passed over by the first test of the loop, [!tx.to]. *)
Fixpoint scan_transactions (options : FetchOptions) (minValueWei : Z)
    (blockNumber : Z) (txs : list TransactionEntry)
    (transfers : list EthTransfer) : list EthTransfer :=
  match txs with
  | [] => transfers
  | TxHash _ :: rest =>
      (* [tx.to] is [undefined] on a string *)
      scan_transactions options minValueWei blockNumber rest transfers
  | TxObject tx :: rest =>
      let continue := scan_transactions options minValueWei blockNumber rest in
      match tx_to tx with
      | Some (String _ _ as receiver) =>
          if tx_value tx =? 0 then continue transfers
          else if tx_value tx <? minValueWei then continue transfers
          else if filtered_out (opt_from options) (tx_from tx) then continue transfers
          else if filtered_out (opt_to options) receiver then continue transfers
          else
            let transfer :=
              {| from := tx_from tx;
                 to := receiver;
                 value := toString (tx_value tx);
                 blockNumber := blockNumber;
                 transactionHash := tx_hash tx;
                 gasUsed := tx_gasLimit tx;
                 gasPrice := match tx_gasPrice tx with
                             | Some p => p
                             | None => 0
                             end |} in
            continue (transfers ++ [transfer])
      | _ => continue transfers
      end
  end.

(** [processBlock(provider, blockNumber, options, minValueWei)]. *)
Definition processBlock {W} (provider : Provider W) (blockNumber : Z)
    (options : FetchOptions) (minValueWei : Z) : Eff W (list EthTransfer) :=
  try_catch
    (block <- retryOperation (getBlock provider (Height blockNumber) true)
                             defaultMaxRetries defaultDelay ;;
     match block with
     | Some block =>
         match transactions block with
         | Some txs =>
             ret (scan_transactions options minValueWei blockNumber txs [])
         | None => ret []
         end
     | None => ret []
     end)
    (fun error =>
       emit (ConsoleError ("Error processing block " ++ toString blockNumber
                           ++ ":")%string (Some error)) ;;
       ret []).

(** The statistics object kept per address by [fetch]. *)
Record AddressVolume : Type := {
  sent : Z;
  received : Z;
  count : Z
}.

(** [if (!m.has(a)) m.set(a, { sent: 0n, received: 0n, count: 0 });
     const stats = m.get(a)!;] followed by the update [f] of [stats]. *)
Definition update_stats (m : JsMap.t AddressVolume) (a : string)
    (f : AddressVolume -> AddressVolume) : JsMap.t AddressVolume :=
  let m := if JsMap.has m a then m
           else JsMap.set m a {| sent := 0; received := 0; count := 0 |} in
  match JsMap.get m a with
  | Some stats => JsMap.set m a (f stats)
  | None => m
  end.

(** The loop that fills [addressVolumes]; [None] when a [BigInt(...)]
    throws. *)
Fixpoint addressVolumes_from (ethTransfers : list EthTransfer)
    (addressVolumes : JsMap.t AddressVolume)
  : option (JsMap.t AddressVolume) :=
  match ethTransfers with
  | [] => Some addressVolumes
  | transfer :: rest =>
      match BigInt (value transfer) with
      | None => None
      | Some v =>
          let m := update_stats addressVolumes (from transfer)
                     (fun s => {| sent := sent s + v;
                                  received := received s;
                                  count := count s + 1 |}) in
          let m := update_stats m (to transfer)
                     (fun s => {| sent := sent s;
                                  received := received s + v;
                                  count := count s + 1 |}) in
          addressVolumes_from rest m
      end
  end.

Definition addressVolumes (ethTransfers : list EthTransfer)
  : option (JsMap.t AddressVolume) :=
  addressVolumes_from ethTransfers JsMap.empty.

(** [(a, b) => (b[1].sent + b[1].received > a[1].sent + a[1].received ? 1 : -1)] *)
Definition compareAddresses (a b : string * AddressVolume) : Z :=
  if sent (snd b) + received (snd b) >? sent (snd a) + received (snd a)
  then 1 else -1.

(** [Array.from(addressVolumes.entries()).sort(...).slice(0, 10)]. *)
Definition topAddresses (addressVolumes : JsMap.t AddressVolume)
  : option (list (string * AddressVolume)) :=
  option_map (slice0 (Some 10))
             (V8.sort compareAddresses (JsMap.entries addressVolumes)).

End EthTransfers.

(* ===================================================================== *)
(** * transfer-events.ts                                                  *)
(* ===================================================================== *)

Module TransferEvents.
Import Utils.

(** [TransferEvent] of utils.ts.  Both commands that build events set
    [tokenSymbol] and [tokenDecimals]. *)
Record TransferEvent : Type := {
  contractAddress : string;
  from : string;
  to : string;
  value : string;
  blockNumber : Z;
  transactionHash : string;
  logIndex : Z;
  tokenSymbol : string;
  tokenDecimals : Z
}.

(** [!log.topics || log.topics.length < 3] *)
Definition too_few_topics (log : Log) : bool :=
  match log_topics log with
  | Some topics => (List.length topics <? 3)%nat
  | None => true
  end.

(** [!log.data || log.data === '0x'] *)
Definition empty_data (log : Log) : bool :=
  match log_data log with
  | EmptyString => true
  | data => String.eqb data "0x"
  end.

(** [log.topics[k]] once the array is known to hold it. *)
Definition topic (log : Log) (k : nat) : string :=
  match log_topics log with
  | Some topics => nth k topics EmptyString
  | None => EmptyString
  end.

Section Fetch.
Context {W : Type} (provider : Provider W).

(** [ethers.getAddress]: the checksummed address, or [None] where it
    throws. *)
Variable getAddress : string -> option string.

Definition getAddress_or_throw (s : string) : Eff W string :=
  match getAddress s with
  | Some a => ret a
  | None => throw (Error "invalid address")
  end.

Definition BigInt_or_throw (s : string) : Eff W Z :=
  match BigInt s with
  | Some v => ret v
  | None => throw (Error "Cannot convert to a BigInt")
  end.

(** One round of [for (const log of logs)] in the [fetch] action;
    [transferEvents] is the array built so far. *)
Definition decode_log (log : Log) (transferEvents : list TransferEvent)
  : Eff W (list TransferEvent) :=
  try_catch
    (if too_few_topics log then
       emit (ConsoleWarn ("Invalid log format for tx "
                          ++ log_transactionHash log)%string) ;;
       ret transferEvents
     else
       from <- getAddress_or_throw ("0x" ++ slice 26 (topic log 1))%string ;;
       to <- getAddress_or_throw ("0x" ++ slice 26 (topic log 2))%string ;;
       if empty_data log then
         emit (ConsoleWarn ("Empty data for tx "
                            ++ log_transactionHash log)%string) ;;
         ret transferEvents
       else
         value <- BigInt_or_throw (log_data log) ;;
         symbol <- try_catch (symbol provider (log_address log))
                             (fun _ => ret "UNKNOWN"%string) ;;
         decimals <- try_catch (decimals provider (log_address log))
                               (fun _ => ret 18) ;;
         ret (transferEvents ++
              [ {| contractAddress := log_address log;
                   from := from;
                   to := to;
                   value := toString value;
                   blockNumber := log_blockNumber log;
                   transactionHash := log_transactionHash log;
                   logIndex := log_index log;
                   tokenSymbol := symbol;
                   tokenDecimals := decimals |} ]))
    (fun error =>
       emit (ConsoleError ("Error processing log "
                           ++ log_transactionHash log ++ ":")%string
                          (Some error)) ;;
       ret transferEvents).

(** The whole loop. *)
Fixpoint decode_logs (logs : list Log) (transferEvents : list TransferEvent)
  : Eff W (list TransferEvent) :=
  match logs with
  | [] => ret transferEvents
  | log :: rest =>
      transferEvents' <- decode_log log transferEvents ;;
      decode_logs rest transferEvents'
  end.
End Fetch.

(** [`${event.tokenSymbol} (${event.contractAddress})`] *)
Definition tokenKey (event : TransferEvent) : string :=
  (tokenSymbol event ++ " (" ++ contractAddress event ++ ")")%string.

(** The loop of [fetch] that fills [tokenVolumes]; [None] when a
    [BigInt(...)] throws. *)
Fixpoint tokenVolumes_from (transferEvents : list TransferEvent)
    (tokenVolumes : JsMap.t Z) : option (JsMap.t Z) :=
  match transferEvents with
  | [] => Some tokenVolumes
  | event :: rest =>
      let key := tokenKey event in
      let current := match JsMap.get tokenVolumes key with
                     | Some v => v
                     | None => 0
                     end in
      match BigInt (value event) with
      | Some v => tokenVolumes_from rest (JsMap.set tokenVolumes key (current + v))
      | None => None
      end
  end.

Definition tokenVolumes (transferEvents : list TransferEvent)
  : option (JsMap.t Z) :=
  tokenVolumes_from transferEvents JsMap.empty.

(** [(a, b) => (b[1] > a[1] ? 1 : -1)] *)
Definition compareVolumes (a b : string * Z) : Z :=
  if snd b >? snd a then 1 else -1.

(** [Array.from(tokenVolumes.entries()).sort(...).slice(0, 5)]. *)
Definition topTokens (tokenVolumes : JsMap.t Z) : option (list (string * Z)) :=
  option_map (slice0 (Some 5))
             (V8.sort compareVolumes (JsMap.entries tokenVolumes)).

(** A row of the CSV file read by [analyze]: a column that the row lacks
    is [undefined]. *)
Record Row : Type := {
  row_tokenSymbol : option string;
  row_value : option string;
  row_contractAddress : option string;
  row_from : option string;
  row_to : option string
}.

(** [x || fallback] on a possibly missing string. *)
Definition or_else (x : option string) (fallback : string) : string :=
  match x with
  | Some (String _ _ as s) => s
  | _ => fallback
  end.

(** The statistics object kept per token by [analyze]; [contracts] is a
    [Set], in insertion order. *)
Record TokenStats : Type := {
  count : Z;
  volume : Z;
  contracts : list (option string)
}.

Definition option_string_eqb (a b : option string) : bool :=
  match a, b with
  | Some x, Some y => String.eqb x y
  | None, None => true
  | _, _ => false
  end.

(** [set.add(x)] *)
Definition set_add (x : option string) (s : list (option string))
  : list (option string) :=
  if existsb (option_string_eqb x) s then s else s ++ [x].

(** The loop of [analyze] that fills [tokenStats]; [None] when a
    [BigInt(...)] throws. *)
Fixpoint tokenStats_from (data : list Row) (tokenStats : JsMap.t TokenStats)
  : option (JsMap.t TokenStats) :=
  match data with
  | [] => Some tokenStats
  | row :: rest =>
      let token := or_else (row_tokenSymbol row) "UNKNOWN" in
      match BigInt (or_else (row_value row) "0") with
      | None => None
      | Some value =>
          let contract := row_contractAddress row in
          let m := if JsMap.has tokenStats token then tokenStats
                   else JsMap.set tokenStats token
                          {| count := 0; volume := 0; contracts := [] |} in
          match JsMap.get m token with
          | Some stats =>
              tokenStats_from rest
                (JsMap.set m token
                   {| count := count stats + 1;
                      volume := volume stats + value;
                      contracts := set_add contract (contracts stats) |})
          | None => tokenStats_from rest m
          end
      end
  end.

Definition tokenStats (data : list Row) : option (JsMap.t TokenStats) :=
  tokenStats_from data JsMap.empty.

(** [(a, b) => (b[1].volume > a[1].volume ? 1 : -1)] *)
Definition compareTokens (a b : string * TokenStats) : Z :=
  if volume (snd b) >? volume (snd a) then 1 else -1.

(** [Array.from(tokenStats.entries()).sort(...).slice(0, topN)], [topN]
    being [parseInt(options.topN)]. *)
Definition sortedTokens (topN : option Z) (tokenStats : JsMap.t TokenStats)
  : option (list (string * TokenStats)) :=
  option_map (slice0 topN)
             (V8.sort compareTokens (JsMap.entries tokenStats)).

(** The default of [--top-n]. *)
Definition defaultTopN : option Z := Some 10.

End TransferEvents.

(* ===================================================================== *)
(** * Vocabulary of the statements                                        *)
(* ===================================================================== *)

Module Run.

(** The three parts of a finished run. *)
Definition outcome {W A} (r : Outcome A * W * list Event) : Outcome A :=
  fst (fst r).
Definition world {W A} (r : Outcome A * W * list Event) : W :=
  snd (fst r).
Definition trace {W A} (r : Outcome A * W * list Event) : list Event :=
  snd r.

(** An operation under observation: the world carries a counter that
    every invocation of [operation] advances.  The code that receives
    [counted operation] is the code under study, unchanged. *)
Definition counted {W A} (operation : Eff W A) : Eff (W * nat) A :=
  fun '(w, n) =>
    let '(r, w', t) := operation w in (r, (w', S n), t).

(** The outcome of the invocation number [k] (from 0) when [operation] is
    invoked again and again, starting in world [w]. *)
Fixpoint nth_attempt {W A} (operation : Eff W A) (w : W) (k : nat)
  : Outcome A :=
  match k with
  | O => outcome (operation w)
  | S k' => nth_attempt operation (world (operation w)) k'
  end.

(** A computation that ends by returning or by throwing. *)
Definition settles {W A} (m : Eff W A) : Prop :=
  forall w, (exists a, outcome (m w) = Returned a) \/
            (exists e, outcome (m w) = Thrown e).

(** The round trips of a trace, in order. *)
Fixpoint round_trips (tr : list Event) : list RpcCall :=
  match tr with
  | [] => []
  | Rpc c :: rest => c :: round_trips rest
  | _ :: rest => round_trips rest
  end.

(** A probe of the binary search: [retryOperation] around
    [getBlock(mid)], seen from outside as [attempts] round trips that all
    ask for the block at height [mid]. *)
Record Probe : Type := {
  mid : Z;
  attempts : nat
}.

Definition probe_calls (p : Probe) : list RpcCall :=
  repeat (GetBlock (Height (mid p)) false) (attempts p).

(** The provider answers a request for a block by number with a block
    of that number. *)
Definition answers_what_is_asked {W} (provider : Provider W) : Prop :=
  forall n prefetch w b w',
    eth_getBlock provider (Height n) prefetch w = (Fulfilled (Some b), w') ->
    Js.number b = n.

(** Within [lo, hi] the endpoint delivers, in every world and within the
    retries of [retryOperation], the block of each height, and the chain
    it shows has the timestamps [ts]. *)
Definition serves {W} (provider : Provider W) (ts : Z -> Z) (lo hi : Z) : Prop :=
  forall n w,
    lo <= n <= hi ->
    exists b,
      outcome (Utils.retryOperation (getBlock provider (Height n) false)
                 Utils.defaultMaxRetries Utils.defaultDelay w)
      = Returned (Some b)
      /\ Js.number b = n /\ Js.timestamp b = ts n.

(** One probe of the search at height [m], started in world [w]. *)
Definition probe {W} (provider : Provider W) (m : Z)
  : Eff W (option Block) :=
  Utils.retryOperation (getBlock provider (Height m) false)
    Utils.defaultMaxRetries Utils.defaultDelay.

(** The locals of [findBlockByTimestamp] after a round whose probe
    delivered [block]. *)
Definition advance (targetTimestamp : Z) (st : BlockFinder.Locals)
    (block : Block) : BlockFinder.Locals :=
  let m := (BlockFinder.low st + BlockFinder.high st) / 2 in
  if Js.timestamp block <? targetTimestamp then
    {| BlockFinder.low := m + 1;
       BlockFinder.high := BlockFinder.high st;
       BlockFinder.result := BlockFinder.result st;
       BlockFinder.iterations := BlockFinder.iterations st + 1 |}
  else
    {| BlockFinder.low := BlockFinder.low st;
       BlockFinder.high := m - 1;
       BlockFinder.result :=
         Some {| Utils.number := Js.number block;
                 Utils.timestamp := Js.timestamp block;
                 Utils.hash := Js.hash block |};
       BlockFinder.iterations := BlockFinder.iterations st + 1 |}.

(** The block in [result], if any, lies in [lo, hi]. *)
Definition result_within (lo hi : Z) (st : BlockFinder.Locals) : Prop :=
  match BlockFinder.result st with
  | Some b => lo <= Utils.number b <= hi
  | None => True
  end.

(** What [result] holds while the search runs over a chain with the
    timestamps [ts]: nothing as long as [high] has not moved, else the
    block just above [high], which reaches the target. *)
Definition candidate (targetTimestamp : Z) (ts : Z -> Z) (hi : Z)
    (st : BlockFinder.Locals) : Prop :=
  match BlockFinder.result st with
  | Some b => Utils.number b = BlockFinder.high st + 1 /\
              BlockFinder.high st < hi /\
              Utils.timestamp b = ts (Utils.number b) /\
              targetTimestamp <= ts (Utils.number b)
  | None => BlockFinder.high st = hi
  end.

(** The answer the search is after: the first block of [lo, hi] whose
    timestamp reaches the target, or nothing when there is none. *)
Definition leftmost (targetTimestamp : Z) (ts : Z -> Z) (lo hi : Z)
    (r : option Utils.BlockInfo) : Prop :=
  match r with
  | Some b => lo <= Utils.number b <= hi /\
              Utils.timestamp b = ts (Utils.number b) /\
              targetTimestamp <= ts (Utils.number b) /\
              forall n, lo <= n < Utils.number b -> ts n < targetTimestamp
  | None => forall n, lo <= n <= hi -> ts n < targetTimestamp
  end.

(** An address passes a filter that is unset (or empty), and one that
    spells it up to the case of the letters. *)
Definition passes (filter : option string) (addr : string) : Prop :=
  forall wanted,
    filter = Some wanted -> wanted <> EmptyString ->
    toLowerCase addr = toLowerCase wanted.

(** [transfer] is the record [processBlock] builds from the transaction
    [tx] of block [blockNumber], and [tx] went through every test of the
    loop: it has a receiver, a value that is not zero and not below
    [minValueWei], and addresses that pass the filters. *)
Definition kept (options : EthTransfers.FetchOptions) (minValueWei : Z)
    (blockNumber : Z) (tx : TransactionResponse)
    (transfer : EthTransfers.EthTransfer) : Prop :=
  tx_to tx = Some (EthTransfers.to transfer) /\
  EthTransfers.to transfer <> EmptyString /\
  EthTransfers.from transfer = tx_from tx /\
  EthTransfers.value transfer = toString (tx_value tx) /\
  EthTransfers.blockNumber transfer = blockNumber /\
  EthTransfers.transactionHash transfer = tx_hash tx /\
  tx_value tx <> 0 /\
  minValueWei <= tx_value tx /\
  passes (EthTransfers.opt_from options) (EthTransfers.from transfer) /\
  passes (EthTransfers.opt_to options) (EthTransfers.to transfer).

(** The console line with which the [fetch] loop passes over a log that
    has too few topics or no data.  A log with three topics and no data
    gets the "Empty data" warning when both of its address topics decode;
    when [getAddress] throws on one of them, the [catch] of the round
    reports that error instead. *)
Definition skip_line (getAddress : string -> option string) (log : Log)
  : Event :=
  if TransferEvents.too_few_topics log then
    ConsoleWarn ("Invalid log format for tx " ++ log_transactionHash log)%string
  else
    match getAddress ("0x" ++ slice 26 (TransferEvents.topic log 1))%string,
          getAddress ("0x" ++ slice 26 (TransferEvents.topic log 2))%string with
    | Some _, Some _ =>
        ConsoleWarn ("Empty data for tx " ++ log_transactionHash log)%string
    | _, _ =>
        ConsoleError ("Error processing log " ++ log_transactionHash log ++ ":")%string
                     (Some (Error "invalid address"))
    end.

(** [x || 0n] on the result of [Map.get], and [BigInt(s)] where it does
    not throw. *)
Definition or_zero (x : option Z) : Z :=
  match x with
  | Some v => v
  | None => 0
  end.

(** The sum of the values of the events that carry the token key
    [key]. *)
Fixpoint volume_under (key : string) (events : list TransferEvents.TransferEvent)
  : Z :=
  match events with
  | [] => 0
  | e :: rest =>
      (if String.eqb (TransferEvents.tokenKey e) key
       then or_zero (BigInt (TransferEvents.value e)) else 0)
      + volume_under key rest
  end.

(** The key under which [analyze] files a row. *)
Definition token_of (row : TransferEvents.Row) : string :=
  TransferEvents.or_else (TransferEvents.row_tokenSymbol row) "UNKNOWN".

(** The rows filed under [token]. *)
Definition rows_under (token : string) (data : list TransferEvents.Row)
  : list TransferEvents.Row :=
  filter (fun row => String.eqb (token_of row) token) data.

(** The statistics found under [token], or the fresh ones. *)
Definition stats_at (m : JsMap.t TransferEvents.TokenStats) (token : string)
  : TransferEvents.TokenStats :=
  match JsMap.get m token with
  | Some stats => stats
  | None => {| TransferEvents.count := 0;
               TransferEvents.volume := 0;
               TransferEvents.contracts := [] |}
  end.

(** Every value of the list can be read as a bigint. *)
Definition values_parse {X : Type} (value : X -> string) (xs : list X) : Prop :=
  forall x, In x xs -> exists v, BigInt (value x) = Some v.

(** The comparator of the three rankings, [vol] being what an entry is
    ranked by: [(a, b) => (vol(b) > vol(a) ? 1 : -1)]. *)
Definition by_volume {X : Type} (vol : X -> Z) (a b : X) : Z :=
  if vol b >? vol a then 1 else -1.

(** [a] may stand before [b] in a ranking by descending volume. *)
Definition descending {X : Type} (vol : X -> Z) (a b : X) : Prop :=
  vol b <= vol a.

(** One step of a run as [CountAndMakeRun] follows it: in a run it
    takes for descending, the next entry's volume is not smaller; in the
    other runs it is smaller. *)
Definition run_step {X : Type} (vol : X -> Z) (isDescending : bool)
    (previous current : X) : Prop :=
  if isDescending then vol previous <= vol current
  else vol current < vol previous.

(** A timestamp the [find] command accepts. *)
Definition plausible (timestamp : option Z) : Prop :=
  exists t, timestamp = Some t /\ 1420000000 < t < 9999999999.

(** Timestamps do not decrease with the block number. *)
Definition monotone (ts : Z -> Z) (lo hi : Z) : Prop :=
  forall i j, lo <= i -> i <= j -> j <= hi -> ts i <= ts j.

End Run.

Import Run.

(** Sample worlds used to instantiate the theorems. *)
Module Sample.

(** An operation whose first two invocations time out and whose later
    ones answer 42; the world counts the invocations made. *)
Definition flaky : Eff nat Z :=
  fun calls =>
    if (calls <? 2)%nat then (Thrown (Error "timeout"), S calls, [])
    else (Returned 42, S calls, []).

(** A node whose chain has the timestamps [ts] and that answers every
    request. *)
Definition node (ts : Z -> Z) : Provider unit :=
  {| eth_getBlock := fun tag _ w =>
       match tag with
       | Height n =>
           (Fulfilled (Some {| Js.number := n;
                               Js.timestamp := ts n;
                               Js.hash := Some (toString n);
                               Js.transactions := Some [] |}), w)
       | Latest => (Fulfilled None, w)
       end;
     eth_getBalance := fun _ _ w => (Fulfilled 0, w);
     eth_getLogs := fun _ w => (Fulfilled [], w);
     erc20_symbol := fun _ w => (Rejected (Error "no symbol"), w);
     erc20_decimals := fun _ w => (Rejected (Error "no decimals"), w) |}.

(** The same chain behind a bad line: the world counts the round trips
    made so far, and every second one is lost. *)
Definition lossy_node (ts : Z -> Z) : Provider nat :=
  {| eth_getBlock := fun tag _ calls =>
       if Nat.odd calls then (Rejected (Error "timeout"), S calls)
       else
         match tag with
         | Height n =>
             (Fulfilled (Some {| Js.number := n;
                                 Js.timestamp := ts n;
                                 Js.hash := Some (toString n);
                                 Js.transactions := Some [] |}), S calls)
         | Latest => (Fulfilled None, S calls)
         end;
     eth_getBalance := fun _ _ calls => (Fulfilled 0, S calls);
     eth_getLogs := fun _ calls => (Fulfilled [], S calls);
     erc20_symbol := fun _ calls => (Rejected (Error "no symbol"), S calls);
     erc20_decimals := fun _ calls => (Rejected (Error "no decimals"), S calls) |}.

(** Twelve seconds per block from 1 600 000 000 on. *)
Definition steady (n : Z) : Z := 1600000000 + 12 * n.

(** A node that has lost one block: it answers [null] for the height
    [missing] and delivers every other block of the chain. *)
Definition gapped_node (ts : Z -> Z) (missing : Z) : Provider unit :=
  {| eth_getBlock := fun tag _ w =>
       match tag with
       | Height n =>
           if n =? missing then (Fulfilled None, w)
           else (Fulfilled (Some {| Js.number := n;
                                    Js.timestamp := ts n;
                                    Js.hash := Some (toString n);
                                    Js.transactions := Some [] |}), w)
       | Latest => (Fulfilled None, w)
       end;
     eth_getBalance := fun _ _ w => (Fulfilled 0, w);
     eth_getLogs := fun _ w => (Fulfilled [], w);
     erc20_symbol := fun _ w => (Rejected (Error "no symbol"), w);
     erc20_decimals := fun _ w => (Rejected (Error "no decimals"), w) |}.

(** A node that answers every request for a block with one and the same
    block, the one numbered [head], whatever height was asked for. *)
Definition stuck_node (ts : Z -> Z) (head : Z) : Provider unit :=
  {| eth_getBlock := fun _ _ w =>
       (Fulfilled (Some {| Js.number := head;
                           Js.timestamp := ts head;
                           Js.hash := Some (toString head);
                           Js.transactions := Some [] |}), w);
     eth_getBalance := fun _ _ w => (Fulfilled 0, w);
     eth_getLogs := fun _ w => (Fulfilled [], w);
     erc20_symbol := fun _ w => (Rejected (Error "no symbol"), w);
     erc20_decimals := fun _ w => (Rejected (Error "no decimals"), w) |}.

(** A chain of 2^50 blocks whose last block alone reaches 1 600 000 000. *)
Definition late (n : Z) : Z :=
  if n <? 2 ^ 50 - 1 then 1500000000 else 1600000000.

(** A node whose block 7 holds four transactions: a contract creation,
    a call that moves no value, a transfer of 5 wei and one of 2 ether.
    This node lists the transactions as objects. *)
Definition block7 : Block :=
  {| Js.number := 7;
     Js.timestamp := 1600000084;
     Js.hash := Some "0x07";
     Js.transactions :=
       Some [ TxObject
                {| tx_hash := "0xa1"; tx_from := "0xAA"; tx_to := None;
                   tx_value := 9; tx_gasLimit := 21000; tx_gasPrice := Some 1 |};
              TxObject
                {| tx_hash := "0xa2"; tx_from := "0xAA"; tx_to := Some "0xBB";
                   tx_value := 0; tx_gasLimit := 50000; tx_gasPrice := Some 1 |};
              TxObject
                {| tx_hash := "0xa3"; tx_from := "0xAA"; tx_to := Some "0xBB";
                   tx_value := 5; tx_gasLimit := 21000; tx_gasPrice := Some 1 |};
              TxObject
                {| tx_hash := "0xa4"; tx_from := "0xAA"; tx_to := Some "0xCC";
                   tx_value := 2000000000000000000; tx_gasLimit := 21000;
                   tx_gasPrice := None |} ] |}.

Definition node7 : Provider unit :=
  {| eth_getBlock := fun _ _ w => (Fulfilled (Some block7), w);
     eth_getBalance := fun _ _ w => (Fulfilled 0, w);
     eth_getLogs := fun _ w => (Fulfilled [], w);
     erc20_symbol := fun _ w => (Rejected (Error "no symbol"), w);
     erc20_decimals := fun _ w => (Rejected (Error "no decimals"), w) |}.

Definition transferSignature : string :=
  "0xddf252ad1be2c89b69c2b068fc378daa952ba7f163c4a11628f55a4df523b3ef".

(** A log that lacks its third topic. *)
Definition short_log : Log :=
  {| log_address := "0xdac17f958d2ee523a2206206994597c13d831ec7";
     log_topics :=
       Some [transferSignature;
             "0x000000000000000000000000d8da6bf26964af9d7eed9e03e53415d37aa96045"];
     log_data := "0x0de0b6b3a7640000";
     log_blockNumber := 100;
     log_transactionHash := "0xfeed";
     log_index := 0 |}.

(** A well-formed log: one ether in base units from one address to
    another. *)
Definition good_log : Log :=
  {| log_address := "0xdac17f958d2ee523a2206206994597c13d831ec7";
     log_topics :=
       Some [transferSignature;
             "0x000000000000000000000000d8da6bf26964af9d7eed9e03e53415d37aa96045";
             "0x0000000000000000000000003f5ce5fbfe3e9af3971dd833d26ba9b5c936f0be"];
     log_data := "0x0de0b6b3a7640000";
     log_blockNumber := 100;
     log_transactionHash := "0xbeef";
     log_index := 1 |}.

(** A stand-in for [ethers.getAddress] that accepts every string and
    leaves the case of its letters alone. *)
Definition lenient_getAddress (s : string) : option string := Some s.

(** Two rows of a CSV file for one symbol at two contracts. *)
Definition row_usdt_1 : TransferEvents.Row :=
  {| TransferEvents.row_tokenSymbol := Some "USDT";
     TransferEvents.row_value := Some "5";
     TransferEvents.row_contractAddress := Some "0x01";
     TransferEvents.row_from := Some "0xAA";
     TransferEvents.row_to := Some "0xBB" |}.

Definition row_usdt_2 : TransferEvents.Row :=
  {| TransferEvents.row_tokenSymbol := Some "USDT";
     TransferEvents.row_value := Some "7";
     TransferEvents.row_contractAddress := Some "0x02";
     TransferEvents.row_from := Some "0xAA";
     TransferEvents.row_to := Some "0xCC" |}.

(** The same two transfers as events of [fetch]. *)
Definition event_usdt_1 : TransferEvents.TransferEvent :=
  {| TransferEvents.contractAddress := "0x01";
     TransferEvents.from := "0xAA";
     TransferEvents.to := "0xBB";
     TransferEvents.value := "5";
     TransferEvents.blockNumber := 100;
     TransferEvents.transactionHash := "0xf1";
     TransferEvents.logIndex := 0;
     TransferEvents.tokenSymbol := "USDT";
     TransferEvents.tokenDecimals := 6 |}.

Definition event_usdt_2 : TransferEvents.TransferEvent :=
  {| TransferEvents.contractAddress := "0x02";
     TransferEvents.from := "0xAA";
     TransferEvents.to := "0xCC";
     TransferEvents.value := "7";
     TransferEvents.blockNumber := 100;
     TransferEvents.transactionHash := "0xf2";
     TransferEvents.logIndex := 1;
     TransferEvents.tokenSymbol := "USDT";
     TransferEvents.tokenDecimals := 6 |}.

(** A transfer of another token with the volume of [event_usdt_1]. *)
Definition event_dai : TransferEvents.TransferEvent :=
  {| TransferEvents.contractAddress := "0x03";
     TransferEvents.from := "0xAA";
     TransferEvents.to := "0xDD";
     TransferEvents.value := "5";
     TransferEvents.blockNumber := 101;
     TransferEvents.transactionHash := "0xf3";
     TransferEvents.logIndex := 0;
     TransferEvents.tokenSymbol := "DAI";
     TransferEvents.tokenDecimals := 18 |}.

Definition row_dai : TransferEvents.Row :=
  {| TransferEvents.row_tokenSymbol := Some "DAI";
     TransferEvents.row_value := Some "12";
     TransferEvents.row_contractAddress := Some "0x03";
     TransferEvents.row_from := Some "0xAA";
     TransferEvents.row_to := Some "0xDD" |}.

(** Two native transfers of 5 wei between two pairs of addresses. *)
Definition transfer_b1 : EthTransfers.EthTransfer :=
  {| EthTransfers.from := "0xA1";
     EthTransfers.to := "0xA1";
     EthTransfers.value := "5";
     EthTransfers.blockNumber := 7;
     EthTransfers.transactionHash := "0xb1";
     EthTransfers.gasUsed := 21000;
     EthTransfers.gasPrice := 1 |}.

Definition transfer_b2 : EthTransfers.EthTransfer :=
  {| EthTransfers.from := "0xA2";
     EthTransfers.to := "0xA2";
     EthTransfers.value := "5";
     EthTransfers.blockNumber := 7;
     EthTransfers.transactionHash := "0xb2";
     EthTransfers.gasUsed := 21000;
     EthTransfers.gasPrice := 1 |}.

Definition transfer_a4 : EthTransfers.EthTransfer :=
  {| EthTransfers.from := "0xAA";
     EthTransfers.to := "0xCC";
     EthTransfers.value := "2000000000000000000";
     EthTransfers.blockNumber := 7;
     EthTransfers.transactionHash := "0xa4";
     EthTransfers.gasUsed := 21000;
     EthTransfers.gasPrice := 0 |}.

End Sample.

(* ===================================================================== *)
(** * More of the tools                                                   *)
(* ===================================================================== *)

(** The modules below embed further functions of the same files, and the
    commands that call the functions above:

    - [utils.ts]: [binarySearch], [binarySearchClosest],
      [calculateTimeDifference], and the text that [saveToCsv] writes;
    - [eth-transfers.ts]: the batch loop and the summary figures of
      [fetch];
    - [transfer-events.ts]: the decoding loop of [recent], the CSV reader
      and the address statistics of [analyze];
    - [balance-finder.ts]: the [get] action and the loop of [history].

    [provider.getTransactionCount], which has no round trip of its own
    among the calls above, is a parameter of the functions that use it;
    so are [ethers.getAddress], [parseInt], [formatEther], the file
    system under [saveToJson] and, in balance-finder.ts,
    [formatTimestamp]. *)

(* ===================================================================== *)
(** * utils.ts: the two array searches                                    *)
(* ===================================================================== *)

(** utils.ts: [binarySearch] and [binarySearchClosest]. *)
Module Search.
Section OverArrays.
Context {T : Type}.
Variable array : list T.
Variable target : Z.
Variable getValue : T -> Z.

(** [array[i]]: [undefined] outside the array. *)
Definition item (i : Z) : option T :=
  if i <? 0 then None else nth_error array (Z.to_nat i).

Section Exact.
Variable compare : Z -> Z -> Z.

(** The [while (left <= right)] loop of [binarySearch], unrolled [fuel]
    times; the outer [None] is an unrolling that was too short. *)
Fixpoint binarySearch_loop (fuel : nat) (left right : Z) : option (option T) :=
  if left <=? right then
    match fuel with
    | O => None
    | S fuel' =>
        let mid := (left + right) / 2 in
        match item mid with
        | None => Some None
        | Some midItem =>
            let midValue := getValue midItem in
            let comparison := compare midValue target in
            if comparison =? 0 then Some (Some midItem)
            else if comparison <? 0 then binarySearch_loop fuel' (mid + 1) right
            else binarySearch_loop fuel' left (mid - 1)
        end
    end
  else Some None.

(** [binarySearch(array, target, getValue, compare)]; the range shrinks
    in every round, so [array.length] rounds suffice. *)
Definition binarySearch : option (option T) :=
  if (List.length array =? 0)%nat then Some None
  else binarySearch_loop (List.length array) 0 (Z.of_nat (List.length array) - 1).
End Exact.

(** The loop of [binarySearchClosest]. *)
Fixpoint closest_loop (fuel : nat) (left right : Z) (closest : T)
    (closestDiff : Z) : option T :=
  if left <=? right then
    match fuel with
    | O => None
    | S fuel' =>
        let mid := (left + right) / 2 in
        match item mid with
        | None => Some closest
        | Some midItem =>
            let midValue := getValue midItem in
            let diff := Z.abs (midValue - target) in
            let closer := diff <? closestDiff in
            let closestDiff' := if closer then diff else closestDiff in
            let closest' := if closer then midItem else closest in
            if midValue <? target
            then closest_loop fuel' (mid + 1) right closest' closestDiff'
            else closest_loop fuel' left (mid - 1) closest' closestDiff'
        end
    end
  else Some closest.

(** [binarySearchClosest(array, target, getValue)]. *)
Definition binarySearchClosest : option (option T) :=
  match array with
  | [] => Some None
  | firstItem :: _ =>
      option_map Some
        (closest_loop (List.length array) 0 (Z.of_nat (List.length array) - 1)
           firstItem (Z.abs (getValue firstItem - target)))
  end.
End OverArrays.

(** The default of [compare]: [(a, b) => a - b]. *)
Definition defaultCompare (a b : Z) : Z := a - b.

End Search.

(* ===================================================================== *)
(** * utils.ts: calculateTimeDifference, all four fields                  *)
(* ===================================================================== *)

Module TimeDifference.

(** The object [calculateTimeDifference] returns. *)
Record t : Type := {
  seconds : Z;
  minutes : Z;
  hours : Z;
  days : Z
}.

(** [calculateTimeDifference(targetTimestamp, blockTimestamp)];
    [Math.floor(diff / k)] on the non-negative integer [diff]. *)
Definition calculateTimeDifference (targetTimestamp blockTimestamp : Z) : t :=
  let diff := Z.abs (blockTimestamp - targetTimestamp) in
  {| seconds := diff;
     minutes := diff / 60;
     hours := diff / 3600;
     days := diff / 86400 |}.

End TimeDifference.

(* ===================================================================== *)
(** * More vocabulary: what all events of a run have in common            *)
(* ===================================================================== *)

Module Observe.

(** Every event of every run of [m] satisfies [P]. *)
Definition all_events {W A} (P : Event -> Prop) (m : Eff W A) : Prop :=
  forall w, Forall P (trace (m w)).

(** The events of the binary search: [getBlock] round trips, console
    lines and the sleeps between retries. *)
Definition search_event (ev : Event) : Prop :=
  match ev with
  | Rpc (GetBlock _ _) | ConsoleLog _ | ConsoleError _ _ | Sleep _ => True
  | _ => False
  end.

(** An event that does not touch the endpoint. *)
Definition local_event (ev : Event) : Prop :=
  match ev with
  | Rpc _ => False
  | _ => True
  end.

(** A run that ended in order: by returning, by throwing, or by
    [process.exit(1)] right after a line on the error console. *)
Definition orderly {W A} (r : Outcome A * W * list Event) : Prop :=
  match outcome r with
  | Returned _ | Thrown _ => True
  | Exited code =>
      code = 1 /\ exists tr line err, trace r = tr ++ [ConsoleError line err]
  | OutOfFuel => False
  end.

(** The events of a call to the endpoint under [retryOperation]: round
    trips, the lines that announce a retry, the sleeps. *)
Definition call_event (ev : Event) : Prop :=
  match ev with
  | Rpc _ | ConsoleLog _ | Sleep _ => True
  | _ => False
  end.

(** A computation that behaves like a call: it returns or throws, and
    all it leaves in the trace are events of a call. *)
Definition like_a_call {W A} (m : Eff W A) : Prop :=
  settles m /\ all_events call_event m.

(** A run that so far has only made calls: it returned or threw after
    events of calls only, or it left through [process.exit(1)] with a line
    on the error console as the last of its events. *)
Definition calm {W A} (r : Outcome A * W * list Event) : Prop :=
  match outcome r with
  | Returned _ | Thrown _ => Forall call_event (trace r)
  | Exited code =>
      code = 1 /\
      exists tr line err,
        trace r = tr ++ [ConsoleError line err] /\ Forall call_event tr
  | OutOfFuel => False
  end.

(** A run of a command that saves [filename] as its last step: if it
    returned, the save is the last of its events, after calls only; if it
    threw, it only made calls; otherwise it left as a [calm] run does. *)
Definition saved {W A} (filename : string) (r : Outcome A * W * list Event) : Prop :=
  match outcome r with
  | Returned _ =>
      exists tr, trace r = tr ++ [SaveJson filename] /\ Forall call_event tr
  | Thrown _ => Forall call_event (trace r)
  | Exited code =>
      code = 1 /\
      exists tr line err,
        trace r = tr ++ [ConsoleError line err] /\ Forall call_event tr
  | OutOfFuel => False
  end.

(** An endpoint that rejects every [getBlock]. *)
Definition down {W} (provider : Provider W) : Prop :=
  forall tag prefetch w,
    exists e w', eth_getBlock provider tag prefetch w = (Rejected e, w').

(** Within the retries of [retryOperation], the endpoint answers
    [getBlock('latest')] with the block [latest], in every world. *)
Definition reports_latest {W} (provider : Provider W) (latest : Block) : Prop :=
  forall w,
    outcome (Utils.retryOperation (getBlock provider Latest false)
               Utils.defaultMaxRetries Utils.defaultDelay w)
    = Returned (Some latest).

(** The trace of [k] attempts at the round trip [c] under
    [retryOperation], the first of them being attempt number [i]: after
    every attempt but the last, the line that announces the retry and the
    sleep of [delay] milliseconds. *)
Fixpoint attempts_trace (c : RpcCall) (delay : Z) (i : Z) (k : nat)
  : list Event :=
  match k with
  | O => []
  | S k' =>
      Rpc c ::
      match k' with
      | O => []
      | S _ =>
          ConsoleLog ("Attempt " ++ toString i ++ " failed, retrying in "
                      ++ toString delay ++ "ms...")%string
          :: Sleep delay
          :: attempts_trace c delay (i + 1) k'
      end
  end.

End Observe.

(* ===================================================================== *)
(** * eth-transfers.ts: the summary of fetch                              *)
(* ===================================================================== *)

(** [Set<string>]: iteration follows the order in which the values were
    first added. *)
Module JsSet.

Definition t : Type := list string.

Definition empty : t := [].

Definition has (s : t) (x : string) : bool := existsb (String.eqb x) s.

Definition add (s : t) (x : string) : t := if has s x then s else s ++ [x].

(** [new Set(iterable)] *)
Definition of_list (xs : list string) : t := fold_left add xs empty.

Definition size (s : t) : Z := Z.of_nat (List.length s).

(** [[...s]] *)
Definition values (s : t) : list string := s.

End JsSet.

Module EthSummary.
Import EthTransfers.

(** [ethTransfers.reduce((sum, transfer) => sum + BigInt(transfer.value), 0n)]
    from the accumulator [sum] on; [None] when a [BigInt(...)] throws. *)
Fixpoint totalVolume_from (ethTransfers : list EthTransfer) (sum : Z)
  : option Z :=
  match ethTransfers with
  | [] => Some sum
  | transfer :: rest =>
      match BigInt (value transfer) with
      | Some v => totalVolume_from rest (sum + v)
      | None => None
      end
  end.

Definition totalVolume (ethTransfers : list EthTransfer) : option Z :=
  totalVolume_from ethTransfers 0.

(** [new Set(ethTransfers.map(t => t.from))] and its two companions. *)
Definition uniqueFroms (ethTransfers : list EthTransfer) : JsSet.t :=
  JsSet.of_list (map from ethTransfers).

Definition uniqueTos (ethTransfers : list EthTransfer) : JsSet.t :=
  JsSet.of_list (map to ethTransfers).

Definition uniqueAddresses (ethTransfers : list EthTransfer) : JsSet.t :=
  JsSet.of_list (JsSet.values (uniqueFroms ethTransfers)
                 ++ JsSet.values (uniqueTos ethTransfers)).

End EthSummary.

(** Vocabulary for the statements on [processBlock] and the summary. *)
Module Ledger.
Import EthTransfers.

(** The elements of [block.transactions] that are objects, in the order
    of the block. *)
Fixpoint objects (txs : list TransactionEntry) : list TransactionResponse :=
  match txs with
  | [] => []
  | TxHash _ :: rest => objects rest
  | TxObject tx :: rest => tx :: objects rest
  end.

(** The endpoint lists the transactions of its blocks by their hashes,
    as a provider of ethers v6 does. *)
Definition lists_hashes {W} (provider : Provider W) : Prop :=
  forall tag prefetch w block w' txs,
    eth_getBlock provider tag prefetch w = (Fulfilled (Some block), w') ->
    transactions block = Some txs ->
    Forall (fun entry => exists hash, entry = TxHash hash) txs.

(** The transaction passes every test of the loop of [processBlock]. *)
Definition qualifies (options : FetchOptions) (minValueWei : Z)
    (tx : TransactionResponse) : bool :=
  match tx_to tx with
  | Some receiver =>
      negb (String.eqb receiver "")
      && negb (tx_value tx =? 0)
      && (minValueWei <=? tx_value tx)
      && String.eqb (toLowerCase (tx_from tx))
           (toLowerCase (TransferEvents.or_else (opt_from options) (tx_from tx)))
      && String.eqb (toLowerCase receiver)
           (toLowerCase (TransferEvents.or_else (opt_to options) receiver))
  | None => false
  end.

(** The record [processBlock] makes of a transaction it keeps. *)
Definition transfer_of (blockNumber : Z) (tx : TransactionResponse)
  : EthTransfer :=
  {| from := tx_from tx;
     to := match tx_to tx with
           | Some receiver => receiver
           | None => ""
           end;
     value := toString (tx_value tx);
     blockNumber := blockNumber;
     transactionHash := tx_hash tx;
     gasUsed := tx_gasLimit tx;
     gasPrice := match tx_gasPrice tx with
                 | Some p => p
                 | None => 0
                 end |}.

(** The sum of one field over all entries of [addressVolumes]. *)
Definition total (field : AddressVolume -> Z) (m : JsMap.t AddressVolume) : Z :=
  fold_right (fun entry acc => field (snd entry) + acc) 0 (JsMap.entries m).

End Ledger.

(* ===================================================================== *)
(** * transfer-events.ts: the log-decoding loop of recent                 *)
(* ===================================================================== *)

Module RecentEvents.
Import TransferEvents.

Section Recent.
Context {W : Type}.

(** [ethers.getAddress], as in the loop of [fetch]. *)
Variable getAddress : string -> option string.

(** One round of [for (const log of logs)] in the [recent] action: the
    round of [fetch] without the two calls to the token contract. *)
Definition decode_log (log : Log) (transferEvents : list TransferEvent)
  : Eff W (list TransferEvent) :=
  try_catch
    (if too_few_topics log then
       emit (ConsoleWarn ("Invalid log format for tx "
                          ++ log_transactionHash log)%string) ;;
       ret transferEvents
     else
       from <- getAddress_or_throw getAddress
                 ("0x" ++ slice 26 (topic log 1))%string ;;
       to <- getAddress_or_throw getAddress
               ("0x" ++ slice 26 (topic log 2))%string ;;
       if empty_data log then
         emit (ConsoleWarn ("Empty data for tx "
                            ++ log_transactionHash log)%string) ;;
         ret transferEvents
       else
         value <- BigInt_or_throw (log_data log) ;;
         ret (transferEvents ++
              [ {| contractAddress := log_address log;
                   from := from;
                   to := to;
                   value := toString value;
                   blockNumber := log_blockNumber log;
                   transactionHash := log_transactionHash log;
                   logIndex := log_index log;
                   tokenSymbol := "UNKNOWN";
                   tokenDecimals := 18 |} ]))
    (fun error =>
       emit (ConsoleError ("Error processing log "
                           ++ log_transactionHash log ++ ":")%string
                          (Some error)) ;;
       ret transferEvents).

(** The whole loop. *)
Fixpoint decode_logs (logs : list Log) (transferEvents : list TransferEvent)
  : Eff W (list TransferEvent) :=
  match logs with
  | [] => ret transferEvents
  | log :: rest =>
      transferEvents' <- decode_log log transferEvents ;;
      decode_logs rest transferEvents'
  end.
End Recent.

End RecentEvents.

(** Vocabulary for the statements on the two decoding loops. *)
Module Decoded.
Import TransferEvents.

(** The event without what the token contract said. *)
Definition anonymous (event : TransferEvent) : TransferEvent :=
  {| contractAddress := contractAddress event;
     from := from event;
     to := to event;
     value := value event;
     blockNumber := blockNumber event;
     transactionHash := transactionHash event;
     logIndex := logIndex event;
     tokenSymbol := "UNKNOWN";
     tokenDecimals := 18 |}.

(** An event that is no round trip. *)
Definition off_the_wire (ev : Event) : bool :=
  match ev with
  | Rpc _ => false
  | _ => true
  end.

(** [event] is what the loops make of [log]: it carries the address,
    block, transaction and index of the log, the two addresses that
    [getAddress] reads in topics 1 and 2, and the data as a decimal
    numeral; the log has its three topics and its data. *)
Definition decodes (getAddress : string -> option string) (log : Log)
    (event : TransferEvent) : Prop :=
  too_few_topics log = false /\
  empty_data log = false /\
  contractAddress event = log_address log /\
  getAddress ("0x" ++ slice 26 (topic log 1))%string = Some (from event) /\
  getAddress ("0x" ++ slice 26 (topic log 2))%string = Some (to event) /\
  (exists v, BigInt (log_data log) = Some v /\ value event = toString v) /\
  blockNumber event = log_blockNumber log /\
  transactionHash event = log_transactionHash log /\
  logIndex event = log_index log.

End Decoded.

(* ===================================================================== *)
(** * utils.ts: the text saveToCsv writes; transfer-events.ts: how        *)
(** * analyze reads it                                                    *)
(* ===================================================================== *)

(** The string built-ins the two functions use, on strings of ASCII
    characters. *)
Module JsString.

Definition LF : ascii := ascii_of_nat 10.
Definition quote : ascii := ascii_of_nat 34.
Definition comma : ascii := ascii_of_nat 44.

(** [s.includes(c)] for a one-character [c]. *)
Fixpoint includes (c : ascii) (s : string) : bool :=
  match s with
  | EmptyString => false
  | String c' rest => Ascii.eqb c' c || includes c rest
  end.

(** [s.replace(/c/g, cc)]: every [c] doubled. *)
Fixpoint double (c : ascii) (s : string) : string :=
  match s with
  | EmptyString => EmptyString
  | String c' rest =>
      if Ascii.eqb c' c then String c (String c (double c rest))
      else String c' (double c rest)
  end.

(** [pieces.join(sep)] on strings. *)
Fixpoint join (sep : ascii) (pieces : list string) : string :=
  match pieces with
  | [] => EmptyString
  | [piece] => piece
  | piece :: rest => (piece ++ String sep (join sep rest))%string
  end.

(** [s.split(sep)] for a one-character [sep]: never empty. *)
Fixpoint split (sep : ascii) (s : string) : list string :=
  match s with
  | EmptyString => [EmptyString]
  | String c rest =>
      if Ascii.eqb c sep then EmptyString :: split sep rest
      else
        match split sep rest with
        | piece :: pieces => String c piece :: pieces
        | [] => [String c EmptyString]
        end
  end.

(** White space and line terminators among the ASCII characters: tab,
    line feed, vertical tab, form feed, carriage return, space. *)
Definition is_space (c : ascii) : bool :=
  let n := nat_of_ascii c in
  ((9 <=? n) && (n <=? 13))%nat || (n =? 32)%nat.

Fixpoint trimStart (s : string) : string :=
  match s with
  | EmptyString => EmptyString
  | String c rest => if is_space c then trimStart rest else s
  end.

Fixpoint trimEnd (s : string) : string :=
  match s with
  | EmptyString => EmptyString
  | String c rest =>
      match trimEnd rest with
      | EmptyString => if is_space c then EmptyString else String c EmptyString
      | kept => String c kept
      end
  end.

(** [s.trim()] *)
Definition trim (s : string) : string := trimEnd (trimStart s).

(** Truthiness of a string. *)
Definition nonempty (s : string) : bool :=
  match s with
  | EmptyString => false
  | String _ _ => true
  end.

End JsString.

Module Csv.
Import JsString.

(** What a property of a row object may hold when [saveToCsv] reads it:
    a string, an integral number, or nothing ([undefined]). *)
Inductive Cell : Type :=
| Str (s : string)
| Num (n : Z)
| Undefined.

(** [row[header]] *)
Definition field (row : JsMap.t Cell) (header : string) : Cell :=
  match JsMap.get row header with
  | Some value => value
  | None => Undefined
  end.

(** The callback of [headers.map] in [saveToCsv]: a string that holds a
    comma or a quote is put between quotes, its own quotes doubled. *)
Definition escaped (value : Cell) : Cell :=
  match value with
  | Str s =>
      if includes comma s || includes quote s
      then Str (String quote (double quote s ++ String quote EmptyString))
      else value
  | _ => value
  end.

(** How [Array.prototype.join] writes an element: [undefined] as the
    empty string. *)
Definition text (value : Cell) : string :=
  match value with
  | Str s => s
  | Num n => toString n
  | Undefined => EmptyString
  end.

(** [values.join(',')] for one row. *)
Definition line (headers : list string) (row : JsMap.t Cell) : string :=
  join comma (map (fun header => text (escaped (field row header))) headers).

(** The variable [csv] of [saveToCsv] when it is written to the file:
    the header line, then one line per row, each ended by a line feed. *)
Definition csv (data : list (JsMap.t Cell)) (headers : list string) : string :=
  fold_left (fun csv row => (csv ++ line headers row ++ String LF EmptyString)%string)
            data
            (join comma headers ++ String LF EmptyString)%string.

(** [csvContent.split('\n').filter(line => line.trim())] of [analyze]. *)
Definition lines (csvContent : string) : list string :=
  filter (fun line => nonempty (trim line)) (split LF csvContent).

(** [headers.forEach((header, index) => { obj[header.trim()] =
    values[index]?.trim(); })] from [index] on; the object is the map of
    its own properties, a property set to [undefined] being [Some None]. *)
Fixpoint forEach_header (headers : list string) (index : nat)
    (values : list string) (obj : JsMap.t (option string))
  : JsMap.t (option string) :=
  match headers with
  | [] => obj
  | header :: rest =>
      forEach_header rest (S index) values
        (JsMap.set obj (trim header) (option_map trim (nth_error values index)))
  end.

(** The variable [data] of [analyze]; [None] is the [TypeError] of
    [lines[0]!.split] on a file without a line. *)
Definition data (csvContent : string) : option (list (JsMap.t (option string))) :=
  match lines csvContent with
  | [] => None
  | first :: rest =>
      let headers := split comma first in
      Some (map (fun line => forEach_header headers 0 (split comma line) JsMap.empty)
                rest)
  end.

(** [row.name]: [undefined] when the object lacks the property. *)
Definition read (obj : JsMap.t (option string)) (name : string) : option string :=
  match JsMap.get obj name with
  | Some value => value
  | None => None
  end.

(** The row of [analyze] as the statistics loops see it. *)
Definition row_of (obj : JsMap.t (option string)) : TransferEvents.Row :=
  {| TransferEvents.row_tokenSymbol := read obj "tokenSymbol";
     TransferEvents.row_value := read obj "value";
     TransferEvents.row_contractAddress := read obj "contractAddress";
     TransferEvents.row_from := read obj "from";
     TransferEvents.row_to := read obj "to" |}.

End Csv.

(** Vocabulary for the statements on the two. *)
Module Plain.
Import JsString.

(** A character that neither function treats specially: an ASCII
    character that is no comma, no quote and no line feed. *)
Definition ordinary (c : ascii) : bool :=
  (nat_of_ascii c <? 128)%nat
  && negb (Ascii.eqb c comma) && negb (Ascii.eqb c quote)
  && negb (Ascii.eqb c LF).

Fixpoint all_ordinary (s : string) : bool :=
  match s with
  | EmptyString => true
  | String c rest => ordinary c && all_ordinary rest
  end.

(** A plain string: ordinary characters, and no white space at either
    end. *)
Definition plain (s : string) : bool :=
  all_ordinary s && String.eqb (trim s) s.

Definition plain_cell (value : Csv.Cell) : bool :=
  match value with
  | Csv.Str s => plain s
  | Csv.Num _ => true
  | Csv.Undefined => true
  end.

(** The number of occurrences of a character. *)
Fixpoint count (c : ascii) (s : string) : nat :=
  match s with
  | EmptyString => 0
  | String c' rest => (if Ascii.eqb c' c then 1 else 0) + count c rest
  end.

Fixpoint every (P : ascii -> bool) (s : string) : bool :=
  match s with
  | EmptyString => true
  | String c rest => P c && every P rest
  end.

(** The characters of a decimal numeral: digits and the minus sign. *)
Definition numeral_char (c : ascii) : bool :=
  let n := nat_of_ascii c in
  ((48 <=? n) && (n <=? 57))%nat || (n =? 45)%nat.

(** The text made of the given lines, each ended by a line feed. *)
Fixpoint text_of (ended_lines : list string) : string :=
  match ended_lines with
  | [] => EmptyString
  | l :: rest => (l ++ String LF (text_of rest))%string
  end.

(** The commas in the written form of the cells of a row. *)
Definition commas_within (headers : list string) (row : JsMap.t Csv.Cell) : nat :=
  fold_right (fun piece acc => (count comma piece + acc)%nat) 0%nat
    (map (fun header => Csv.text (Csv.escaped (Csv.field row header))) headers).

End Plain.

(** Vocabulary for the statements on the rankings. *)
Module Ranking.

(** [top] is a ranking of the [n] largest of [entries] by [vol]: at most
    [n] of the entries, in descending order, all of them when there are no
    more than [n], and none of the entries left out is larger than one
    that is in. *)
Definition largest {X : Type} (vol : X -> Z) (n : nat) (entries top : list X)
  : Prop :=
  List.length top = Nat.min n (List.length entries) /\
  StronglySorted (descending vol) top /\
  exists rest,
    Permutation entries (top ++ rest) /\
    forall kept left_out, In kept top -> In left_out rest ->
                          vol left_out <= vol kept.

End Ranking.

(** More sample worlds. *)
Module MoreSamples.

(** An endpoint that is down: every call is rejected. *)
Definition dead_node : Provider unit :=
  {| eth_getBlock := fun _ _ w => (Rejected (Error "ECONNREFUSED"), w);
     eth_getBalance := fun _ _ w => (Rejected (Error "ECONNREFUSED"), w);
     eth_getLogs := fun _ w => (Rejected (Error "ECONNREFUSED"), w);
     erc20_symbol := fun _ w => (Rejected (Error "ECONNREFUSED"), w);
     erc20_decimals := fun _ w => (Rejected (Error "ECONNREFUSED"), w) |}.

(** A chain of 1001 blocks, twelve seconds apart, that answers
    [getBlock('latest')] too. *)
Definition chain1000 : Provider unit :=
  {| eth_getBlock := fun tag _ w =>
       let n := match tag with
                | Height n => n
                | Latest => 1000
                end in
       (Fulfilled (Some {| Js.number := n;
                           Js.timestamp := Sample.steady n;
                           Js.hash := Some (toString n);
                           Js.transactions := Some [] |}), w);
     eth_getBalance := fun _ _ w => (Fulfilled 0, w);
     eth_getLogs := fun _ w => (Fulfilled [], w);
     erc20_symbol := fun _ w => (Rejected (Error "no symbol"), w);
     erc20_decimals := fun _ w => (Rejected (Error "no decimals"), w) |}.

(** Block 7 of [Sample.node7] as a provider of ethers v6 hands it out:
    [transactions] lists the four hashes. *)
Definition block7_hashes : Block :=
  {| Js.number := 7;
     Js.timestamp := 1600000084;
     Js.hash := Some "0x07";
     Js.transactions :=
       Some [TxHash "0xa1"; TxHash "0xa2"; TxHash "0xa3"; TxHash "0xa4"] |}.

Definition node7_hashes : Provider unit :=
  {| eth_getBlock := fun _ _ w => (Fulfilled (Some block7_hashes), w);
     eth_getBalance := fun _ _ w => (Fulfilled 0, w);
     eth_getLogs := fun _ w => (Fulfilled [], w);
     erc20_symbol := fun _ w => (Rejected (Error "no symbol"), w);
     erc20_decimals := fun _ w => (Rejected (Error "no decimals"), w) |}.

(** A line that drops the calls numbered 0, 2 and 3 and lets every other
    call through to [Sample.node7]; the world counts the calls. *)
Definition patchy_node7 : Provider nat :=
  {| eth_getBlock := fun _ _ calls =>
       if ((calls =? 0) || (calls =? 2) || (calls =? 3))%nat
       then (Rejected (Error "timeout"), S calls)
       else (Fulfilled (Some Sample.block7), S calls);
     eth_getBalance := fun _ _ calls => (Fulfilled 0, S calls);
     eth_getLogs := fun _ calls => (Fulfilled [], S calls);
     erc20_symbol := fun _ calls => (Rejected (Error "no symbol"), S calls);
     erc20_decimals := fun _ calls => (Rejected (Error "no decimals"), S calls) |}.

(** The headers of a small CSV file and two rows for it: a plain one,
    and one whose token symbol holds a comma. *)
Definition headers3 : list string := ["tokenSymbol"; "value"; "blockNumber"].

Definition plain_row : JsMap.t Csv.Cell :=
  [("tokenSymbol", Csv.Str "USDT"); ("value", Csv.Str "5");
   ("blockNumber", Csv.Num 100)].

Definition comma_row : JsMap.t Csv.Cell :=
  [("tokenSymbol", Csv.Str "A,B"); ("value", Csv.Str "5");
   ("blockNumber", Csv.Num 100)].

End MoreSamples.

(* ===================================================================== *)
(** * eth-transfers.ts: the batches of fetch                              *)
(* ===================================================================== *)

Module EthFetch.
Import Utils EthTransfers.

(** [const batchSize = 100;] *)
Definition batchSize : Z := 100.

(** A call of [processBlock] that a batch has started.  The calls of a
    batch run concurrently: each of them goes from one [await] to the
    next, and between two of its steps any of the others may take theirs.
    The only [await]s of [processBlock] are those of [retryOperation], so
    a call is either about to make attempt [i] at its block, or it has
    ended and its promise holds the transfers it returned.
    [processBlock] catches every error, so its promise never rejects. *)
Inductive Call : Type :=
| Attempting (blockNumber : Z) (i : Z)
| Ended (transfers : list EthTransfer).

Section Fetch.
Context {W : Type} (provider : Provider W).
Variable options : FetchOptions.
Variable minValueWei : Z.

(** One step of a call: round [i] of the loop of [retryOperation] inside
    [processBlock].  When the round trip is fulfilled, what is left of
    [processBlock] is the scan of the block, which calls nothing.  When it
    is rejected, the last round rethrows, [processBlock] catches the error
    and returns the empty array; an earlier round writes its line and
    waits for the timer before the next round.  (That these steps, taken
    in a row, make up [processBlock] is shown with the facts on the
    batches.) *)
Definition attempt (blockNumber i : Z) : Eff W Call :=
  try_catch
    (block <- getBlock provider (Height blockNumber) true ;;
     match block with
     | Some block =>
         match transactions block with
         | Some txs =>
             ret (Ended (scan_transactions options minValueWei blockNumber txs []))
         | None => ret (Ended [])
         end
     | None => ret (Ended [])
     end)
    (fun error =>
       if i =? defaultMaxRetries - 1 then
         emit (ConsoleError ("Error processing block " ++ toString blockNumber
                             ++ ":")%string (Some error)) ;;
         ret (Ended [])
       else
         emit (ConsoleLog ("Attempt " ++ toString (i + 1)
                           ++ " failed, retrying in "
                           ++ toString defaultDelay ++ "ms...")%string) ;;
         emit (Sleep defaultDelay) ;;
         ret (Attempting blockNumber (i + 1))).

(** A call running to its end with no step of another call in between;
    [fuel] bounds the attempts. *)
Fixpoint finish (fuel : nat) (call : Call) : Eff W (list EthTransfer) :=
  match call with
  | Ended transfers => ret transfers
  | Attempting blockNumber i =>
      match fuel with
      | O => out_of_fuel
      | S fuel' =>
          call' <- attempt blockNumber i ;;
          finish fuel' call'
      end
  end.

(** [calls] with the call at position [k] replaced. *)
Fixpoint replace (k : nat) (call : Call) (calls : list Call) : list Call :=
  match calls, k with
  | [], _ => []
  | _ :: rest, O => call :: rest
  | c :: rest, S k' => c :: replace k' call rest
  end.

(** The call at position [k] of [blockPromises] takes its next step; a
    call that has ended, or a position past the end of the array, leaves
    everything as it is. *)
Definition advance (k : nat) (calls : list Call) : Eff W (list Call) :=
  match nth_error calls k with
  | Some (Attempting blockNumber i) =>
      call <- attempt blockNumber i ;;
      ret (replace k call calls)
  | _ => ret calls
  end.

(** The calls take their steps in the order [schedule] gives, which
    names the position of the call that comes next. *)
Fixpoint interleave (schedule : list nat) (calls : list Call)
  : Eff W (list Call) :=
  match schedule with
  | [] => ret calls
  | k :: rest =>
      calls' <- advance k calls ;;
      interleave rest calls'
  end.

(** The calls that are still under way run to their ends, one after the
    other; the results come in the order of the array. *)
Fixpoint settle_all (calls : list Call) : Eff W (list (list EthTransfer)) :=
  match calls with
  | [] => ret []
  | call :: rest =>
      transfers <- finish (Z.to_nat defaultMaxRetries) call ;;
      results <- settle_all rest ;;
      ret (transfers :: results)
  end.

(** [await Promise.all(blockPromises)]: the calls run interleaved until
    all have ended, and the results are handed back in the order of the
    promises.  In which order the calls take their steps is up to the
    network; [schedule] stands for it.  Every interleaving is the run of
    some schedule; where a schedule stops before all calls have ended,
    the rest run one after the other. *)
Definition promise_all (schedule : list nat) (calls : list Call)
  : Eff W (list (list EthTransfer)) :=
  calls' <- interleave schedule calls ;;
  settle_all calls'.

(** The [for] loop that starts [processBlock] for the blocks from
    [blockNum] to [batchEnd] and collects the promises. *)
Fixpoint start_calls (fuel : nat) (blockNum batchEnd : Z)
  : Eff W (list Call) :=
  if blockNum <=? batchEnd then
    match fuel with
    | O => out_of_fuel
    | S fuel' =>
        blockPromises <- start_calls fuel' (blockNum + 1) batchEnd ;;
        ret (Attempting blockNum 0 :: blockPromises)
    end
  else ret [].

(** [for (let currentBlock = startBlock; currentBlock <= endBlock;
    currentBlock += batchSize) { ... }]: each round starts the calls of
    one batch of at most [batchSize] blocks, awaits them all, appends
    their results to [ethTransfers] and pauses for 100 ms.  [schedules]
    holds the schedule of each batch in turn.  (The progress lines of the
    loop are not part of the trace, and the counter they print is left
    out.) *)
Fixpoint batches (fuel : nat) (schedules : list (list nat))
    (currentBlock endBlock : Z) (ethTransfers : list EthTransfer)
  : Eff W (list EthTransfer) :=
  if currentBlock <=? endBlock then
    match fuel with
    | O => out_of_fuel
    | S fuel' =>
        let batchEnd := Z.min (currentBlock + batchSize - 1) endBlock in
        blockPromises <- start_calls (Z.to_nat batchSize) currentBlock batchEnd ;;
        batchResults <- promise_all (hd [] schedules) blockPromises ;;
        emit (Sleep 100) ;;
        batches fuel' (tl schedules) (currentBlock + batchSize) endBlock
          (ethTransfers ++ List.concat batchResults)
    end
  else ret ethTransfers.

(** The array [ethTransfers] after the loop; every round moves
    [currentBlock] up, so one round per block of the range is more than
    enough. *)
Definition collect (schedules : list (list nat)) (startBlock endBlock : Z)
  : Eff W (list EthTransfer) :=
  batches (Z.to_nat (endBlock - startBlock + 1)) schedules startBlock endBlock [].
End Fetch.

End EthFetch.

(** Vocabulary for the statement on the batches. *)
Module Range.

(** The [n] block numbers from [lo] on. *)
Definition upward (lo : Z) (n : nat) : list Z :=
  map (fun k => lo + Z.of_nat k) (seq 0 n).

(** [transfers] is what a call of [processBlock] for block [blockNumber]
    can end with: the empty array, or the transfers it reads in a block
    that the endpoint delivered, in some state, when asked for that
    height. *)
Definition result_for {W} (provider : Provider W)
    (options : EthTransfers.FetchOptions) (minValueWei : Z)
    (blockNumber : Z) (transfers : list EthTransfers.EthTransfer) : Prop :=
  transfers = [] \/
  exists w block w' txs,
    eth_getBlock provider (Height blockNumber) true w
    = (Fulfilled (Some block), w') /\
    transactions block = Some txs /\
    transfers
    = EthTransfers.scan_transactions options minValueWei blockNumber txs [].

(** A round trip that asks for a block of [lo, hi] with its
    transactions. *)
Definition asks_within (lo hi : Z) (c : RpcCall) : Prop :=
  exists m, c = GetBlock (Height m) true /\ lo <= m <= hi.

(** [call] is a call of [processBlock] for block [blockNumber]: under
    way in one of the rounds of [retryOperation], or ended with a result
    for that block. *)
Definition call_for {W} (provider : Provider W)
    (options : EthTransfers.FetchOptions) (minValueWei : Z)
    (blockNumber : Z) (call : EthFetch.Call) : Prop :=
  match call with
  | EthFetch.Attempting n i =>
      n = blockNumber /\ 0 <= i < Utils.defaultMaxRetries
  | EthFetch.Ended transfers =>
      result_for provider options minValueWei blockNumber transfers
  end.

End Range.

(* ===================================================================== *)
(** * transfer-events.ts: the address statistics of analyze               *)
(* ===================================================================== *)

Module Analyze.
Import TransferEvents.

(** [Map] as [analyze] uses it for the addresses: [row.from] of a row
    that lacks the column is [undefined], which is a key like any
    other. *)
Module KeyMap.
Section WithValues.
Context {V : Type}.

Definition t : Type := list (option string * V).

Definition empty : t := [].

Fixpoint get (m : t) (key : option string) : option V :=
  match m with
  | [] => None
  | (k, v) :: rest => if option_string_eqb k key then Some v else get rest key
  end.

Definition has (m : t) (key : option string) : bool :=
  match get m key with
  | Some _ => true
  | None => false
  end.

Fixpoint set (m : t) (key : option string) (v : V) : t :=
  match m with
  | [] => [(key, v)]
  | (k, v') :: rest =>
      if option_string_eqb k key then (k, v) :: rest
      else (k, v') :: set rest key v
  end.

Definition entries (m : t) : list (option string * V) := m.
End WithValues.

Arguments t V : clear implicits.
End KeyMap.

(** The statistics object kept per address. *)
Record AddressStats : Type := {
  sent : Z;
  received : Z;
  sentCount : Z;
  receivedCount : Z
}.

(** [if (!m.has(a)) m.set(a, { sent: 0n, received: 0n, sentCount: 0,
    receivedCount: 0 }); const stats = m.get(a)!;] followed by the update
    [f] of [stats]. *)
Definition update_stats (m : KeyMap.t AddressStats) (a : option string)
    (f : AddressStats -> AddressStats) : KeyMap.t AddressStats :=
  let m := if KeyMap.has m a then m
           else KeyMap.set m a {| sent := 0; received := 0;
                                  sentCount := 0; receivedCount := 0 |} in
  match KeyMap.get m a with
  | Some stats => KeyMap.set m a (f stats)
  | None => m
  end.

(** The loop that fills [addressStats]; [None] when a [BigInt(...)]
    throws. *)
Fixpoint addressStats_from (data : list Row) (addressStats : KeyMap.t AddressStats)
  : option (KeyMap.t AddressStats) :=
  match data with
  | [] => Some addressStats
  | row :: rest =>
      let from := row_from row in
      let to := row_to row in
      match BigInt (or_else (row_value row) "0") with
      | None => None
      | Some value =>
          let m := update_stats addressStats from
                     (fun s => {| sent := sent s + value;
                                  received := received s;
                                  sentCount := sentCount s + 1;
                                  receivedCount := receivedCount s |}) in
          let m := update_stats m to
                     (fun s => {| sent := sent s;
                                  received := received s + value;
                                  sentCount := sentCount s;
                                  receivedCount := receivedCount s + 1 |}) in
          addressStats_from rest m
      end
  end.

Definition addressStats (data : list Row) : option (KeyMap.t AddressStats) :=
  addressStats_from data KeyMap.empty.

(** [(a, b) => (b[1].sent + b[1].received > a[1].sent + a[1].received ? 1 : -1)] *)
Definition compareAddresses (a b : option string * AddressStats) : Z :=
  if sent (snd b) + received (snd b) >? sent (snd a) + received (snd a)
  then 1 else -1.

(** [Array.from(addressStats.entries()).sort(...).slice(0, topN)]. *)
Definition sortedAddresses (topN : option Z) (addressStats : KeyMap.t AddressStats)
  : option (list (option string * AddressStats)) :=
  option_map (slice0 topN)
             (V8.sort compareAddresses (KeyMap.entries addressStats)).

(** What [analyze] prints as [Net]: [stats.received - stats.sent]. *)
Definition net (stats : AddressStats) : Z := received stats - sent stats.

(** The sum of one field over all entries of [addressStats]. *)
Definition total (field : AddressStats -> Z) (m : KeyMap.t AddressStats) : Z :=
  fold_right (fun entry acc => field (snd entry) + acc) 0 (KeyMap.entries m).

End Analyze.

(* ===================================================================== *)
(** * balance-finder.ts: the loop of history                              *)
(* ===================================================================== *)

Module BalanceFinder.
Import Utils.

(** An entry of [balanceHistory]. *)
Record HistoryEntry : Type := {
  block : Z;
  timestamp : Z;
  date : string;
  balanceWei : string;
  balanceEth : string;
  nonce : Z;
  blockHash : option string
}.

Section History.
Context {W : Type} (provider : Provider W).

(** [provider.getTransactionCount(address, block)], one more call to the
    endpoint: any computation may stand for it. *)
Variable getTransactionCount : string -> Z -> Eff W Z.

(** [formatTimestamp] of utils.ts, that is [new Date(timestamp *
    1000).toISOString()], which throws a [RangeError] ([None] here) on a
    time out of the range of [Date]; and [formatEther] of config.ts. *)
Variable formatTimestamp : Z -> option string.
Variable formatEther : Z -> string.

(** [options.address] *)
Variable address : string.

(** The body of the [for] loop: the three retried calls, the entry
    pushed when all went well, the error line when something threw, and
    the pause of 100 ms in either case.  (The two progress lines of the
    verbose mode are not part of the trace.) *)
Definition history_round (block : Z) (balanceHistory : list HistoryEntry)
  : Eff W (list HistoryEntry) :=
  balanceHistory' <-
    try_catch
      (blockInfo <- retryOperation (getBlock provider (Height block) false)
                      defaultMaxRetries defaultDelay ;;
       balance <- retryOperation (getBalance provider address (Some block))
                    defaultMaxRetries defaultDelay ;;
       nonce <- retryOperation (getTransactionCount address block)
                  defaultMaxRetries defaultDelay ;;
       match blockInfo with
       | None =>
           throw (Error "Cannot read properties of null (reading 'timestamp')")
       | Some blockInfo =>
           match formatTimestamp (Js.timestamp blockInfo) with
           | None => throw (Error "Invalid time value")
           | Some date =>
               ret (balanceHistory ++
                    [ {| block := block;
                         timestamp := Js.timestamp blockInfo;
                         date := date;
                         balanceWei := toString balance;
                         balanceEth := formatEther balance;
                         nonce := nonce;
                         blockHash := Js.hash blockInfo |} ])
           end
       end)
      (fun error =>
         emit (ConsoleError ("Error processing block " ++ toString block ++ ":")%string
                            (Some error)) ;;
         ret balanceHistory) ;;
  emit (Sleep 100) ;;
  ret balanceHistory'.

(** [for (let block = startBlock; block <= endBlock; block += interval)
    { ... }], unrolled [fuel] times. *)
Fixpoint history_loop (fuel : nat) (block endBlock interval : Z)
    (balanceHistory : list HistoryEntry) : Eff W (list HistoryEntry) :=
  if block <=? endBlock then
    match fuel with
    | O => out_of_fuel
    | S fuel' =>
        balanceHistory' <- history_round block balanceHistory ;;
        history_loop fuel' (block + interval) endBlock interval balanceHistory'
    end
  else ret balanceHistory.
End History.

(** The options of the [get] command: [options.block] is the text given,
    ['latest'] or a number to be parsed. *)
Record GetOptions : Type := {
  opt_address : string;
  opt_block : string;
  opt_output : string;
  opt_verbose : bool
}.

Section Get.
Context {W : Type} (provider : Provider W).

(** [ethers.getAddress] ([None] where it throws), [parseInt] ([None] is
    [NaN]), [provider.getTransactionCount] and [formatTimestamp], as
    above; [fs] is the file system under [saveToJson]. *)
Variable getAddress : string -> option string.
Variable parseInt : string -> option Z.
Variable getTransactionCount : string -> Z -> Eff W Z.
Variable formatTimestamp : Z -> option string.
Variable fs : string -> option JsError.

(** [formatTimestamp(t)] where only its throwing matters: in a console
    line, or in the object that is saved. *)
Definition format_or_throw (t : Z) : Eff W unit :=
  match formatTimestamp t with
  | Some _ => ret tt
  | None => throw (Error "Invalid time value")
  end.

(** The action of the [get] command. *)
Definition get (options : GetOptions) : Eff W unit :=
  try_catch
    ((if negb (BlockFinder.isValidAddress getAddress (opt_address options)) then
        emit (ConsoleError "Invalid Ethereum address" None) ;;
        process_exit 1
      else ret tt) ;;
     resolved <-
       (if String.eqb (opt_block options) "latest" then
          blockInfo <- retryOperation (getBlock provider Latest false)
                         defaultMaxRetries defaultDelay ;;
          match blockInfo with
          | None =>
              throw (Error "Cannot read properties of null (reading 'number')")
          | Some latest => ret (Js.number latest, Some latest)
          end
        else
          let blockNumber := parseInt (opt_block options) in
          (if negb (isValidBlockNumber blockNumber) then
             emit (ConsoleError "Invalid block number" None) ;;
             process_exit 1
           else ret tt) ;;
          match blockNumber with
          | None => ret (0, None) (* not reached: [NaN] is no valid number *)
          | Some blockNumber =>
              blockInfo <- retryOperation
                             (getBlock provider (Height blockNumber) false)
                             defaultMaxRetries defaultDelay ;;
              ret (blockNumber, blockInfo)
          end) ;;
     let blockNumber := fst resolved in
     match snd resolved with
     | None =>
         throw (Error ("Block " ++ opt_block options ++ " not found")%string)
     | Some blockInfo =>
         (if opt_verbose options
          then format_or_throw (Js.timestamp blockInfo)
          else ret tt) ;;
         retryOperation (getBalance provider (opt_address options)
                           (Some blockNumber))
           defaultMaxRetries defaultDelay ;;
         retryOperation (getTransactionCount (opt_address options) blockNumber)
           defaultMaxRetries defaultDelay ;;
         format_or_throw (Js.timestamp blockInfo) ;;
         saveToJson fs (opt_output options)
     end)
    (fun error =>
       emit (ConsoleError "Error:" (Some error)) ;;
       process_exit 1).
End Get.

(** [const totalBlocks = Math.floor((endBlock - startBlock) / interval)
    + 1;] for an interval that is not 0. *)
Definition totalBlocks (startBlock endBlock interval : Z) : Z :=
  (endBlock - startBlock) / interval + 1.

End BalanceFinder.

(* ===================================================================== *)
(** * retryOperation                                                      *)
(* ===================================================================== *)

Module RetryFacts.
Import Utils.

Section Loop.
Context {W A : Type}.
Variable operation : Eff W A.
Variables maxRetries delay : Z.

Lemma retry_loop_step {V : Type} (op : Eff V A) (fuel : nat) (i : Z) :
  retry_loop op maxRetries delay (S fuel) i
  = if i <? maxRetries then
      try_catch op (fun error =>
        if i =? maxRetries - 1 then throw error
        else
          emit (ConsoleLog ("Attempt " ++ toString (i + 1)
                            ++ " failed, retrying in "
                            ++ toString delay ++ "ms...")%string) ;;
          emit (Sleep delay) ;;
          retry_loop op maxRetries delay fuel (i + 1))
    else throw (Error "Max retries exceeded").
Proof. reflexivity. Qed.

Lemma counted_run (w : W) (n : nat) :
  counted operation (w, n)
  = (outcome (operation w), (world (operation w), S n), trace (operation w)).
Proof.
  unfold counted, outcome, world, trace.
  destruct (operation w) as [[r w'] t]; reflexivity.
Qed.

(** A successful attempt ends the loop with its value; the attempts
    before it are the only other invocations. *)
Lemma retry_loop_success (k : nat) :
  forall (fuel : nat) (i : Z) (w : W) (n : nat) (v : A),
    Z.to_nat (maxRetries - i) = fuel ->
    (k < fuel)%nat ->
    (forall j, (j < k)%nat -> exists e, nth_attempt operation w j = Thrown e) ->
    nth_attempt operation w k = Returned v ->
    exists w' tr,
      retry_loop (counted operation) maxRetries delay fuel i (w, n)
      = (Returned v, (w', (n + k + 1)%nat), tr).
Proof.
  induction k as [|k IH]; intros fuel i w n v Hfuel Hk Hfail Hok.
  - destruct fuel as [|fuel]; [lia|]. simpl.
    assert (Hlt : (i <? maxRetries) = true) by (apply Z.ltb_lt; lia).
    rewrite Hlt. unfold try_catch. rewrite counted_run.
    simpl in Hok. rewrite Hok.
    exists (world (operation w)), (trace (operation w)).
    replace (n + 0 + 1)%nat with (S n) by lia. reflexivity.
  - destruct fuel as [|fuel]; [lia|]. simpl.
    assert (Hlt : (i <? maxRetries) = true) by (apply Z.ltb_lt; lia).
    rewrite Hlt. unfold try_catch. rewrite counted_run.
    destruct (Hfail 0%nat) as [e He]; [lia|]. simpl in He. rewrite He.
    assert (Hne : (i =? maxRetries - 1) = false) by (apply Z.eqb_neq; lia).
    rewrite Hne.
    destruct (IH fuel (i + 1) (world (operation w)) (S n) v)
      as (w' & tr & Hrun); try lia.
    + intros j Hj. apply (Hfail (S j)). lia.
    + exact Hok.
    + replace (S n + k + 1)%nat with (n + S k + 1)%nat in Hrun by lia.
      unfold bind, emit. rewrite Hrun. cbv beta iota zeta.
      eauto.
Qed.

(** When every attempt throws, the error of the last one is thrown
    on, after exactly as many invocations as the counter allows. *)
Lemma retry_loop_exhausted (fuel : nat) :
  forall (i : Z) (w : W) (n : nat),
    Z.to_nat (maxRetries - i) = S fuel ->
    (forall j, (j <= fuel)%nat -> exists e, nth_attempt operation w j = Thrown e) ->
    exists e w' tr,
      nth_attempt operation w fuel = Thrown e /\
      retry_loop (counted operation) maxRetries delay (S fuel) i (w, n)
      = (Thrown e, (w', (n + S fuel)%nat), tr).
Proof.
  induction fuel as [|fuel IH]; intros i w n Hfuel Hfail.
  - destruct (Hfail 0%nat) as [e He]; [lia|].
    exists e. simpl.
    assert (Hlt : (i <? maxRetries) = true) by (apply Z.ltb_lt; lia).
    rewrite Hlt. unfold try_catch. rewrite counted_run.
    simpl in He. rewrite He.
    assert (Heq : (i =? maxRetries - 1) = true) by (apply Z.eqb_eq; lia).
    rewrite Heq. unfold throw.
    replace (n + 1)%nat with (S n) by lia. eauto.
  - destruct (Hfail 0%nat) as [e0 He0]; [lia|].
    destruct (IH (i + 1) (world (operation w)) (S n))
      as (e & w' & tr & Hlast & Hrun); try lia.
    { intros j Hj. apply (Hfail (S j)). lia. }
    exists e.
    rewrite retry_loop_step.
    assert (Hlt : (i <? maxRetries) = true) by (apply Z.ltb_lt; lia).
    rewrite Hlt. unfold try_catch. rewrite counted_run.
    simpl in He0. rewrite He0.
    assert (Hne : (i =? maxRetries - 1) = false) by (apply Z.eqb_neq; lia).
    rewrite Hne.
    replace (S n + S fuel)%nat with (n + S (S fuel))%nat in Hrun by lia.
    unfold bind, emit. rewrite Hrun. cbv beta iota zeta.
    eauto.
Qed.

(** The loop invokes the operation at most once per round. *)
Lemma retry_loop_calls (fuel : nat) :
  forall (i : Z) (w : W) (n : nat),
    (n <= snd (world (retry_loop (counted operation) maxRetries delay fuel i (w, n)))
     <= n + fuel)%nat.
Proof.
  induction fuel as [|fuel IH]; intros i w n.
  - simpl. destruct (i <? maxRetries); simpl; lia.
  - simpl. destruct (i <? maxRetries); [|simpl; lia].
    unfold try_catch. rewrite counted_run.
    destruct (outcome (operation w)) eqn:Ho; try (simpl; lia).
    destruct (i =? maxRetries - 1); [simpl; lia|].
    unfold bind, emit.
    specialize (IH (i + 1) (world (operation w)) (S n)).
    destruct (retry_loop (counted operation) maxRetries delay fuel (i + 1)
                (world (operation w), S n)) as [[r wn] t].
    unfold world in *. cbn [fst snd] in *. lia.
Qed.

(** The unrolling chosen by [retryOperation] is long enough: the model
    runs out of fuel only if the operation itself does. *)
Lemma retry_loop_fuel (fuel : nat) :
  forall (i : Z) (w : W),
    (Z.to_nat (maxRetries - i) <= fuel)%nat ->
    (forall w0, outcome (operation w0) <> OutOfFuel) ->
    outcome (retry_loop operation maxRetries delay fuel i w) <> OutOfFuel.
Proof.
  induction fuel as [|fuel IH]; intros i w Hfuel Hop.
  - simpl. destruct (i <? maxRetries) eqn:Hlt.
    + apply Z.ltb_lt in Hlt. lia.
    + discriminate.
  - rewrite retry_loop_step.
    destruct (i <? maxRetries) eqn:Hlt; [|discriminate].
    apply Z.ltb_lt in Hlt.
    unfold try_catch.
    pose proof (Hop w) as Hw. unfold outcome in Hw.
    destruct (operation w) as [[r w1] t1]. cbn [fst] in Hw.
    destruct r; try (cbn; congruence).
    destruct (i =? maxRetries - 1); [discriminate|].
    unfold bind, emit.
    assert (Hrec : (Z.to_nat (maxRetries - (i + 1)) <= fuel)%nat) by lia.
    pose proof (IH (i + 1) w1 Hrec Hop) as IH'.
    destruct (retry_loop operation maxRetries delay fuel (i + 1) w1)
      as [[r' w'] t'].
    exact IH'.
Qed.
End Loop.
End RetryFacts.

Section RetryOperation.
Import Utils RetryFacts.
Context {W A : Type}.
Variable operation : Eff W A.

(** Observing the operation does not change what [retryOperation]
    does with it. *)
Lemma retry_loop_counted (maxRetries delay : Z) (fuel : nat) :
  forall (i : Z) (w : W) (n : nat),
    let spied := retry_loop (counted operation) maxRetries delay fuel i (w, n) in
    let plain := retry_loop operation maxRetries delay fuel i w in
    outcome spied = outcome plain /\
    fst (world spied) = world plain /\
    trace spied = trace plain.
Proof.
  induction fuel as [|fuel IH]; intros i w n.
  - cbn. destruct (i <? maxRetries); cbn; auto.
  - cbv zeta. rewrite !retry_loop_step.
    destruct (i <? maxRetries); [|cbn; auto].
    unfold try_catch. rewrite counted_run.
    unfold outcome, world, trace.
    destruct (operation w) as [[r w1] t1]. cbn [fst snd].
    destruct r; cbn [fst snd]; auto.
    destruct (i =? maxRetries - 1); [cbn; auto|].
    unfold bind, emit.
    specialize (IH (i + 1) w1 (S n)). cbv zeta in IH.
    unfold outcome, world, trace in IH.
    destruct (retry_loop (counted operation) maxRetries delay fuel (i + 1) (w1, S n))
      as [[r2 w2] t2].
    destruct (retry_loop operation maxRetries delay fuel (i + 1) w1)
      as [[r3 w3] t3].
    cbn [fst snd] in *. destruct IH as (-> & -> & ->). auto.
Qed.

(** C2.  With [maxRetries = 3], if one of the first three attempts
    returns a value (the attempts before it having thrown), then
    [retryOperation] returns that value, after invoking the operation
    exactly up to that attempt; whatever [maxRetries >= 1] is, if all
    [maxRetries] attempts throw, [retryOperation] throws the error of the
    last attempt, after [maxRetries] invocations; and in every case the
    operation is invoked at most [maxRetries] times.  Invocations are
    counted by running the same code on the observed operation
    [counted operation]. *)
Theorem retryOperation_bounded_retry (delay : Z) (w : W) :
  (forall (k : nat) (v : A),
      (k < 3)%nat ->
      (forall j, (j < k)%nat -> exists e, nth_attempt operation w j = Thrown e) ->
      nth_attempt operation w k = Returned v ->
      outcome (retryOperation operation 3 delay w) = Returned v /\
      snd (world (retryOperation (counted operation) 3 delay (w, 0%nat)))
      = S k)
  /\ (forall (maxRetries : Z),
      1 <= maxRetries ->
      (forall j, Z.of_nat j < maxRetries ->
                 exists e, nth_attempt operation w j = Thrown e) ->
      exists e,
        nth_attempt operation w (Z.to_nat (maxRetries - 1)) = Thrown e /\
        outcome (retryOperation operation maxRetries delay w) = Thrown e /\
        snd (world (retryOperation (counted operation) maxRetries delay (w, 0%nat)))
        = Z.to_nat maxRetries)
  /\ (forall (maxRetries : Z),
      (snd (world (retryOperation (counted operation) maxRetries delay (w, 0%nat)))
       <= Z.to_nat maxRetries)%nat).
Proof.
  split; [|split].
  - intros k v Hk Hfail Hok.
    destruct (retry_loop_success operation 3 delay k (Z.to_nat 3) 0 w 0%nat v)
      as (w' & tr & Hrun); auto; try lia.
    pose proof (retry_loop_counted 3 delay (Z.to_nat 3) 0 w 0%nat) as Hc.
    cbv zeta in Hc. destruct Hc as (Ho & _ & _).
    unfold retryOperation. rewrite <- Ho, Hrun.
    unfold outcome, world. cbn [fst snd]. split; [reflexivity|lia].
  - intros maxRetries Hpos Hfail.
    destruct (Z.to_nat maxRetries) as [|fuel] eqn:Hfuel; [lia|].
    destruct (retry_loop_exhausted operation maxRetries delay fuel 0 w 0%nat)
      as (e & w' & tr & Hlast & Hrun).
    + rewrite Z.sub_0_r. exact Hfuel.
    + intros j Hj. apply Hfail. lia.
    + exists e.
      pose proof (retry_loop_counted maxRetries delay (S fuel) 0 w 0%nat) as Hc.
      cbv zeta in Hc. destruct Hc as (Ho & _ & _).
      unfold retryOperation. rewrite Hfuel, <- Ho, Hrun.
      replace (Z.to_nat (maxRetries - 1)) with fuel by lia.
      unfold outcome, world. cbn [fst snd]. auto.
  - intros maxRetries. unfold retryOperation.
    pose proof (retry_loop_calls operation maxRetries delay
                  (Z.to_nat maxRetries) 0 w 0%nat).
    lia.
Qed.

(** C10.  With [maxRetries <= 0] the loop body is never entered:
    [retryOperation] throws [Error('Max retries exceeded')], leaves the
    world as it was and does nothing observable; the operation, when
    observed, is found not to have been invoked. *)
Theorem retryOperation_without_attempt (maxRetries delay : Z) (w : W) :
  maxRetries <= 0 ->
  retryOperation operation maxRetries delay w
  = (Thrown (Error "Max retries exceeded"), w, [])
  /\ forall n : nat,
      world (retryOperation (counted operation) maxRetries delay (w, n))
      = (w, n).
Proof.
  intros Hle. unfold retryOperation.
  replace (Z.to_nat maxRetries) with 0%nat by lia.
  assert (Hlt : (0 <? maxRetries) = false) by (apply Z.ltb_ge; lia).
  split; [|intros n]; cbn [retry_loop]; rewrite Hlt; reflexivity.
Qed.
End RetryOperation.

Lemma retryOperation_bounded_retry_witness :
  outcome (Utils.retryOperation Sample.flaky 3 1000 0%nat) = Returned 42
  /\ snd (world (Utils.retryOperation (counted Sample.flaky) 3 1000 (0%nat, 0%nat)))
     = 3%nat.
Proof.
  apply (proj1 (retryOperation_bounded_retry Sample.flaky 1000 0%nat) 2%nat 42).
  - lia.
  - intros j Hj.
    destruct j as [|[|j]]; [exists (Error "timeout"); reflexivity ..|lia].
  - reflexivity.
Defined.

Lemma retryOperation_without_attempt_witness :
  Utils.retryOperation Sample.flaky 0 1000 0%nat
  = (Thrown (Error "Max retries exceeded"), 0%nat, []).
Proof.
  apply (proj1 (retryOperation_without_attempt Sample.flaky 0 1000 0%nat
                  (Z.le_refl 0))).
Defined.

(* ===================================================================== *)
(** * findBlockByTimestamp                                                *)
(* ===================================================================== *)

Module TraceFacts.

Lemma round_trips_app (t1 t2 : list Event) :
  round_trips (t1 ++ t2) = round_trips t1 ++ round_trips t2.
Proof.
  induction t1 as [|ev t1 IH]; [reflexivity|].
  destruct ev; cbn [round_trips app]; rewrite IH; reflexivity.
Qed.

Lemma repeat_snoc {X : Type} (x : X) (k : nat) :
  x :: repeat x k = repeat x k ++ [x].
Proof.
  induction k as [|k IH]; [reflexivity|].
  cbn [repeat app]. rewrite <- IH. reflexivity.
Qed.

Section RoundTrip.
Import Utils RetryFacts.
Context {W A : Type}.
Variable c : RpcCall.
Variable reply : W -> Settled A * W.
Variables maxRetries delay : Z.

Lemma round_trip_run (w : W) :
  round_trips (trace (round_trip c reply w)) = [c] /\
  ((exists a, outcome (round_trip c reply w) = Returned a) \/
   (exists e, outcome (round_trip c reply w) = Thrown e)).
Proof.
  unfold round_trip, outcome, trace.
  destruct (reply w) as [[a|e] w']; cbn; eauto.
Qed.

(** [retryOperation] around one kind of round trip makes that round
    trip between one and [maxRetries] times and nothing else on the
    wire; it returns or throws. *)
Lemma retry_round_trip (fuel : nat) :
  forall (i : Z) (w : W),
    (Z.to_nat (maxRetries - i) <= fuel)%nat ->
    let run := retry_loop (round_trip c reply) maxRetries delay fuel i w in
    (exists k, (k <= Z.to_nat (maxRetries - i))%nat /\
               (i < maxRetries -> (1 <= k)%nat) /\
               round_trips (trace run) = repeat c k) /\
    ((exists a, outcome run = Returned a) \/ (exists e, outcome run = Thrown e)).
Proof.
  induction fuel as [|fuel IH]; intros i w Hfuel; cbv zeta.
  - cbn [retry_loop]. destruct (i <? maxRetries) eqn:Hlt.
    + apply Z.ltb_lt in Hlt. lia.
    + apply Z.ltb_ge in Hlt. split.
      * exists 0%nat. split; [lia|split; [lia|reflexivity]].
      * right. eexists. reflexivity.
  - rewrite retry_loop_step. destruct (i <? maxRetries) eqn:Hlt.
    + apply Z.ltb_lt in Hlt.
      destruct (round_trip_run w) as [Htr Hout].
      unfold try_catch. unfold outcome, trace in *.
      destruct (round_trip c reply w) as [[r w1] t1]. cbn [fst snd] in *.
      destruct Hout as [[a ->]|[e ->]].
      * cbn [fst snd]. split.
        -- exists 1%nat. split; [lia|split; [lia|exact Htr]].
        -- left. eexists. reflexivity.
      * destruct (i =? maxRetries - 1) eqn:Hlast.
        -- unfold throw. cbn [fst snd]. rewrite app_nil_r. split.
           ++ exists 1%nat. split; [lia|split; [lia|exact Htr]].
           ++ right. eexists. reflexivity.
        -- apply Z.eqb_neq in Hlast.
           unfold bind, emit.
           assert (Hrec : (Z.to_nat (maxRetries - (i + 1)) <= fuel)%nat) by lia.
           specialize (IH (i + 1) w1 Hrec). cbv zeta in IH.
           unfold outcome, trace in IH.
           destruct (retry_loop (round_trip c reply) maxRetries delay fuel (i + 1) w1)
             as [[r2 w2] t2].
           cbn [fst snd] in *.
           destruct IH as [(k & Hk & _ & Hrt) Hout]. split; [|exact Hout].
           exists (S k). split; [lia|split; [lia|]].
           rewrite !round_trips_app, Htr, Hrt. reflexivity.
    + apply Z.ltb_ge in Hlt. cbn. split.
      * exists 0%nat. split; [lia|split; [lia|reflexivity]].
      * right. eexists. reflexivity.
Qed.

(** A value returned by the retried round trip is one the endpoint
    delivered. *)
Lemma retry_round_trip_value (fuel : nat) :
  forall (i : Z) (w : W) (a : A),
    outcome (retry_loop (round_trip c reply) maxRetries delay fuel i w)
    = Returned a ->
    exists w0 w0', reply w0 = (Fulfilled a, w0').
Proof.
  induction fuel as [|fuel IH]; intros i w a.
  - cbn [retry_loop]. destruct (i <? maxRetries); discriminate.
  - rewrite retry_loop_step. destruct (i <? maxRetries); [|discriminate].
    unfold try_catch, round_trip.
    destruct (reply w) as [[a0|e] w1] eqn:Hreply.
    + cbn. intros [= ->]. eauto.
    + destruct (i =? maxRetries - 1); [discriminate|].
      unfold bind, emit. cbv beta iota zeta.
      specialize (IH (i + 1) w1 a).
      fold (round_trip c reply) in *. unfold outcome in *.
      destruct (retry_loop (round_trip c reply) maxRetries delay fuel (i + 1) w1)
        as [[r2 w2] t2].
      cbn [fst snd] in *. exact IH.
Qed.
End RoundTrip.
End TraceFacts.

Module FinderFacts.
Import Utils BlockFinder TraceFacts.

Section Search.
Context {W : Type} (provider : Provider W).
Variable targetTimestamp : Z.
Variable verbose : bool.

Lemma say_run (line : string) (w : W) :
  say verbose line w
  = (Returned tt, w, if verbose then [ConsoleLog line] else []).
Proof. unfold say, when, emit, ret. destruct verbose; reflexivity. Qed.

Lemma round_trips_say (line : string) :
  round_trips (if verbose then [ConsoleLog line] else []) = [].
Proof. destruct verbose; reflexivity. Qed.

Lemma probe_run (m : Z) (w : W) :
  (exists k, (1 <= k <= 3)%nat /\
             round_trips (trace (probe provider m w))
             = repeat (GetBlock (Height m) false) k) /\
  ((exists a, outcome (probe provider m w) = Returned a) \/
   (exists e, outcome (probe provider m w) = Thrown e)).
Proof.
  pose proof (retry_round_trip (GetBlock (Height m) false)
                (eth_getBlock provider (Height m) false)
                defaultMaxRetries defaultDelay
                (Z.to_nat defaultMaxRetries) 0 w) as H.
  cbv zeta in H. destruct H as [(k & Hk & Hk1 & Hrt) Hout].
  - unfold defaultMaxRetries. lia.
  - split; [|exact Hout].
    exists k. unfold defaultMaxRetries in *. split; [lia|exact Hrt].
Qed.

(** One round of the loop: a probe at the midpoint, then either the
    move to one half of the range or the [break]. *)
Lemma search_round_run (st : Locals) (w : W) :
  let m := (low st + high st) / 2 in
  exists tr,
    round_trips tr = round_trips (trace (probe provider m w)) /\
    search_round provider targetTimestamp verbose st w
    = (Returned (match outcome (probe provider m w) with
                 | Returned (Some block) => Next (advance targetTimestamp st block)
                 | _ => Break st
                 end),
       world (probe provider m w), tr).
Proof.
  cbv zeta.
  destruct (probe_run ((low st + high st) / 2) w) as [_ Hout].
  unfold search_round, bind, try_catch. rewrite !say_run.
  fold (probe provider ((low st + high st) / 2)).
  unfold outcome, world, trace in *.
  destruct (probe provider ((low st + high st) / 2) w) as [[r w1] t1].
  cbn [fst snd] in *.
  destruct Hout as [[[block|] ->]|[e ->]].
  - rewrite say_run. unfold advance.
    destruct (Js.timestamp block <? targetTimestamp);
      rewrite !say_run; unfold ret; cbv beta iota zeta;
      rewrite !say_run; cbv beta iota zeta;
      (eexists; split; [|reflexivity]);
      rewrite ?round_trips_app, ?round_trips_say, ?app_nil_r;
      reflexivity.
  - unfold throw, emit, ret. cbv beta iota zeta.
    eexists; split; [|reflexivity].
    rewrite ?round_trips_app, ?round_trips_say, ?app_nil_r. reflexivity.
  - unfold emit, ret. cbv beta iota zeta.
    eexists; split; [|reflexivity].
    rewrite ?round_trips_app, ?round_trips_say, ?app_nil_r. reflexivity.
Qed.

Lemma search_loop_step (fuel : nat) (st : Locals) :
  search_loop provider targetTimestamp verbose (S fuel) st
  = if (low st <=? high st) && (iterations st <? maxIterations) then
      r <- search_round provider targetTimestamp verbose st ;;
      match r with
      | Next st' => search_loop provider targetTimestamp verbose fuel st'
      | Break st' => ret st'
      end
    else ret st.
Proof. reflexivity. Qed.

Lemma midpoint_between (lo hi : Z) :
  lo <= hi -> lo <= (lo + hi) / 2 <= hi.
Proof.
  intros H. split.
  - apply Z.div_le_lower_bound; lia.
  - apply Z.div_le_upper_bound; lia.
Qed.

Lemma advance_shrinks (st : Locals) (block : Block) :
  low st <= high st ->
  low st <= low (advance targetTimestamp st block) /\
  high (advance targetTimestamp st block) <= high st /\
  iterations (advance targetTimestamp st block) = iterations st + 1.
Proof.
  intros H. pose proof (midpoint_between _ _ H).
  unfold advance. destruct (Js.timestamp block <? targetTimestamp);
    cbn [low high iterations]; lia.
Qed.

(** The wire traffic of the loop is that of a list of probes: no more
    of them than the iteration budget that is left, each at a height
    inside the current range. *)
Lemma search_loop_probes (fuel : nat) :
  forall (st : Locals) (w : W),
    exists probes : list Probe,
      (List.length probes <= Z.to_nat (maxIterations - iterations st))%nat /\
      Forall (fun p => (1 <= attempts p <= 3)%nat /\
                       low st <= mid p <= high st) probes /\
      round_trips (trace (search_loop provider targetTimestamp verbose fuel st w))
      = flat_map probe_calls probes.
Proof.
  induction fuel as [|fuel IH]; intros st w.
  - exists []. cbn [search_loop].
    destruct ((low st <=? high st) && (iterations st <? maxIterations));
      cbn; auto with arith.
  - rewrite search_loop_step.
    destruct ((low st <=? high st) && (iterations st <? maxIterations)) eqn:Hcond.
    + apply andb_true_iff in Hcond. destruct Hcond as [Hrange Hiter].
      apply Z.leb_le in Hrange. apply Z.ltb_lt in Hiter.
      pose proof (midpoint_between _ _ Hrange) as Hmid.
      destruct (search_round_run st w) as (tr & Htr & Hround).
      destruct (probe_run ((low st + high st) / 2) w) as [(k & Hk & Hcalls) _].
      unfold bind. rewrite Hround.
      set (this := {| mid := (low st + high st) / 2; attempts := k |}).
      destruct (outcome (probe provider ((low st + high st) / 2) w))
        as [[block|]|e| |].
      * destruct (advance_shrinks st block Hrange) as (Hlo & Hhi & Hit).
        destruct (IH (advance targetTimestamp st block)
                     (world (probe provider ((low st + high st) / 2) w)))
          as (probes & Hlen & Hall & Hrt).
        unfold trace in *.
        destruct (search_loop provider targetTimestamp verbose fuel
                    (advance targetTimestamp st block)
                    (world (probe provider ((low st + high st) / 2) w)))
          as [[r2 w2] t2].
        cbn [fst snd] in *.
        exists (this :: probes). split; [|split].
        -- cbn [List.length]. rewrite Hit in Hlen. lia.
        -- constructor.
           ++ cbn [mid attempts this]. lia.
           ++ eapply Forall_impl; [|exact Hall].
              cbv beta. intros p Hp. lia.
        -- rewrite round_trips_app, Htr, Hcalls, Hrt. reflexivity.
      * exists [this]. unfold ret, trace. cbv beta iota zeta.
        cbn [fst snd]. split; [|split].
        -- cbn [List.length]. lia.
        -- constructor; [|constructor]. cbn [mid attempts this]. lia.
        -- rewrite round_trips_app, Htr, Hcalls.
           cbn. rewrite !app_nil_r. reflexivity.
      * exists [this]. unfold ret, trace. cbv beta iota zeta.
        cbn [fst snd]. split; [|split].
        -- cbn [List.length]. lia.
        -- constructor; [|constructor]. cbn [mid attempts this]. lia.
        -- rewrite round_trips_app, Htr, Hcalls.
           cbn. rewrite !app_nil_r. reflexivity.
      * exists [this]. unfold ret, trace. cbv beta iota zeta.
        cbn [fst snd]. split; [|split].
        -- cbn [List.length]. lia.
        -- constructor; [|constructor]. cbn [mid attempts this]. lia.
        -- rewrite round_trips_app, Htr, Hcalls.
           cbn. rewrite !app_nil_r. reflexivity.
      * exists [this]. unfold ret, trace. cbv beta iota zeta.
        cbn [fst snd]. split; [|split].
        -- cbn [List.length]. lia.
        -- constructor; [|constructor]. cbn [mid attempts this]. lia.
        -- rewrite round_trips_app, Htr, Hcalls.
           cbn. rewrite !app_nil_r. reflexivity.
    + exists []. cbn. auto with arith.
Qed.

(** Unrolled as often as the iteration budget allows, the loop
    returns. *)
Lemma search_loop_returns (fuel : nat) :
  forall (st : Locals) (w : W),
    (Z.to_nat (maxIterations - iterations st) <= fuel)%nat ->
    exists st',
      outcome (search_loop provider targetTimestamp verbose fuel st w)
      = Returned st'.
Proof.
  induction fuel as [|fuel IH]; intros st w Hfuel.
  - cbn [search_loop].
    destruct (iterations st <? maxIterations) eqn:Hiter.
    + apply Z.ltb_lt in Hiter. lia.
    + rewrite andb_false_r. eexists. reflexivity.
  - rewrite search_loop_step.
    destruct ((low st <=? high st) && (iterations st <? maxIterations)) eqn:Hcond.
    + apply andb_true_iff in Hcond. destruct Hcond as [Hrange Hiter].
      apply Z.leb_le in Hrange. apply Z.ltb_lt in Hiter.
      destruct (search_round_run st w) as (tr & _ & Hround).
      unfold bind. rewrite Hround.
      destruct (outcome (probe provider ((low st + high st) / 2) w))
        as [[block|]|e| |]; try (eexists; reflexivity).
      destruct (advance_shrinks st block Hrange) as (_ & _ & Hit).
      destruct (IH (advance targetTimestamp st block)
                   (world (probe provider ((low st + high st) / 2) w)))
        as (st' & Hst'); [rewrite Hit; lia|].
      unfold outcome in *.
      destruct (search_loop provider targetTimestamp verbose fuel
                  (advance targetTimestamp st block)
                  (world (probe provider ((low st + high st) / 2) w)))
        as [[r2 w2] t2].
      cbn [fst snd] in *. eauto.
    + eexists. reflexivity.
Qed.

Lemma probe_delivers (m : Z) (w : W) (b : Block) :
  answers_what_is_asked provider ->
  outcome (probe provider m w) = Returned (Some b) ->
  Js.number b = m.
Proof.
  intros Hhonest Hout.
  apply retry_round_trip_value in Hout.
  destruct Hout as (w0 & w0' & Hreply).
  exact (Hhonest _ _ _ _ _ Hreply).
Qed.

Lemma search_loop_result_within (lo hi : Z) (fuel : nat) :
  answers_what_is_asked provider ->
  forall (st : Locals) (w : W) (st' : Locals),
    lo <= low st -> high st <= hi ->
    result_within lo hi st ->
    outcome (search_loop provider targetTimestamp verbose fuel st w)
    = Returned st' ->
    result_within lo hi st'.
Proof.
  intros Hhonest.
  induction fuel as [|fuel IH]; intros st w st' Hlo Hhi Hres.
  - cbn [search_loop].
    destruct ((low st <=? high st) && (iterations st <? maxIterations));
      [discriminate|].
    cbn. intros [= <-]. exact Hres.
  - rewrite search_loop_step.
    destruct ((low st <=? high st) && (iterations st <? maxIterations)) eqn:Hcond.
    + apply andb_true_iff in Hcond. destruct Hcond as [Hrange Hiter].
      apply Z.leb_le in Hrange.
      pose proof (midpoint_between _ _ Hrange) as Hmid.
      destruct (search_round_run st w) as (tr & _ & Hround).
      unfold bind. rewrite Hround.
      destruct (outcome (probe provider ((low st + high st) / 2) w))
        as [[block|]|e| |] eqn:Hprobe;
        try (cbn; intros [= <-]; exact Hres).
      pose proof (probe_delivers _ _ _ Hhonest Hprobe) as Hnum.
      destruct (advance_shrinks st block Hrange) as (Hlo' & Hhi' & _).
      specialize (IH (advance targetTimestamp st block)
                     (world (probe provider ((low st + high st) / 2) w)) st').
      unfold outcome in *.
      destruct (search_loop provider targetTimestamp verbose fuel
                  (advance targetTimestamp st block)
                  (world (probe provider ((low st + high st) / 2) w)))
        as [[r2 w2] t2].
      cbn [fst snd] in *. apply IH; try lia.
      unfold result_within, advance.
      destruct (Js.timestamp block <? targetTimestamp); cbn [result number].
      * exact Hres.
      * lia.
    + cbn. intros [= <-]. exact Hres.
Qed.

(** Once the unrolling covers the iteration budget, its length no
    longer matters. *)
Lemma search_loop_fuel_irrelevant (fuel1 : nat) :
  forall (fuel2 : nat) (st : Locals) (w : W),
    (Z.to_nat (maxIterations - iterations st) <= fuel1)%nat ->
    (Z.to_nat (maxIterations - iterations st) <= fuel2)%nat ->
    search_loop provider targetTimestamp verbose fuel1 st w
    = search_loop provider targetTimestamp verbose fuel2 st w.
Proof.
  induction fuel1 as [|fuel1 IH]; intros fuel2 st w H1 H2.
  - destruct fuel2 as [|fuel2]; [reflexivity|].
    rewrite search_loop_step. cbn [search_loop].
    destruct (iterations st <? maxIterations) eqn:Hiter.
    + apply Z.ltb_lt in Hiter. lia.
    + rewrite andb_false_r. reflexivity.
  - destruct fuel2 as [|fuel2].
    + rewrite search_loop_step. cbn [search_loop].
      destruct (iterations st <? maxIterations) eqn:Hiter.
      * apply Z.ltb_lt in Hiter. lia.
      * rewrite andb_false_r. reflexivity.
    + rewrite !search_loop_step.
      destruct ((low st <=? high st) && (iterations st <? maxIterations)) eqn:Hcond;
        [|reflexivity].
      apply andb_true_iff in Hcond. destruct Hcond as [Hrange Hiter].
      apply Z.leb_le in Hrange. apply Z.ltb_lt in Hiter.
      destruct (search_round_run st w) as (tr & _ & Hround).
      unfold bind. rewrite Hround.
      destruct (outcome (probe provider ((low st + high st) / 2) w))
        as [[block|]|e| |]; try reflexivity.
      destruct (advance_shrinks st block Hrange) as (_ & _ & Hit).
      rewrite (IH fuel2); [reflexivity|rewrite Hit; lia|rewrite Hit; lia].
Qed.

(** The function around the loop adds console lines only. *)
Lemma findBlockByTimestamp_run (fuel : nat) (lo hi : Z) (w : W) (st' : Locals) :
  let loop := search_loop provider targetTimestamp verbose fuel
                {| low := lo; high := hi; result := None; iterations := 0 |} w in
  outcome loop = Returned st' ->
  exists tr,
    round_trips tr = round_trips (trace loop) /\
    findBlockByTimestamp fuel provider targetTimestamp lo hi verbose w
    = (Returned (result st'), world loop, tr).
Proof.
  cbv zeta. intros Hout.
  unfold findBlockByTimestamp, bind. rewrite say_run.
  unfold outcome, world, trace in *.
  destruct (search_loop provider targetTimestamp verbose fuel
              {| low := lo; high := hi; result := None; iterations := 0 |} w)
    as [[r w1] t1].
  cbn [fst snd] in *. subst r.
  rewrite say_run. unfold ret. cbv beta iota zeta.
  eexists. split; [|reflexivity].
  rewrite ?round_trips_app, ?round_trips_say, ?app_nil_r. reflexivity.
Qed.

Section Chain.
Variable ts : Z -> Z.
Variables lo hi : Z.
Hypothesis Hmono : monotone ts lo hi.
Hypothesis Hserves : serves provider ts lo hi.

Lemma search_loop_leftmost (fuel : nat) :
  forall (st : Locals) (w : W),
    (Z.to_nat (maxIterations - iterations st) <= fuel)%nat ->
    lo <= low st -> low st <= high st + 1 -> high st <= hi ->
    high st - low st + 1 < 2 ^ (maxIterations - iterations st) ->
    (forall n, lo <= n < low st -> ts n < targetTimestamp) ->
    candidate targetTimestamp ts hi st ->
    exists st',
      outcome (search_loop provider targetTimestamp verbose fuel st w)
      = Returned st' /\ leftmost targetTimestamp ts lo hi (result st').
Proof.
  assert (Hdone : forall st,
             lo <= low st -> low st <= high st + 1 -> high st <= hi ->
             high st - low st + 1 < 2 ^ (maxIterations - iterations st) ->
             (forall n, lo <= n < low st -> ts n < targetTimestamp) ->
             candidate targetTimestamp ts hi st ->
             (low st <=? high st) && (iterations st <? maxIterations) = false ->
             leftmost targetTimestamp ts lo hi (result st)).
  { intros st Hlo Hle Hhi Hsize Hbelow Hcand Hcond.
    assert (Hempty : high st < low st).
    { apply andb_false_iff in Hcond. destruct Hcond as [H|H].
      - apply Z.leb_gt in H. lia.
      - apply Z.ltb_ge in H.
        assert (2 ^ (maxIterations - iterations st) <= 1).
        { destruct (Z.eq_dec (maxIterations - iterations st) 0) as [->|Hne].
          - cbn. lia.
          - rewrite Z.pow_neg_r by lia. lia. }
        lia. }
    unfold Run.candidate, Run.leftmost in *.
    destruct (result st) as [b|].
    - destruct Hcand as (Hnum & Hlt & Hts & Hreach).
      repeat split; try lia. intros n Hn. apply Hbelow. lia.
    - intros n Hn. apply Hbelow. lia. }
  induction fuel as [|fuel IH];
    intros st w Hfuel Hlo Hle Hhi Hsize Hbelow Hcand.
  - cbn [search_loop].
    destruct ((low st <=? high st) && (iterations st <? maxIterations)) eqn:Hcond.
    + apply andb_true_iff in Hcond. destruct Hcond as [_ Hiter].
      apply Z.ltb_lt in Hiter. lia.
    + eexists. split; [reflexivity|]. now apply Hdone.
  - rewrite search_loop_step.
    destruct ((low st <=? high st) && (iterations st <? maxIterations)) eqn:Hcond.
    + apply andb_true_iff in Hcond. destruct Hcond as [Hrange Hiter].
      apply Z.leb_le in Hrange. apply Z.ltb_lt in Hiter.
      pose proof (midpoint_between _ _ Hrange) as Hmid.
      destruct (search_round_run st w) as (tr & _ & Hround).
      unfold bind. rewrite Hround.
      destruct (Hserves ((low st + high st) / 2) w) as (block & Hout & Hnum & Hts);
        [lia|].
      fold (probe provider ((low st + high st) / 2)) in Hout.
      rewrite Hout.
      assert (Hpow : 2 ^ (maxIterations - iterations st)
                     = 2 * 2 ^ (maxIterations - (iterations st + 1))).
      { replace (maxIterations - iterations st)
          with (Z.succ (maxIterations - (iterations st + 1))) by lia.
        rewrite Z.pow_succ_r by lia. reflexivity. }
      destruct (IH (advance targetTimestamp st block)
                   (world (probe provider ((low st + high st) / 2) w)))
        as (st' & Hst' & Hleft).
      * unfold advance.
        destruct (Js.timestamp block <? targetTimestamp);
          cbn [iterations]; lia.
      * unfold advance.
        destruct (Js.timestamp block <? targetTimestamp); cbn [low]; lia.
      * unfold advance.
        destruct (Js.timestamp block <? targetTimestamp); cbn [low high]; lia.
      * unfold advance.
        destruct (Js.timestamp block <? targetTimestamp); cbn [high]; lia.
      * rewrite Hpow in Hsize. unfold advance.
        destruct (Js.timestamp block <? targetTimestamp);
          cbn [low high iterations];
          remember (2 ^ (maxIterations - (iterations st + 1))) as budget;
          clear Hpow Heqbudget; Z.div_mod_to_equations; lia.
      * unfold advance.
        destruct (Js.timestamp block <? targetTimestamp) eqn:Hcmp;
          cbn [low]; intros n Hn.
        -- apply Z.ltb_lt in Hcmp. rewrite Hts in Hcmp.
           assert (ts n <= ts ((low st + high st) / 2))
             by (apply Hmono; lia).
           lia.
        -- apply Hbelow. lia.
      * unfold advance, Run.candidate in *.
        destruct (Js.timestamp block <? targetTimestamp) eqn:Hcmp;
          cbn [result high number timestamp].
        -- exact Hcand.
        -- apply Z.ltb_ge in Hcmp. rewrite Hnum, Hts. lia.
      * unfold outcome in *.
        destruct (search_loop provider targetTimestamp verbose fuel
                    (advance targetTimestamp st block)
                    (world (probe provider ((low st + high st) / 2) w)))
          as [[r2 w2] t2].
        cbn [fst snd] in *. exists st'. split; [exact Hst'|exact Hleft].
    + eexists. split; [reflexivity|]. now apply Hdone.
Qed.
End Chain.
End Search.
End FinderFacts.

Section FindBlockByTimestamp.
Import Utils BlockFinder TraceFacts FinderFacts.
Context {W : Type} (provider : Provider W).
Variables (targetTimestamp : Z) (verbose : bool).

(** C6.  Whatever the range [low, high], and whatever the endpoint does,
    [findBlockByTimestamp] returns, and all its traffic is that of at
    most 50 probes: each probe is [retryOperation] around [getBlock] at
    one midpoint, that is between one and three [getBlock] round trips
    for that height, so that at most 150 round trips are made in all.
    (The unrolling [fuel] of the loop may be any number from 50 on.) *)
Theorem findBlockByTimestamp_probe_ceiling (fuel : nat) (low high : Z) (w : W) :
  (Z.to_nat maxIterations <= fuel)%nat ->
  let run := findBlockByTimestamp fuel provider targetTimestamp low high
               verbose w in
  (exists r, outcome run = Returned r) /\
  (exists probes : list Probe,
      (List.length probes <= 50)%nat /\
      Forall (fun p => (1 <= attempts p <= 3)%nat) probes /\
      round_trips (trace run) = flat_map probe_calls probes) /\
  (List.length (round_trips (trace run)) <= 150)%nat.
Proof.
  intros Hfuel. cbv zeta.
  set (st0 := {| low := low; high := high; result := None; iterations := 0 |}).
  destruct (search_loop_returns provider targetTimestamp verbose fuel st0 w)
    as (st' & Hst'); [exact Hfuel|].
  destruct (findBlockByTimestamp_run provider targetTimestamp verbose
              fuel low high w st' Hst') as (tr & Htr & Hrun).
  destruct (search_loop_probes provider targetTimestamp verbose fuel st0 w)
    as (probes & Hlen & Hall & Hrt).
  rewrite Hrun. unfold outcome, trace. cbn [fst snd].
  assert (Hlen50 : (List.length probes <= 50)%nat).
  { cbn [iterations st0] in Hlen. unfold maxIterations in Hlen. lia. }
  assert (Hattempts : Forall (fun p => (1 <= attempts p <= 3)%nat) probes).
  { eapply Forall_impl; [|exact Hall]. cbv beta. tauto. }
  split; [eauto|]. split.
  - exists probes. split; [exact Hlen50|]. split; [exact Hattempts|].
    rewrite Htr. exact Hrt.
  - rewrite Htr. fold st0. rewrite Hrt.
    assert (Hsum : (List.length (flat_map probe_calls probes)
                    <= 3 * List.length probes)%nat).
    { clear - Hattempts.
      induction Hattempts as [|p probes Hp _ IH]; [cbn; lia|].
      cbn [flat_map List.length]. rewrite length_app.
      unfold probe_calls at 1. rewrite repeat_length.
      cbv beta in Hp. lia. }
    lia.
Qed.

(** C9, as amended.  Every [getBlock] round trip of the search asks for
    a height inside the range [low0, high0] the caller gave, whatever the
    endpoint does; and when the endpoint answers a request for a height
    with the block of that height, a non-null result has its block number
    inside [low0, high0].  (With [low0 > high0] nothing is probed and the
    result is [null].) *)
Theorem findBlockByTimestamp_stays_in_range (fuel : nat) (low0 high0 : Z) (w : W) :
  (Z.to_nat maxIterations <= fuel)%nat ->
  let run := findBlockByTimestamp fuel provider targetTimestamp low0 high0
               verbose w in
  (forall c, In c (round_trips (trace run)) ->
             exists m, c = GetBlock (Height m) false /\ low0 <= m <= high0) /\
  (answers_what_is_asked provider ->
   exists r, outcome run = Returned r /\
             match r with
             | Some b => low0 <= number b <= high0
             | None => True
             end).
Proof.
  intros Hfuel. cbv zeta.
  set (st0 := {| low := low0; high := high0; result := None; iterations := 0 |}).
  destruct (search_loop_returns provider targetTimestamp verbose fuel st0 w)
    as (st' & Hst'); [exact Hfuel|].
  destruct (findBlockByTimestamp_run provider targetTimestamp verbose
              fuel low0 high0 w st' Hst') as (tr & Htr & Hrun).
  destruct (search_loop_probes provider targetTimestamp verbose fuel st0 w)
    as (probes & _ & Hall & Hrt).
  rewrite Hrun. unfold outcome, trace. cbn [fst snd]. split.
  - intros c Hc. rewrite Htr in Hc. fold st0 in Hc. rewrite Hrt in Hc.
    apply in_flat_map in Hc. destruct Hc as (p & Hp & Hc).
    apply repeat_spec in Hc.
    rewrite Forall_forall in Hall. specialize (Hall p Hp).
    cbn [low high st0] in Hall.
    exists (mid p). split; [exact Hc|lia].
  - intros Hhonest. exists (result st'). split; [reflexivity|].
    apply (search_loop_result_within provider targetTimestamp verbose
             low0 high0 fuel Hhonest st0 w st'); cbn; auto; lia.
Qed.

(** C1, as amended.  Over a chain whose timestamps do not decrease on
    [low0, high0], with an endpoint that delivers every block of that
    range within the retries, and on a range of fewer than 2^50 blocks,
    [findBlockByTimestamp] returns the first block of [low0, high0] whose
    timestamp is at least the target, or [null] when the range holds no
    such block; that block is the only one of the range that reaches the
    target with no earlier block doing so; and when some block of the
    range has exactly the target timestamp, the earliest such block is
    returned. *)
Theorem findBlockByTimestamp_leftmost (fuel : nat) (ts : Z -> Z)
    (low0 high0 : Z) (w : W) :
  (Z.to_nat maxIterations <= fuel)%nat ->
  monotone ts low0 high0 ->
  serves provider ts low0 high0 ->
  high0 - low0 + 1 < 2 ^ 50 ->
  exists r,
    outcome (findBlockByTimestamp fuel provider targetTimestamp low0 high0
               verbose w) = Returned r /\
    leftmost targetTimestamp ts low0 high0 r /\
    (forall n, low0 <= n <= high0 -> targetTimestamp <= ts n ->
               (forall m, low0 <= m < n -> ts m < targetTimestamp) ->
               exists b, r = Some b /\ number b = n) /\
    (forall n, low0 <= n <= high0 -> ts n = targetTimestamp ->
               exists b, r = Some b /\ ts (number b) = targetTimestamp /\
                         number b <= n).
Proof.
  intros Hfuel Hmono Hserves Hsize.
  set (st0 := {| low := low0; high := high0; result := None; iterations := 0 |}).
  destruct (Z_le_gt_dec low0 (high0 + 1)) as [Hle|Hgt].
  - destruct (search_loop_leftmost provider targetTimestamp verbose
                ts low0 high0 Hmono Hserves fuel st0 w)
      as (st' & Hst' & Hleft); cbn [low high iterations result st0];
      try lia; try exact Hfuel.
    + change (maxIterations - 0) with 50. exact Hsize.
    + reflexivity.
    + destruct (findBlockByTimestamp_run provider targetTimestamp verbose
                  fuel low0 high0 w st' Hst') as (tr & _ & Hrun).
      rewrite Hrun. exists (result st'). split; [reflexivity|].
      split; [exact Hleft|]. unfold leftmost in Hleft. split.
      * intros n Hn Hreach Hfirst.
        destruct (result st') as [b|].
        -- destruct Hleft as (Hin & _ & Hreach' & Hfirst').
           exists b. split; [reflexivity|].
           destruct (Z.lt_trichotomy n (number b)) as [Hlt|[Heq|Hgt]].
           ++ specialize (Hfirst' n ltac:(lia)). lia.
           ++ symmetry. exact Heq.
           ++ specialize (Hfirst (number b) ltac:(lia)). lia.
        -- specialize (Hleft n Hn). lia.
      * intros n Hn Hexact.
        destruct (result st') as [b|].
        -- destruct Hleft as (Hin & _ & Hreach & Hfirst).
           exists b. split; [reflexivity|].
           destruct (Z_lt_le_dec n (number b)) as [Hlt|Hge].
           ++ specialize (Hfirst n ltac:(lia)). lia.
           ++ assert (ts (number b) <= ts n) by (apply Hmono; lia). lia.
        -- specialize (Hleft n Hn). lia.
  - exists None.
    assert (Hloop : search_loop provider targetTimestamp verbose fuel st0 w
                    = (Returned st0, w, [])).
    { destruct fuel as [|fuel']; [cbn [search_loop]|rewrite search_loop_step];
        cbn [low high st0];
        (replace (low0 <=? high0) with false by (symmetry; apply Z.leb_gt; lia));
        reflexivity. }
    destruct (findBlockByTimestamp_run provider targetTimestamp verbose
                fuel low0 high0 w st0) as (tr & _ & Hrun).
    { fold st0. rewrite Hloop. reflexivity. }
    rewrite Hrun. split; [reflexivity|]. split; [|split].
    + intros n Hn. lia.
    + intros n Hn. lia.
    + intros n Hn. lia.
Qed.
End FindBlockByTimestamp.

Lemma node_serves (ts : Z -> Z) (lo hi : Z) :
  serves (Sample.node ts) ts lo hi.
Proof.
  intros n w _. eexists. split; [reflexivity|]. split; reflexivity.
Qed.

Lemma node_answers_what_is_asked (ts : Z -> Z) :
  answers_what_is_asked (Sample.node ts).
Proof.
  intros n prefetch w b w' H. cbn in H. injection H as <- _. reflexivity.
Qed.

Lemma lossy_node_serves (ts : Z -> Z) (lo hi : Z) :
  serves (Sample.lossy_node ts) ts lo hi.
Proof.
  intros n calls _.
  unfold Utils.retryOperation, Utils.defaultMaxRetries.
  change (Z.to_nat 3) with 3%nat.
  rewrite !RetryFacts.retry_loop_step.
  change (0 <? 3) with true. change (0 =? 3 - 1) with false.
  change (0 + 1 <? 3) with true. cbv beta iota.
  unfold try_catch, getBlock, round_trip, Sample.lossy_node, eth_getBlock.
  destruct (Nat.odd calls) eqn:Hodd.
  - unfold bind, emit. cbv beta iota zeta.
    rewrite Nat.odd_succ, <- Nat.negb_odd, Hodd. cbn [negb].
    eexists. split; [reflexivity|]. split; reflexivity.
  - eexists. split; [reflexivity|]. split; reflexivity.
Qed.

Lemma late_monotone : monotone Sample.late 0 (2 ^ 50 - 1).
Proof.
  intros i j _ Hij _. unfold Sample.late.
  destruct (Z.ltb_spec i (2 ^ 50 - 1)), (Z.ltb_spec j (2 ^ 50 - 1)); lia.
Qed.

(** C1 as stated fails on a range of 2^50 blocks: on the chain [late],
    which is monotone and fully served, the last block of [0, 2^50 - 1] has
    exactly the target timestamp, and the search, cut off by the iteration
    ceiling after 50 probes that all fell short, returns [null]. *)
Lemma findBlockByTimestamp_ceiling_counterexample :
  monotone Sample.late 0 (2 ^ 50 - 1) /\
  serves (Sample.node Sample.late) Sample.late 0 (2 ^ 50 - 1) /\
  Sample.late (2 ^ 50 - 1) = 1600000000 /\
  (forall fuel, (50 <= fuel)%nat ->
     outcome (BlockFinder.findBlockByTimestamp fuel (Sample.node Sample.late)
                1600000000 0 (2 ^ 50 - 1) false tt) = Returned None) /\
  ~ leftmost 1600000000 Sample.late 0 (2 ^ 50 - 1) None.
Proof.
  split; [exact late_monotone|].
  split; [apply node_serves|].
  split; [reflexivity|].
  split.
  - intros fuel Hfuel.
    edestruct (FinderFacts.findBlockByTimestamp_run
                 (Sample.node Sample.late) 1600000000 false
                 fuel 0 (2 ^ 50 - 1) tt) as (tr & _ & Hrun).
    + rewrite (FinderFacts.search_loop_fuel_irrelevant
                 (Sample.node Sample.late) 1600000000 false fuel 50%nat);
        [|cbn; lia|cbn; lia].
      vm_compute. reflexivity.
    + rewrite Hrun. reflexivity.
  - intros H. specialize (H (2 ^ 50 - 1)). cbv in H.
    assert (Hin : 0 <= 2 ^ 50 - 1 <= 2 ^ 50 - 1) by lia.
    specialize (H Hin). discriminate H.
Qed.

(** The search needs every block it asks for.  On the chain [steady] the
    first block of [0, 1000] that reaches 1 600 000 100 is block 9.  When
    block 249 is missing, the round that asks for it ends the loop, and
    the search returns block 500, the candidate it had found before. *)
Lemma findBlockByTimestamp_missing_block :
  exists b,
    outcome (BlockFinder.findBlockByTimestamp 50
               (Sample.gapped_node Sample.steady 249) 1600000100 0 1000 false tt)
    = Returned (Some b) /\
    Utils.number b = 500 /\
    ~ leftmost 1600000100 Sample.steady 0 1000 (Some b).
Proof.
  eexists. split; [vm_compute; reflexivity|]. split; [reflexivity|].
  intros (_ & _ & _ & Hfirst).
  specialize (Hfirst 9). cbn [Utils.number] in Hfirst.
  unfold Sample.steady in Hfirst. lia.
Qed.

(** C9 as stated fails against an endpoint that answers with another
    block than the one it was asked for: [result.number] is copied from
    the block received, not from [mid].  The node [stuck_node] answers
    every request with block 5000, and the search over [100, 1000]
    returns a block numbered 5000. *)
Lemma findBlockByTimestamp_foreign_block_counterexample :
  100 <= 1000 /\
  exists b,
    outcome (BlockFinder.findBlockByTimestamp 50
               (Sample.stuck_node Sample.steady 5000) 1600000100 100 1000
               false tt)
    = Returned (Some b) /\
    Utils.number b = 5000 /\
    ~ (100 <= Utils.number b <= 1000).
Proof.
  split; [lia|].
  eexists. split; [vm_compute; reflexivity|]. split; [reflexivity|].
  cbn [Utils.number]. lia.
Qed.

Lemma steady_monotone (lo hi : Z) : monotone Sample.steady lo hi.
Proof. intros i j _ Hij _. unfold Sample.steady. lia. Qed.

Lemma findBlockByTimestamp_probe_ceiling_witness :
  let run := BlockFinder.findBlockByTimestamp 50
               (Sample.lossy_node Sample.steady) 1600000100 0 1000 true 1%nat in
  (exists r, outcome run = Returned r) /\
  (exists probes : list Probe,
      (List.length probes <= 50)%nat /\
      Forall (fun p => (1 <= attempts p <= 3)%nat) probes /\
      round_trips (trace run) = flat_map probe_calls probes) /\
  (List.length (round_trips (trace run)) <= 150)%nat.
Proof.
  apply (findBlockByTimestamp_probe_ceiling
           (Sample.lossy_node Sample.steady) 1600000100 true 50 0 1000 1%nat).
  exact (le_n 50).
Defined.

Lemma findBlockByTimestamp_stays_in_range_witness :
  let run := BlockFinder.findBlockByTimestamp 50
               (Sample.node Sample.steady) 1600000100 100 1000 false tt in
  (forall c, In c (round_trips (trace run)) ->
             exists m, c = GetBlock (Height m) false /\ 100 <= m <= 1000) /\
  (exists r, outcome run = Returned r /\
             match r with
             | Some b => 100 <= Utils.number b <= 1000
             | None => True
             end).
Proof.
  destruct (findBlockByTimestamp_stays_in_range
              (Sample.node Sample.steady) 1600000100 false 50 100 1000 tt
              (le_n 50)) as [Hasked Hresult].
  split; [exact Hasked|].
  apply Hresult. apply node_answers_what_is_asked.
Defined.

Lemma findBlockByTimestamp_leftmost_witness :
  exists r,
    outcome (BlockFinder.findBlockByTimestamp 50
               (Sample.lossy_node Sample.steady) 1600000100 0 1000 false 1%nat)
    = Returned r /\
    leftmost 1600000100 Sample.steady 0 1000 r /\
    (forall n, 0 <= n <= 1000 -> 1600000100 <= Sample.steady n ->
               (forall m, 0 <= m < n -> Sample.steady m < 1600000100) ->
               exists b, r = Some b /\ Utils.number b = n) /\
    (forall n, 0 <= n <= 1000 -> Sample.steady n = 1600000100 ->
               exists b, r = Some b /\
                         Sample.steady (Utils.number b) = 1600000100 /\
                         Utils.number b <= n).
Proof.
  apply (findBlockByTimestamp_leftmost
           (Sample.lossy_node Sample.steady) 1600000100 false 50
           Sample.steady 0 1000 1%nat).
  - exact (le_n 50).
  - apply steady_monotone.
  - apply lossy_node_serves.
  - reflexivity.
Defined.

(* ===================================================================== *)
(** * The find action                                                     *)
(* ===================================================================== *)

Module FindFacts.
Import Utils.

Lemma bind_trace_prefix {W A B} (m : Eff W A) (k : A -> Eff W B) (w : W) :
  exists rest, trace (bind m k w) = trace (m w) ++ rest.
Proof.
  unfold bind, trace. destruct (m w) as [[r w1] t1].
  destruct r; cbn [snd]; try (exists []; rewrite app_nil_r; reflexivity).
  destruct (k a w1) as [[r2 w2] t2]. cbn [snd]. eauto.
Qed.

Lemma try_catch_trace_prefix {W A} (m : Eff W A) (h : JsError -> Eff W A) (w : W) :
  exists rest, trace (try_catch m h w) = trace (m w) ++ rest.
Proof.
  unfold try_catch, trace. destruct (m w) as [[r w1] t1].
  destruct r; cbn [snd]; try (exists []; rewrite app_nil_r; reflexivity).
  destruct (h e w1) as [[r2 w2] t2]. cbn [snd]. eauto.
Qed.

(** The first thing [retryOperation] does with a round trip is to make
    it. *)
Lemma retry_round_trip_first {W A} (c : RpcCall) (reply : W -> Settled A * W)
    (maxRetries delay : Z) (w : W) :
  1 <= maxRetries ->
  exists rest,
    trace (retryOperation (round_trip c reply) maxRetries delay w)
    = Rpc c :: rest.
Proof.
  intros Hpos. unfold retryOperation.
  destruct (Z.to_nat maxRetries) as [|fuel] eqn:Hfuel; [lia|].
  rewrite RetryFacts.retry_loop_step.
  replace (0 <? maxRetries) with true by (symmetry; apply Z.ltb_lt; lia).
  destruct (try_catch_trace_prefix (round_trip c reply)
              (fun error =>
                 if 0 =? maxRetries - 1 then throw error
                 else
                   emit (ConsoleLog ("Attempt " ++ toString (0 + 1)
                                     ++ " failed, retrying in "
                                     ++ toString delay ++ "ms...")%string) ;;
                   emit (Sleep delay) ;;
                   retry_loop (round_trip c reply) maxRetries delay fuel (0 + 1))
              w) as (rest & Hrest).
  rewrite Hrest. unfold round_trip, trace.
  destruct (reply w) as [[a|e] w1]; cbn [snd app]; eauto.
Qed.

Lemma bind_ret_run {W A B} (a : A) (k : A -> Eff W B) (w : W) :
  bind (ret a) k w = k a w.
Proof. unfold bind, ret. destruct (k a w) as [[r w2] t2]. reflexivity. Qed.

(** A timestamp that [isValidTimestamp] accepts is within the range of
    [Date]: [formatTimestamp] does not throw on it. *)
Lemma formatTimestamp_valid {W} (t : Z) :
  validDate t = true -> formatTimestamp (W := W) t = ret tt.
Proof. intros H. unfold formatTimestamp. rewrite H. reflexivity. Qed.

Lemma formatTimestamp_accepted {W} (t : Z) :
  1420000000 < t < 9999999999 ->
  formatTimestamp (W := W) t = ret tt.
Proof.
  intros Hrange. unfold formatTimestamp, validDate.
  replace (Z.abs (t * 1000) <=? 8640000000000000) with true; [reflexivity|].
  symmetry. apply Z.leb_le. lia.
Qed.
End FindFacts.

Lemma isValidTimestamp_plausible (timestamp : option Z) :
  Utils.isValidTimestamp timestamp = true <-> plausible timestamp.
Proof.
  unfold Utils.isValidTimestamp, plausible. destruct timestamp as [t|].
  - rewrite andb_true_iff, !Z.ltb_lt. split.
    + intros H. exists t. split; [reflexivity|lia].
    + intros (t' & [= <-] & H). lia.
  - split; [discriminate|]. intros (t & H & _). discriminate.
Qed.

(** C5.  The [find] action accepts a target timestamp only if it is a
    number strictly above 1420000000 and strictly below 9999999999.  Any
    other timestamp ([NaN] included) is rejected on the spot: the run
    consists of the one line ["Invalid timestamp. Must be a valid Unix
    timestamp."] on the error console followed by [process.exit(1)], with
    no round trip to the endpoint and the world untouched.  An accepted
    timestamp lets the action go on, and its first step is then the round
    trip [getBlock('latest')]. *)
Theorem find_checks_timestamp_before_any_call {W : Type} (provider : Provider W)
    (getAddress : string -> option string) (fs : string -> option JsError)
    (fuel : nat) (options : BlockFinder.FindOptions) (w : W) :
  let run := BlockFinder.find provider getAddress fs fuel options w in
  (~ plausible (BlockFinder.opt_timestamp options) ->
   run = (Exited 1, w,
          [ConsoleError "Invalid timestamp. Must be a valid Unix timestamp." None])
   /\ round_trips (trace run) = [])
  /\ (plausible (BlockFinder.opt_timestamp options) ->
      exists rest, trace run = Rpc (GetBlock Latest false) :: rest).
Proof.
  cbv zeta. split.
  - intros Hbad.
    assert (Hinvalid : Utils.isValidTimestamp (BlockFinder.opt_timestamp options) = false).
    { destruct (Utils.isValidTimestamp (BlockFinder.opt_timestamp options)) eqn:H;
        [|reflexivity].
      apply isValidTimestamp_plausible in H. contradiction. }
    assert (Hrun : BlockFinder.find provider getAddress fs fuel options w
                   = (Exited 1, w,
                      [ConsoleError "Invalid timestamp. Must be a valid Unix timestamp." None])).
    { unfold BlockFinder.find. rewrite Hinvalid. reflexivity. }
    rewrite Hrun. split; reflexivity.
  - intros Hok. pose proof Hok as (t & Ht & Hrange).
    apply isValidTimestamp_plausible in Hok.
    unfold BlockFinder.find. rewrite Hok, Ht. cbn [negb].
    rewrite (FindFacts.formatTimestamp_accepted t Hrange).
    match goal with
    | |- exists rest, trace (try_catch ?m ?h w) = _ =>
        destruct (FindFacts.try_catch_trace_prefix m h w) as (rest1 & ->)
    end.
    rewrite FindFacts.bind_ret_run.
    match goal with
    | |- exists rest, trace (bind ?m ?k w) ++ _ = _ =>
        destruct (FindFacts.bind_trace_prefix m k w) as (rest2 & ->)
    end.
    destruct (FindFacts.retry_round_trip_first (GetBlock Latest false)
                (eth_getBlock provider Latest false)
                Utils.defaultMaxRetries Utils.defaultDelay w) as (rest3 & Hfirst).
    { unfold Utils.defaultMaxRetries. lia. }
    unfold getBlock. rewrite Hfirst. cbn [app]. eauto.
Qed.

Lemma find_checks_timestamp_before_any_call_witness :
  BlockFinder.find (Sample.node Sample.steady) (fun _ => None) (fun _ => None) 50
    {| BlockFinder.opt_timestamp := Some 1420000000;
       BlockFinder.opt_address := None;
       BlockFinder.opt_output := "block-info.json";
       BlockFinder.opt_verbose := false |} tt
  = (Exited 1, tt,
     [ConsoleError "Invalid timestamp. Must be a valid Unix timestamp." None]).
Proof.
  apply (proj1 (find_checks_timestamp_before_any_call
                  (Sample.node Sample.steady) (fun _ => None) (fun _ => None) 50
                  {| BlockFinder.opt_timestamp := Some 1420000000;
                     BlockFinder.opt_address := None;
                     BlockFinder.opt_output := "block-info.json";
                     BlockFinder.opt_verbose := false |} tt)).
  intros (t & Ht & Hrange). cbn in Ht. injection Ht as <-. lia.
Defined.

(* ===================================================================== *)
(** * Numerals                                                            *)
(* ===================================================================== *)

Module NumeralFacts.

Lemma uint_head (d : Decimal.uint) (c : ascii) (rest : string) :
  DecimalString.NilEmpty.string_of_uint d = String c rest ->
  Ascii.eqb c "x" = false /\ Ascii.eqb c "X" = false /\
  Ascii.eqb c "-" = false /\
  exists d', rest = DecimalString.NilEmpty.string_of_uint d'.
Proof.
  destruct d; cbn; intros H; try discriminate;
    injection H as <- <-; repeat split; eauto.
Qed.

Lemma hex_digits_uint (d : Decimal.uint) :
  hex_digits (DecimalString.NilEmpty.string_of_uint d) = None.
Proof.
  unfold hex_digits.
  destruct (DecimalString.NilEmpty.string_of_uint d) as [|c1 rest] eqn:H1;
    [reflexivity|].
  destruct (uint_head _ _ _ H1) as (_ & _ & _ & d' & ->).
  destruct (DecimalString.NilEmpty.string_of_uint d') as [|c2 rest'] eqn:H2;
    [reflexivity|].
  destruct (uint_head _ _ _ H2) as (-> & -> & _).
  rewrite andb_false_r. reflexivity.
Qed.

(** A bigint printed by [toString] and read back by [BigInt] is the same
    bigint. *)
Lemma BigInt_toString (v : Z) : BigInt (toString v) = Some v.
Proof.
  unfold toString.
  assert (Hparse : DecimalString.NilZero.int_of_string
                     (DecimalString.NilZero.string_of_int (Z.to_int v))
                   = Some (Z.to_int v)).
  { apply DecimalString.NilZero.isi; destruct v; cbn; try discriminate;
      intros [= H]; exact (DecimalPos.Unsigned.to_uint_nonnil _ H). }
  assert (Hhex : hex_digits (DecimalString.NilZero.string_of_int (Z.to_int v))
                 = None).
  { destruct v as [|p|p]; [reflexivity| |].
    - cbn [Z.to_int DecimalString.NilZero.string_of_int].
      unfold DecimalString.NilZero.string_of_uint.
      pose proof (DecimalPos.Unsigned.to_uint_nonnil p) as Hnil.
      destruct (Pos.to_uint p) eqn:Hp; try contradiction;
        rewrite <- Hp; apply hex_digits_uint.
    - cbn [Z.to_int DecimalString.NilZero.string_of_int].
      unfold hex_digits.
      destruct (DecimalString.NilZero.string_of_uint (Pos.to_uint p));
        reflexivity. }
  unfold BigInt. rewrite Hhex, Hparse.
  destruct (DecimalString.NilZero.string_of_int (Z.to_int v)) eqn:Hs.
  - apply (f_equal DecimalString.NilZero.int_of_string) in Hs.
    rewrite Hparse in Hs. discriminate.
  - cbn [option_map]. rewrite DecimalZ.of_to. reflexivity.
Qed.
End NumeralFacts.

(* ===================================================================== *)
(** * processBlock                                                        *)
(* ===================================================================== *)

Module ProcessBlockFacts.
Import Utils EthTransfers.

Lemma filtered_out_passes (filter : option string) (addr : string) :
  filtered_out filter addr = false -> passes filter addr.
Proof.
  intros H wanted -> Hne. cbn in H.
  destruct wanted as [|c wanted]; [contradiction|].
  apply negb_false_iff in H. apply String.eqb_eq in H. exact H.
Qed.

(** What the loop adds to the array comes from a transaction that went
    through every test. *)
Lemma scan_transactions_kept (options : FetchOptions) (minValueWei blockNumber : Z)
    (txs : list TransactionEntry) :
  forall (transfers : list EthTransfer) (transfer : EthTransfer),
    In transfer (scan_transactions options minValueWei blockNumber txs transfers) ->
    In transfer transfers \/
    exists tx, In (TxObject tx) txs /\
               kept options minValueWei blockNumber tx transfer.
Proof.
  induction txs as [|entry rest IH]; intros transfers transfer Hin.
  - left. exact Hin.
  - assert (Hskip : In transfer (scan_transactions options minValueWei
                                   blockNumber rest transfers) ->
                    In transfer transfers \/
                    exists tx0, In (TxObject tx0) (entry :: rest) /\
                                kept options minValueWei blockNumber tx0 transfer).
    { intros H. destruct (IH _ _ H) as [H'|(tx0 & Htx0 & Hkept)];
        [left; exact H'|right; exists tx0; split; [right; exact Htx0|exact Hkept]]. }
    destruct entry as [hash|tx]; cbn [scan_transactions] in Hin;
      [apply Hskip; exact Hin|].
    destruct (tx_to tx) as [[|c receiver]|] eqn:Hto; try (apply Hskip; exact Hin).
    destruct (tx_value tx =? 0) eqn:Hzero; [apply Hskip; exact Hin|].
    destruct (tx_value tx <? minValueWei) eqn:Hmin; [apply Hskip; exact Hin|].
    destruct (filtered_out (opt_from options) (tx_from tx)) eqn:Hfrom;
      [apply Hskip; exact Hin|].
    destruct (filtered_out (opt_to options) (String c receiver)) eqn:Hfto;
      [apply Hskip; exact Hin|].
    destruct (IH _ _ Hin) as [H|(tx0 & Htx0 & Hkept)].
    + apply in_app_or in H. destruct H as [H|[<-|[]]]; [left; exact H|].
      right. exists tx. split; [left; reflexivity|].
      apply Z.eqb_neq in Hzero. apply Z.ltb_ge in Hmin.
      unfold kept. cbn [to from value EthTransfers.blockNumber transactionHash].
      repeat split; auto using filtered_out_passes; try discriminate; lia.
    + right. exists tx0. split; [right; exact Htx0|exact Hkept].
Qed.
End ProcessBlockFacts.

(** C3.  [processBlock] always returns a list, and every [EthTransfer] in it
    was built from a transaction [tx] of the block that was fetched (an
    element of [block.transactions] that is an object), one
    with a receiver ([tx.to] is neither [null] nor empty; the transfer
    carries it) and with a value that is not zero and not below
    [minValueWei] (the transfer carries it as a decimal string that
    [BigInt] reads back), whose sender and receiver pass the optional
    [from] and [to] filters.  So neither a contract creation nor a
    zero-value transaction is ever in the output. *)
Theorem processBlock_value_transfers_only {W : Type} (provider : Provider W)
    (blockNumber : Z) (options : EthTransfers.FetchOptions) (minValueWei : Z)
    (w : W) :
  exists transfers,
    outcome (EthTransfers.processBlock provider blockNumber options minValueWei w)
    = Returned transfers /\
    forall transfer,
      In transfer transfers ->
      exists block txs tx,
        outcome (Utils.retryOperation (getBlock provider (Height blockNumber) true)
                   Utils.defaultMaxRetries Utils.defaultDelay w)
        = Returned (Some block) /\
        transactions block = Some txs /\ In (TxObject tx) txs /\
        kept options minValueWei blockNumber tx transfer /\
        BigInt (EthTransfers.value transfer) = Some (tx_value tx).
Proof.
  unfold EthTransfers.processBlock.
  destruct (TraceFacts.retry_round_trip (GetBlock (Height blockNumber) true)
              (eth_getBlock provider (Height blockNumber) true)
              Utils.defaultMaxRetries Utils.defaultDelay
              (Z.to_nat Utils.defaultMaxRetries) 0 w) as [_ Hout];
    [unfold Utils.defaultMaxRetries; lia|].
  fold (Utils.retryOperation (round_trip (GetBlock (Height blockNumber) true)
                                (eth_getBlock provider (Height blockNumber) true))
          Utils.defaultMaxRetries Utils.defaultDelay) in Hout.
  fold (getBlock provider (Height blockNumber) true) in Hout.
  unfold try_catch, bind, outcome in *.
  destruct (Utils.retryOperation (getBlock provider (Height blockNumber) true)
              Utils.defaultMaxRetries Utils.defaultDelay w) as [[r w1] t1].
  cbn [fst snd] in *.
  destruct Hout as [[[block|] ->]|[e ->]].
  - destruct (transactions block) as [txs|] eqn:Htxs.
    + eexists. split; [reflexivity|]. intros transfer Hin.
      apply ProcessBlockFacts.scan_transactions_kept in Hin.
      destruct Hin as [[]|(tx & Htx & Hkept)].
      exists block, txs, tx.
      split; [reflexivity|]. split; [exact Htxs|]. split; [exact Htx|].
      split; [exact Hkept|].
      destruct Hkept as (_ & _ & _ & -> & _).
      apply NumeralFacts.BigInt_toString.
    + exists []. split; [reflexivity|]. intros transfer [].
  - exists []. split; [reflexivity|]. intros transfer [].
  - exists []. split; [reflexivity|]. intros transfer [].
Qed.

Lemma processBlock_value_transfers_only_witness :
  exists tx,
    kept {| EthTransfers.opt_from := Some "0xaa"; EthTransfers.opt_to := None |}
         6 7 tx Sample.transfer_a4 /\
    BigInt (EthTransfers.value Sample.transfer_a4) = Some (tx_value tx).
Proof.
  destruct (processBlock_value_transfers_only Sample.node7 7
              {| EthTransfers.opt_from := Some "0xaa"; EthTransfers.opt_to := None |}
              6 tt) as (transfers & Hrun & Hall).
  injection Hrun as <-.
  destruct (Hall Sample.transfer_a4 (or_introl eq_refl))
    as (block & txs & tx & _ & _ & _ & Hkept & Hvalue).
  exists tx. split; [exact Hkept|exact Hvalue].
Defined.

(* ===================================================================== *)
(** * The log-decoding loop of fetch                                      *)
(* ===================================================================== *)

Module DecodeFacts.
Import TransferEvents.

Lemma bind_run {W A B} (m : Eff W A) (k : A -> Eff W B) (w w1 : W)
    (a : A) (t1 : list Event) :
  m w = (Returned a, w1, t1) ->
  bind m k w = (outcome (k a w1), world (k a w1), t1 ++ trace (k a w1)).
Proof.
  intros H. unfold bind, outcome, world, trace. rewrite H.
  destruct (k a w1) as [[r w2] t2]. reflexivity.
Qed.

Lemma settles_ret {W A} (a : A) : settles (ret (W := W) a).
Proof. intros w. left. eexists. reflexivity. Qed.

Lemma settles_throw {W A} (e : JsError) : settles (throw (W := W) (A := A) e).
Proof. intros w. right. eexists. reflexivity. Qed.

Lemma settles_emit {W} (ev : Event) : settles (emit (W := W) ev).
Proof. intros w. left. eexists. reflexivity. Qed.

Lemma settles_round_trip {W A} (c : RpcCall) (reply : W -> Settled A * W) :
  settles (round_trip c reply).
Proof.
  intros w. unfold round_trip, outcome.
  destruct (reply w) as [[a|e] w1]; cbn; eauto.
Qed.

Lemma settles_bind {W A B} (m : Eff W A) (k : A -> Eff W B) :
  settles m -> (forall a, settles (k a)) -> settles (bind m k).
Proof.
  intros Hm Hk w. specialize (Hm w). unfold bind, outcome in *.
  destruct (m w) as [[r w1] t1]. cbn [fst] in Hm.
  destruct Hm as [[a ->]|[e ->]]; [|cbn; eauto].
  specialize (Hk a w1). unfold outcome in Hk.
  destruct (k a w1) as [[r2 w2] t2]. exact Hk.
Qed.

Lemma settles_try_catch {W A} (m : Eff W A) (h : JsError -> Eff W A) :
  settles m -> (forall e, settles (h e)) -> settles (try_catch m h).
Proof.
  intros Hm Hh w. specialize (Hm w). unfold try_catch, outcome in *.
  destruct (m w) as [[r w1] t1]. cbn [fst] in Hm.
  destruct Hm as [[a ->]|[e ->]]; [cbn; eauto|].
  specialize (Hh e w1). unfold outcome in Hh.
  destruct (h e w1) as [[r2 w2] t2]. exact Hh.
Qed.

Lemma try_catch_returns {W A} (m : Eff W A) (h : JsError -> Eff W A) :
  settles m ->
  (forall e w, exists a w' t, h e w = (Returned a, w', t)) ->
  forall w, exists a w' t, try_catch m h w = (Returned a, w', t).
Proof.
  intros Hm Hh w. specialize (Hm w). unfold try_catch, outcome in *.
  destruct (m w) as [[r w1] t1]. cbn [fst] in Hm.
  destruct Hm as [[a ->]|[e ->]]; [eauto|].
  destruct (Hh e w1) as (a & w2 & t2 & ->). eauto.
Qed.

Section Loop.
Context {W : Type} (provider : Provider W).
Variable getAddress : string -> option string.

(** A round of the loop ends by falling through to the next log,
    whatever the log and whatever the endpoint does. *)
Lemma decode_log_returns (log : Log) (transferEvents : list TransferEvent)
    (w : W) :
  exists transferEvents' w' t,
    decode_log provider getAddress log transferEvents w
    = (Returned transferEvents', w', t).
Proof.
  assert (Hbody : settles (
    if too_few_topics log then
       emit (ConsoleWarn ("Invalid log format for tx "
                          ++ log_transactionHash log)%string) ;;
       ret transferEvents
     else
       from <- getAddress_or_throw getAddress
                 ("0x" ++ slice 26 (topic log 1))%string ;;
       to <- getAddress_or_throw getAddress
               ("0x" ++ slice 26 (topic log 2))%string ;;
       if empty_data log then
         emit (ConsoleWarn ("Empty data for tx "
                            ++ log_transactionHash log)%string) ;;
         ret transferEvents
       else
         value <- BigInt_or_throw (W := W) (log_data log) ;;
         symbol <- try_catch (symbol provider (log_address log))
                             (fun _ => ret "UNKNOWN"%string) ;;
         decimals <- try_catch (decimals provider (log_address log))
                               (fun _ => ret 18) ;;
         ret (transferEvents ++
              [ {| contractAddress := log_address log;
                   from := from;
                   to := to;
                   value := toString value;
                   blockNumber := log_blockNumber log;
                   transactionHash := log_transactionHash log;
                   logIndex := log_index log;
                   tokenSymbol := symbol;
                   tokenDecimals := decimals |} ]))).
  { destruct (too_few_topics log).
    - apply settles_bind; [apply settles_emit|intros; apply settles_ret].
    - apply settles_bind.
      { unfold getAddress_or_throw. destruct (getAddress _);
          [apply settles_ret|apply settles_throw]. }
      intros from. apply settles_bind.
      { unfold getAddress_or_throw. destruct (getAddress _);
          [apply settles_ret|apply settles_throw]. }
      intros to. destruct (empty_data log).
      + apply settles_bind; [apply settles_emit|intros; apply settles_ret].
      + apply settles_bind.
        { unfold BigInt_or_throw. destruct (BigInt _);
            [apply settles_ret|apply settles_throw]. }
        intros value. apply settles_bind.
        { apply settles_try_catch;
            [apply settles_round_trip|intros; apply settles_ret]. }
        intros sym. apply settles_bind.
        { apply settles_try_catch;
            [apply settles_round_trip|intros; apply settles_ret]. }
        intros dec. apply settles_ret. }
  unfold decode_log.
  apply try_catch_returns; [exact Hbody|].
  intros e w0. cbn. eauto.
Qed.

(** A log with too few topics or without data leaves the array and the
    world as they are and writes one line. *)
Lemma decode_log_skips (log : Log) (transferEvents : list TransferEvent)
    (w : W) :
  too_few_topics log = true \/ empty_data log = true ->
  decode_log provider getAddress log transferEvents w
  = (Returned transferEvents, w, [skip_line getAddress log]).
Proof.
  intros Hbad.
  unfold decode_log, skip_line, try_catch, bind, emit, ret, throw,
    getAddress_or_throw.
  destruct (too_few_topics log); [reflexivity|].
  destruct Hbad as [Hbad|Hbad]; [discriminate|].
  destruct (getAddress ("0x" ++ slice 26 (topic log 1))%string);
    [|reflexivity].
  destruct (getAddress ("0x" ++ slice 26 (topic log 2))%string);
    [|reflexivity].
  rewrite Hbad. reflexivity.
Qed.

Lemma decode_logs_returns (logs : list Log) :
  forall (transferEvents : list TransferEvent) (w : W),
    exists transferEvents' w' t,
      decode_logs provider getAddress logs transferEvents w
      = (Returned transferEvents', w', t).
Proof.
  induction logs as [|log rest IH]; intros transferEvents w.
  - cbn. unfold ret. eauto.
  - cbn [decode_logs].
    destruct (decode_log_returns log transferEvents w)
      as (acc1 & w1 & t1 & Hlog).
    rewrite (bind_run _ _ _ _ _ _ Hlog).
    destruct (IH acc1 w1) as (acc2 & w2 & t2 & Hrest).
    rewrite Hrest. cbn. eauto.
Qed.
End Loop.
End DecodeFacts.

(** C4.  In the [fetch] loop a log with fewer than three topics, or with
    empty data, adds no [TransferEvent] and stops nothing: the loop over a
    list of logs that contains it returns the very array, in the very
    world, that it returns over the list without it, and the only trace the
    log leaves is one console line between the lines and calls of the logs
    before it and those of the logs after it.  That line is the warning
    "Invalid log format" for a log short of topics, and the warning "Empty
    data" for a log without data whose two address topics decode.  The loop
    as a whole always returns: no log makes it throw or exit. *)
Theorem decode_logs_skips_malformed {W : Type} (provider : Provider W)
    (getAddress : string -> option string)
    (before : list Log) (log : Log) (after : list Log)
    (transferEvents : list TransferEvents.TransferEvent) (w : W) :
  TransferEvents.too_few_topics log = true \/ TransferEvents.empty_data log = true ->
  exists events w' t1 t2,
    TransferEvents.decode_logs provider getAddress (before ++ log :: after)
      transferEvents w
    = (Returned events, w', t1 ++ skip_line getAddress log :: t2) /\
    TransferEvents.decode_logs provider getAddress (before ++ after)
      transferEvents w
    = (Returned events, w', t1 ++ t2) /\
    (TransferEvents.too_few_topics log = true ->
     skip_line getAddress log
     = ConsoleWarn ("Invalid log format for tx " ++ log_transactionHash log)%string) /\
    (TransferEvents.too_few_topics log = false ->
     getAddress ("0x" ++ slice 26 (TransferEvents.topic log 1))%string <> None ->
     getAddress ("0x" ++ slice 26 (TransferEvents.topic log 2))%string <> None ->
     skip_line getAddress log
     = ConsoleWarn ("Empty data for tx " ++ log_transactionHash log)%string).
Proof.
  intros Hbad.
  assert (Hlines :
    (TransferEvents.too_few_topics log = true ->
     skip_line getAddress log
     = ConsoleWarn ("Invalid log format for tx " ++ log_transactionHash log)%string) /\
    (TransferEvents.too_few_topics log = false ->
     getAddress ("0x" ++ slice 26 (TransferEvents.topic log 1))%string <> None ->
     getAddress ("0x" ++ slice 26 (TransferEvents.topic log 2))%string <> None ->
     skip_line getAddress log
     = ConsoleWarn ("Empty data for tx " ++ log_transactionHash log)%string)).
  { unfold skip_line. split.
    - intros ->. reflexivity.
    - intros -> H1 H2.
      destruct (getAddress ("0x" ++ slice 26 (TransferEvents.topic log 1))%string);
        [|contradiction].
      destruct (getAddress ("0x" ++ slice 26 (TransferEvents.topic log 2))%string);
        [|contradiction].
      reflexivity. }
  revert transferEvents w.
  induction before as [|first before IH]; intros transferEvents w.
  - destruct (DecodeFacts.decode_logs_returns provider getAddress after
                transferEvents w) as (events & w' & t2 & Hafter).
    exists events, w', [], t2.
    split; [|split; [exact Hafter|exact Hlines]].
    cbn [app TransferEvents.decode_logs].
    rewrite (DecodeFacts.bind_run _ _ _ _ _ _
               (DecodeFacts.decode_log_skips provider getAddress log
                  transferEvents w Hbad)).
    rewrite Hafter. reflexivity.
  - destruct (DecodeFacts.decode_log_returns provider getAddress first
                transferEvents w) as (acc1 & w1 & t0 & Hfirst).
    destruct (IH acc1 w1) as (events & w' & t1 & t2 & Hwith & Hwithout & _).
    exists events, w', (t0 ++ t1), t2.
    split; [|split; [|exact Hlines]].
    + cbn [app TransferEvents.decode_logs].
      rewrite (DecodeFacts.bind_run _ _ _ _ _ _ Hfirst), Hwith.
      unfold outcome, world, trace. cbn [fst snd].
      rewrite app_assoc. reflexivity.
    + cbn [app TransferEvents.decode_logs].
      rewrite (DecodeFacts.bind_run _ _ _ _ _ _ Hfirst), Hwithout.
      unfold outcome, world, trace. cbn [fst snd].
      rewrite app_assoc. reflexivity.
Qed.

Lemma decode_logs_skips_malformed_witness :
  exists events w' t1 t2,
    TransferEvents.decode_logs Sample.node7 Sample.lenient_getAddress
      ([Sample.good_log] ++ Sample.short_log :: [Sample.good_log]) [] tt
    = (Returned events, w',
       t1 ++ ConsoleWarn "Invalid log format for tx 0xfeed" :: t2) /\
    TransferEvents.decode_logs Sample.node7 Sample.lenient_getAddress
      ([Sample.good_log] ++ [Sample.good_log]) [] tt
    = (Returned events, w', t1 ++ t2).
Proof.
  destruct (decode_logs_skips_malformed Sample.node7 Sample.lenient_getAddress
              [Sample.good_log] Sample.short_log [Sample.good_log] [] tt
              (or_introl eq_refl))
    as (events & w' & t1 & t2 & Hwith & Hwithout & _).
  exists events, w', t1, t2. split; [exact Hwith|exact Hwithout].
Defined.

(* ===================================================================== *)
(** * Token statistics                                                    *)
(* ===================================================================== *)

Module MapFacts.
Section WithValues.
Context {V : Type}.

Lemma get_set_same (m : JsMap.t V) (k : string) (v : V) :
  JsMap.get (JsMap.set m k v) k = Some v.
Proof.
  induction m as [|[k' v'] m IH]; cbn.
  - rewrite String.eqb_refl. reflexivity.
  - destruct (String.eqb k' k) eqn:Hk; cbn; rewrite Hk; auto.
Qed.

Lemma get_set_other (m : JsMap.t V) (k k' : string) (v : V) :
  k <> k' -> JsMap.get (JsMap.set m k v) k' = JsMap.get m k'.
Proof.
  intros Hne. induction m as [|[k0 v0] m IH]; cbn.
  - apply String.eqb_neq in Hne. rewrite Hne. reflexivity.
  - destruct (String.eqb k0 k) eqn:Hk; cbn.
    + apply String.eqb_eq in Hk. subst k0.
      apply String.eqb_neq in Hne. rewrite Hne. reflexivity.
    + rewrite IH. reflexivity.
Qed.

Lemma has_get (m : JsMap.t V) (k : string) :
  JsMap.has m k = true <-> exists v, JsMap.get m k = Some v.
Proof.
  unfold JsMap.has. destruct (JsMap.get m k); split; eauto;
    try discriminate. intros (v & H). discriminate.
Qed.
End WithValues.
End MapFacts.

Module StringFacts.

Lemma length_append (a b : string) :
  String.length (a ++ b) = (String.length a + String.length b)%nat.
Proof. induction a as [|c a IH]; cbn; [reflexivity|]. rewrite IH. reflexivity. Qed.

Lemma append_inv_head (s a b : string) :
  (s ++ a)%string = (s ++ b)%string -> a = b.
Proof.
  induction s as [|c s IH]; cbn; [auto|]. intros [= H]. auto.
Qed.

Lemma append_inv_tail (t : string) :
  forall a b : string, (a ++ t)%string = (b ++ t)%string -> a = b.
Proof.
  induction a as [|c a IH]; intros [|c' b] H; cbn in H.
  - reflexivity.
  - apply (f_equal String.length) in H. cbn in H.
    rewrite length_append in H. lia.
  - apply (f_equal String.length) in H. cbn in H.
    rewrite length_append in H. lia.
  - injection H as -> H. f_equal. auto.
Qed.

(** Two events with one symbol have one token key only if they have one
    contract address. *)
Lemma tokenKey_contract (e1 e2 : TransferEvents.TransferEvent) :
  TransferEvents.tokenSymbol e1 = TransferEvents.tokenSymbol e2 ->
  TransferEvents.tokenKey e1 = TransferEvents.tokenKey e2 ->
  TransferEvents.contractAddress e1 = TransferEvents.contractAddress e2.
Proof.
  unfold TransferEvents.tokenKey. intros -> H.
  apply append_inv_head in H. apply append_inv_head in H.
  apply append_inv_tail in H. exact H.
Qed.
End StringFacts.

Module TokenFacts.
Import TransferEvents MapFacts.

Lemma volume_under_absent (key : string) (events : list TransferEvent) :
  existsb (fun e => String.eqb (tokenKey e) key) events = false ->
  volume_under key events = 0.
Proof.
  induction events as [|e rest IH]; cbn; [reflexivity|].
  intros H. apply orb_false_iff in H. destruct H as [-> H].
  rewrite (IH H). reflexivity.
Qed.

(** What the loop of [fetch] leaves in [tokenVolumes]: under each key
    that occurs, what was there plus the values of the events with that
    key; elsewhere what was there. *)
Lemma tokenVolumes_from_spec (events : list TransferEvent) :
  forall m0 : JsMap.t Z,
    values_parse value events ->
    exists m,
      tokenVolumes_from events m0 = Some m /\
      forall key,
        JsMap.get m key
        = if existsb (fun e => String.eqb (tokenKey e) key) events
          then Some (or_zero (JsMap.get m0 key) + volume_under key events)
          else JsMap.get m0 key.
Proof.
  induction events as [|e rest IH]; intros m0 Hparse.
  - exists m0. split; [reflexivity|]. intros key. reflexivity.
  - destruct (Hparse e (or_introl eq_refl)) as (v & Hv).
    cbn [tokenVolumes_from]. rewrite Hv.
    destruct (IH (JsMap.set m0 (tokenKey e)
                    (match JsMap.get m0 (tokenKey e) with
                     | Some v0 => v0
                     | None => 0
                     end + v)))
      as (m & Hm & Hget).
    { intros x Hx. apply Hparse. right. exact Hx. }
    exists m. split; [exact Hm|]. intros key. rewrite Hget.
    cbn [existsb volume_under]. rewrite Hv. cbn [or_zero].
    destruct (String.eqb (tokenKey e) key) eqn:Hkey.
    + apply String.eqb_eq in Hkey. subst key.
      rewrite get_set_same. cbn [orb or_zero].
      fold (or_zero (JsMap.get m0 (tokenKey e))).
      destruct (existsb (fun e0 => String.eqb (tokenKey e0) (tokenKey e)) rest)
        eqn:Hrest.
      * f_equal. lia.
      * rewrite (volume_under_absent _ _ Hrest). f_equal. lia.
    + apply String.eqb_neq in Hkey.
      rewrite (get_set_other _ _ _ _ Hkey). cbn [orb].
      destruct (existsb (fun e0 => String.eqb (tokenKey e0) key) rest);
        [f_equal; lia|reflexivity].
Qed.

Lemma filter_absent {X : Type} (f : X -> bool) (l : list X) :
  existsb f l = false -> filter f l = [].
Proof.
  induction l as [|x l IH]; cbn; [reflexivity|].
  intros H. apply orb_false_iff in H. destruct H as [-> H]. auto.
Qed.

Lemma option_string_eqb_eq (a b : option string) :
  option_string_eqb a b = true <-> a = b.
Proof.
  destruct a as [x|], b as [y|]; cbn; split; try discriminate; auto.
  - intros H. apply String.eqb_eq in H. subst. reflexivity.
  - intros [= ->]. apply String.eqb_refl.
Qed.

Lemma set_add_in (x : option string) (s : list (option string)) :
  In x (set_add x s).
Proof.
  unfold set_add. destruct (existsb (option_string_eqb x) s) eqn:H.
  - apply existsb_exists in H. destruct H as (y & Hy & Heq).
    apply option_string_eqb_eq in Heq. subst y. exact Hy.
  - apply in_or_app. right. left. reflexivity.
Qed.

Lemma set_add_keeps (x y : option string) (s : list (option string)) :
  In y s -> In y (set_add x s).
Proof.
  unfold set_add. destruct (existsb (option_string_eqb x) s); [auto|].
  intros H. apply in_or_app. left. exact H.
Qed.

(** What the loop of [analyze] leaves in [tokenStats]: one entry per
    symbol that occurs, counting every row of that symbol and holding
    the contract address of each. *)
Lemma tokenStats_from_spec (data : list Row) :
  forall m0 : JsMap.t TokenStats,
    values_parse (fun row => or_else (row_value row) "0") data ->
    exists m,
      tokenStats_from data m0 = Some m /\
      forall token,
        if existsb (fun row => String.eqb (token_of row) token) data
        then exists stats,
            JsMap.get m token = Some stats /\
            count stats = count (stats_at m0 token)
                          + Z.of_nat (List.length (rows_under token data)) /\
            (forall c, In c (contracts (stats_at m0 token)) ->
                       In c (contracts stats)) /\
            (forall row, In row (rows_under token data) ->
                         In (row_contractAddress row) (contracts stats))
        else JsMap.get m token = JsMap.get m0 token.
Proof.
  induction data as [|row rest IH]; intros m0 Hparse.
  - exists m0. split; [reflexivity|]. intros token. reflexivity.
  - destruct (Hparse row (or_introl eq_refl)) as (v & Hv).
    cbn [tokenStats_from]. rewrite Hv. fold (token_of row).
    set (m1 := if JsMap.has m0 (token_of row) then m0
               else JsMap.set m0 (token_of row)
                      {| count := 0; volume := 0; contracts := [] |}).
    assert (Hm1 : JsMap.get m1 (token_of row)
                  = Some (stats_at m0 (token_of row))).
    { unfold m1, stats_at, JsMap.has.
      destruct (JsMap.get m0 (token_of row)) eqn:Hget; [exact Hget|].
      apply get_set_same. }
    assert (Hm1' : forall token, token_of row <> token ->
                                 JsMap.get m1 token = JsMap.get m0 token).
    { intros token Hne. unfold m1.
      destruct (JsMap.has m0 (token_of row)); [reflexivity|].
      apply get_set_other. exact Hne. }
    rewrite Hm1.
    set (m2 := JsMap.set m1 (token_of row)
                 {| count := count (stats_at m0 (token_of row)) + 1;
                    volume := volume (stats_at m0 (token_of row)) + v;
                    contracts := set_add (row_contractAddress row)
                                   (contracts (stats_at m0 (token_of row))) |}).
    destruct (IH m2) as (m & Hm & Hspec).
    { intros x Hx. apply Hparse. right. exact Hx. }
    exists m. split; [exact Hm|]. intros token.
    specialize (Hspec token). cbn [existsb]. unfold rows_under in *.
    cbn [filter].
    destruct (String.eqb (token_of row) token) eqn:Htoken.
    + apply String.eqb_eq in Htoken. subst token. cbn [orb].
      assert (Hat : stats_at m2 (token_of row)
                    = {| count := count (stats_at m0 (token_of row)) + 1;
                         volume := volume (stats_at m0 (token_of row)) + v;
                         contracts := set_add (row_contractAddress row)
                                        (contracts (stats_at m0 (token_of row))) |}).
      { unfold stats_at at 1. unfold m2. rewrite get_set_same. reflexivity. }
      destruct (existsb (fun r => String.eqb (token_of r) (token_of row)) rest)
        eqn:Hrest.
      * destruct Hspec as (stats & Hget & Hcount & Hold & Hnew).
        rewrite Hat in Hcount, Hold. cbn [count contracts] in Hcount, Hold.
        exists stats. split; [exact Hget|]. split; [|split].
        -- rewrite Hcount. cbn [List.length]. lia.
        -- intros c Hc. apply Hold. apply set_add_keeps. exact Hc.
        -- intros r [<-|Hr]; [apply Hold; apply set_add_in|apply Hnew; exact Hr].
      * rewrite Hspec. unfold m2. rewrite get_set_same.
        eexists. split; [reflexivity|]. cbn [count contracts].
        rewrite (filter_absent _ _ Hrest). cbn [List.length].
        split; [lia|]. split.
        -- intros c Hc. apply set_add_keeps. exact Hc.
        -- intros r [<-|[]]. apply set_add_in.
    + apply String.eqb_neq in Htoken. cbn [orb].
      assert (Hat : stats_at m2 token = stats_at m0 token).
      { unfold stats_at, m2. rewrite (get_set_other _ _ _ _ Htoken).
        rewrite (Hm1' _ Htoken). reflexivity. }
      destruct (existsb (fun r => String.eqb (token_of r) token) rest).
      * rewrite Hat in Hspec. exact Hspec.
      * rewrite Hspec. unfold m2. rewrite (get_set_other _ _ _ _ Htoken).
        apply Hm1'. exact Htoken.
Qed.
End TokenFacts.

(** C7, as amended.  In [fetch], the volumes are kept per token key
    [symbol (contractAddress)]: two events of one symbol at two contract
    addresses have two keys, each key holds the sum of the values of the
    events of that very symbol and contract, and among the events of one
    symbol the key tells the contracts apart.  In [analyze], the statistics
    are kept per symbol alone: two rows of one symbol are counted in one
    entry, whatever their contract addresses, and that entry's [contracts]
    set holds the contract address of each. *)
Theorem token_statistics_keys :
  (forall (events : list TransferEvents.TransferEvent)
          (e1 e2 : TransferEvents.TransferEvent),
      values_parse TransferEvents.value events ->
      In e1 events -> In e2 events ->
      TransferEvents.tokenSymbol e1 = TransferEvents.tokenSymbol e2 ->
      TransferEvents.contractAddress e1 <> TransferEvents.contractAddress e2 ->
      exists m,
        TransferEvents.tokenVolumes events = Some m /\
        TransferEvents.tokenKey e1 <> TransferEvents.tokenKey e2 /\
        JsMap.get m (TransferEvents.tokenKey e1)
        = Some (volume_under (TransferEvents.tokenKey e1) events) /\
        JsMap.get m (TransferEvents.tokenKey e2)
        = Some (volume_under (TransferEvents.tokenKey e2) events) /\
        (forall e, TransferEvents.tokenSymbol e = TransferEvents.tokenSymbol e1 ->
                   (TransferEvents.tokenKey e = TransferEvents.tokenKey e1 <->
                    TransferEvents.contractAddress e
                    = TransferEvents.contractAddress e1)))
  /\
  (forall (data : list TransferEvents.Row) (r1 r2 : TransferEvents.Row),
      values_parse (fun row => TransferEvents.or_else
                                 (TransferEvents.row_value row) "0") data ->
      In r1 data -> In r2 data ->
      token_of r1 = token_of r2 ->
      exists m stats,
        TransferEvents.tokenStats data = Some m /\
        JsMap.get m (token_of r1) = Some stats /\
        JsMap.get m (token_of r2) = Some stats /\
        TransferEvents.count stats
        = Z.of_nat (List.length (rows_under (token_of r1) data)) /\
        In (TransferEvents.row_contractAddress r1) (TransferEvents.contracts stats) /\
        In (TransferEvents.row_contractAddress r2) (TransferEvents.contracts stats)).
Proof.
  split.
  - intros events e1 e2 Hparse H1 H2 Hsym Hcontract.
    destruct (TokenFacts.tokenVolumes_from_spec events JsMap.empty Hparse)
      as (m & Hm & Hget).
    exists m. split; [exact Hm|]. split; [|split; [|split]].
    + intros Hkey. apply Hcontract.
      apply StringFacts.tokenKey_contract; assumption.
    + rewrite Hget.
      replace (existsb (fun e => String.eqb (TransferEvents.tokenKey e)
                                   (TransferEvents.tokenKey e1)) events)
        with true; [reflexivity|].
      symmetry. apply existsb_exists. exists e1.
      split; [exact H1|apply String.eqb_refl].
    + rewrite Hget.
      replace (existsb (fun e => String.eqb (TransferEvents.tokenKey e)
                                   (TransferEvents.tokenKey e2)) events)
        with true; [reflexivity|].
      symmetry. apply existsb_exists. exists e2.
      split; [exact H2|apply String.eqb_refl].
    + intros e He. split.
      * apply StringFacts.tokenKey_contract. exact He.
      * intros Hc. unfold TransferEvents.tokenKey. rewrite He, Hc. reflexivity.
  - intros data r1 r2 Hparse H1 H2 Htoken.
    destruct (TokenFacts.tokenStats_from_spec data JsMap.empty Hparse)
      as (m & Hm & Hspec).
    specialize (Hspec (token_of r1)).
    replace (existsb (fun row => String.eqb (token_of row) (token_of r1)) data)
      with true in Hspec.
    + destruct Hspec as (stats & Hget & Hcount & _ & Hcontracts).
      exists m, stats. split; [exact Hm|]. split; [exact Hget|].
      split; [rewrite <- Htoken; exact Hget|].
      split; [rewrite Hcount; cbn; lia|].
      split; apply Hcontracts; apply filter_In; split; auto.
      * apply String.eqb_refl.
      * rewrite Htoken. apply String.eqb_refl.
    + symmetry. apply existsb_exists. exists r1.
      split; [exact H1|apply String.eqb_refl].
Qed.

Lemma token_statistics_keys_witness :
  (exists m,
      TransferEvents.tokenVolumes [Sample.event_usdt_1; Sample.event_usdt_2]
      = Some m /\
      TransferEvents.tokenKey Sample.event_usdt_1
      <> TransferEvents.tokenKey Sample.event_usdt_2 /\
      JsMap.get m "USDT (0x01)" = Some 5 /\
      JsMap.get m "USDT (0x02)" = Some 7)
  /\
  (exists m stats,
      TransferEvents.tokenStats [Sample.row_usdt_1; Sample.row_usdt_2] = Some m /\
      JsMap.get m "USDT" = Some stats /\
      TransferEvents.count stats = 2).
Proof.
  split.
  - destruct (proj1 token_statistics_keys
                [Sample.event_usdt_1; Sample.event_usdt_2]
                Sample.event_usdt_1 Sample.event_usdt_2)
      as (m & Hm & Hkeys & Hget1 & Hget2 & _).
    + intros x [<-|[<-|[]]]; eexists; reflexivity.
    + left. reflexivity.
    + right. left. reflexivity.
    + reflexivity.
    + discriminate.
    + exists m. split; [exact Hm|]. split; [exact Hkeys|].
      split; [exact Hget1|exact Hget2].
  - destruct (proj2 token_statistics_keys
                [Sample.row_usdt_1; Sample.row_usdt_2]
                Sample.row_usdt_1 Sample.row_usdt_2)
      as (m & stats & Hm & Hget & _ & Hcount & _).
    + intros x [<-|[<-|[]]]; eexists; reflexivity.
    + left. reflexivity.
    + right. left. reflexivity.
    + reflexivity.
    + exists m, stats. split; [exact Hm|]. split; [exact Hget|exact Hcount].
Defined.

(** C7 as stated fails in [analyze]: two rows of the symbol USDT at the
    contract addresses 0x01 and 0x02 end up under the one key ["USDT"],
    with a count of 2, the summed volume and both addresses in the
    [contracts] set. *)
Lemma analyze_merges_contracts_counterexample :
  TransferEvents.row_contractAddress Sample.row_usdt_1
  <> TransferEvents.row_contractAddress Sample.row_usdt_2 /\
  TransferEvents.tokenStats [Sample.row_usdt_1; Sample.row_usdt_2]
  = Some [("USDT"%string,
           {| TransferEvents.count := 2;
              TransferEvents.volume := 12;
              TransferEvents.contracts := [Some "0x01"%string; Some "0x02"%string] |})].
Proof.
  split; [discriminate|reflexivity].
Qed.

(* ===================================================================== *)
(** * Rankings                                                            *)
(* ===================================================================== *)

Module SortFacts.
Section ByVolume.
Context {X : Type}.
Variable vol : X -> Z.

Lemma by_volume_negative (a b : X) :
  (by_volume vol a b <? 0) = (vol b <=? vol a).
Proof.
  unfold by_volume. rewrite Z.gtb_ltb.
  destruct (Z.ltb_spec (vol a) (vol b)), (Z.leb_spec (vol b) (vol a));
    try reflexivity; lia.
Qed.

Lemma firstn_length_app (a b : list X) : firstn (List.length a) (a ++ b) = a.
Proof. induction a as [|x a IH]; cbn; [reflexivity|]. rewrite IH. reflexivity. Qed.

Lemma skipn_length_app (a b : list X) : skipn (List.length a) (a ++ b) = b.
Proof. induction a as [|x a IH]; cbn; auto. Qed.

(** In a descending list, what stands up to a position is at least, and
    what stands from it on is at most, the element at that position. *)
Lemma descending_around (l : list X) :
  StronglySorted (descending vol) l ->
  forall (k : nat) (x : X),
    nth_error l k = Some x ->
    Forall (fun y => vol x <= vol y) (firstn (S k) l) /\
    Forall (fun y => vol y <= vol x) (skipn k l).
Proof.
  induction 1 as [|h l Hsorted IH Hall]; intros k x Hk.
  - destruct k; discriminate.
  - destruct k as [|k].
    + cbn in Hk. injection Hk as <-. cbn [firstn skipn]. split.
      * repeat constructor. lia.
      * constructor; [lia|]. exact Hall.
    + cbn in Hk. destruct (IH k x Hk) as [Hbefore Hafter].
      cbn [skipn]. split; [|exact Hafter].
      change (firstn (S (S k)) (h :: l)) with (h :: firstn (S k) l).
      constructor; [|exact Hbefore].
      rewrite Forall_forall in Hall. apply Hall.
      eapply nth_error_In. exact Hk.
Qed.

Section Insertion.
Variable pivot : X.

(** The search stops at the slot that parts the elements above the pivot
    from those that the pivot equals or exceeds: the pivot goes in front
    of its equals. *)
Lemma insertion_point_parts (sorted : list X) :
  StronglySorted (descending vol) sorted ->
  forall (fuel left right : nat),
    (left <= right <= List.length sorted)%nat ->
    (right - left <= fuel)%nat ->
    Forall (fun y => vol pivot < vol y) (firstn left sorted) ->
    Forall (fun y => vol y <= vol pivot) (skipn right sorted) ->
    let p := V8.insertion_point (by_volume vol) fuel sorted pivot left right in
    (p <= List.length sorted)%nat /\
    Forall (fun y => vol pivot < vol y) (firstn p sorted) /\
    Forall (fun y => vol y <= vol pivot) (skipn p sorted).
Proof.
  intros Hsorted. induction fuel as [|fuel IH];
    intros left right Hbounds Hfuel Hleft Hright; cbv zeta.
  - cbn [V8.insertion_point].
    destruct (Nat.ltb_spec left right) as [Hlt|Hge]; [lia|].
    assert (left = right) by lia. subst right.
    split; [lia|]. split; assumption.
  - cbn [V8.insertion_point].
    destruct (Nat.ltb_spec left right) as [Hlt|Hge].
    + assert (Hhalf : (Nat.div2 (right - left) < right - left)%nat)
        by (apply Nat.lt_div2; lia).
      remember (Nat.div2 (right - left)) as half eqn:Ehalf. clear Ehalf.
      set (mid := (left + half)%nat).
      assert (Hmid : (left <= mid < right)%nat) by (unfold mid; lia).
      destruct (nth_error sorted mid) as [element|] eqn:Helement.
      * destruct (descending_around sorted Hsorted mid element Helement)
          as [Hbefore Hafter].
        rewrite by_volume_negative.
        destruct (Z.leb_spec (vol element) (vol pivot)) as [Hle|Hgt].
        -- apply IH; try lia; try assumption.
           eapply Forall_impl; [|exact Hafter]. cbv beta. intros y Hy. lia.
        -- apply IH; try lia; try assumption.
           eapply Forall_impl; [|exact Hbefore]. cbv beta. intros y Hy. lia.
      * apply nth_error_None in Helement. lia.
    + assert (left = right) by lia. subst right.
      split; [lia|]. split; assumption.
Qed.

Lemma middle_descending (front back : list X) :
  StronglySorted (descending vol) (front ++ back) ->
  Forall (fun y => vol pivot < vol y) front ->
  Forall (fun y => vol y <= vol pivot) back ->
  StronglySorted (descending vol) (front ++ pivot :: back).
Proof.
  induction front as [|h front IH]; intros Hsorted Hbefore Hafter;
    cbn [app] in *.
  - constructor; [exact Hsorted|exact Hafter].
  - apply StronglySorted_inv in Hsorted. destruct Hsorted as [Hrest Hall].
    apply Forall_cons_iff in Hbefore. destruct Hbefore as [Hh Hbefore].
    constructor; [apply IH; assumption|].
    apply Forall_app in Hall. destruct Hall as [Hfront Hback].
    apply Forall_app. split; [exact Hfront|].
    constructor; [unfold descending; lia|exact Hback].
Qed.

Lemma insert_at_descending (sorted : list X) (p : nat) :
  StronglySorted (descending vol) sorted ->
  Forall (fun y => vol pivot < vol y) (firstn p sorted) ->
  Forall (fun y => vol y <= vol pivot) (skipn p sorted) ->
  StronglySorted (descending vol) (V8.insert_at p pivot sorted).
Proof.
  unfold V8.insert_at. intros Hsorted Hbefore Hafter.
  apply middle_descending; [|exact Hbefore|exact Hafter].
  rewrite firstn_skipn. exact Hsorted.
Qed.

Lemma insert_at_permutation (sorted : list X) (p : nat) :
  Permutation (pivot :: sorted) (V8.insert_at p pivot sorted).
Proof.
  unfold V8.insert_at. rewrite <- (firstn_skipn p sorted) at 1.
  apply Permutation_middle.
Qed.
End Insertion.

(** The insertion loop keeps the list descending and loses nothing. *)
Lemma insert_all_descending (pending : list X) :
  forall sorted : list X,
    StronglySorted (descending vol) sorted ->
    StronglySorted (descending vol) (V8.insert_all (by_volume vol) sorted pending) /\
    Permutation (sorted ++ pending) (V8.insert_all (by_volume vol) sorted pending).
Proof.
  induction pending as [|pivot rest IH]; intros sorted Hsorted.
  - cbn. rewrite app_nil_r. split; [exact Hsorted|reflexivity].
  - cbn [V8.insert_all].
    destruct (insertion_point_parts pivot sorted Hsorted
                (List.length sorted) 0 (List.length sorted))
      as (Hp & Hbefore & Hafter); try lia.
    + constructor.
    + rewrite skipn_all. constructor.
    + destruct (IH _ (insert_at_descending pivot sorted _ Hsorted Hbefore Hafter))
        as [Hdesc Hperm].
      split; [exact Hdesc|].
      transitivity ((pivot :: sorted) ++ rest).
      * symmetry. apply Permutation_middle.
      * etransitivity; [|exact Hperm].
        apply Permutation_app_tail. apply insert_at_permutation.
Qed.

Lemma run_length_spec (isDescending : bool) (rest : list X) :
  forall (previous : X) (n : nat),
    exists k,
      V8.run_length (by_volume vol) isDescending previous rest n = (n + k)%nat /\
      (k <= List.length rest)%nat /\
      StronglySorted (run_step vol isDescending) (previous :: firstn k rest).
Proof.
  assert (Htrans : forall a b c, run_step vol isDescending a b ->
                                 run_step vol isDescending b c ->
                                 run_step vol isDescending a c).
  { unfold run_step. destruct isDescending; intros; lia. }
  induction rest as [|current rest IH]; intros previous n.
  - exists 0%nat. cbn. split; [lia|]. split; [lia|]. repeat constructor.
  - cbn [V8.run_length].
    assert (Hstop : (if isDescending
                     then 0 <=? by_volume vol current previous
                     else by_volume vol current previous <? 0) = false ->
                    run_step vol isDescending previous current).
    { unfold by_volume, run_step. rewrite Z.gtb_ltb.
      destruct isDescending, (Z.ltb_spec (vol current) (vol previous));
        cbn; intros; try discriminate; lia. }
    destruct (if isDescending
              then 0 <=? by_volume vol current previous
              else by_volume vol current previous <? 0).
    + exists 0%nat. cbn. split; [lia|]. split; [lia|]. repeat constructor.
    + specialize (Hstop eq_refl).
      destruct (IH current (S n)) as (k & Hk & Hlen & Hrun).
      exists (S k). split; [rewrite Hk; lia|]. split; [cbn; lia|].
      cbn [firstn]. constructor; [exact Hrun|].
      constructor; [exact Hstop|].
      apply StronglySorted_inv in Hrun. destruct Hrun as [_ Hall].
      eapply Forall_impl; [|exact Hall]. intros y Hy. eapply Htrans; eassumption.
Qed.

Lemma rising_run_reversed (l : list X) :
  StronglySorted (run_step vol true) l ->
  StronglySorted (descending vol) (rev l).
Proof.
  induction 1 as [|h l Hsorted IH Hall]; cbn; [constructor|].
  clear Hsorted. revert IH.
  assert (Hall' : Forall (fun y => descending vol y h) (rev l)).
  { apply Forall_rev. exact Hall. }
  revert Hall'. generalize (rev l) as r. clear.
  induction r as [|y r IH]; intros Hall Hsorted; cbn.
  - repeat constructor.
  - apply StronglySorted_inv in Hsorted. destruct Hsorted as [Hrest Hy].
    apply Forall_cons_iff in Hall. destruct Hall as [Hyh Hall].
    constructor; [apply IH; assumption|].
    apply Forall_app. split; [exact Hy|]. repeat constructor. exact Hyh.
Qed.

Lemma falling_run (l : list X) :
  StronglySorted (run_step vol false) l ->
  StronglySorted (descending vol) l.
Proof.
  induction 1 as [|h l Hsorted IH Hall]; constructor; [exact IH|].
  eapply Forall_impl; [|exact Hall].
  unfold run_step, descending. intros y Hy. lia.
Qed.

(** On fewer than 64 entries the engine's sort with a comparator of the
    rankings delivers the entries in descending order of volume. *)
Lemma sort_descending (l : list X) :
  (List.length l < 64)%nat ->
  exists ranked,
    V8.sort (by_volume vol) l = Some ranked /\
    Permutation l ranked /\
    StronglySorted (descending vol) ranked.
Proof.
  intros Hshort. unfold V8.sort.
  destruct (Nat.ltb_spec (List.length l) 2) as [Htiny|Hlong].
  - exists l. split; [reflexivity|]. split; [reflexivity|].
    destruct l as [|a [|b l]]; cbn in Htiny; try lia; repeat constructor.
  - destruct (Nat.ltb_spec (List.length l) 64) as [_|Hbig]; [|lia].
    destruct l as [|elementHigh [|elementLow rest]]; cbn in Hlong; try lia.
    unfold V8.CountAndMakeRun.
    set (isDescending := by_volume vol elementLow elementHigh <? 0).
    destruct (run_length_spec isDescending rest elementLow 2)
      as (k & Hk & Hlen & Hrun).
    rewrite Hk.
    set (l := elementHigh :: elementLow :: rest) in *.
    assert (Hprefix : firstn (2 + k) l = elementHigh :: elementLow :: firstn k rest)
      by reflexivity.
    assert (Hfirst : run_step vol isDescending elementHigh elementLow).
    { unfold isDescending, run_step. rewrite by_volume_negative.
      destruct (Z.leb_spec (vol elementHigh) (vol elementLow)); lia. }
    assert (Hwhole : StronglySorted (run_step vol isDescending) (firstn (2 + k) l)).
    { rewrite Hprefix. constructor; [exact Hrun|].
      constructor; [exact Hfirst|].
      apply StronglySorted_inv in Hrun. destruct Hrun as [_ Hall].
      eapply Forall_impl; [|exact Hall]. intros y Hy.
      unfold run_step in *. destruct isDescending; lia. }
    assert (Hrunlen : List.length (firstn (2 + k) l) = (2 + k)%nat).
    { apply firstn_length_le. cbn [l List.length]. lia. }
    set (run := if isDescending then rev (firstn (2 + k) l) else firstn (2 + k) l).
    assert (Hrun' : StronglySorted (descending vol) run /\
                    Permutation (firstn (2 + k) l) run /\
                    List.length run = (2 + k)%nat).
    { unfold run. destruct isDescending.
      - split; [apply rising_run_reversed; exact Hwhole|].
        split; [apply Permutation_rev|]. rewrite length_rev. exact Hrunlen.
      - split; [apply falling_run; exact Hwhole|].
        split; [reflexivity|exact Hrunlen]. }
    destruct Hrun' as (Hdesc & Hperm & Hlenrun).
    assert (Hl' : (if isDescending
                   then rev (firstn (2 + k) l) ++ skipn (2 + k) l
                   else l) = run ++ skipn (2 + k) l).
    { unfold run. destruct isDescending; [reflexivity|].
      symmetry. apply firstn_skipn. }
    rewrite Hl'.
    assert (Hall : Permutation l (run ++ skipn (2 + k) l)).
    { rewrite <- (firstn_skipn (2 + k) l) at 1.
      apply Permutation_app_tail. exact Hperm. }
    destruct (Nat.ltb_spec (2 + k) (List.length l)) as [Hmore|Hdone].
    + unfold V8.BinaryInsertionSort. cbn [Nat.eqb plus].
      change (S (S k)) with (2 + k)%nat.
      rewrite <- Hlenrun, firstn_length_app, skipn_length_app.
      destruct (insert_all_descending (skipn (List.length run) l) run Hdesc)
        as [Hsorted Hperm'].
      rewrite Hlenrun in *.
      eexists. split; [reflexivity|]. split; [|exact Hsorted].
      etransitivity; [exact Hall|exact Hperm'].
    + eexists. split; [reflexivity|]. split; [exact Hall|].
      rewrite skipn_all2 by (cbn [l List.length] in *; lia).
      rewrite app_nil_r. exact Hdesc.
Qed.
End ByVolume.
End SortFacts.

(** With fewer than 64 entries each ranking is the head of a
    rearrangement of the map's entries in descending order of volume: what
    has the larger volume stands first. *)
Lemma topTokens_descending (tokenVolumes : JsMap.t Z) :
  (List.length tokenVolumes < 64)%nat ->
  exists ranked,
    TransferEvents.topTokens tokenVolumes = Some (firstn 5 ranked) /\
    Permutation (JsMap.entries tokenVolumes) ranked /\
    StronglySorted (descending snd) ranked.
Proof.
  intros Hshort.
  destruct (SortFacts.sort_descending snd (JsMap.entries tokenVolumes) Hshort)
    as (ranked & Hsort & Hperm & Hdesc).
  exists ranked. split; [|split; assumption].
  unfold TransferEvents.topTokens.
  change TransferEvents.compareVolumes with (by_volume (X := string * Z) snd).
  rewrite Hsort. reflexivity.
Qed.

Lemma sortedTokens_descending (topN : option Z)
    (tokenStats : JsMap.t TransferEvents.TokenStats) :
  (List.length tokenStats < 64)%nat ->
  exists ranked,
    TransferEvents.sortedTokens topN tokenStats = Some (slice0 topN ranked) /\
    Permutation (JsMap.entries tokenStats) ranked /\
    StronglySorted (descending (fun e => TransferEvents.volume (snd e))) ranked.
Proof.
  intros Hshort.
  destruct (SortFacts.sort_descending (fun e => TransferEvents.volume (snd e))
              (JsMap.entries tokenStats) Hshort)
    as (ranked & Hsort & Hperm & Hdesc).
  exists ranked. split; [|split; assumption].
  unfold TransferEvents.sortedTokens.
  change TransferEvents.compareTokens
    with (by_volume (X := string * TransferEvents.TokenStats)
            (fun e => TransferEvents.volume (snd e))).
  rewrite Hsort. reflexivity.
Qed.

Lemma topAddresses_descending (addressVolumes : JsMap.t EthTransfers.AddressVolume) :
  (List.length addressVolumes < 64)%nat ->
  exists ranked,
    EthTransfers.topAddresses addressVolumes = Some (firstn 10 ranked) /\
    Permutation (JsMap.entries addressVolumes) ranked /\
    StronglySorted
      (descending (fun e => EthTransfers.sent (snd e) + EthTransfers.received (snd e)))
      ranked.
Proof.
  intros Hshort.
  destruct (SortFacts.sort_descending
              (fun e => EthTransfers.sent (snd e) + EthTransfers.received (snd e))
              (JsMap.entries addressVolumes) Hshort)
    as (ranked & Hsort & Hperm & Hdesc).
  exists ranked. split; [|split; assumption].
  unfold EthTransfers.topAddresses.
  change EthTransfers.compareAddresses
    with (by_volume (X := string * EthTransfers.AddressVolume)
            (fun e => EthTransfers.sent (snd e) + EthTransfers.received (snd e))).
  rewrite Hsort. reflexivity.
Qed.

(** C8, at the failing input.  The comparator of the token ranking never
    answers 0: on two entries of equal volume it answers -1 whichever way
    round the entries are given, so it does not order ties the way a
    stable sort needs.  Run by the engine, the ranking of any two tokens of
    equal volume lists the token seen second before the token seen first:
    in [fetch], two transfers of 5 units, USDT first and DAI second, are
    ranked DAI, USDT.  The token ranking of [analyze] and the address
    ranking of the native-transfer [fetch], which compare in the same way,
    turn their ties around as well. *)
Theorem rankings_reverse_ties :
  (forall (k1 k2 : string) (v : Z),
      TransferEvents.compareVolumes (k1, v) (k2, v) = -1 /\
      TransferEvents.topTokens [(k1, v); (k2, v)] = Some [(k2, v); (k1, v)]) /\
  TransferEvents.tokenVolumes [Sample.event_usdt_1; Sample.event_dai]
  = Some [("USDT (0x01)"%string, 5); ("DAI (0x03)"%string, 5)] /\
  TransferEvents.topTokens [("USDT (0x01)"%string, 5); ("DAI (0x03)"%string, 5)]
  = Some [("DAI (0x03)"%string, 5); ("USDT (0x01)"%string, 5)] /\
  option_map (map fst)
    (match TransferEvents.tokenStats
             [Sample.row_usdt_1; Sample.row_usdt_2; Sample.row_dai] with
     | Some m => TransferEvents.sortedTokens TransferEvents.defaultTopN m
     | None => None
     end)
  = Some ["DAI"%string; "USDT"%string] /\
  option_map (map fst)
    (match EthTransfers.addressVolumes [Sample.transfer_b1; Sample.transfer_b2] with
     | Some m => EthTransfers.topAddresses m
     | None => None
     end)
  = Some ["0xA2"%string; "0xA1"%string].
Proof.
  assert (Htie : forall (k1 k2 : string) (v : Z),
             TransferEvents.compareVolumes (k1, v) (k2, v) = -1).
  { intros k1 k2 v. unfold TransferEvents.compareVolumes. cbn [snd].
    rewrite Z.gtb_ltb, Z.ltb_irrefl. reflexivity. }
  split.
  - intros k1 k2 v. split; [apply Htie|].
    unfold TransferEvents.topTokens, V8.sort, V8.CountAndMakeRun, JsMap.entries.
    cbn [List.length Nat.ltb Nat.leb]. rewrite Htie.
    reflexivity.
  - repeat split; vm_compute; reflexivity.
Qed.

(* ===================================================================== *)
(** * binarySearch and binarySearchClosest                                *)
(* ===================================================================== *)

Module SearchFacts.
Import Search.
Section OverArrays.
Context {T : Type}.
Variable array : list T.
Variable target : Z.
Variable getValue : T -> Z.

Lemma item_In (i : Z) (x : T) : item array i = Some x -> In x array.
Proof.
  unfold item. destruct (i <? 0); [discriminate|]. apply nth_error_In.
Qed.

Lemma item_within (i : Z) :
  0 <= i < Z.of_nat (List.length array) -> exists x, item array i = Some x.
Proof.
  intros Hi. unfold item.
  assert (Hneg : (i <? 0) = false) by (apply Z.ltb_ge; lia). rewrite Hneg.
  destruct (nth_error array (Z.to_nat i)) as [x|] eqn:Hnth; [eauto|].
  apply nth_error_None in Hnth. lia.
Qed.

Lemma In_item (x : T) : In x array -> exists i, item array i = Some x.
Proof.
  intros Hin. apply In_nth_error in Hin. destruct Hin as [k Hk].
  exists (Z.of_nat k). unfold item.
  assert (Hneg : (Z.of_nat k <? 0) = false) by (apply Z.ltb_ge; lia).
  rewrite Hneg, Nat2Z.id. exact Hk.
Qed.

Lemma item_bounds (i : Z) (x : T) :
  item array i = Some x -> 0 <= i < Z.of_nat (List.length array).
Proof.
  unfold item. destruct (i <? 0) eqn:Hneg; [discriminate|].
  apply Z.ltb_ge in Hneg. intros H.
  assert (Hlt : (Z.to_nat i < List.length array)%nat).
  { apply nth_error_Some. congruence. }
  lia.
Qed.

Lemma midpoint (left right : Z) :
  left <= right -> left <= (left + right) / 2 <= right.
Proof. intros H. split; Z.div_mod_to_equations; lia. Qed.

Lemma sorted_items :
  StronglySorted (fun a b => getValue a <= getValue b) array ->
  forall i j a b, i <= j -> item array i = Some a -> item array j = Some b ->
                  getValue a <= getValue b.
Proof.
  unfold item. intros Hsorted.
  induction Hsorted as [|x l Hs IH Hall]; intros i j a b Hij Ha Hb.
  - destruct (i <? 0); [discriminate|]. destruct (Z.to_nat i); discriminate.
  - destruct (i <? 0) eqn:Hi; [discriminate|].
    destruct (j <? 0) eqn:Hj; [discriminate|].
    apply Z.ltb_ge in Hi, Hj.
    destruct (Z.to_nat i) as [|i'] eqn:Ei; destruct (Z.to_nat j) as [|j'] eqn:Ej;
      cbn [nth_error] in Ha, Hb.
    + injection Ha as <-. injection Hb as <-. lia.
    + injection Ha as <-. apply nth_error_In in Hb.
      rewrite Forall_forall in Hall. apply Hall. exact Hb.
    + lia.
    + apply (IH (Z.of_nat i') (Z.of_nat j')); [lia| |].
      * assert (H0 : (Z.of_nat i' <? 0) = false) by (apply Z.ltb_ge; lia).
        rewrite H0, Nat2Z.id. exact Ha.
      * assert (H0 : (Z.of_nat j' <? 0) = false) by (apply Z.ltb_ge; lia).
        rewrite H0, Nat2Z.id. exact Hb.
Qed.

Section Exact.
Variable compare : Z -> Z -> Z.

Lemma binarySearch_loop_step (fuel : nat) (left right : Z) :
  binarySearch_loop array target getValue compare (S fuel) left right
  = if left <=? right then
      match item array ((left + right) / 2) with
      | None => Some None
      | Some midItem =>
          if compare (getValue midItem) target =? 0 then Some (Some midItem)
          else if compare (getValue midItem) target <? 0
               then binarySearch_loop array target getValue compare fuel
                      ((left + right) / 2 + 1) right
               else binarySearch_loop array target getValue compare fuel
                      left ((left + right) / 2 - 1)
      end
    else Some None.
Proof. reflexivity. Qed.

Lemma binarySearch_loop_sound (fuel : nat) :
  forall left right x,
    binarySearch_loop array target getValue compare fuel left right = Some (Some x) ->
    In x array /\ compare (getValue x) target = 0.
Proof.
  induction fuel as [|fuel IH]; intros left right x.
  - cbn [binarySearch_loop]. destruct (left <=? right); discriminate.
  - rewrite binarySearch_loop_step.
    destruct (left <=? right); [|discriminate].
    destruct (item array ((left + right) / 2)) as [midItem|] eqn:Hmid; [|discriminate].
    destruct (compare (getValue midItem) target =? 0) eqn:Hzero.
    + intros [= <-]. split; [exact (item_In _ _ Hmid)|].
      apply Z.eqb_eq. exact Hzero.
    + destruct (compare (getValue midItem) target <? 0); apply IH.
Qed.

Lemma binarySearch_loop_ends (fuel : nat) :
  forall left right,
    (Z.to_nat (right - left + 1) <= fuel)%nat ->
    exists r, binarySearch_loop array target getValue compare fuel left right = Some r.
Proof.
  induction fuel as [|fuel IH]; intros left right Hfuel.
  - cbn [binarySearch_loop]. destruct (left <=? right) eqn:Hle; [|eauto].
    apply Z.leb_le in Hle. lia.
  - rewrite binarySearch_loop_step.
    destruct (left <=? right) eqn:Hle; [|eauto].
    apply Z.leb_le in Hle. pose proof (midpoint left right Hle) as Hm.
    destruct (item array ((left + right) / 2)) as [midItem|]; [|eauto].
    destruct (compare (getValue midItem) target =? 0); [eauto|].
    destruct (compare (getValue midItem) target <? 0); apply IH; lia.
Qed.
End Exact.

Lemma binarySearch_loop_finds (fuel : nat) :
  StronglySorted (fun a b => getValue a <= getValue b) array ->
  forall left right,
    0 <= left -> right < Z.of_nat (List.length array) ->
    (Z.to_nat (right - left + 1) <= fuel)%nat ->
    (exists k x, left <= k <= right /\ item array k = Some x /\ getValue x = target) ->
    exists y,
      binarySearch_loop array target getValue defaultCompare fuel left right
      = Some (Some y) /\ getValue y = target.
Proof.
  intros Hsorted.
  induction fuel as [|fuel IH];
    intros left right Hleft Hright Hfuel (k & x & Hk & Hx & Hvalue).
  - lia.
  - rewrite binarySearch_loop_step.
    assert (Hle : (left <=? right) = true) by (apply Z.leb_le; lia).
    rewrite Hle. pose proof (midpoint left right ltac:(lia)) as Hm.
    remember ((left + right) / 2) as mid eqn:Emid. clear Emid.
    destruct (item_within mid) as [midItem Hmid]; [lia|].
    rewrite Hmid. unfold defaultCompare.
    destruct (getValue midItem - target =? 0) eqn:Hzero.
    + apply Z.eqb_eq in Hzero. exists midItem. split; [reflexivity|lia].
    + apply Z.eqb_neq in Hzero.
      destruct (getValue midItem - target <? 0) eqn:Hneg.
      * apply Z.ltb_lt in Hneg. apply IH; [lia|lia|lia|].
        exists k, x. split; [|split; assumption].
        destruct (Z_le_gt_dec k mid) as [Hkm|Hkm]; [|lia].
        pose proof (sorted_items Hsorted k mid x midItem Hkm Hx Hmid). lia.
      * apply Z.ltb_ge in Hneg. apply IH; [lia|lia|lia|].
        exists k, x. split; [|split; assumption].
        destruct (Z_le_gt_dec mid k) as [Hkm|Hkm]; [|lia].
        pose proof (sorted_items Hsorted mid k midItem x Hkm Hmid Hx). lia.
Qed.

Lemma closest_loop_step (fuel : nat) (left right : Z) (closest : T) (closestDiff : Z) :
  closest_loop array target getValue (S fuel) left right closest closestDiff
  = if left <=? right then
      match item array ((left + right) / 2) with
      | None => Some closest
      | Some midItem =>
          let diff := Z.abs (getValue midItem - target) in
          if getValue midItem <? target
          then closest_loop array target getValue fuel ((left + right) / 2 + 1) right
                 (if diff <? closestDiff then midItem else closest)
                 (if diff <? closestDiff then diff else closestDiff)
          else closest_loop array target getValue fuel left ((left + right) / 2 - 1)
                 (if diff <? closestDiff then midItem else closest)
                 (if diff <? closestDiff then diff else closestDiff)
      end
    else Some closest.
Proof. reflexivity. Qed.

(** The loop ends with an element at least as close as the one it
    started from. *)
Lemma closest_loop_member (fuel : nat) :
  forall left right closest closestDiff,
    (Z.to_nat (right - left + 1) <= fuel)%nat ->
    In closest array ->
    closestDiff = Z.abs (getValue closest - target) ->
    exists y,
      closest_loop array target getValue fuel left right closest closestDiff = Some y /\
      In y array /\
      Z.abs (getValue y - target) <= closestDiff.
Proof.
  induction fuel as [|fuel IH]; intros left right closest closestDiff Hfuel Hin Hdiff.
  - cbn [closest_loop]. destruct (left <=? right) eqn:Hle.
    + apply Z.leb_le in Hle. lia.
    + exists closest. split; [reflexivity|split; [exact Hin|lia]].
  - rewrite closest_loop_step. destruct (left <=? right) eqn:Hle.
    + apply Z.leb_le in Hle. pose proof (midpoint left right Hle) as Hm.
      remember ((left + right) / 2) as mid eqn:Emid. clear Emid.
      destruct (item array mid) as [midItem|] eqn:Hmid.
      * cbv zeta.
        remember (Z.abs (getValue midItem - target)) as diff eqn:Ediff.
        assert (Hnext :
          In (if diff <? closestDiff then midItem else closest) array /\
          (if diff <? closestDiff then diff else closestDiff)
          = Z.abs (getValue (if diff <? closestDiff then midItem else closest) - target) /\
          (if diff <? closestDiff then diff else closestDiff) <= closestDiff).
        { destruct (diff <? closestDiff) eqn:Hcloser.
          - apply Z.ltb_lt in Hcloser.
            split; [exact (item_In _ _ Hmid)|split; [exact Ediff|lia]].
          - split; [exact Hin|split; [exact Hdiff|lia]]. }
        destruct Hnext as (Hin' & Hdiff' & Hle').
        destruct (getValue midItem <? target).
        -- destruct (IH (mid + 1) right _ _ ltac:(lia) Hin' Hdiff') as (y & Hy & Hiny & Hclose).
           exists y. split; [exact Hy|split; [exact Hiny|lia]].
        -- destruct (IH left (mid - 1) _ _ ltac:(lia) Hin' Hdiff') as (y & Hy & Hiny & Hclose).
           exists y. split; [exact Hy|split; [exact Hiny|lia]].
      * exists closest. split; [reflexivity|split; [exact Hin|lia]].
    + exists closest. split; [reflexivity|split; [exact Hin|lia]].
Qed.

(** On a sorted array, whatever lies outside of [left, right] is no
    closer to the target than the element held in [closest]. *)
Lemma closest_loop_nearest (fuel : nat) :
  StronglySorted (fun a b => getValue a <= getValue b) array ->
  forall left right closest closestDiff,
    0 <= left -> right < Z.of_nat (List.length array) ->
    (Z.to_nat (right - left + 1) <= fuel)%nat ->
    closestDiff = Z.abs (getValue closest - target) ->
    (forall k x, item array k = Some x -> k < left \/ right < k ->
                 closestDiff <= Z.abs (getValue x - target)) ->
    forall y,
      closest_loop array target getValue fuel left right closest closestDiff = Some y ->
      forall x, In x array -> Z.abs (getValue y - target) <= Z.abs (getValue x - target).
Proof.
  intros Hsorted.
  induction fuel as [|fuel IH];
    intros left right closest closestDiff Hleft Hright Hfuel Hdiff Hout y Hrun x Hx.
  - cbn [closest_loop] in Hrun. destruct (left <=? right) eqn:Hle.
    + discriminate.
    + apply Z.leb_gt in Hle. injection Hrun as <-.
      destruct (In_item x Hx) as [k Hk].
      rewrite <- Hdiff. apply (Hout k x Hk). lia.
  - rewrite closest_loop_step in Hrun. destruct (left <=? right) eqn:Hle.
    + apply Z.leb_le in Hle. pose proof (midpoint left right Hle) as Hm.
      remember ((left + right) / 2) as mid eqn:Emid. clear Emid.
      destruct (item array mid) as [midItem|] eqn:Hmid.
      * cbv zeta in Hrun.
        remember (Z.abs (getValue midItem - target)) as diff eqn:Ediff.
        assert (Hnext :
          (if diff <? closestDiff then diff else closestDiff)
          = Z.abs (getValue (if diff <? closestDiff then midItem else closest) - target) /\
          (if diff <? closestDiff then diff else closestDiff) <= closestDiff /\
          (if diff <? closestDiff then diff else closestDiff) <= diff).
        { destruct (diff <? closestDiff) eqn:Hcloser.
          - apply Z.ltb_lt in Hcloser. split; [exact Ediff|lia].
          - apply Z.ltb_ge in Hcloser. split; [exact Hdiff|lia]. }
        destruct Hnext as (Hdiff' & Hle1 & Hle2).
        destruct (getValue midItem <? target) eqn:Hlow.
        -- apply Z.ltb_lt in Hlow.
           apply (IH (mid + 1) right _ _ ltac:(lia) Hright ltac:(lia) Hdiff');
             [|exact Hrun|exact Hx].
           intros k z Hz Hk.
           destruct (Z_le_gt_dec left k) as [Hlk|Hlk];
             [|specialize (Hout k z Hz); lia].
           destruct (Z_le_gt_dec k right) as [Hkr|Hkr];
             [|specialize (Hout k z Hz); lia].
           pose proof (sorted_items Hsorted k mid z midItem ltac:(lia) Hz Hmid). lia.
        -- apply Z.ltb_ge in Hlow.
           apply (IH left (mid - 1) _ _ Hleft ltac:(lia) ltac:(lia) Hdiff');
             [|exact Hrun|exact Hx].
           intros k z Hz Hk.
           destruct (Z_le_gt_dec left k) as [Hlk|Hlk];
             [|specialize (Hout k z Hz); lia].
           destruct (Z_le_gt_dec k right) as [Hkr|Hkr];
             [|specialize (Hout k z Hz); lia].
           pose proof (sorted_items Hsorted mid k midItem z ltac:(lia) Hmid Hz). lia.
      * destruct (item_within mid) as [m Hm']; [lia|congruence].
    + apply Z.leb_gt in Hle. injection Hrun as <-.
      destruct (In_item x Hx) as [k Hk].
      rewrite <- Hdiff. apply (Hout k x Hk). lia.
Qed.
End OverArrays.
End SearchFacts.

(** X1.  [binarySearch] ends on every array, with every [getValue] and
    every [compare]; an item it returns is an element of the array whose
    value compares equal to the target; so it returns [null] on the empty
    array and whenever no element compares equal. *)
Theorem binarySearch_returns_a_match {T : Type} (array : list T) (target : Z)
    (getValue : T -> Z) (compare : Z -> Z -> Z) :
  (exists r, Search.binarySearch array target getValue compare = Some r) /\
  (forall x, Search.binarySearch array target getValue compare = Some (Some x) ->
             In x array /\ compare (getValue x) target = 0) /\
  ((forall x, In x array -> compare (getValue x) target <> 0) ->
   Search.binarySearch array target getValue compare = Some None).
Proof.
  assert (Hends : exists r,
            Search.binarySearch array target getValue compare = Some r).
  { unfold Search.binarySearch.
    destruct (List.length array =? 0)%nat; [eauto|].
    apply SearchFacts.binarySearch_loop_ends. lia. }
  assert (Hsound : forall x,
            Search.binarySearch array target getValue compare = Some (Some x) ->
            In x array /\ compare (getValue x) target = 0).
  { intros x. unfold Search.binarySearch.
    destruct (List.length array =? 0)%nat; [discriminate|].
    apply SearchFacts.binarySearch_loop_sound. }
  split; [exact Hends|split; [exact Hsound|]].
  intros Hnone. destruct Hends as [[x|] Hr]; [|exact Hr].
  destruct (Hsound x Hr) as [Hin Hzero]. destruct (Hnone x Hin Hzero).
Qed.

(** X2.  On an array sorted by value (non-decreasing), [binarySearch]
    with its default [compare] finds an item of value [target] whenever
    the array holds one. *)
Theorem binarySearch_finds_in_sorted {T : Type} (array : list T) (target : Z)
    (getValue : T -> Z) :
  StronglySorted (fun a b => getValue a <= getValue b) array ->
  (exists x, In x array /\ getValue x = target) ->
  exists y,
    Search.binarySearch array target getValue Search.defaultCompare = Some (Some y) /\
    In y array /\ getValue y = target.
Proof.
  intros Hsorted (x & Hin & Hvalue).
  destruct (SearchFacts.In_item array x Hin) as [k Hk].
  pose proof (SearchFacts.item_bounds array k x Hk) as Hb.
  unfold Search.binarySearch.
  destruct (List.length array =? 0)%nat eqn:Hlen.
  { apply Nat.eqb_eq in Hlen. lia. }
  destruct (SearchFacts.binarySearch_loop_finds array target getValue
              (List.length array) Hsorted 0 (Z.of_nat (List.length array) - 1))
    as (y & Hy & Hty); try lia.
  { exists k, x. split; [lia|split; assumption]. }
  exists y. split; [exact Hy|split; [|exact Hty]].
  apply (SearchFacts.binarySearch_loop_sound array target getValue
           Search.defaultCompare _ _ _ y Hy).
Qed.

Lemma binarySearch_finds_in_sorted_witness :
  exists y,
    Search.binarySearch [1; 3; 5; 7; 11] 7 (fun v => v) Search.defaultCompare
    = Some (Some y) /\ In y [1; 3; 5; 7; 11] /\ y = 7.
Proof.
  apply (binarySearch_finds_in_sorted [1; 3; 5; 7; 11] 7 (fun v => v)).
  - repeat (constructor; [|repeat (constructor; try lia)]). constructor.
  - exists 7. split; [cbn; tauto|reflexivity].
Defined.

(** X3.  [binarySearchClosest] returns [null] on the empty array only; on
    any other array, sorted or not, it ends and returns an element of the
    array that is at least as close to the target as the first element. *)
Theorem binarySearchClosest_returns_an_element {T : Type} (array : list T)
    (target : Z) (getValue : T -> Z) :
  match array with
  | [] => Search.binarySearchClosest array target getValue = Some None
  | firstItem :: _ =>
      exists y,
        Search.binarySearchClosest array target getValue = Some (Some y) /\
        In y array /\
        Z.abs (getValue y - target) <= Z.abs (getValue firstItem - target)
  end.
Proof.
  destruct array as [|firstItem rest]; [reflexivity|].
  set (array := firstItem :: rest).
  change (Search.binarySearchClosest array target getValue)
    with (option_map Some
            (Search.closest_loop array target getValue (List.length array) 0
               (Z.of_nat (List.length array) - 1) firstItem
               (Z.abs (getValue firstItem - target)))).
  destruct (SearchFacts.closest_loop_member array target getValue
              (List.length array) 0 (Z.of_nat (List.length array) - 1)
              firstItem (Z.abs (getValue firstItem - target)))
    as (y & Hy & Hin & Hclose); try lia; try reflexivity.
  { left. reflexivity. }
  exists y. rewrite Hy. split; [reflexivity|split; [exact Hin|exact Hclose]].
Qed.

(** X4.  On a non-empty array sorted by value, [binarySearchClosest]
    returns an element that no element of the array beats: its distance
    to the target is the least there is. *)
Theorem binarySearchClosest_nearest_in_sorted {T : Type} (array : list T)
    (target : Z) (getValue : T -> Z) :
  StronglySorted (fun a b => getValue a <= getValue b) array ->
  array <> [] ->
  exists y,
    Search.binarySearchClosest array target getValue = Some (Some y) /\
    In y array /\
    forall x, In x array ->
              Z.abs (getValue y - target) <= Z.abs (getValue x - target).
Proof.
  intros Hsorted Hne.
  destruct array as [|firstItem rest]; [contradiction|].
  set (array := firstItem :: rest) in *.
  change (Search.binarySearchClosest array target getValue)
    with (option_map Some
            (Search.closest_loop array target getValue (List.length array) 0
               (Z.of_nat (List.length array) - 1) firstItem
               (Z.abs (getValue firstItem - target)))).
  destruct (SearchFacts.closest_loop_member array target getValue
              (List.length array) 0 (Z.of_nat (List.length array) - 1)
              firstItem (Z.abs (getValue firstItem - target)))
    as (y & Hy & Hin & _); try lia; try reflexivity.
  { left. reflexivity. }
  exists y. rewrite Hy. split; [reflexivity|split; [exact Hin|]].
  apply (SearchFacts.closest_loop_nearest array target getValue
           (List.length array) Hsorted 0 (Z.of_nat (List.length array) - 1)
           firstItem (Z.abs (getValue firstItem - target))); try lia; try reflexivity;
    [|exact Hy].
  intros k x Hk Hout. pose proof (SearchFacts.item_bounds array k x Hk). lia.
Qed.

Lemma binarySearchClosest_nearest_in_sorted_witness :
  exists y,
    Search.binarySearchClosest [10; 20; 40; 80] 33 (fun v => v) = Some (Some y) /\
    In y [10; 20; 40; 80] /\
    forall x, In x [10; 20; 40; 80] -> Z.abs (y - 33) <= Z.abs (x - 33).
Proof.
  apply (binarySearchClosest_nearest_in_sorted [10; 20; 40; 80] 33 (fun v => v)).
  - repeat (constructor; [|repeat (constructor; try lia)]). constructor.
  - discriminate.
Defined.

(* ===================================================================== *)
(** * calculateTimeDifference                                             *)
(* ===================================================================== *)

(** X5.  [calculateTimeDifference] does not care which of the two
    timestamps comes first, its fields are never negative, its [seconds]
    are 0 exactly when the timestamps are equal, and its coarser fields
    are the finer ones rounded down: [minutes] holds the whole minutes of
    [seconds], [hours] the whole hours of [minutes], [days] the whole days
    of [hours]. *)
Theorem calculateTimeDifference_units (targetTimestamp blockTimestamp : Z) :
  let d := TimeDifference.calculateTimeDifference targetTimestamp blockTimestamp in
  TimeDifference.calculateTimeDifference blockTimestamp targetTimestamp = d /\
  (TimeDifference.seconds d = 0 <-> targetTimestamp = blockTimestamp) /\
  0 <= TimeDifference.days d <= TimeDifference.hours d /\
  TimeDifference.hours d <= TimeDifference.minutes d <= TimeDifference.seconds d /\
  60 * TimeDifference.minutes d <= TimeDifference.seconds d
    < 60 * TimeDifference.minutes d + 60 /\
  TimeDifference.hours d = TimeDifference.minutes d / 60 /\
  TimeDifference.days d = TimeDifference.hours d / 24.
Proof.
  cbv zeta. unfold TimeDifference.calculateTimeDifference.
  cbn [TimeDifference.seconds TimeDifference.minutes TimeDifference.hours
       TimeDifference.days].
  replace (Z.abs (targetTimestamp - blockTimestamp))
    with (Z.abs (blockTimestamp - targetTimestamp)) by lia.
  remember (Z.abs (blockTimestamp - targetTimestamp)) as diff eqn:Ediff.
  assert (Hdiff : 0 <= diff) by lia.
  split; [reflexivity|].
  split; [lia|].
  assert (Hh : diff / 3600 = diff / 60 / 60)
    by (rewrite Z.div_div by lia; reflexivity).
  assert (Hd : diff / 86400 = diff / 3600 / 24)
    by (rewrite Z.div_div by lia; reflexivity).
  split; [|split; [|split; [|split; [exact Hh|exact Hd]]]].
  - clear Ediff. Z.div_mod_to_equations. lia.
  - clear Ediff. Z.div_mod_to_equations. lia.
  - clear Ediff. Z.div_mod_to_equations. lia.
Qed.

(* ===================================================================== *)
(** * More on the find action and the search                              *)
(* ===================================================================== *)

Module ObserveFacts.
Import Observe.

Section Events.
Context {W : Type}.
Variable P : Event -> Prop.

Lemma all_events_ret {A} (a : A) : all_events P (ret (W := W) a).
Proof. intros w. constructor. Qed.

Lemma all_events_throw {A} (e : JsError) :
  all_events P (throw (W := W) (A := A) e).
Proof. intros w. constructor. Qed.

Lemma all_events_exit {A} (code : Z) :
  all_events P (process_exit (W := W) (A := A) code).
Proof. intros w. constructor. Qed.

Lemma all_events_emit (ev : Event) : P ev -> all_events P (emit (W := W) ev).
Proof. intros H w. constructor; [exact H|constructor]. Qed.

Lemma all_events_bind {A B} (m : Eff W A) (k : A -> Eff W B) :
  all_events P m -> (forall a, all_events P (k a)) -> all_events P (bind m k).
Proof.
  intros Hm Hk w. specialize (Hm w). unfold bind, trace in *.
  destruct (m w) as [[r w1] t1]. cbn [snd] in Hm.
  destruct r; cbn [snd]; try exact Hm.
  specialize (Hk a w1). unfold trace in Hk.
  destruct (k a w1) as [[r2 w2] t2]. cbn [snd] in *.
  apply Forall_app. split; assumption.
Qed.

Lemma all_events_try_catch {A} (m : Eff W A) (h : JsError -> Eff W A) :
  all_events P m -> (forall e, all_events P (h e)) ->
  all_events P (try_catch m h).
Proof.
  intros Hm Hh w. specialize (Hm w). unfold try_catch, trace in *.
  destruct (m w) as [[r w1] t1]. cbn [snd] in Hm.
  destruct r; cbn [snd]; try exact Hm.
  specialize (Hh e w1). unfold trace in Hh.
  destruct (h e w1) as [[r2 w2] t2]. cbn [snd] in *.
  apply Forall_app. split; assumption.
Qed.

Lemma all_events_round_trip {A} (c : RpcCall) (reply : W -> Settled A * W) :
  P (Rpc c) -> all_events P (round_trip c reply).
Proof.
  intros H w. unfold round_trip, trace.
  destruct (reply w) as [[a|e] w1]; cbn [snd]; constructor; auto.
Qed.

Lemma all_events_retry_loop {A} (operation : Eff W A) (maxRetries delay : Z) :
  all_events P operation ->
  (forall line, P (ConsoleLog line)) -> P (Sleep delay) ->
  forall fuel i,
    all_events P (Utils.retry_loop operation maxRetries delay fuel i).
Proof.
  intros Hop Hlog Hsleep.
  induction fuel as [|fuel IH]; intros i.
  - cbn [Utils.retry_loop]. destruct (i <? maxRetries).
    + intros w. constructor.
    + apply all_events_throw.
  - rewrite RetryFacts.retry_loop_step. destruct (i <? maxRetries).
    + apply all_events_try_catch; [exact Hop|]. intros e.
      destruct (i =? maxRetries - 1); [apply all_events_throw|].
      apply all_events_bind; [apply all_events_emit, Hlog|]. intros _.
      apply all_events_bind; [apply all_events_emit, Hsleep|]. intros _.
      apply IH.
    + apply all_events_throw.
Qed.

Lemma all_events_retryOperation {A} (operation : Eff W A) (maxRetries delay : Z) :
  all_events P operation ->
  (forall line, P (ConsoleLog line)) -> P (Sleep delay) ->
  all_events P (Utils.retryOperation operation maxRetries delay).
Proof. intros. apply all_events_retry_loop; assumption. Qed.
End Events.

Section Search.
Context {W : Type} (provider : Provider W).
Variables (targetTimestamp : Z) (verbose : bool).

Lemma all_events_say (P : Event -> Prop) (line : string) :
  (forall l, P (ConsoleLog l)) ->
  all_events P (BlockFinder.say (W := W) verbose line).
Proof.
  intros H. unfold BlockFinder.say, when.
  destruct verbose; [apply all_events_emit, H|apply all_events_ret].
Qed.

Lemma search_round_events (st : BlockFinder.Locals) :
  all_events search_event
    (BlockFinder.search_round provider targetTimestamp verbose st).
Proof.
  assert (Hsay : forall line,
            all_events search_event (BlockFinder.say (W := W) verbose line)).
  { intros line. apply all_events_say. intros l. exact I. }
  unfold BlockFinder.search_round.
  apply all_events_bind; [apply Hsay|]. intros _.
  apply all_events_bind; [apply Hsay|]. intros _.
  apply all_events_bind; [apply Hsay|]. intros _.
  apply all_events_try_catch.
  - apply all_events_bind.
    + apply all_events_retryOperation; [|intros l; exact I|exact I].
      apply all_events_round_trip. exact I.
    + intros [block|]; [|apply all_events_throw].
      apply all_events_bind; [apply Hsay|]. intros _.
      apply all_events_bind.
      * destruct (Js.timestamp block <? targetTimestamp);
          (apply all_events_bind; [apply Hsay|]); intros _; apply all_events_ret.
      * intros st'. apply all_events_bind; [apply Hsay|]. intros _.
        apply all_events_ret.
  - intros e. apply all_events_bind; [apply all_events_emit; exact I|].
    intros _. apply all_events_ret.
Qed.

Lemma search_loop_events (fuel : nat) :
  forall st,
    all_events search_event
      (BlockFinder.search_loop provider targetTimestamp verbose fuel st).
Proof.
  induction fuel as [|fuel IH]; intros st.
  - cbn [BlockFinder.search_loop].
    destruct ((BlockFinder.low st <=? BlockFinder.high st)
              && (BlockFinder.iterations st <? BlockFinder.maxIterations)).
    + intros w. constructor.
    + apply all_events_ret.
  - rewrite FinderFacts.search_loop_step.
    destruct ((BlockFinder.low st <=? BlockFinder.high st)
              && (BlockFinder.iterations st <? BlockFinder.maxIterations));
      [|apply all_events_ret].
    apply all_events_bind; [apply search_round_events|].
    intros [st'|st']; [apply IH|apply all_events_ret].
Qed.

Lemma findBlockByTimestamp_events (fuel : nat) (low high : Z) :
  all_events search_event
    (BlockFinder.findBlockByTimestamp fuel provider targetTimestamp low high verbose).
Proof.
  unfold BlockFinder.findBlockByTimestamp.
  apply all_events_bind; [apply all_events_say; intros l; exact I|]. intros _.
  apply all_events_bind; [apply search_loop_events|]. intros st.
  apply all_events_bind; [apply all_events_say; intros l; exact I|]. intros _.
  apply all_events_ret.
Qed.
End Search.

Section Orderly.
Context {W : Type}.

Lemma orderly_of_settles {A} (m : Eff W A) :
  settles m -> forall w, orderly (m w).
Proof.
  intros Hm w. unfold orderly. destruct (Hm w) as [[a ->]|[e ->]]; exact I.
Qed.

Lemma orderly_exit_after_error {A} (line : string) (err : option JsError) (w : W) :
  orderly ((emit (ConsoleError line err) ;; process_exit (A := A) 1) w).
Proof.
  unfold orderly, bind, emit, process_exit, outcome, trace. cbn [fst snd].
  split; [reflexivity|]. exists [], line, err. reflexivity.
Qed.

Lemma orderly_bind {A B} (m : Eff W A) (k : A -> Eff W B) :
  (forall w, orderly (m w)) -> (forall a w, orderly (k a w)) ->
  forall w, orderly (bind m k w).
Proof.
  intros Hm Hk w. specialize (Hm w). unfold orderly, bind, outcome, trace in *.
  destruct (m w) as [[r w1] t1]. cbn [fst snd] in Hm.
  destruct r; cbn [fst snd]; try exact Hm.
  specialize (Hk a w1).
  destruct (k a w1) as [[r2 w2] t2]. cbn [fst snd] in *.
  destruct r2; try exact Hk.
  destruct Hk as (Hcode & tr & line & err & ->).
  split; [exact Hcode|]. exists (t1 ++ tr), line, err.
  rewrite app_assoc. reflexivity.
Qed.

Lemma orderly_try_catch {A} (m : Eff W A) (h : JsError -> Eff W A) :
  (forall w, orderly (m w)) -> (forall e w, orderly (h e w)) ->
  forall w, orderly (try_catch m h w).
Proof.
  intros Hm Hh w. specialize (Hm w). unfold orderly, try_catch, outcome, trace in *.
  destruct (m w) as [[r w1] t1]. cbn [fst snd] in Hm.
  destruct r; cbn [fst snd]; try exact Hm.
  specialize (Hh e w1).
  destruct (h e w1) as [[r2 w2] t2]. cbn [fst snd] in *.
  destruct r2; try exact Hh.
  destruct Hh as (Hcode & tr & line & err & ->).
  split; [exact Hcode|]. exists (t1 ++ tr), line, err.
  rewrite app_assoc. reflexivity.
Qed.
End Orderly.

Lemma retried_round_trip_settles {W A} (c : RpcCall) (reply : W -> Settled A * W) :
  settles (Utils.retryOperation (round_trip c reply)
             Utils.defaultMaxRetries Utils.defaultDelay).
Proof.
  intros w.
  destruct (TraceFacts.retry_round_trip c reply Utils.defaultMaxRetries
              Utils.defaultDelay (Z.to_nat Utils.defaultMaxRetries) 0 w)
    as [_ H]; [lia|exact H].
Qed.

Lemma findBlockByTimestamp_returns {W} (provider : Provider W)
    (targetTimestamp : Z) (verbose : bool) (fuel : nat) (low high : Z) (w : W) :
  (Z.to_nat BlockFinder.maxIterations <= fuel)%nat ->
  exists r,
    outcome (BlockFinder.findBlockByTimestamp fuel provider targetTimestamp
               low high verbose w) = Returned r.
Proof.
  intros Hfuel.
  destruct (FinderFacts.search_loop_returns provider targetTimestamp verbose fuel
              {| BlockFinder.low := low; BlockFinder.high := high;
                 BlockFinder.result := None; BlockFinder.iterations := 0 |} w)
    as (st' & Hst'); [exact Hfuel|].
  destruct (FinderFacts.findBlockByTimestamp_run provider targetTimestamp verbose
              fuel low high w st' Hst') as (tr & _ & Hrun).
  rewrite Hrun. exists (BlockFinder.result st'). reflexivity.
Qed.

Lemma formatTimestamp_settles {W} (timestamp : Z) :
  settles (Utils.formatTimestamp (W := W) timestamp).
Proof.
  unfold Utils.formatTimestamp. destruct (Utils.validDate timestamp);
    [apply DecodeFacts.settles_ret|apply DecodeFacts.settles_throw].
Qed.

Lemma saveToJson_settles {W} (fs : string -> option JsError) (filename : string) :
  settles (Utils.saveToJson (W := W) fs filename).
Proof.
  unfold Utils.saveToJson. destruct (fs filename);
    [apply DecodeFacts.settles_throw|apply DecodeFacts.settles_emit].
Qed.

Lemma all_events_formatTimestamp {W} (P : Event -> Prop) (timestamp : Z) :
  Observe.all_events P (Utils.formatTimestamp (W := W) timestamp).
Proof.
  unfold Utils.formatTimestamp. destruct (Utils.validDate timestamp);
    [apply all_events_ret|apply all_events_throw].
Qed.

End ObserveFacts.

(** X6.  Whatever the options and whatever the endpoint does, the [find]
    action ends in one of two ways: it returns, or it leaves through
    [process.exit(1)], and then the last thing it did before was to write
    a line on the error console.  No error escapes it, and it never exits
    with another code.  (The unrolling [fuel] of the search loop is any
    number from 50 on.) *)
Theorem find_returns_or_exits_with_1 {W : Type} (provider : Provider W)
    (getAddress : string -> option string) (fs : string -> option JsError)
    (fuel : nat) (options : BlockFinder.FindOptions) (w : W) :
  (Z.to_nat BlockFinder.maxIterations <= fuel)%nat ->
  let run := BlockFinder.find provider getAddress fs fuel options w in
  outcome run = Returned tt \/
  (outcome run = Exited 1 /\
   exists tr line err, trace run = tr ++ [ConsoleError line err]).
Proof.
  intros Hfuel. cbv zeta. unfold BlockFinder.find.
  match goal with
  | |- context [try_catch ?m ?h w] => set (body := m); set (handler := h)
  end.
  assert (Hbody : forall w0, Observe.orderly (body w0)).
  { subst body.
    destruct (negb (Utils.isValidTimestamp (BlockFinder.opt_timestamp options))).
    { intros w0. apply ObserveFacts.orderly_exit_after_error. }
    destruct (BlockFinder.opt_timestamp options) as [targetTimestamp|];
      [|apply ObserveFacts.orderly_of_settles, DecodeFacts.settles_ret].
    assert (Hsave : forall result : Utils.BlockInfo,
              forall w0 : W,
                Observe.orderly
                  ((Utils.formatTimestamp targetTimestamp ;;
                    Utils.formatTimestamp (Utils.timestamp result) ;;
                    Utils.saveToJson fs (BlockFinder.opt_output options)) w0)).
    { intros result. apply ObserveFacts.orderly_of_settles.
      apply DecodeFacts.settles_bind;
        [apply ObserveFacts.formatTimestamp_settles|].
      intros _. apply DecodeFacts.settles_bind;
        [apply ObserveFacts.formatTimestamp_settles|].
      intros _. apply ObserveFacts.saveToJson_settles. }
    apply ObserveFacts.orderly_bind.
    { apply ObserveFacts.orderly_of_settles.
      apply ObserveFacts.formatTimestamp_settles. }
    intros _. apply ObserveFacts.orderly_bind.
    { apply ObserveFacts.orderly_of_settles.
      apply ObserveFacts.retried_round_trip_settles. }
    intros [currentBlock|];
      [|apply ObserveFacts.orderly_of_settles, DecodeFacts.settles_throw].
    apply ObserveFacts.orderly_bind.
    { intros w0.
      destruct (ObserveFacts.findBlockByTimestamp_returns provider targetTimestamp
                  (BlockFinder.opt_verbose options) fuel 0
                  (Js.number currentBlock) w0 Hfuel) as (r & Hr).
      unfold Observe.orderly. rewrite Hr. exact I. }
    intros [result|];
      [|apply ObserveFacts.orderly_of_settles, DecodeFacts.settles_ret].
    apply ObserveFacts.orderly_bind.
    { apply ObserveFacts.orderly_of_settles.
      apply ObserveFacts.formatTimestamp_settles. }
    intros _.
    destruct (truthy (BlockFinder.opt_address options)); [|apply Hsave].
    apply ObserveFacts.orderly_bind.
    { destruct (negb (BlockFinder.isValidAddress getAddress _)).
      - intros w0. apply ObserveFacts.orderly_exit_after_error.
      - apply ObserveFacts.orderly_of_settles, DecodeFacts.settles_ret. }
    intros _. apply ObserveFacts.orderly_bind.
    { apply ObserveFacts.orderly_of_settles.
      apply ObserveFacts.retried_round_trip_settles. }
    intros _. apply Hsave. }
  specialize (Hbody w).
  unfold Observe.orderly, try_catch, outcome, trace in *.
  destruct (body w) as [[r w1] t1]. cbn [fst snd] in *.
  destruct r as [[]|e|code|].
  - left. reflexivity.
  - right. subst handler. unfold bind, emit, process_exit. cbn [fst snd].
    split; [reflexivity|]. exists t1, "Error:", (Some e). reflexivity.
  - right. destruct Hbody as (-> & Hlast). split; [reflexivity|exact Hlast].
  - contradiction.
Qed.

Lemma find_returns_or_exits_with_1_witness :
  let run := BlockFinder.find (Sample.lossy_node Sample.steady)
               Sample.lenient_getAddress (fun _ => None) 50
               {| BlockFinder.opt_timestamp := Some 1600000100;
                  BlockFinder.opt_address := None;
                  BlockFinder.opt_output := "block-info.json";
                  BlockFinder.opt_verbose := false |} 0%nat in
  outcome run = Returned tt \/
  (outcome run = Exited 1 /\
   exists tr line err, trace run = tr ++ [ConsoleError line err]).
Proof.
  apply (find_returns_or_exits_with_1 (Sample.lossy_node Sample.steady)
           Sample.lenient_getAddress (fun _ => None) 50).
  exact (le_n 50).
Defined.

Lemma all_events_bind_stops {W A B} (P : Event -> Prop) (m : Eff W A)
    (k : A -> Eff W B) :
  Observe.all_events P m ->
  (forall w a, outcome (m w) <> Returned a) ->
  Observe.all_events P (bind m k).
Proof.
  intros Hm Hstop w. specialize (Hm w). specialize (Hstop w).
  unfold bind, trace, outcome in *.
  destruct (m w) as [[r w1] t1]. cbn [fst snd] in *.
  destruct r; cbn [snd]; try exact Hm.
  destruct (Hstop a eq_refl).
Qed.

(** X7.  When the [--address] option is set to a string that
    [ethers.getAddress] rejects, every event of the [find] action is a
    [getBlock] round trip, a console line or a sleep between retries: the
    balance of that address is never asked for and no file is saved.  (The
    address is looked at only after the search has found a block.) *)
Theorem find_never_queries_an_invalid_address {W : Type} (provider : Provider W)
    (getAddress : string -> option string) (fs : string -> option JsError)
    (fuel : nat) (options : BlockFinder.FindOptions) (address : string) (w : W) :
  BlockFinder.opt_address options = Some address ->
  address <> EmptyString ->
  getAddress address = None ->
  let run := BlockFinder.find provider getAddress fs fuel options w in
  Forall Observe.search_event (trace run) /\
  (forall a tag, ~ In (Rpc (GetBalance a tag)) (trace run)) /\
  (forall filename, ~ In (SaveJson filename) (trace run)).
Proof.
  intros Haddress Hne Hinvalid. cbv zeta.
  assert (Hall : Forall Observe.search_event
                   (trace (BlockFinder.find provider getAddress fs fuel options w))).
  { revert w. change (Observe.all_events Observe.search_event
                        (BlockFinder.find provider getAddress fs fuel options)).
    unfold BlockFinder.find.
    apply ObserveFacts.all_events_try_catch.
    - destruct (negb (Utils.isValidTimestamp (BlockFinder.opt_timestamp options))).
      { apply ObserveFacts.all_events_bind;
          [apply ObserveFacts.all_events_emit; exact I|].
        intros _. apply ObserveFacts.all_events_exit. }
      destruct (BlockFinder.opt_timestamp options) as [targetTimestamp|];
        [|apply ObserveFacts.all_events_ret].
      apply ObserveFacts.all_events_bind;
        [apply ObserveFacts.all_events_formatTimestamp|].
      intros _. apply ObserveFacts.all_events_bind.
      { apply ObserveFacts.all_events_retryOperation;
          [|intros l; exact I|exact I].
        apply ObserveFacts.all_events_round_trip. exact I. }
      intros [currentBlock|]; [|apply ObserveFacts.all_events_throw].
      apply ObserveFacts.all_events_bind;
        [apply ObserveFacts.findBlockByTimestamp_events|].
      intros [result|]; [|apply ObserveFacts.all_events_ret].
      apply ObserveFacts.all_events_bind;
        [apply ObserveFacts.all_events_formatTimestamp|].
      intros _. rewrite Haddress.
      destruct address as [|c address]; [contradiction|].
      cbn [truthy]. unfold BlockFinder.isValidAddress. rewrite Hinvalid.
      cbn [negb].
      apply all_events_bind_stops.
      + apply ObserveFacts.all_events_bind;
          [apply ObserveFacts.all_events_emit; exact I|].
        intros _. apply ObserveFacts.all_events_exit.
      + intros w0 a. discriminate.
    - intros e. apply ObserveFacts.all_events_bind;
        [apply ObserveFacts.all_events_emit; exact I|].
      intros _. apply ObserveFacts.all_events_exit. }
  split; [exact Hall|]. rewrite Forall_forall in Hall. split.
  - intros a tag Hin. exact (Hall _ Hin).
  - intros filename Hin. exact (Hall _ Hin).
Qed.

Lemma find_never_queries_an_invalid_address_witness :
  let run := BlockFinder.find MoreSamples.chain1000 (fun _ => None)
               (fun _ => None) 50
               {| BlockFinder.opt_timestamp := Some 1600000100;
                  BlockFinder.opt_address := Some "vitalik.eth";
                  BlockFinder.opt_output := "block-info.json";
                  BlockFinder.opt_verbose := false |} tt in
  Forall Observe.search_event (trace run) /\
  (forall a tag, ~ In (Rpc (GetBalance a tag)) (trace run)) /\
  (forall filename, ~ In (SaveJson filename) (trace run)).
Proof.
  apply (find_never_queries_an_invalid_address MoreSamples.chain1000
           (fun _ => None) (fun _ => None) 50 _ "vitalik.eth" tt).
  - reflexivity.
  - discriminate.
  - reflexivity.
Defined.

Module VerboseFacts.
Section Search.
Context {W : Type} (provider : Provider W).
Variable targetTimestamp : Z.

(** The loop in verbose mode and the silent loop go the same way. *)
Lemma search_loop_verbose (fuel : nat) :
  forall (st : BlockFinder.Locals) (w : W),
    let silent := BlockFinder.search_loop provider targetTimestamp false fuel st w in
    let loud := BlockFinder.search_loop provider targetTimestamp true fuel st w in
    outcome loud = outcome silent /\
    world loud = world silent /\
    round_trips (trace loud) = round_trips (trace silent).
Proof.
  induction fuel as [|fuel IH]; intros st w; cbv zeta.
  - cbn [BlockFinder.search_loop].
    destruct ((BlockFinder.low st <=? BlockFinder.high st)
              && (BlockFinder.iterations st <? BlockFinder.maxIterations));
      auto.
  - rewrite !FinderFacts.search_loop_step.
    destruct ((BlockFinder.low st <=? BlockFinder.high st)
              && (BlockFinder.iterations st <? BlockFinder.maxIterations));
      [|auto].
    destruct (FinderFacts.search_round_run provider targetTimestamp false st w)
      as (tr1 & Htr1 & Hround1).
    destruct (FinderFacts.search_round_run provider targetTimestamp true st w)
      as (tr2 & Htr2 & Hround2).
    unfold bind. rewrite Hround1, Hround2.
    destruct (outcome (probe provider
                ((BlockFinder.low st + BlockFinder.high st) / 2) w))
      as [[block|]|e| |];
      try (unfold ret, outcome, world, trace; cbn [fst snd];
           rewrite !TraceFacts.round_trips_app, Htr1, Htr2; auto).
    specialize (IH (advance targetTimestamp st block)
                   (world (probe provider
                      ((BlockFinder.low st + BlockFinder.high st) / 2) w))).
    cbv zeta in IH. unfold outcome, world, trace in *.
    destruct (BlockFinder.search_loop provider targetTimestamp false fuel
                (advance targetTimestamp st block) _) as [[r1 w1] t1].
    destruct (BlockFinder.search_loop provider targetTimestamp true fuel
                (advance targetTimestamp st block) _) as [[r2 w2] t2].
    cbn [fst snd] in *. destruct IH as (-> & -> & Hrt).
    rewrite !TraceFacts.round_trips_app, Htr1, Htr2, Hrt. auto.
Qed.
End Search.
End VerboseFacts.

(** X8.  The [verbose] flag of [findBlockByTimestamp] only adds console
    lines: with it and without it the function ends the same way with the
    same result, makes the same round trips in the same order and leaves
    the endpoint in the same state. *)
Theorem findBlockByTimestamp_verbose_only_talks {W : Type} (provider : Provider W)
    (targetTimestamp : Z) (fuel : nat) (low high : Z) (w : W) :
  let silent := BlockFinder.findBlockByTimestamp fuel provider targetTimestamp
                  low high false w in
  let loud := BlockFinder.findBlockByTimestamp fuel provider targetTimestamp
                low high true w in
  outcome loud = outcome silent /\
  world loud = world silent /\
  round_trips (trace loud) = round_trips (trace silent).
Proof.
  cbv zeta. unfold BlockFinder.findBlockByTimestamp, bind.
  rewrite !FinderFacts.say_run.
  pose proof (VerboseFacts.search_loop_verbose provider targetTimestamp fuel
                {| BlockFinder.low := low; BlockFinder.high := high;
                   BlockFinder.result := None; BlockFinder.iterations := 0 |} w)
    as H.
  cbv zeta in H. unfold outcome, world, trace in *.
  destruct (BlockFinder.search_loop provider targetTimestamp false fuel _ w)
    as [[r1 w1] t1].
  destruct (BlockFinder.search_loop provider targetTimestamp true fuel _ w)
    as [[r2 w2] t2].
  cbn [fst snd] in *. destruct H as (-> & -> & Hrt).
  destruct r1 as [st| | |]; cbn [fst snd app];
    rewrite ?FinderFacts.say_run; unfold ret; cbn [fst snd app round_trips];
    rewrite ?TraceFacts.round_trips_app; cbn [round_trips];
    rewrite ?app_nil_r, ?Hrt; auto.
Qed.

Module DownFacts.
Section Down.
Context {W : Type} (provider : Provider W).
Hypothesis Hdown : Observe.down provider.

(** Against an endpoint that is down, a probe makes its three attempts,
    sleeps twice and throws. *)
Lemma probe_down (m : Z) (w : W) :
  exists e w',
    probe provider m w
    = (Thrown e, w',
       [Rpc (GetBlock (Height m) false);
        ConsoleLog "Attempt 1 failed, retrying in 1000ms...";
        Sleep 1000;
        Rpc (GetBlock (Height m) false);
        ConsoleLog "Attempt 2 failed, retrying in 1000ms...";
        Sleep 1000;
        Rpc (GetBlock (Height m) false)]).
Proof.
  unfold probe, Utils.retryOperation, Utils.defaultMaxRetries, Utils.defaultDelay.
  change (Z.to_nat 3) with 3%nat.
  rewrite !RetryFacts.retry_loop_step.
  change (0 <? 3) with true. change (0 =? 3 - 1) with false.
  change (0 + 1 <? 3) with true. change (0 + 1 =? 3 - 1) with false.
  change (0 + 1 + 1 <? 3) with true. change (0 + 1 + 1 =? 3 - 1) with true.
  cbv beta iota.
  unfold try_catch, getBlock, round_trip.
  destruct (Hdown (Height m) false w) as (e1 & w1 & ->).
  unfold bind, emit. cbv beta iota zeta.
  destruct (Hdown (Height m) false w1) as (e2 & w2 & ->).
  cbv beta iota zeta.
  destruct (Hdown (Height m) false w2) as (e3 & w3 & ->).
  unfold throw. cbv beta iota zeta.
  exists e3, w3. reflexivity.
Qed.
End Down.
End DownFacts.



(** X10.  The [find] action without [--address], given a timestamp it
    accepts, over a chain of fewer than 2^50 blocks whose timestamps do
    not decrease and are within the range of [Date], and whose blocks the
    endpoint delivers.  When no block up to the latest one reaches the
    target, the action returns and saves nothing.  When some block does,
    the action goes on to save its result under the [--output] name: if
    the file system lets it, that is the last thing it does, and it
    returns; if [saveToJson] throws, nothing is saved, the error is
    written to the error console and the action leaves through
    [process.exit(1)]. *)
Theorem find_saves_exactly_when_found {W : Type} (provider : Provider W)
    (getAddress : string -> option string) (fs : string -> option JsError)
    (fuel : nat) (options : BlockFinder.FindOptions) (targetTimestamp : Z)
    (latest : Block) (ts : Z -> Z) (w : W) :
  (Z.to_nat BlockFinder.maxIterations <= fuel)%nat ->
  BlockFinder.opt_timestamp options = Some targetTimestamp ->
  1420000000 < targetTimestamp < 9999999999 ->
  truthy (BlockFinder.opt_address options) = false ->
  Observe.reports_latest provider latest ->
  0 <= Js.number latest ->
  monotone ts 0 (Js.number latest) ->
  serves provider ts 0 (Js.number latest) ->
  Js.number latest + 1 < 2 ^ 50 ->
  (forall n, 0 <= n <= Js.number latest -> Utils.validDate (ts n) = true) ->
  let run := BlockFinder.find provider getAddress fs fuel options w in
  ((forall n, 0 <= n <= Js.number latest -> ts n < targetTimestamp) ->
   outcome run = Returned tt /\
   forall filename, ~ In (SaveJson filename) (trace run)) /\
  ((exists n, 0 <= n <= Js.number latest /\ targetTimestamp <= ts n) ->
   match fs (BlockFinder.opt_output options) with
   | None =>
       outcome run = Returned tt /\
       exists tr, trace run = tr ++ [SaveJson (BlockFinder.opt_output options)]
   | Some error =>
       outcome run = Exited 1 /\
       (forall filename, ~ In (SaveJson filename) (trace run)) /\
       exists tr, trace run = tr ++ [ConsoleError "Error:" (Some error)]
   end).
Proof.
  intros Hfuel Htimestamp Hrange Hnoaddress Hlatest Hheight Hmono Hserves Hsize
         Hdates.
  cbv zeta.
  assert (Hvalid : Utils.isValidTimestamp (BlockFinder.opt_timestamp options) = true).
  { apply isValidTimestamp_plausible. exists targetTimestamp. auto. }
  assert (Hevents1 :
            Forall Observe.search_event
              (trace (Utils.retryOperation (getBlock provider Latest false)
                        Utils.defaultMaxRetries Utils.defaultDelay w))).
  { apply ObserveFacts.all_events_retryOperation; [|intros l; exact I|exact I].
    apply ObserveFacts.all_events_round_trip. exact I. }
  specialize (Hlatest w).
  unfold BlockFinder.find. rewrite Hvalid, Htimestamp. cbn [negb].
  rewrite (FindFacts.formatTimestamp_accepted targetTimestamp Hrange).
  destruct (Utils.retryOperation (getBlock provider Latest false)
              Utils.defaultMaxRetries Utils.defaultDelay w)
    as [[r1 w1] t1] eqn:Hrun1.
  unfold outcome, trace in Hlatest, Hevents1.
  cbn [fst snd] in Hlatest, Hevents1. subst r1.
  set (st0 := {| BlockFinder.low := 0; BlockFinder.high := Js.number latest;
                 BlockFinder.result := None; BlockFinder.iterations := 0 |}).
  destruct (FinderFacts.search_loop_leftmost provider targetTimestamp
              (BlockFinder.opt_verbose options) ts 0 (Js.number latest)
              Hmono Hserves fuel st0 w1)
    as (st' & Hst' & Hleft);
    cbn [BlockFinder.low BlockFinder.high BlockFinder.iterations
         BlockFinder.result st0];
    try lia; try exact Hfuel.
  { change (BlockFinder.maxIterations - 0) with 50.
    rewrite Z.sub_0_r. exact Hsize. }
  { reflexivity. }
  destruct (FinderFacts.findBlockByTimestamp_run provider targetTimestamp
              (BlockFinder.opt_verbose options) fuel 0 (Js.number latest)
              w1 st' Hst') as (tr & _ & Hrun).
  pose proof (ObserveFacts.findBlockByTimestamp_events provider targetTimestamp
                (BlockFinder.opt_verbose options) fuel 0 (Js.number latest) w1)
    as Hevents2.
  rewrite Hrun in Hevents2. unfold trace in Hevents2. cbn [snd] in Hevents2.
  assert (Hnone : forall filename, ~ In (SaveJson filename) (t1 ++ tr)).
  { intros filename Hin. apply in_app_or in Hin.
    rewrite Forall_forall in Hevents1, Hevents2.
    destruct Hin as [Hin|Hin]; [exact (Hevents1 _ Hin)|exact (Hevents2 _ Hin)]. }
  unfold try_catch.
  rewrite FindFacts.bind_ret_run.
  rewrite (DecodeFacts.bind_run _ _ _ _ _ _ Hrun1). cbv beta iota.
  rewrite (DecodeFacts.bind_run _ _ _ _ _ _ Hrun). cbv beta iota.
  unfold leftmost in Hleft.
  destruct (BlockFinder.result st') as [b|].
  - destruct Hleft as (Hin & Hts & Hreach & _).
    assert (Hdate : Utils.formatTimestamp (W := W) (Utils.timestamp b) = ret tt).
    { apply FindFacts.formatTimestamp_valid. rewrite Hts. apply Hdates. exact Hin. }
    rewrite Hdate, FindFacts.bind_ret_run, Hnoaddress. cbv beta iota.
    rewrite !FindFacts.bind_ret_run.
    split.
    + intros Hbelow. specialize (Hbelow _ Hin). lia.
    + intros _. unfold Utils.saveToJson.
      destruct (fs (BlockFinder.opt_output options)) as [error|].
      * unfold throw, bind, emit, process_exit, outcome, world, trace.
        cbn [fst snd]. rewrite !app_nil_r.
        split; [reflexivity|]. split.
        -- intros filename Hfile. apply in_app_or in Hfile.
           destruct Hfile as [Hfile|[Hfile|[]]];
             [exact (Hnone _ Hfile)|discriminate].
        -- exists (t1 ++ tr). reflexivity.
      * unfold emit, outcome, world, trace. cbn [fst snd].
        split; [reflexivity|].
        exists (t1 ++ tr). rewrite <- !app_assoc. reflexivity.
  - unfold ret, outcome, world, trace. cbn [fst snd].
    split.
    + intros _. split; [reflexivity|].
      intros filename Hfile. rewrite !app_nil_r in Hfile.
      exact (Hnone _ Hfile).
    + intros (n & Hn & Hreach). specialize (Hleft n Hn). lia.
Qed.

Lemma chain1000_serves : serves MoreSamples.chain1000 Sample.steady 0 1000.
Proof.
  intros n w _. eexists. split; [reflexivity|]. split; reflexivity.
Qed.

Lemma find_saves_exactly_when_found_witness :
  let run := BlockFinder.find MoreSamples.chain1000 Sample.lenient_getAddress
               (fun _ => None) 50
               {| BlockFinder.opt_timestamp := Some 1600000100;
                  BlockFinder.opt_address := None;
                  BlockFinder.opt_output := "block-info.json";
                  BlockFinder.opt_verbose := false |} tt in
  ((forall n, 0 <= n <= 1000 -> Sample.steady n < 1600000100) ->
   outcome run = Returned tt /\
   forall filename, ~ In (SaveJson filename) (trace run)) /\
  ((exists n, 0 <= n <= 1000 /\ 1600000100 <= Sample.steady n) ->
   outcome run = Returned tt /\
   exists tr, trace run = tr ++ [SaveJson "block-info.json"]).
Proof.
  apply (find_saves_exactly_when_found MoreSamples.chain1000
           Sample.lenient_getAddress (fun _ => None) 50
           {| BlockFinder.opt_timestamp := Some 1600000100;
              BlockFinder.opt_address := None;
              BlockFinder.opt_output := "block-info.json";
              BlockFinder.opt_verbose := false |}
           1600000100
           {| Js.number := 1000;
              Js.timestamp := Sample.steady 1000;
              Js.hash := Some (toString 1000);
              Js.transactions := Some [] |}
           Sample.steady tt).
  - exact (le_n 50).
  - reflexivity.
  - lia.
  - reflexivity.
  - intros w. reflexivity.
  - cbn. lia.
  - apply steady_monotone.
  - exact chain1000_serves.
  - reflexivity.
  - intros n Hn. cbn [Js.number] in Hn.
    unfold Utils.validDate, Sample.steady. apply Z.leb_le. lia.
Defined.

(* ===================================================================== *)
(** * More on processBlock and the summary of fetch                       *)
(* ===================================================================== *)

Module LedgerFacts.
Import EthTransfers Ledger MapFacts.

Lemma filtered_out_or_else (filter : option string) (addr : string) :
  filtered_out filter addr
  = negb (String.eqb (toLowerCase addr)
            (toLowerCase (TransferEvents.or_else filter addr))).
Proof.
  destruct filter as [[|c wanted]|]; cbn [filtered_out TransferEvents.or_else];
    rewrite ?String.eqb_refl; reflexivity.
Qed.

(** The loop of [processBlock] appends, in the order of the block, the
    record of every element that is an object and qualifies. *)
Lemma scan_transactions_filter (options : FetchOptions) (minValueWei blockNumber : Z)
    (txs : list TransactionEntry) :
  forall transfers,
    scan_transactions options minValueWei blockNumber txs transfers
    = transfers ++ map (transfer_of blockNumber)
                       (filter (qualifies options minValueWei) (objects txs)).
Proof.
  induction txs as [|[hash|tx] rest IH]; intros transfers.
  - cbn. rewrite app_nil_r. reflexivity.
  - cbn [scan_transactions objects]. apply IH.
  - cbn [scan_transactions objects filter]. unfold qualifies at 1.
    destruct (tx_to tx) as [[|c receiver]|] eqn:Hto; try apply IH.
    cbn [String.eqb negb andb].
    destruct (tx_value tx =? 0); [apply IH|].
    rewrite Z.leb_antisym.
    destruct (tx_value tx <? minValueWei); [apply IH|].
    rewrite !filtered_out_or_else. cbn [negb andb].
    destruct (String.eqb (toLowerCase (tx_from tx)) _); [|apply IH].
    destruct (String.eqb (toLowerCase (String c receiver)) _); [|apply IH].
    cbn [negb andb map]. rewrite IH, <- app_assoc. cbn [app].
    unfold transfer_of at 2. rewrite Hto. reflexivity.
Qed.

(** Hash strings have no object among them. *)
Lemma objects_of_hashes (txs : list TransactionEntry) :
  Forall (fun entry => exists hash, entry = TxHash hash) txs ->
  objects txs = [].
Proof.
  induction 1 as [|entry rest (hash & ->) _ IH]; [reflexivity|exact IH].
Qed.

Lemma total_set (field : AddressVolume -> Z) (m : JsMap.t AddressVolume)
    (a : string) (stats : AddressVolume) :
  total field (JsMap.set m a stats)
  = total field m
    - match JsMap.get m a with
      | Some old => field old
      | None => 0
      end
    + field stats.
Proof.
  unfold total, JsMap.entries.
  induction m as [|[k v] m IH]; cbn [JsMap.set JsMap.get fold_right snd].
  - lia.
  - destruct (String.eqb k a); cbn [fold_right snd]; lia.
Qed.

(** One update of the statistics of an address moves a total by what
    the update adds to the field. *)
Lemma total_update_stats (field : AddressVolume -> Z) (m : JsMap.t AddressVolume)
    (a : string) (f : AddressVolume -> AddressVolume) (d : Z) :
  field {| sent := 0; received := 0; count := 0 |} = 0 ->
  (forall stats, field (f stats) = field stats + d) ->
  total field (update_stats m a f) = total field m + d.
Proof.
  intros Hzero Hadd. unfold update_stats, JsMap.has.
  destruct (JsMap.get m a) as [stats|] eqn:Hget.
  - rewrite Hget, total_set, Hget, Hadd. lia.
  - rewrite get_set_same, !total_set, get_set_same, Hget, Hadd. lia.
Qed.

(** What the loop that fills [addressVolumes] does to the three
    totals. *)
Lemma addressVolumes_from_totals (ethTransfers : list EthTransfer) :
  forall m0 sum0,
    values_parse value ethTransfers ->
    exists m volume,
      addressVolumes_from ethTransfers m0 = Some m /\
      EthSummary.totalVolume_from ethTransfers sum0 = Some (sum0 + volume) /\
      total sent m = total sent m0 + volume /\
      total received m = total received m0 + volume /\
      total count m = total count m0 + 2 * Z.of_nat (List.length ethTransfers).
Proof.
  induction ethTransfers as [|t rest IH]; intros m0 sum0 Hparse.
  - exists m0, 0. cbn. repeat split; try lia. f_equal. lia.
  - destruct (Hparse t (or_introl eq_refl)) as (v & Hv).
    cbn [addressVolumes_from EthSummary.totalVolume_from]. rewrite Hv.
    set (m1 := update_stats m0 (from t)
                 (fun s => {| sent := sent s + v;
                              received := received s;
                              count := count s + 1 |})).
    set (m2 := update_stats m1 (to t)
                 (fun s => {| sent := sent s;
                              received := received s + v;
                              count := count s + 1 |})).
    destruct (IH m2 (sum0 + v)) as (m & volume & Hm & Hsum & Hs & Hr & Hc).
    { intros x Hx. apply Hparse. right. exact Hx. }
    exists m, (v + volume).
    split; [exact Hm|]. split; [rewrite Hsum; f_equal; lia|].
    assert (H1s : total sent m1 = total sent m0 + v)
      by (apply total_update_stats; [reflexivity|intros; reflexivity]).
    assert (H1r : total received m1 = total received m0 + 0)
      by (apply total_update_stats; [reflexivity|intros; cbn; lia]).
    assert (H1c : total count m1 = total count m0 + 1)
      by (apply total_update_stats; [reflexivity|intros; reflexivity]).
    assert (H2s : total sent m2 = total sent m1 + 0)
      by (apply total_update_stats; [reflexivity|intros; cbn; lia]).
    assert (H2r : total received m2 = total received m1 + v)
      by (apply total_update_stats; [reflexivity|intros; reflexivity]).
    assert (H2c : total count m2 = total count m1 + 1)
      by (apply total_update_stats; [reflexivity|intros; reflexivity]).
    cbn [List.length]. split; [lia|]. split; lia.
Qed.
End LedgerFacts.

(** X11.  [processBlock] never throws, and what it returns is read off
    the block it was given.  When the block comes with its
    [transactions], the result holds one record for each element that is
    an object with a receiver, a value that is neither zero nor below
    [minValueWei], and addresses that pass the filters, in the order of
    the block and with nothing else; an element that is a hash string is
    passed over.  With no block, no transaction list or three failed
    attempts the result is the empty list.  So against an endpoint that
    lists the transactions of its blocks by hash, as a provider of
    ethers v6 does, [processBlock] returns the empty list whatever the
    blocks hold. *)
Theorem processBlock_keeps_what_qualifies {W : Type} (provider : Provider W)
    (blockNumber : Z) (options : EthTransfers.FetchOptions) (minValueWei : Z)
    (w : W) :
  let run := EthTransfers.processBlock provider blockNumber options minValueWei w in
  outcome run
  = Returned
      match outcome (Utils.retryOperation
                       (getBlock provider (Height blockNumber) true)
                       Utils.defaultMaxRetries Utils.defaultDelay w) with
      | Returned (Some block) =>
          match transactions block with
          | Some txs =>
              map (Ledger.transfer_of blockNumber)
                  (filter (Ledger.qualifies options minValueWei)
                          (Ledger.objects txs))
          | None => []
          end
      | _ => []
      end /\
  (Ledger.lists_hashes provider -> outcome run = Returned []).
Proof.
  cbv zeta.
  assert (Hrun :
            outcome (EthTransfers.processBlock provider blockNumber options
                       minValueWei w)
            = Returned
                match outcome (Utils.retryOperation
                                 (getBlock provider (Height blockNumber) true)
                                 Utils.defaultMaxRetries Utils.defaultDelay w) with
                | Returned (Some block) =>
                    match transactions block with
                    | Some txs =>
                        map (Ledger.transfer_of blockNumber)
                            (filter (Ledger.qualifies options minValueWei)
                                    (Ledger.objects txs))
                    | None => []
                    end
                | _ => []
                end).
  { unfold EthTransfers.processBlock.
    destruct (ObserveFacts.retried_round_trip_settles
                (GetBlock (Height blockNumber) true)
                (eth_getBlock provider (Height blockNumber) true) w) as [Hout|Hout].
    - destruct Hout as (block & Hout). fold (getBlock provider (Height blockNumber) true) in Hout.
      unfold try_catch, bind, outcome in *.
      destruct (Utils.retryOperation (getBlock provider (Height blockNumber) true)
                  Utils.defaultMaxRetries Utils.defaultDelay w) as [[r w1] t1].
      cbn [fst snd] in *. subst r.
      destruct block as [block|]; [|reflexivity].
      destruct (transactions block) as [txs|]; [|reflexivity].
      cbn [fst snd ret].
      rewrite LedgerFacts.scan_transactions_filter. reflexivity.
    - destruct Hout as (e & Hout). fold (getBlock provider (Height blockNumber) true) in Hout.
      unfold try_catch, bind, outcome in *.
      destruct (Utils.retryOperation (getBlock provider (Height blockNumber) true)
                  Utils.defaultMaxRetries Utils.defaultDelay w) as [[r w1] t1].
      cbn [fst snd] in *. subst r. reflexivity. }
  split; [exact Hrun|].
  intros Hhashes. rewrite Hrun. f_equal.
  destruct (outcome (Utils.retryOperation
                       (getBlock provider (Height blockNumber) true)
                       Utils.defaultMaxRetries Utils.defaultDelay w))
    as [[block|]|e|code|] eqn:Hout; try reflexivity.
  destruct (transactions block) as [txs|] eqn:Htxs; [|reflexivity].
  apply TraceFacts.retry_round_trip_value in Hout.
  destruct Hout as (w0 & w0' & Hreply).
  rewrite (LedgerFacts.objects_of_hashes txs (Hhashes _ _ _ _ _ _ Hreply Htxs)).
  reflexivity.
Qed.

Lemma processBlock_keeps_what_qualifies_witness :
  outcome (EthTransfers.processBlock MoreSamples.node7_hashes 7
             {| EthTransfers.opt_from := None; EthTransfers.opt_to := None |}
             1 tt)
  = Returned [].
Proof.
  apply (proj2 (processBlock_keeps_what_qualifies MoreSamples.node7_hashes 7
                  {| EthTransfers.opt_from := None; EthTransfers.opt_to := None |}
                  1 tt)).
  intros tag prefetch w block w' txs Hreply Htxs.
  injection Hreply as <- _. injection Htxs as <-.
  repeat constructor; eexists; reflexivity.
Defined.

(** X12.  The statistics of [fetch] balance: over transfers whose values
    are numerals, the map [addressVolumes] and the total volume are both
    computed, and what all addresses together have sent is what all
    addresses together have received, namely the total volume; the
    transaction counts of all addresses add up to twice the number of
    transfers. *)
Theorem addressVolumes_balance (ethTransfers : list EthTransfers.EthTransfer) :
  values_parse EthTransfers.value ethTransfers ->
  exists m volume,
    EthTransfers.addressVolumes ethTransfers = Some m /\
    EthSummary.totalVolume ethTransfers = Some volume /\
    Ledger.total EthTransfers.sent m = volume /\
    Ledger.total EthTransfers.received m = volume /\
    Ledger.total EthTransfers.count m
    = 2 * Z.of_nat (List.length ethTransfers).
Proof.
  intros Hparse.
  destruct (LedgerFacts.addressVolumes_from_totals ethTransfers JsMap.empty 0 Hparse)
    as (m & volume & Hm & Hsum & Hs & Hr & Hc).
  exists m, volume. unfold EthTransfers.addressVolumes, EthSummary.totalVolume.
  split; [exact Hm|]. split; [exact Hsum|].
  cbn in Hs, Hr, Hc. auto.
Qed.

Lemma addressVolumes_balance_witness :
  exists m volume,
    EthTransfers.addressVolumes
      [Sample.transfer_a4; Sample.transfer_b1; Sample.transfer_b2] = Some m /\
    EthSummary.totalVolume
      [Sample.transfer_a4; Sample.transfer_b1; Sample.transfer_b2] = Some volume /\
    Ledger.total EthTransfers.sent m = volume /\
    Ledger.total EthTransfers.received m = volume /\
    Ledger.total EthTransfers.count m = 2 * 3.
Proof.
  apply (addressVolumes_balance
           [Sample.transfer_a4; Sample.transfer_b1; Sample.transfer_b2]).
  intros x [<-|[<-|[<-|[]]]]; eexists; reflexivity.
Defined.

Module SetFacts.

Lemma has_In (s : JsSet.t) (x : string) : JsSet.has s x = true <-> In x s.
Proof.
  unfold JsSet.has. rewrite existsb_exists. split.
  - intros (y & Hy & Heq). apply String.eqb_eq in Heq. subst y. exact Hy.
  - intros H. exists x. split; [exact H|apply String.eqb_refl].
Qed.

Lemma add_In (s : JsSet.t) (x a : string) :
  In a (JsSet.add s x) <-> In a s \/ a = x.
Proof.
  unfold JsSet.add. destruct (JsSet.has s x) eqn:Hhas.
  - apply has_In in Hhas. split; [auto|]. intros [H| ->]; assumption.
  - rewrite in_app_iff. cbn. split; intros [H|H]; auto.
    + destruct H as [<-|[]]. auto.
Qed.

Lemma add_NoDup (s : JsSet.t) (x : string) : NoDup s -> NoDup (JsSet.add s x).
Proof.
  intros Hs. unfold JsSet.add. destruct (JsSet.has s x) eqn:Hhas; [exact Hs|].
  assert (Hnot : ~ In x s).
  { intros H. apply has_In in H. congruence. }
  clear Hhas. induction Hs as [|y s Hy Hs IH]; cbn.
  - constructor; [intros []|constructor].
  - constructor.
    + rewrite in_app_iff. cbn. intros [H|[H|[]]]; [contradiction|].
      subst y. apply Hnot. left. reflexivity.
    + apply IH. intros H. apply Hnot. right. exact H.
Qed.

Lemma fold_add (xs : list string) :
  forall s, NoDup s ->
    NoDup (fold_left JsSet.add xs s) /\
    forall a, In a (fold_left JsSet.add xs s) <-> In a s \/ In a xs.
Proof.
  induction xs as [|x xs IH]; intros s Hs; cbn [fold_left].
  - split; [exact Hs|]. intros a. cbn. tauto.
  - destruct (IH (JsSet.add s x) (add_NoDup s x Hs)) as [Hnd Hin].
    split; [exact Hnd|]. intros a. rewrite Hin, add_In. cbn.
    split; intros H; intuition auto.
Qed.

(** [new Set(xs)] holds each value of [xs] once. *)
Lemma of_list_spec (xs : list string) :
  NoDup (JsSet.of_list xs) /\ forall a, In a (JsSet.of_list xs) <-> In a xs.
Proof.
  destruct (fold_add xs JsSet.empty (NoDup_nil _)) as [Hnd Hin].
  split; [exact Hnd|]. intros a. unfold JsSet.of_list. rewrite Hin.
  cbn. tauto.
Qed.
End SetFacts.

Module KeyFacts.
Section WithValues.
Context {V : Type}.

Lemma keys_set_In (m : JsMap.t V) (k : string) (v : V) (a : string) :
  In a (JsMap.keys (JsMap.set m k v)) <-> In a (JsMap.keys m) \/ a = k.
Proof.
  unfold JsMap.keys. induction m as [|[k' v'] m IH]; cbn [JsMap.set map fst In].
  - split; [intros [<-|[]]; auto|intros [[]| ->]; auto].
  - destruct (String.eqb k' k) eqn:Hk; cbn [map fst In].
    + apply String.eqb_eq in Hk. subst k'. split; intros H; intuition auto.
    + rewrite IH. split; intros H; intuition auto.
Qed.

Lemma keys_set_NoDup (m : JsMap.t V) (k : string) (v : V) :
  NoDup (JsMap.keys m) -> NoDup (JsMap.keys (JsMap.set m k v)).
Proof.
  unfold JsMap.keys. induction m as [|[k' v'] m IH]; cbn [JsMap.set map fst].
  - intros _. constructor; [intros []|constructor].
  - intros Hnd. inversion Hnd as [|x l Hx Hl]; subst.
    destruct (String.eqb k' k) eqn:Hk; cbn [map fst].
    + constructor; assumption.
    + constructor; [|apply IH; exact Hl].
      intros Hin. apply (keys_set_In m k v k') in Hin.
      destruct Hin as [Hin|Heq]; [contradiction|].
      subst k'. rewrite String.eqb_refl in Hk. discriminate.
Qed.
End WithValues.

Lemma keys_update_stats (m : JsMap.t EthTransfers.AddressVolume) (a : string)
    (f : EthTransfers.AddressVolume -> EthTransfers.AddressVolume) :
  (NoDup (JsMap.keys m) -> NoDup (JsMap.keys (EthTransfers.update_stats m a f))) /\
  forall k, In k (JsMap.keys (EthTransfers.update_stats m a f))
            <-> In k (JsMap.keys m) \/ k = a.
Proof.
  unfold EthTransfers.update_stats, JsMap.has.
  destruct (JsMap.get m a) as [stats|] eqn:Hget.
  - rewrite Hget. split.
    + apply keys_set_NoDup.
    + intros k. apply keys_set_In.
  - rewrite MapFacts.get_set_same. split.
    + intros H. apply keys_set_NoDup, keys_set_NoDup, H.
    + intros k. rewrite !keys_set_In. tauto.
Qed.

(** The keys of [addressVolumes] are the senders and the receivers, each
    once. *)
Lemma addressVolumes_from_keys (ethTransfers : list EthTransfers.EthTransfer) :
  forall m0 m,
    EthTransfers.addressVolumes_from ethTransfers m0 = Some m ->
    NoDup (JsMap.keys m0) ->
    NoDup (JsMap.keys m) /\
    forall k, In k (JsMap.keys m)
              <-> In k (JsMap.keys m0)
                  \/ In k (map EthTransfers.from ethTransfers)
                  \/ In k (map EthTransfers.to ethTransfers).
Proof.
  induction ethTransfers as [|t rest IH]; intros m0 m Hrun Hnd.
  - cbn in Hrun. injection Hrun as <-. split; [exact Hnd|].
    intros k. cbn. tauto.
  - cbn [EthTransfers.addressVolumes_from] in Hrun.
    destruct (BigInt (EthTransfers.value t)) as [v|]; [|discriminate].
    match type of Hrun with
    | EthTransfers.addressVolumes_from rest
        (EthTransfers.update_stats (EthTransfers.update_stats m0 ?a1 ?f1) ?a2 ?f2) = _ =>
        destruct (keys_update_stats m0 a1 f1) as [Hnd1 Hin1];
        destruct (keys_update_stats (EthTransfers.update_stats m0 a1 f1) a2 f2)
          as [Hnd2 Hin2]
    end.
    destruct (IH _ _ Hrun (Hnd2 (Hnd1 Hnd))) as [Hndm Hinm].
    split; [exact Hndm|]. intros k. rewrite Hinm, Hin2, Hin1. cbn [map In].
    split; intros H; intuition auto.
Qed.
End KeyFacts.

(** X13.  The number that [fetch] prints as "Unique addresses" is the
    number of entries of [addressVolumes], the map it ranks: both hold
    every sender and every receiver exactly once. *)
Theorem uniqueAddresses_are_the_ranked_addresses
    (ethTransfers : list EthTransfers.EthTransfer)
    (m : JsMap.t EthTransfers.AddressVolume) :
  EthTransfers.addressVolumes ethTransfers = Some m ->
  JsSet.size (EthSummary.uniqueAddresses ethTransfers)
  = Z.of_nat (List.length (JsMap.entries m)) /\
  NoDup (JsSet.values (EthSummary.uniqueAddresses ethTransfers)) /\
  NoDup (JsMap.keys m) /\
  forall a,
    In a (JsSet.values (EthSummary.uniqueAddresses ethTransfers))
    <-> In a (JsMap.keys m).
Proof.
  intros Hm.
  destruct (KeyFacts.addressVolumes_from_keys ethTransfers JsMap.empty m Hm
              (NoDup_nil _)) as [Hnd Hin].
  destruct (SetFacts.of_list_spec
              (JsSet.values (EthSummary.uniqueFroms ethTransfers)
               ++ JsSet.values (EthSummary.uniqueTos ethTransfers)))
    as [Hnd' Hin'].
  destruct (SetFacts.of_list_spec (map EthTransfers.from ethTransfers))
    as [_ Hfrom].
  destruct (SetFacts.of_list_spec (map EthTransfers.to ethTransfers))
    as [_ Hto].
  assert (Hsame : forall a,
            In a (JsSet.values (EthSummary.uniqueAddresses ethTransfers))
            <-> In a (JsMap.keys m)).
  { intros a. unfold EthSummary.uniqueAddresses, JsSet.values at 1.
    rewrite Hin', in_app_iff, Hin.
    unfold JsSet.values, EthSummary.uniqueFroms, EthSummary.uniqueTos.
    rewrite Hfrom, Hto. cbn. tauto. }
  split; [|split; [exact Hnd'|split; [exact Hnd|exact Hsame]]].
  unfold JsSet.size. f_equal.
  replace (List.length (JsMap.entries m)) with (List.length (JsMap.keys m))
    by (unfold JsMap.keys, JsMap.entries; apply length_map).
  apply Permutation_length. apply NoDup_Permutation; assumption.
Qed.

Lemma uniqueAddresses_are_the_ranked_addresses_witness :
  exists m,
    EthTransfers.addressVolumes
      [Sample.transfer_a4; Sample.transfer_b1; Sample.transfer_b2] = Some m /\
    JsSet.size (EthSummary.uniqueAddresses
                  [Sample.transfer_a4; Sample.transfer_b1; Sample.transfer_b2])
    = Z.of_nat (List.length (JsMap.entries m)).
Proof.
  eexists. split; [reflexivity|].
  apply (uniqueAddresses_are_the_ranked_addresses
           [Sample.transfer_a4; Sample.transfer_b1; Sample.transfer_b2]).
  reflexivity.
Defined.

(* ===================================================================== *)
(** * The two log-decoding loops                                          *)
(* ===================================================================== *)

Module RecentFacts.
Import TransferEvents Decoded.

Section Loops.
Context {W : Type} (provider : Provider W).
Variable getAddress : string -> option string.

(** A round of [fetch] and the round of [recent] on the same log. *)
Lemma decode_log_both (log : Log) (transferEvents : list TransferEvent) (w : W) :
  exists transferEvents' w' t,
    TransferEvents.decode_log provider getAddress log transferEvents w
    = (Returned transferEvents', w', t) /\
    (forall w0 : W,
        RecentEvents.decode_log getAddress log (map anonymous transferEvents) w0
        = (Returned (map anonymous transferEvents'), w0, filter off_the_wire t)) /\
    (forall event, In event transferEvents' ->
                   In event transferEvents \/ decodes getAddress log event) /\
    (List.length transferEvents' <= S (List.length transferEvents))%nat.
Proof.
  unfold TransferEvents.decode_log, RecentEvents.decode_log, decodes.
  unfold getAddress_or_throw, BigInt_or_throw.
  unfold try_catch, bind, emit, ret, throw.
  destruct (too_few_topics log) eqn:Htopics.
  { exists transferEvents, w, [ConsoleWarn ("Invalid log format for tx "
                                           ++ log_transactionHash log)%string].
    split; [reflexivity|]. split; [reflexivity|]. split; [auto|lia]. }
  destruct (getAddress ("0x" ++ slice 26 (topic log 1))%string) as [sender|] eqn:Hfrom.
  2:{ eexists transferEvents, w, _.
      split; [reflexivity|]. split; [reflexivity|]. split; [auto|lia]. }
  destruct (getAddress ("0x" ++ slice 26 (topic log 2))%string) as [receiver|] eqn:Hto.
  2:{ eexists transferEvents, w, _.
      split; [reflexivity|]. split; [reflexivity|]. split; [auto|lia]. }
  destruct (empty_data log) eqn:Hdata.
  { eexists transferEvents, w, _.
    split; [reflexivity|]. split; [reflexivity|]. split; [auto|lia]. }
  destruct (BigInt (log_data log)) as [v|] eqn:Hvalue.
  2:{ eexists transferEvents, w, _.
      split; [reflexivity|]. split; [reflexivity|]. split; [auto|lia]. }
  unfold symbol, decimals, round_trip.
  destruct (erc20_symbol provider (log_address log) w) as [[sym|e1] w1];
    destruct (erc20_decimals provider (log_address log) w1) as [[dec|e2] w2];
    (eexists _, w2, _; split; [reflexivity|]; split;
     [intros w0; cbn [filter off_the_wire app]; rewrite map_app; reflexivity|];
     split;
     [intros event Hin; apply in_app_or in Hin;
      destruct Hin as [Hin|[<-|[]]]; [left; exact Hin|right];
      cbn [contractAddress TransferEvents.from TransferEvents.to value
           blockNumber transactionHash logIndex];
      repeat (split; [reflexivity|]); split; [eauto|];
      repeat (split; [reflexivity|]); reflexivity
     |rewrite length_app; cbn [List.length]; lia]).
Qed.

Lemma decode_logs_both (logs : list Log) :
  forall (transferEvents : list TransferEvent) (w : W),
    exists transferEvents' w' t,
      TransferEvents.decode_logs provider getAddress logs transferEvents w
      = (Returned transferEvents', w', t) /\
      (forall w0 : W,
          RecentEvents.decode_logs getAddress logs (map anonymous transferEvents) w0
          = (Returned (map anonymous transferEvents'), w0, filter off_the_wire t)) /\
      (forall event, In event transferEvents' ->
                     In event transferEvents \/
                     exists log, In log logs /\ decodes getAddress log event) /\
      (List.length transferEvents'
       <= List.length logs + List.length transferEvents)%nat.
Proof.
  induction logs as [|log rest IH]; intros transferEvents w.
  - exists transferEvents, w, []. cbn.
    split; [reflexivity|]. split; [reflexivity|]. split; [auto|lia].
  - destruct (decode_log_both log transferEvents w)
      as (acc1 & w1 & t1 & Hfetch1 & Hrecent1 & Hfrom1 & Hlen1).
    destruct (IH acc1 w1) as (acc2 & w2 & t2 & Hfetch2 & Hrecent2 & Hfrom2 & Hlen2).
    exists acc2, w2, (t1 ++ t2).
    cbn [TransferEvents.decode_logs RecentEvents.decode_logs].
    split; [|split; [|split]].
    + rewrite (DecodeFacts.bind_run _ _ _ _ _ _ Hfetch1), Hfetch2. reflexivity.
    + intros w0.
      rewrite (DecodeFacts.bind_run _ _ _ _ _ _ (Hrecent1 w0)), Hrecent2.
      unfold outcome, world, trace. cbn [fst snd].
      rewrite filter_app. reflexivity.
    + intros event Hin. destruct (Hfrom2 event Hin) as [H|(l & Hl & Hd)].
      * destruct (Hfrom1 event H) as [H'|Hd]; [left; exact H'|].
        right. exists log. split; [left; reflexivity|exact Hd].
      * right. exists l. split; [right; exact Hl|exact Hd].
    + cbn [List.length]. lia.
Qed.
End Loops.
End RecentFacts.

(** X14.  The decoding loop of [recent] is the loop of [fetch] with the
    token contract left out.  On the same logs, the events of [recent] are
    the events of [fetch], one for one and in the same order, with the
    symbol replaced by ['UNKNOWN'] and the decimals by 18; the console
    lines of the two loops are the same; and [recent] makes no round trip
    and leaves the endpoint as it was. *)
Theorem recent_decodes_like_fetch {W : Type} (provider : Provider W)
    (getAddress : string -> option string) (logs : list Log) (w w0 : W) :
  let fetch := TransferEvents.decode_logs provider getAddress logs [] w in
  let recent := RecentEvents.decode_logs getAddress logs [] w0 in
  exists events,
    outcome fetch = Returned events /\
    outcome recent = Returned (map Decoded.anonymous events) /\
    world recent = w0 /\
    round_trips (trace recent) = [] /\
    trace recent = filter Decoded.off_the_wire (trace fetch).
Proof.
  cbv zeta.
  destruct (RecentFacts.decode_logs_both provider getAddress logs [] w)
    as (events & w' & t & Hfetch & Hrecent & _).
  specialize (Hrecent w0). cbn [map] in Hrecent.
  exists events. rewrite Hfetch, Hrecent.
  unfold outcome, world, trace. cbn [fst snd].
  split; [reflexivity|]. split; [reflexivity|]. split; [reflexivity|].
  split; [|reflexivity].
  clear. induction t as [|ev t IH]; [reflexivity|].
  destruct ev; cbn [filter Decoded.off_the_wire round_trips]; exact IH.
Qed.

(** X15.  What the decoding loop of [fetch] returns can always be summed
    up.  Whatever the logs and whatever the endpoint answers, the loop
    returns at most one event per log; every event stems from a log of the
    list that has its three topics and its data, and carries the address,
    block number, transaction hash and index of that log, the addresses
    read in its topics 1 and 2, and its data as a decimal numeral; so
    [BigInt] reads every value back, and the loop that fills
    [tokenVolumes] from these events does not throw. *)
Theorem decoded_events_can_be_summed {W : Type} (provider : Provider W)
    (getAddress : string -> option string) (logs : list Log) (w : W) :
  exists events,
    outcome (TransferEvents.decode_logs provider getAddress logs [] w)
    = Returned events /\
    (List.length events <= List.length logs)%nat /\
    (forall event, In event events ->
                   exists log, In log logs /\ Decoded.decodes getAddress log event) /\
    values_parse TransferEvents.value events /\
    exists tokenVolumes, TransferEvents.tokenVolumes events = Some tokenVolumes.
Proof.
  destruct (RecentFacts.decode_logs_both provider getAddress logs [] w)
    as (events & w' & t & Hfetch & _ & Hfrom & Hlen).
  exists events. rewrite Hfetch.
  split; [reflexivity|]. split; [cbn in Hlen; lia|].
  assert (Hstems : forall event, In event events ->
            exists log, In log logs /\ Decoded.decodes getAddress log event).
  { intros event Hin. destruct (Hfrom event Hin) as [[]|H]. exact H. }
  assert (Hparse : values_parse TransferEvents.value events).
  { intros event Hin. destruct (Hstems event Hin) as (log & _ & Hd).
    destruct Hd as (_ & _ & _ & _ & _ & (v & _ & Hv) & _).
    exists v. rewrite Hv. apply NumeralFacts.BigInt_toString. }
  split; [exact Hstems|]. split; [exact Hparse|].
  destruct (TokenFacts.tokenVolumes_from_spec events JsMap.empty Hparse)
    as (m & Hm & _).
  exists m. exact Hm.
Qed.

(* ===================================================================== *)
(** * saveToCsv and the reader of analyze                                 *)
(* ===================================================================== *)

Module CsvFacts.
Import JsString Csv Plain.

Lemma split_plain (sep : ascii) (s : string) :
  includes sep s = false -> split sep s = [s].
Proof.
  induction s as [|c s IH]; cbn [includes split]; [reflexivity|].
  intros H. apply orb_false_iff in H. destruct H as [Hc Hs].
  rewrite Hc, (IH Hs). reflexivity.
Qed.

Lemma split_app (sep : ascii) (piece rest : string) :
  includes sep piece = false ->
  split sep (piece ++ String sep rest) = piece :: split sep rest.
Proof.
  induction piece as [|c piece IH]; cbn [includes split append].
  - intros _. rewrite Ascii.eqb_refl. reflexivity.
  - intros H. apply orb_false_iff in H. destruct H as [Hc Hs].
    rewrite Hc, (IH Hs). reflexivity.
Qed.

Lemma split_join (sep : ascii) (pieces : list string) :
  pieces <> [] ->
  Forall (fun piece => includes sep piece = false) pieces ->
  split sep (join sep pieces) = pieces.
Proof.
  intros Hne Hall. induction Hall as [|piece rest Hpiece Hrest IH];
    [contradiction|].
  destruct rest as [|next rest].
  - cbn [join]. apply split_plain. exact Hpiece.
  - change (join sep (piece :: next :: rest))
      with (piece ++ String sep (join sep (next :: rest)))%string.
    rewrite (split_app _ _ _ Hpiece), IH; [reflexivity|discriminate].
Qed.

Lemma includes_app (c : ascii) (a b : string) :
  includes c (a ++ b) = includes c a || includes c b.
Proof.
  induction a as [|c' a IH]; cbn [includes append]; [reflexivity|].
  rewrite IH, orb_assoc. reflexivity.
Qed.

Lemma includes_join (c sep : ascii) (pieces : list string) :
  Ascii.eqb sep c = false ->
  Forall (fun piece => includes c piece = false) pieces ->
  includes c (join sep pieces) = false.
Proof.
  intros Hsep Hall. induction Hall as [|piece rest Hpiece Hrest IH];
    [reflexivity|].
  destruct rest as [|next rest]; [exact Hpiece|].
  change (join sep (piece :: next :: rest))
    with (piece ++ String sep (join sep (next :: rest)))%string.
  rewrite includes_app, Hpiece. cbn [includes orb]. rewrite Hsep. exact IH.
Qed.

Lemma includes_join_sep (sep : ascii) (first second : string) (rest : list string) :
  includes sep (join sep (first :: second :: rest)) = true.
Proof.
  change (join sep (first :: second :: rest))
    with (first ++ String sep (join sep (second :: rest)))%string.
  rewrite includes_app. cbn [includes]. rewrite Ascii.eqb_refl.
  apply orb_true_r.
Qed.

(** ** Trimming *)

Lemma trimEnd_nonempty (s : string) :
  (exists c, includes c s = true /\ is_space c = false) ->
  nonempty (trimEnd s) = true.
Proof.
  induction s as [|c s IH]; intros (x & Hx & Hspace).
  - discriminate.
  - cbn [includes] in Hx. cbn [trimEnd].
    destruct (trimEnd s) as [|k kept] eqn:Hkept; [|reflexivity].
    destruct (is_space c) eqn:Hc; [|reflexivity].
    apply orb_true_iff in Hx. destruct Hx as [Hx|Hx].
    + apply Ascii.eqb_eq in Hx. congruence.
    + assert (H : nonempty EmptyString = true) by (apply IH; eauto).
      discriminate.
Qed.

Lemma includes_trimStart (c : ascii) (s : string) :
  includes c s = true -> is_space c = false -> includes c (trimStart s) = true.
Proof.
  induction s as [|c' s IH]; cbn [includes trimStart]; [discriminate|].
  intros H Hspace. destruct (is_space c') eqn:Hc'; [|exact H].
  apply orb_true_iff in H. destruct H as [H|H]; [|auto].
  apply Ascii.eqb_eq in H. congruence.
Qed.

(** A string that holds a character that is no white space is not
    blank. *)
Lemma trim_nonempty (c : ascii) (s : string) :
  includes c s = true -> is_space c = false -> nonempty (trim s) = true.
Proof.
  intros H Hspace. apply trimEnd_nonempty. exists c.
  split; [apply includes_trimStart; assumption|exact Hspace].
Qed.

Lemma every_excludes (P : ascii -> bool) (c : ascii) (s : string) :
  P c = false -> every P s = true -> includes c s = false.
Proof.
  intros Hc. induction s as [|c' s IH]; cbn [every includes]; [reflexivity|].
  intros H. apply andb_true_iff in H. destruct H as [Hc' Hs].
  rewrite (IH Hs), orb_false_r.
  destruct (Ascii.eqb c' c) eqn:Heq; [|reflexivity].
  apply Ascii.eqb_eq in Heq. congruence.
Qed.

Lemma trimEnd_solid (P : ascii -> bool) (s : string) :
  (forall c, P c = true -> is_space c = false) ->
  every P s = true -> trimEnd s = s.
Proof.
  intros HP. induction s as [|c s IH]; cbn [every trimEnd]; [reflexivity|].
  intros H. apply andb_true_iff in H. destruct H as [Hc Hs].
  rewrite (IH Hs), (HP c Hc). destruct s; reflexivity.
Qed.

(** A string without white space is its own trim. *)
Lemma trim_solid (P : ascii -> bool) (s : string) :
  (forall c, P c = true -> is_space c = false) ->
  every P s = true -> trim s = s.
Proof.
  intros HP Hs. unfold trim.
  replace (trimStart s) with s; [apply (trimEnd_solid P); assumption|].
  destruct s as [|c s]; [reflexivity|]. cbn [every] in Hs.
  apply andb_true_iff in Hs. destruct Hs as [Hc _].
  cbn [trimStart]. rewrite (HP c Hc). reflexivity.
Qed.

(** ** Numerals *)

Lemma uint_numeral (d : Decimal.uint) :
  every numeral_char (DecimalString.NilEmpty.string_of_uint d) = true.
Proof. induction d; cbn; auto. Qed.

Lemma toString_numeral (n : Z) : every numeral_char (toString n) = true.
Proof.
  unfold toString, DecimalString.NilZero.string_of_int.
  destruct (Z.to_int n) as [d|d];
    unfold DecimalString.NilZero.string_of_uint;
    destruct d; cbn [every]; try reflexivity;
    try (cbn [DecimalString.NilEmpty.string_of_uint every];
         rewrite uint_numeral; reflexivity).
Qed.

Lemma numeral_char_solid (c : ascii) :
  numeral_char c = true -> is_space c = false.
Proof.
  unfold numeral_char, is_space. cbv zeta.
  remember (nat_of_ascii c) as n. clear Heqn. intros H.
  apply orb_true_iff in H. apply orb_false_iff.
  destruct H as [H|H].
  - apply andb_true_iff in H. destruct H as [H1 H2].
    apply Nat.leb_le in H1. split.
    + apply andb_false_iff. right. apply Nat.leb_gt. lia.
    + apply Nat.eqb_neq. lia.
  - apply Nat.eqb_eq in H. subst n. split; reflexivity.
Qed.

Lemma toString_excludes (c : ascii) (n : Z) :
  numeral_char c = false -> includes c (toString n) = false.
Proof.
  intros Hc. apply (every_excludes numeral_char); [exact Hc|].
  apply toString_numeral.
Qed.

Lemma trim_toString (n : Z) : trim (toString n) = toString n.
Proof.
  apply (trim_solid numeral_char);
    [exact numeral_char_solid|apply toString_numeral].
Qed.

(** ** Plain strings and cells *)

Lemma all_ordinary_excludes (c : ascii) (s : string) :
  ordinary c = false -> all_ordinary s = true -> includes c s = false.
Proof.
  intros Hc. induction s as [|c' s IH]; cbn [all_ordinary includes];
    [reflexivity|].
  intros H. apply andb_true_iff in H. destruct H as [Hc' Hs].
  rewrite (IH Hs), orb_false_r.
  destruct (Ascii.eqb c' c) eqn:Heq; [|reflexivity].
  apply Ascii.eqb_eq in Heq. congruence.
Qed.

Lemma plain_spec (s : string) :
  plain s = true ->
  includes comma s = false /\ includes quote s = false /\
  includes LF s = false /\ trim s = s.
Proof.
  unfold plain. intros H. apply andb_true_iff in H. destruct H as [Hall Htrim].
  apply String.eqb_eq in Htrim.
  repeat split; try exact Htrim;
    apply all_ordinary_excludes; try exact Hall; reflexivity.
Qed.

(** A plain cell is written as it is, and what is written holds no
    comma and no line feed and has no white space to trim. *)
Lemma plain_cell_text (value : Cell) :
  plain_cell value = true ->
  text (escaped value) = text value /\
  includes comma (text value) = false /\
  includes LF (text value) = false /\
  trim (text value) = text value.
Proof.
  destruct value as [s|n|]; cbn [plain_cell escaped text].
  - intros H. destruct (plain_spec s H) as (Hc & Hq & Hl & Ht).
    rewrite Hc, Hq. cbn [orb text]. auto.
  - intros _. split; [reflexivity|].
    split; [apply toString_excludes; reflexivity|].
    split; [apply toString_excludes; reflexivity|apply trim_toString].
  - intros _. auto.
Qed.

(** ** The text as a list of lines *)

Lemma append_assoc (a b c : string) : ((a ++ b) ++ c)%string = (a ++ b ++ c)%string.
Proof. induction a as [|x a IH]; cbn; [reflexivity|]. rewrite IH. reflexivity. Qed.

Lemma append_nil_r (a : string) : (a ++ "")%string = a.
Proof. induction a as [|x a IH]; cbn; [reflexivity|]. rewrite IH. reflexivity. Qed.

Lemma csv_fold (headers : list string) (data : list (JsMap.t Cell)) :
  forall init,
    fold_left (fun csv row => (csv ++ line headers row ++ String LF EmptyString)%string)
              data init
    = (init ++ text_of (map (line headers) data))%string.
Proof.
  induction data as [|row data IH]; intros init; cbn [fold_left map text_of].
  - rewrite append_nil_r. reflexivity.
  - rewrite IH, !append_assoc. reflexivity.
Qed.

Lemma csv_text (data : list (JsMap.t Cell)) (headers : list string) :
  csv data headers = text_of (join comma headers :: map (line headers) data).
Proof.
  unfold csv. rewrite csv_fold. cbn [text_of].
  rewrite append_assoc. reflexivity.
Qed.

Lemma split_text_of (ended_lines : list string) :
  Forall (fun l => includes LF l = false) ended_lines ->
  split LF (text_of ended_lines) = ended_lines ++ [EmptyString].
Proof.
  intros Hall. induction Hall as [|l rest Hl Hrest IH]; [reflexivity|].
  cbn [text_of app]. rewrite (split_app _ _ _ Hl), IH. reflexivity.
Qed.

Lemma lines_text_of (ended_lines : list string) :
  Forall (fun l => includes LF l = false /\ includes comma l = true) ended_lines ->
  lines (text_of ended_lines) = ended_lines.
Proof.
  intros Hall. unfold lines. rewrite split_text_of.
  - rewrite filter_app. cbn [filter trim trimStart trimEnd nonempty].
    rewrite app_nil_r.
    induction Hall as [|l rest [_ Hl] Hrest IH]; [reflexivity|].
    cbn [filter]. rewrite (trim_nonempty comma l Hl eq_refl), IH. reflexivity.
  - eapply Forall_impl; [|exact Hall]. cbv beta. tauto.
Qed.

(** ** Reading a line back *)

Lemma forEach_header_other (headers : list string) (name : string) :
  forall index values obj,
    ~ In name (map trim headers) ->
    JsMap.get (forEach_header headers index values obj) name = JsMap.get obj name.
Proof.
  induction headers as [|header rest IH]; intros index values obj Hnot;
    cbn [forEach_header]; [reflexivity|].
  cbn [map In] in Hnot.
  rewrite IH by tauto.
  apply MapFacts.get_set_other. intros Heq. apply Hnot. left. exact Heq.
Qed.

Lemma forEach_header_get (headers : list string) :
  NoDup (map trim headers) ->
  forall index values obj i header,
    nth_error headers i = Some header ->
    JsMap.get (forEach_header headers index values obj) (trim header)
    = Some (option_map trim (nth_error values (index + i))).
Proof.
  induction headers as [|first rest IH]; intros Hnd index values obj i header Hnth.
  - destruct i; discriminate.
  - cbn [map] in Hnd. inversion Hnd as [|x l Hx Hl]; subst.
    cbn [forEach_header]. destruct i as [|i]; cbn [nth_error] in Hnth.
    + injection Hnth as <-. rewrite forEach_header_other by exact Hx.
      rewrite MapFacts.get_set_same, Nat.add_0_r. reflexivity.
    + rewrite (IH Hl (S index) values _ i header Hnth).
      replace (S index + i)%nat with (index + S i)%nat by lia. reflexivity.
Qed.

Lemma count_app (c : ascii) (a b : string) :
  count c (a ++ b) = (count c a + count c b)%nat.
Proof.
  induction a as [|x a IH]; cbn [count append]; [reflexivity|].
  rewrite IH. lia.
Qed.

Lemma length_split (sep : ascii) (s : string) :
  List.length (split sep s) = S (count sep s).
Proof.
  induction s as [|c s IH]; cbn [split count]; [reflexivity|].
  destruct (Ascii.eqb c sep); cbn [List.length Nat.add].
  - rewrite IH. reflexivity.
  - destruct (split sep s) as [|piece pieces]; cbn [List.length] in *; lia.
Qed.

Lemma count_join (sep : ascii) (pieces : list string) :
  (List.length pieces + fold_right (fun p acc => count sep p + acc) 0 pieces
   <= S (count sep (join sep pieces)))%nat.
Proof.
  induction pieces as [|piece rest IH]; [cbn; lia|].
  destruct rest as [|next rest].
  - cbn. lia.
  - change (join sep (piece :: next :: rest))
      with (piece ++ String sep (join sep (next :: rest)))%string.
    rewrite count_app. cbn [count]. rewrite Ascii.eqb_refl.
    cbn [List.length fold_right] in *. lia.
Qed.

Lemma count_double (c q : ascii) (s : string) :
  Ascii.eqb q c = false -> count c (double q s) = count c s.
Proof.
  intros Hq. induction s as [|x s IH]; cbn [double count]; [reflexivity|].
  destruct (Ascii.eqb x q) eqn:Hx; cbn [count].
  - apply Ascii.eqb_eq in Hx. subst x. rewrite Hq, IH. reflexivity.
  - rewrite IH. reflexivity.
Qed.

Lemma includes_count (c : ascii) (s : string) :
  includes c s = true -> (1 <= count c s)%nat.
Proof.
  induction s as [|x s IH]; cbn [includes count]; [discriminate|].
  destruct (Ascii.eqb x c); [lia|]. cbn [orb]. intros H. apply IH in H. lia.
Qed.
End CsvFacts.


(** X16.  [analyze] reads back what [saveToCsv] wrote, as long as nothing
    needs quoting.  For at least two headers, all different, and rows
    whose cells under these headers are numbers, [undefined] or plain
    strings (ASCII characters without comma, quote or line feed, and no
    white space at either end; the headers are plain too), the text that
    [saveToCsv] builds is parsed by [analyze] into one object per row, in
    the order of the rows, and each object holds under every header the
    cell as it was written: the string itself, the decimal numeral of a
    number, the empty string for [undefined]. *)
Theorem analyze_reads_what_saveToCsv_wrote (data : list (JsMap.t Csv.Cell))
    (headers : list string) :
  (2 <= List.length headers)%nat ->
  NoDup headers ->
  Forall (fun header => Plain.plain header = true) headers ->
  Forall (fun row =>
            Forall (fun header => Plain.plain_cell (Csv.field row header) = true)
                   headers) data ->
  exists objs,
    Csv.data (Csv.csv data headers) = Some objs /\
    Forall2 (fun row obj =>
               forall header, In header headers ->
                 Csv.read obj header = Some (Csv.text (Csv.field row header)))
            data objs.
Proof.
  intros Hmany Hnodup Hheaders Hcells.
  assert (Htrim : map JsString.trim headers = headers).
  { clear - Hheaders. induction Hheaders as [|h rest Hh _ IH]; [reflexivity|].
    cbn [map]. rewrite IH.
    destruct (CsvFacts.plain_spec h Hh) as (_ & _ & _ & ->). reflexivity. }
  assert (Hwritten : forall row hs,
            Forall (fun header => Plain.plain_cell (Csv.field row header) = true)
                   hs ->
            map (fun header => Csv.text (Csv.escaped (Csv.field row header))) hs
            = map (fun header => Csv.text (Csv.field row header)) hs).
  { clear. intros row hs Hrow. induction Hrow as [|h rest Hh _ IH]; [reflexivity|].
    cbn [map]. rewrite IH.
    destruct (CsvFacts.plain_cell_text _ Hh) as (-> & _). reflexivity. }
  assert (Hline : forall row,
            Forall (fun header => Plain.plain_cell (Csv.field row header) = true)
                   headers ->
            JsString.includes JsString.LF (Csv.line headers row) = false /\
            JsString.includes JsString.comma (Csv.line headers row) = true /\
            JsString.split JsString.comma (Csv.line headers row)
            = map (fun header => Csv.text (Csv.field row header)) headers).
  { intros row Hrow. unfold Csv.line. rewrite (Hwritten row headers Hrow).
    split; [|split].
    - apply CsvFacts.includes_join; [reflexivity|].
      apply Forall_map. eapply Forall_impl; [|exact Hrow]. cbv beta.
      intros h Hh. destruct (CsvFacts.plain_cell_text _ Hh) as (_ & _ & H & _).
      exact H.
    - destruct headers as [|h1 [|h2 rest]]; cbn [List.length] in Hmany; try lia.
      cbn [map]. apply CsvFacts.includes_join_sep.
    - apply CsvFacts.split_join.
      + destruct headers; [cbn in Hmany; lia|discriminate].
      + apply Forall_map. eapply Forall_impl; [|exact Hrow]. cbv beta.
        intros h Hh. destruct (CsvFacts.plain_cell_text _ Hh) as (_ & H & _).
        exact H. }
  assert (Hhead :
            JsString.includes JsString.LF (JsString.join JsString.comma headers) = false /\
            JsString.includes JsString.comma (JsString.join JsString.comma headers) = true /\
            JsString.split JsString.comma (JsString.join JsString.comma headers)
            = headers).
  { split; [|split].
    - apply CsvFacts.includes_join; [reflexivity|].
      eapply Forall_impl; [|exact Hheaders]. cbv beta.
      intros h Hh. destruct (CsvFacts.plain_spec h Hh) as (_ & _ & H & _). exact H.
    - destruct headers as [|h1 [|h2 rest]]; cbn [List.length] in Hmany; try lia.
      apply CsvFacts.includes_join_sep.
    - apply CsvFacts.split_join.
      + destruct headers; [cbn in Hmany; lia|discriminate].
      + eapply Forall_impl; [|exact Hheaders]. cbv beta.
        intros h Hh. destruct (CsvFacts.plain_spec h Hh) as (H & _). exact H. }
  destruct Hhead as (Hhead1 & Hhead2 & Hhead3).
  unfold Csv.data. rewrite CsvFacts.csv_text, CsvFacts.lines_text_of.
  2:{ constructor; [split; assumption|].
      apply Forall_map. eapply Forall_impl; [|exact Hcells]. cbv beta.
      intros row Hrow. destruct (Hline row Hrow) as (H1 & H2 & _). auto. }
  cbv zeta. rewrite Hhead3. eexists. split; [reflexivity|].
  induction Hcells as [|row rest Hrow Hrest IH]; cbn [map]; constructor;
    [|exact IH].
  intros header Hin.
  destruct (Hline row Hrow) as (_ & _ & ->).
  apply In_nth_error in Hin. destruct Hin as [i Hi].
  assert (Hh : Plain.plain_cell (Csv.field row header) = true).
  { rewrite Forall_forall in Hrow. apply Hrow.
    apply nth_error_In in Hi. exact Hi. }
  assert (Hth : JsString.trim header = header).
  { rewrite Forall_forall in Hheaders.
    destruct (CsvFacts.plain_spec header (Hheaders _ (nth_error_In _ _ Hi)))
      as (_ & _ & _ & H). exact H. }
  unfold Csv.read. rewrite <- Hth at 1.
  rewrite (CsvFacts.forEach_header_get headers) with (i := i);
    [|rewrite Htrim; exact Hnodup|exact Hi].
  cbn [Nat.add]. rewrite nth_error_map, Hi. cbn [option_map].
  destruct (CsvFacts.plain_cell_text _ Hh) as (_ & _ & _ & ->). reflexivity.
Qed.

Lemma analyze_reads_what_saveToCsv_wrote_witness :
  exists objs,
    Csv.data (Csv.csv [MoreSamples.plain_row] MoreSamples.headers3) = Some objs /\
    Forall2 (fun row obj =>
               forall header, In header MoreSamples.headers3 ->
                 Csv.read obj header = Some (Csv.text (Csv.field row header)))
            [MoreSamples.plain_row] objs.
Proof.
  apply (analyze_reads_what_saveToCsv_wrote
           [MoreSamples.plain_row] MoreSamples.headers3).
  - cbn. lia.
  - repeat constructor; cbn; intuition discriminate.
  - repeat constructor.
  - repeat constructor.
Defined.

(** X17.  [analyze] does not undo the quoting of [saveToCsv].  A string
    cell that holds a comma is written between quotes with its comma
    still inside, and the reader of [analyze], which cuts a line at every
    comma, gets more pieces from that line than there are headers: the
    pieces after the quoted cell are read under the wrong headers. *)
Theorem analyze_splits_quoted_cells (headers : list string)
    (row : JsMap.t Csv.Cell) (header s : string) :
  In header headers ->
  Csv.field row header = Csv.Str s ->
  JsString.includes JsString.comma s = true ->
  Csv.escaped (Csv.field row header)
  = Csv.Str (String JsString.quote
               (JsString.double JsString.quote s
                ++ String JsString.quote EmptyString)) /\
  (List.length headers
   < List.length (JsString.split JsString.comma (Csv.line headers row)))%nat.
Proof.
  intros Hin Hfield Hcomma. split.
  - rewrite Hfield. cbn [Csv.escaped]. rewrite Hcomma. reflexivity.
  - rewrite CsvFacts.length_split. unfold Csv.line.
    pose proof (CsvFacts.count_join JsString.comma
                  (map (fun h => Csv.text (Csv.escaped (Csv.field row h))) headers))
      as Hcount.
    rewrite length_map in Hcount.
    fold (Plain.commas_within headers row) in Hcount.
    assert (Hone : (1 <= Plain.commas_within headers row)%nat).
    { unfold Plain.commas_within. clear Hcount.
      induction headers as [|h rest IH]; [destruct Hin|].
      cbn [map fold_right]. destruct Hin as [->|Hin].
      - rewrite Hfield. cbn [Csv.escaped]. rewrite Hcomma.
        cbn [orb Csv.text Plain.count].
        change (Ascii.eqb JsString.quote JsString.comma) with false.
        rewrite CsvFacts.count_app,
          (CsvFacts.count_double JsString.comma JsString.quote s eq_refl).
        pose proof (CsvFacts.includes_count _ _ Hcomma). lia.
      - specialize (IH Hin). lia. }
    lia.
Qed.

Lemma analyze_splits_quoted_cells_witness :
  (List.length MoreSamples.headers3
   < List.length (JsString.split JsString.comma
                    (Csv.line MoreSamples.headers3 MoreSamples.comma_row)))%nat.
Proof.
  apply (analyze_splits_quoted_cells MoreSamples.headers3 MoreSamples.comma_row
           "tokenSymbol" "A,B").
  - left. reflexivity.
  - reflexivity.
  - reflexivity.
Defined.

(* ===================================================================== *)
(** * The rankings show the largest                                       *)
(* ===================================================================== *)

Module RankingFacts.

Lemma sorted_firstn {X : Type} (R : X -> X -> Prop) (n : nat) (l : list X) :
  StronglySorted R l ->
  StronglySorted R (firstn n l) /\
  forall a b, In a (firstn n l) -> In b (skipn n l) -> R a b.
Proof.
  intros Hsorted. revert n.
  induction Hsorted as [|x l Hs IH Hall]; intros n.
  - rewrite firstn_nil, skipn_nil. split; [constructor|intros a b []].
  - destruct n as [|n]; cbn [firstn skipn].
    + split; [constructor|intros a b []].
    + destruct (IH n) as [Hfirst Hcross]. split.
      * constructor; [exact Hfirst|].
        rewrite Forall_forall in *. intros y Hy. apply Hall.
        rewrite <- (firstn_skipn n l). apply in_or_app. left. exact Hy.
      * intros a b [<-|Ha] Hb.
        -- rewrite Forall_forall in Hall. apply Hall.
           rewrite <- (firstn_skipn n l). apply in_or_app. right. exact Hb.
        -- apply Hcross; assumption.
Qed.

(** The head of a descending rearrangement is a ranking of the
    largest. *)
Lemma largest_firstn {X : Type} (vol : X -> Z) (n : nat) (entries ranked : list X) :
  Permutation entries ranked ->
  StronglySorted (descending vol) ranked ->
  Ranking.largest vol n entries (firstn n ranked).
Proof.
  intros Hperm Hsorted.
  destruct (sorted_firstn (descending vol) n ranked Hsorted) as [Hfirst Hcross].
  split; [|split; [exact Hfirst|]].
  - rewrite length_firstn, (Permutation_length Hperm). reflexivity.
  - exists (skipn n ranked). split.
    + rewrite firstn_skipn. exact Hperm.
    + intros kept left_out Hk Hl. exact (Hcross _ _ Hk Hl).
Qed.
End RankingFacts.

(** X18.  Each of the three rankings shows the largest.  On a map of
    fewer than 64 entries, [topTokens] is a ranking of the 5 tokens of
    largest volume, [topAddresses] of the 10 addresses of largest turnover
    (sent plus received), and [sortedTokens], for a number [topN] that is
    not negative, of the [topN] tokens of largest volume: as many entries
    as asked for (all of them when there are fewer), in descending
    order, and no entry that is left out is larger than one that is
    shown. *)
Theorem rankings_show_the_largest :
  (forall tokenVolumes : JsMap.t Z,
      (List.length tokenVolumes < 64)%nat ->
      exists top,
        TransferEvents.topTokens tokenVolumes = Some top /\
        Ranking.largest snd 5 (JsMap.entries tokenVolumes) top) /\
  (forall addressVolumes : JsMap.t EthTransfers.AddressVolume,
      (List.length addressVolumes < 64)%nat ->
      exists top,
        EthTransfers.topAddresses addressVolumes = Some top /\
        Ranking.largest
          (fun e => EthTransfers.sent (snd e) + EthTransfers.received (snd e))
          10 (JsMap.entries addressVolumes) top) /\
  (forall (topN : Z) (tokenStats : JsMap.t TransferEvents.TokenStats),
      0 <= topN ->
      (List.length tokenStats < 64)%nat ->
      exists top,
        TransferEvents.sortedTokens (Some topN) tokenStats = Some top /\
        Ranking.largest (fun e => TransferEvents.volume (snd e))
          (Z.to_nat topN) (JsMap.entries tokenStats) top).
Proof.
  split; [|split].
  - intros tokenVolumes Hshort.
    destruct (SortFacts.sort_descending snd (JsMap.entries tokenVolumes) Hshort)
      as (ranked & Hsort & Hperm & Hdesc).
    exists (firstn 5 ranked). split.
    + unfold TransferEvents.topTokens.
      change TransferEvents.compareVolumes with (by_volume (X := string * Z) snd).
      rewrite Hsort. reflexivity.
    + apply RankingFacts.largest_firstn; assumption.
  - intros addressVolumes Hshort.
    destruct (SortFacts.sort_descending
                (fun e => EthTransfers.sent (snd e) + EthTransfers.received (snd e))
                (JsMap.entries addressVolumes) Hshort)
      as (ranked & Hsort & Hperm & Hdesc).
    exists (firstn 10 ranked). split.
    + unfold EthTransfers.topAddresses.
      change EthTransfers.compareAddresses
        with (by_volume (X := string * EthTransfers.AddressVolume)
                (fun e => EthTransfers.sent (snd e) + EthTransfers.received (snd e))).
      rewrite Hsort. reflexivity.
    + apply RankingFacts.largest_firstn; assumption.
  - intros topN tokenStats Hpos Hshort.
    destruct (SortFacts.sort_descending (fun e => TransferEvents.volume (snd e))
                (JsMap.entries tokenStats) Hshort)
      as (ranked & Hsort & Hperm & Hdesc).
    exists (firstn (Z.to_nat topN) ranked). split.
    + unfold TransferEvents.sortedTokens.
      change TransferEvents.compareTokens
        with (by_volume (X := string * TransferEvents.TokenStats)
                (fun e => TransferEvents.volume (snd e))).
      rewrite Hsort. cbn [option_map]. unfold slice0.
      replace (topN <? 0) with false by (symmetry; apply Z.ltb_ge; exact Hpos).
      reflexivity.
    + apply RankingFacts.largest_firstn; assumption.
Qed.

Lemma rankings_show_the_largest_witness :
  exists top,
    TransferEvents.topTokens [("USDT (0x01)"%string, 5); ("DAI (0x03)"%string, 12)]
    = Some top /\
    Ranking.largest snd 5
      (JsMap.entries [("USDT (0x01)"%string, 5); ("DAI (0x03)"%string, 12)]) top.
Proof.
  apply (proj1 rankings_show_the_largest
           [("USDT (0x01)"%string, 5); ("DAI (0x03)"%string, 12)]).
  cbn. lia.
Defined.

(* ===================================================================== *)
(** * What retryOperation does between the attempts                       *)
(* ===================================================================== *)

Module AttemptFacts.
Section RoundTrip.
Context {W A : Type}.
Variable c : RpcCall.
Variable reply : W -> Settled A * W.
Variables maxRetries delay : Z.

Lemma retry_loop_attempts (fuel : nat) :
  forall (i : Z) (w : W),
    (Z.to_nat (maxRetries - i) <= fuel)%nat ->
    i < maxRetries ->
    let run := Utils.retry_loop (round_trip c reply) maxRetries delay fuel i w in
    exists k,
      (1 <= k <= Z.to_nat (maxRetries - i))%nat /\
      trace run = Observe.attempts_trace c delay (i + 1) k /\
      ((exists e, outcome run = Thrown e) -> k = Z.to_nat (maxRetries - i)) /\
      ((exists a, outcome run = Returned a) \/ (exists e, outcome run = Thrown e)).
Proof.
  induction fuel as [|fuel IH]; intros i w Hfuel Hi; cbv zeta; [lia|].
  rewrite RetryFacts.retry_loop_step.
  replace (i <? maxRetries) with true by (symmetry; apply Z.ltb_lt; exact Hi).
  unfold try_catch.
  assert (Hrt : round_trip c reply w
                = match reply w with
                  | (Fulfilled a, w') => (Returned a, w', [Rpc c])
                  | (Rejected e, w') => (Thrown e, w', [Rpc c])
                  end) by reflexivity.
  rewrite Hrt. clear Hrt.
  destruct (reply w) as [[a|e] w1].
  - exists 1%nat. unfold trace, outcome. cbn [fst snd].
    split; [lia|]. split; [reflexivity|]. split.
    + intros (e & He). discriminate.
    + left. eauto.
  - destruct (Z.eqb_spec i (maxRetries - 1)) as [Hlast|Hmore].
    + exists 1%nat. unfold throw, trace, outcome. cbn [fst snd app].
      split; [lia|]. split; [reflexivity|]. split; [intros _; lia|].
      right. eauto.
    + destruct (IH (i + 1) w1) as (k & Hk & Htrace & Hthrown & Hout);
        [lia|lia|].
      exists (S k). unfold bind, emit. cbv beta iota zeta.
      unfold trace, outcome in *.
      destruct (Utils.retry_loop (round_trip c reply) maxRetries delay fuel
                  (i + 1) w1) as [[r w2] t2].
      cbn [fst snd app] in *. split; [lia|]. split.
      * rewrite Htrace. cbn [Observe.attempts_trace].
        destruct k as [|k]; [lia|]. reflexivity.
      * split; [|exact Hout]. intros He. rewrite (Hthrown He). lia.
Qed.
End RoundTrip.
End AttemptFacts.

(** X19.  [retryOperation] around a round trip, with [maxRetries >= 1]:
    it makes between one and [maxRetries] attempts and then returns or
    throws; after every attempt but the last it writes the line
    ["Attempt i failed, retrying in <delay>ms..."] with the number [i] of
    the attempt that failed, counted from 1, and sleeps [delay]
    milliseconds; it does nothing else, and neither writes nor sleeps
    after the last attempt.  When it throws, all [maxRetries] attempts
    were made. *)
Theorem retryOperation_sleeps_between_attempts {W A : Type} (c : RpcCall)
    (reply : W -> Settled A * W) (maxRetries delay : Z) (w : W) :
  1 <= maxRetries ->
  let run := Utils.retryOperation (round_trip c reply) maxRetries delay w in
  exists k,
    (1 <= k <= Z.to_nat maxRetries)%nat /\
    trace run = Observe.attempts_trace c delay 1 k /\
    ((exists e, outcome run = Thrown e) -> k = Z.to_nat maxRetries) /\
    ((exists a, outcome run = Returned a) \/ (exists e, outcome run = Thrown e)).
Proof.
  intros Hpos. cbv zeta. unfold Utils.retryOperation.
  destruct (AttemptFacts.retry_loop_attempts c reply maxRetries delay
              (Z.to_nat maxRetries) 0 w) as (k & Hk & Htrace & Hthrown & Hout);
    [lia|lia|].
  rewrite Z.sub_0_r in *. exists k. auto.
Qed.

Lemma retryOperation_sleeps_between_attempts_witness :
  let run := Utils.retryOperation
               (round_trip (GetBlock Latest false)
                  (eth_getBlock (Sample.lossy_node Sample.steady) Latest false))
               3 1000 1%nat in
  exists k,
    (1 <= k <= 3)%nat /\
    trace run = Observe.attempts_trace (GetBlock Latest false) 1000 1 k /\
    ((exists e, outcome run = Thrown e) -> k = 3%nat) /\
    ((exists a, outcome run = Returned a) \/ (exists e, outcome run = Thrown e)).
Proof.
  apply (retryOperation_sleeps_between_attempts (GetBlock Latest false)
           (eth_getBlock (Sample.lossy_node Sample.steady) Latest false)
           3 1000 1%nat).
  lia.
Defined.

(* ===================================================================== *)
(** * The batches of fetch                                                *)
(* ===================================================================== *)

Module BatchFacts.
Import Utils EthTransfers EthFetch Range.

Lemma upward_S (lo : Z) (n : nat) :
  upward lo (S n) = lo :: upward (lo + 1) n.
Proof.
  unfold upward. cbn [seq map]. f_equal; [lia|].
  rewrite <- seq_shift, map_map. apply map_ext. intros k. lia.
Qed.

Lemma upward_app (n m : nat) :
  forall lo, upward lo (n + m) = upward lo n ++ upward (lo + Z.of_nat n) m.
Proof.
  induction n as [|n IH]; intros lo.
  - cbn [Nat.add]. replace (lo + Z.of_nat 0) with lo by lia. reflexivity.
  - cbn [Nat.add]. rewrite !upward_S, IH. cbn [app]. do 3 f_equal. lia.
Qed.

Lemma upward_within (lo hi : Z) (n : nat) :
  forall start, lo <= start -> start + Z.of_nat n - 1 <= hi ->
    Forall (fun b => lo <= b <= hi) (upward start n).
Proof.
  induction n as [|n IH]; intros start Hlo Hhi; [constructor|].
  rewrite upward_S. constructor; [lia|]. apply IH; lia.
Qed.

Section Fetch.
Context {W : Type} (provider : Provider W).
Variable options : FetchOptions.
Variable minValueWei : Z.

(** One step of a call: it makes one round trip, for its own block, and
    leaves the call in a later round or ended with a result for that
    block. *)
Lemma attempt_run (blockNumber i : Z) (w : W) :
  0 <= i < defaultMaxRetries ->
  exists call w' t,
    attempt provider options minValueWei blockNumber i w = (Returned call, w', t) /\
    call_for provider options minValueWei blockNumber call /\
    round_trips t = [GetBlock (Height blockNumber) true] /\
    match call with
    | Attempting _ i' => i' = i + 1
    | Ended _ => True
    end.
Proof.
  intros Hi. unfold attempt, try_catch, bind, getBlock, round_trip, emit, ret.
  destruct (eth_getBlock provider (Height blockNumber) true w)
    as [[[block|]|e] w1] eqn:Hreply.
  - destruct (transactions block) as [txs|] eqn:Htxs.
    + eexists _, _, _. split; [reflexivity|]. split.
      * right. exists w, block, w1, txs. auto.
      * split; [reflexivity|exact I].
    + eexists _, _, _. split; [reflexivity|]. split; [left; reflexivity|].
      split; [reflexivity|exact I].
  - eexists _, _, _. split; [reflexivity|]. split; [left; reflexivity|].
    split; [reflexivity|exact I].
  - destruct (i =? defaultMaxRetries - 1) eqn:Hlast.
    + eexists _, _, _. split; [reflexivity|]. split; [left; reflexivity|].
      split; [reflexivity|exact I].
    + apply Z.eqb_neq in Hlast.
      eexists _, _, _. split; [reflexivity|]. split.
      * cbn [call_for]. split; [reflexivity|lia].
      * split; reflexivity.
Qed.

(** The steps of a call, taken one after the other from the first
    round on, are [processBlock]: the same result, the same events in the
    same order, the same state of the endpoint. *)
Lemma finish_is_processBlock (blockNumber : Z) (w : W) :
  finish provider options minValueWei (Z.to_nat defaultMaxRetries)
    (Attempting blockNumber 0) w
  = processBlock provider blockNumber options minValueWei w.
Proof.
  unfold processBlock, retryOperation.
  change (Z.to_nat defaultMaxRetries) with 3%nat.
  rewrite !RetryFacts.retry_loop_step. cbn [finish].
  unfold attempt, try_catch, bind, getBlock, round_trip, emit, ret, throw,
    defaultMaxRetries.
  change (0 <? 3) with true. change (0 + 1 <? 3) with true.
  change (0 + 1 + 1 <? 3) with true.
  change (0 =? 3 - 1) with false. cbv beta iota zeta.
  destruct (eth_getBlock provider (Height blockNumber) true w)
    as [[[block|]|e] w1].
  - destruct (transactions block); reflexivity.
  - reflexivity.
  - change (0 + 1 =? 3 - 1) with false. cbv beta iota zeta.
    destruct (eth_getBlock provider (Height blockNumber) true w1)
      as [[[block|]|e1] w2].
    + destruct (transactions block); reflexivity.
    + reflexivity.
    + change (0 + 1 + 1 =? 3 - 1) with true. cbv beta iota zeta.
      destruct (eth_getBlock provider (Height blockNumber) true w2)
        as [[[block|]|e2] w3].
      * destruct (transactions block); reflexivity.
      * reflexivity.
      * reflexivity.
Qed.

(** A call left to itself ends within the attempts it has left, with a
    result for its block, and asks for no other block. *)
Lemma finish_run (fuel : nat) :
  forall (call : Call) (blockNumber : Z) (w : W),
    call_for provider options minValueWei blockNumber call ->
    match call with
    | Attempting _ i => (Z.to_nat (defaultMaxRetries - i) <= fuel)%nat
    | Ended _ => True
    end ->
    exists transfers w' t,
      finish provider options minValueWei fuel call w = (Returned transfers, w', t) /\
      result_for provider options minValueWei blockNumber transfers /\
      Forall (eq (GetBlock (Height blockNumber) true)) (round_trips t).
Proof.
  induction fuel as [|fuel IH]; intros call blockNumber w Hcall Hfuel.
  - destruct call as [n i|transfers].
    + destruct Hcall as (_ & Hi). lia.
    + exists transfers, w, []. split; [reflexivity|]. split; [exact Hcall|constructor].
  - destruct call as [n i|transfers].
    + destruct Hcall as (-> & Hi). cbn [finish].
      destruct (attempt_run blockNumber i w Hi)
        as (call' & w1 & t1 & Hstep & Hcall' & Hrt & Hnext).
      destruct (IH call' blockNumber w1 Hcall') as (transfers & w2 & t2 & Hrest & Hres & Hrt2).
      { destruct call' as [n' i'|]; [|exact I]. subst i'. lia. }
      rewrite (DecodeFacts.bind_run _ _ _ _ _ _ Hstep), Hrest.
      unfold outcome, world, trace. cbn [fst snd].
      eexists _, _, _. split; [reflexivity|]. split; [exact Hres|].
      rewrite TraceFacts.round_trips_app, Hrt. constructor; [reflexivity|exact Hrt2].
    + exists transfers, w, []. split; [reflexivity|]. split; [exact Hcall|constructor].
Qed.

Lemma Forall2_nth_error_r {X Y : Type} (R : X -> Y -> Prop) (xs : list X)
    (ys : list Y) :
  Forall2 R xs ys ->
  forall (k : nat) (y : Y),
    nth_error ys k = Some y ->
    exists x, nth_error xs k = Some x /\ R x y.
Proof.
  induction 1 as [|x y xs ys Hxy _ IH]; intros k y0 Hk.
  - destruct k; discriminate.
  - destruct k as [|k]; cbn [nth_error] in *.
    + injection Hk as <-. eauto.
    + apply IH. exact Hk.
Qed.

Lemma Forall2_replace (R : Z -> Call -> Prop) (xs : list Z) (calls : list Call) :
  Forall2 R xs calls ->
  forall (k : nat) (x : Z) (call : Call),
    nth_error xs k = Some x -> R x call ->
    Forall2 R xs (replace k call calls).
Proof.
  induction 1 as [|x y xs ys Hxy Hall IH]; intros k x0 call Hk Hcall.
  - destruct k; discriminate.
  - destruct k as [|k]; cbn [nth_error replace] in *.
    + injection Hk as <-. constructor; assumption.
    + constructor; [exact Hxy|]. eapply IH; eassumption.
Qed.

Section Batch.
Variables lo hi : Z.
Variable blocks : list Z.
Hypothesis Hblocks : Forall (fun b => lo <= b <= hi) blocks.

(** The calls of a batch stay one per block of [blocks], in their order,
    each under way or ended with a result for its block. *)
Lemma advance_run (k : nat) (calls : list Call) (w : W) :
  Forall2 (call_for provider options minValueWei) blocks calls ->
  exists calls' w' t,
    advance provider options minValueWei k calls w = (Returned calls', w', t) /\
    Forall2 (call_for provider options minValueWei) blocks calls' /\
    Forall (asks_within lo hi) (round_trips t).
Proof.
  intros Hcalls. unfold advance.
  destruct (nth_error calls k) as [[n i|transfers]|] eqn:Hk;
    try (exists calls, w, []; split; [reflexivity|]; split; [exact Hcalls|constructor]).
  destruct (Forall2_nth_error_r _ _ _ Hcalls k _ Hk) as (b & Hb & -> & Hi).
  destruct (attempt_run b i w Hi) as (call' & w1 & t1 & Hstep & Hcall' & Hrt & _).
  rewrite (DecodeFacts.bind_run _ _ _ _ _ _ Hstep).
  unfold ret, outcome, world, trace. cbn [fst snd]. rewrite app_nil_r.
  eexists _, _, _. split; [reflexivity|]. split.
  - exact (Forall2_replace _ _ _ Hcalls k b call' Hb Hcall').
  - rewrite Hrt. constructor; [|constructor].
    exists b. split; [reflexivity|].
    rewrite Forall_forall in Hblocks. apply Hblocks.
    eapply nth_error_In. exact Hb.
Qed.

Lemma interleave_run (schedule : list nat) :
  forall (calls : list Call) (w : W),
    Forall2 (call_for provider options minValueWei) blocks calls ->
    exists calls' w' t,
      interleave provider options minValueWei schedule calls w
      = (Returned calls', w', t) /\
      Forall2 (call_for provider options minValueWei) blocks calls' /\
      Forall (asks_within lo hi) (round_trips t).
Proof.
  induction schedule as [|k rest IH]; intros calls w Hcalls.
  - exists calls, w, []. split; [reflexivity|]. split; [exact Hcalls|constructor].
  - cbn [interleave].
    destruct (advance_run k calls w Hcalls) as (calls1 & w1 & t1 & Hstep & Hcalls1 & Hrt1).
    destruct (IH calls1 w1 Hcalls1) as (calls2 & w2 & t2 & Hrest & Hcalls2 & Hrt2).
    rewrite (DecodeFacts.bind_run _ _ _ _ _ _ Hstep), Hrest.
    unfold outcome, world, trace. cbn [fst snd].
    eexists _, _, _. split; [reflexivity|]. split; [exact Hcalls2|].
    rewrite TraceFacts.round_trips_app. apply Forall_app. split; assumption.
Qed.
End Batch.

Lemma settle_all_run (lo hi : Z) (blocks : list Z) (calls : list Call) :
  Forall2 (call_for provider options minValueWei) blocks calls ->
  Forall (fun b => lo <= b <= hi) blocks ->
  forall w : W,
    exists results w' t,
      settle_all provider options minValueWei calls w = (Returned results, w', t) /\
      Forall2 (result_for provider options minValueWei) blocks results /\
      Forall (asks_within lo hi) (round_trips t).
Proof.
  induction 1 as [|b call blocks calls Hcall _ IH]; intros Hblocks w.
  - exists [], w, []. split; [reflexivity|]. split; constructor.
  - inversion Hblocks as [|b0 blocks0 Hb Hrest]; subst.
    cbn [settle_all].
    destruct (finish_run (Z.to_nat defaultMaxRetries) call b w Hcall)
      as (transfers & w1 & t1 & Hfinish & Hres & Hrt1).
    { destruct call as [n i|]; [|exact I]. destruct Hcall as (_ & Hi).
      unfold defaultMaxRetries in *. lia. }
    destruct (IH Hrest w1) as (results & w2 & t2 & Hsettle & Hall & Hrt2).
    rewrite (DecodeFacts.bind_run _ _ _ _ _ _ Hfinish).
    rewrite (DecodeFacts.bind_run _ _ _ _ _ _ Hsettle).
    unfold ret, outcome, world, trace. cbn [fst snd]. rewrite app_nil_r.
    eexists _, _, _. split; [reflexivity|]. split; [constructor; assumption|].
    rewrite TraceFacts.round_trips_app. apply Forall_app. split; [|exact Hrt2].
    eapply Forall_impl; [|exact Hrt1]. cbv beta. intros c <-.
    exists b. split; [reflexivity|exact Hb].
Qed.

(** [Promise.all] under any schedule: one result per call, in the order
    of the calls. *)
Lemma promise_all_run (lo hi : Z) (blocks : list Z) (schedule : list nat)
    (calls : list Call) (w : W) :
  Forall2 (call_for provider options minValueWei) blocks calls ->
  Forall (fun b => lo <= b <= hi) blocks ->
  exists results w' t,
    promise_all provider options minValueWei schedule calls w
    = (Returned results, w', t) /\
    Forall2 (result_for provider options minValueWei) blocks results /\
    Forall (asks_within lo hi) (round_trips t).
Proof.
  intros Hcalls Hblocks. unfold promise_all.
  destruct (interleave_run lo hi blocks Hblocks schedule calls w Hcalls)
    as (calls1 & w1 & t1 & Hstep & Hcalls1 & Hrt1).
  destruct (settle_all_run lo hi blocks calls1 Hcalls1 Hblocks w1)
    as (results & w2 & t2 & Hsettle & Hall & Hrt2).
  rewrite (DecodeFacts.bind_run _ _ _ _ _ _ Hstep), Hsettle.
  unfold outcome, world, trace. cbn [fst snd].
  eexists _, _, _. split; [reflexivity|]. split; [exact Hall|].
  rewrite TraceFacts.round_trips_app. apply Forall_app. split; assumption.
Qed.

(** The loop that starts the calls makes no round trip itself, and
    leaves one fresh call per block, in ascending order. *)
Lemma start_calls_run (fuel : nat) :
  forall (blockNum batchEnd : Z) (w : W),
    (Z.to_nat (batchEnd - blockNum + 1) <= fuel)%nat ->
    exists calls,
      start_calls (W := W) fuel blockNum batchEnd w = (Returned calls, w, []) /\
      Forall2 (call_for provider options minValueWei)
              (upward blockNum (Z.to_nat (batchEnd - blockNum + 1))) calls.
Proof.
  induction fuel as [|fuel IH]; intros blockNum batchEnd w Hfuel.
  - cbn [start_calls]. destruct (Z.leb_spec blockNum batchEnd) as [Hle|Hgt]; [lia|].
    exists []. split; [reflexivity|].
    replace (Z.to_nat (batchEnd - blockNum + 1)) with 0%nat by lia. constructor.
  - cbn [start_calls]. destruct (Z.leb_spec blockNum batchEnd) as [Hle|Hgt].
    + destruct (IH (blockNum + 1) batchEnd w) as (rest & Hrest & Hall); [lia|].
      rewrite (DecodeFacts.bind_run _ _ _ _ _ _ Hrest).
      unfold ret, outcome, world, trace. cbn [fst snd app].
      eexists. split; [reflexivity|].
      replace (Z.to_nat (batchEnd - blockNum + 1))
        with (S (Z.to_nat (batchEnd - (blockNum + 1) + 1))) by lia.
      rewrite upward_S. constructor; [|exact Hall].
      cbn [call_for]. unfold defaultMaxRetries. split; [reflexivity|lia].
    + exists []. split; [reflexivity|].
      replace (Z.to_nat (batchEnd - blockNum + 1)) with 0%nat by lia. constructor.
Qed.

Lemma batches_run (lo hi : Z) (fuel : nat) :
  forall (schedules : list (list nat)) (currentBlock endBlock : Z)
         (ethTransfers : list EthTransfer) (w : W),
    (Z.to_nat (endBlock - currentBlock + 1) <= fuel)%nat ->
    lo <= currentBlock -> endBlock <= hi ->
    exists results w' t,
      batches provider options minValueWei fuel schedules currentBlock endBlock
        ethTransfers w
      = (Returned (ethTransfers ++ List.concat results), w', t) /\
      Forall2 (result_for provider options minValueWei)
              (upward currentBlock (Z.to_nat (endBlock - currentBlock + 1)))
              results /\
      Forall (asks_within lo hi) (round_trips t).
Proof.
  induction fuel as [|fuel IH];
    intros schedules currentBlock endBlock ethTransfers w Hfuel Hlo Hhi.
  - cbn [batches]. destruct (Z.leb_spec currentBlock endBlock) as [Hle|Hgt]; [lia|].
    exists [], w, []. cbn [List.concat]. rewrite app_nil_r. split; [reflexivity|].
    replace (Z.to_nat (endBlock - currentBlock + 1)) with 0%nat by lia.
    split; constructor.
  - cbn [batches]. destruct (Z.leb_spec currentBlock endBlock) as [Hle|Hgt].
    + cbv zeta.
      remember (Z.min (currentBlock + batchSize - 1) endBlock) as batchEnd eqn:Ebatch.
      unfold batchSize in *.
      destruct (start_calls_run (Z.to_nat 100) currentBlock batchEnd w)
        as (calls & Hstart & Hcalls); [lia|].
      destruct (promise_all_run lo hi
                  (upward currentBlock (Z.to_nat (batchEnd - currentBlock + 1)))
                  (hd [] schedules) calls w Hcalls)
        as (results1 & w1 & t1 & Hbatch & Hall1 & Hrt1).
      { apply upward_within; lia. }
      destruct (IH (tl schedules) (currentBlock + 100) endBlock
                  (ethTransfers ++ List.concat results1) w1)
        as (results2 & w2 & t2 & Hrest & Hall2 & Hrt2); [lia|lia|lia|].
      rewrite (DecodeFacts.bind_run _ _ _ _ _ _ Hstart).
      rewrite (DecodeFacts.bind_run _ _ _ _ _ _ Hbatch).
      unfold outcome, world, trace, bind, emit. cbv beta iota zeta.
      rewrite Hrest. cbn [fst snd app].
      exists (results1 ++ results2), w2, (t1 ++ Sleep 100 :: t2).
      split; [rewrite List.concat_app, app_assoc; reflexivity|]. split.
      * replace (Z.to_nat (endBlock - currentBlock + 1))
          with (Z.to_nat (batchEnd - currentBlock + 1)
                + Z.to_nat (endBlock - (currentBlock + 100) + 1))%nat by lia.
        rewrite upward_app. apply Forall2_app; [exact Hall1|].
        destruct (Z_le_gt_dec (currentBlock + 100) endBlock) as [Hmore|Hdone].
        -- replace (currentBlock + Z.of_nat (Z.to_nat (batchEnd - currentBlock + 1)))
             with (currentBlock + 100) by lia.
           exact Hall2.
        -- replace (Z.to_nat (endBlock - (currentBlock + 100) + 1)) with 0%nat in *
             by lia.
           inversion Hall2. constructor.
      * rewrite TraceFacts.round_trips_app. apply Forall_app.
        split; [exact Hrt1|exact Hrt2].
    + exists [], w, []. cbn [List.concat]. rewrite app_nil_r. split; [reflexivity|].
      replace (Z.to_nat (endBlock - currentBlock + 1)) with 0%nat by lia.
      split; constructor.
Qed.
End Fetch.

(** The order in which the calls of a batch take their steps shows in
    the results.  Over a line that drops the calls numbered 0, 2 and 3,
    two calls that run one after the other both get their block; when
    the second call is answered between the attempts of the first, the
    first call loses all three of its attempts and ends with the empty
    array. *)
Lemma results_depend_on_the_schedule :
  let calls := [Attempting 1 0; Attempting 2 0] in
  let none := {| opt_from := None; opt_to := None |} in
  exists one_by_one interleaved,
    outcome (promise_all MoreSamples.patchy_node7 none 1 [] calls 0%nat)
    = Returned one_by_one /\
    outcome (promise_all MoreSamples.patchy_node7 none 1
               [0; 1; 0; 0]%nat calls 0%nat)
    = Returned interleaved /\
    map (@List.length EthTransfer) one_by_one = [2; 2]%nat /\
    map (@List.length EthTransfer) interleaved = [0; 2]%nat.
Proof.
  cbv zeta. eexists _, _.
  split; [vm_compute; reflexivity|].
  split; [vm_compute; reflexivity|].
  split; reflexivity.
Qed.
End BatchFacts.



(* ===================================================================== *)
(** * The address statistics of analyze                                   *)
(* ===================================================================== *)

Module AnalyzeFacts.
Import TransferEvents Analyze.

Lemma option_string_eqb_refl (a : option string) : option_string_eqb a a = true.
Proof. apply TokenFacts.option_string_eqb_eq. reflexivity. Qed.

Lemma keymap_get_set_same {V : Type} (m : KeyMap.t V) (k : option string) (v : V) :
  KeyMap.get (KeyMap.set m k v) k = Some v.
Proof.
  induction m as [|[k' v'] m IH]; cbn [KeyMap.set KeyMap.get].
  - rewrite option_string_eqb_refl. reflexivity.
  - destruct (option_string_eqb k' k) eqn:Hk; cbn [KeyMap.get]; rewrite Hk; auto.
Qed.

Lemma stats_total_set (field : AddressStats -> Z) (m : KeyMap.t AddressStats)
    (a : option string) (stats : AddressStats) :
  total field (KeyMap.set m a stats)
  = total field m
    - match KeyMap.get m a with
      | Some old => field old
      | None => 0
      end
    + field stats.
Proof.
  unfold total, KeyMap.entries.
  induction m as [|[k v] m IH]; cbn [KeyMap.set KeyMap.get fold_right snd].
  - lia.
  - destruct (option_string_eqb k a); cbn [fold_right snd]; lia.
Qed.

Lemma stats_total_update (field : AddressStats -> Z) (m : KeyMap.t AddressStats)
    (a : option string) (f : AddressStats -> AddressStats) (d : Z) :
  field {| sent := 0; received := 0; sentCount := 0; receivedCount := 0 |} = 0 ->
  (forall stats, field (f stats) = field stats + d) ->
  total field (update_stats m a f) = total field m + d.
Proof.
  intros Hzero Hadd. unfold update_stats, KeyMap.has.
  destruct (KeyMap.get m a) as [stats|] eqn:Hget.
  - rewrite Hget, stats_total_set, Hget, Hadd. lia.
  - rewrite keymap_get_set_same, !stats_total_set, keymap_get_set_same, Hget, Hadd. lia.
Qed.

Lemma addressStats_from_totals (data : list Row) :
  forall m0,
    values_parse (fun row => or_else (row_value row) "0") data ->
    exists m volume,
      addressStats_from data m0 = Some m /\
      total sent m = total sent m0 + volume /\
      total received m = total received m0 + volume /\
      total sentCount m = total sentCount m0 + Z.of_nat (List.length data) /\
      total receivedCount m = total receivedCount m0 + Z.of_nat (List.length data).
Proof.
  induction data as [|row rest IH]; intros m0 Hparse.
  - exists m0, 0. cbn. repeat split; lia.
  - destruct (Hparse row (or_introl eq_refl)) as (v & Hv).
    cbn [addressStats_from]. cbv zeta. rewrite Hv.
    set (m1 := update_stats m0 (row_from row)
                 (fun s => {| sent := sent s + v;
                              received := received s;
                              sentCount := sentCount s + 1;
                              receivedCount := receivedCount s |})).
    set (m2 := update_stats m1 (row_to row)
                 (fun s => {| sent := sent s;
                              received := received s + v;
                              sentCount := sentCount s;
                              receivedCount := receivedCount s + 1 |})).
    destruct (IH m2) as (m & volume & Hm & Hs & Hr & Hsc & Hrc).
    { intros x Hx. apply Hparse. right. exact Hx. }
    exists m, (v + volume). split; [exact Hm|].
    assert (H1s : total sent m1 = total sent m0 + v)
      by (apply stats_total_update; [reflexivity|intros; reflexivity]).
    assert (H1r : total received m1 = total received m0 + 0)
      by (apply stats_total_update; [reflexivity|intros; cbn; lia]).
    assert (H1sc : total sentCount m1 = total sentCount m0 + 1)
      by (apply stats_total_update; [reflexivity|intros; reflexivity]).
    assert (H1rc : total receivedCount m1 = total receivedCount m0 + 0)
      by (apply stats_total_update; [reflexivity|intros; cbn; lia]).
    assert (H2s : total sent m2 = total sent m1 + 0)
      by (apply stats_total_update; [reflexivity|intros; cbn; lia]).
    assert (H2r : total received m2 = total received m1 + v)
      by (apply stats_total_update; [reflexivity|intros; reflexivity]).
    assert (H2sc : total sentCount m2 = total sentCount m1 + 0)
      by (apply stats_total_update; [reflexivity|intros; cbn; lia]).
    assert (H2rc : total receivedCount m2 = total receivedCount m1 + 1)
      by (apply stats_total_update; [reflexivity|intros; reflexivity]).
    cbn [List.length]. repeat split; lia.
Qed.

Lemma total_net (m : KeyMap.t AddressStats) :
  total net m = total received m - total sent m.
Proof.
  unfold total, KeyMap.entries, net.
  induction m as [|[k v] m IH]; cbn [fold_right snd]; lia.
Qed.
End AnalyzeFacts.

(** X21.  The address statistics of [analyze] balance.  Over rows whose
    [value] column holds numerals (a missing or empty value counts as 0),
    the loop fills [addressStats] without throwing, and over all the
    addresses of the map, the [undefined] address of rows without a
    [from] or [to] column included, the amounts received add up to the
    amounts sent, so that the [Net] figures add up to zero; the counts of
    transfers sent add up to the number of rows, and so do the counts of
    transfers received. *)
Theorem analyze_address_statistics_balance (data : list TransferEvents.Row) :
  values_parse (fun row => TransferEvents.or_else (TransferEvents.row_value row) "0")
               data ->
  exists addressStats,
    Analyze.addressStats data = Some addressStats /\
    Analyze.total Analyze.received addressStats
    = Analyze.total Analyze.sent addressStats /\
    Analyze.total Analyze.net addressStats = 0 /\
    Analyze.total Analyze.sentCount addressStats = Z.of_nat (List.length data) /\
    Analyze.total Analyze.receivedCount addressStats = Z.of_nat (List.length data).
Proof.
  intros Hparse.
  destruct (AnalyzeFacts.addressStats_from_totals data Analyze.KeyMap.empty Hparse)
    as (m & volume & Hm & Hs & Hr & Hsc & Hrc).
  exists m. split; [exact Hm|].
  rewrite AnalyzeFacts.total_net. cbn in Hs, Hr, Hsc, Hrc.
  repeat split; lia.
Qed.

Lemma analyze_address_statistics_balance_witness :
  exists addressStats,
    Analyze.addressStats [Sample.row_usdt_1; Sample.row_usdt_2; Sample.row_dai]
    = Some addressStats /\
    Analyze.total Analyze.received addressStats
    = Analyze.total Analyze.sent addressStats /\
    Analyze.total Analyze.net addressStats = 0 /\
    Analyze.total Analyze.sentCount addressStats = 3 /\
    Analyze.total Analyze.receivedCount addressStats = 3.
Proof.
  apply (analyze_address_statistics_balance
           [Sample.row_usdt_1; Sample.row_usdt_2; Sample.row_dai]).
  intros x [<-|[<-|[<-|[]]]]; eexists; reflexivity.
Defined.

(* ===================================================================== *)
(** * The loop of history                                                 *)
(* ===================================================================== *)

Module HistoryFacts.
Import Utils BalanceFinder.

Lemma retry_loop_settles {W A} (operation : Eff W A) (maxRetries delay : Z) :
  settles operation ->
  forall fuel i,
    (Z.to_nat (maxRetries - i) <= fuel)%nat ->
    settles (retry_loop operation maxRetries delay fuel i).
Proof.
  intros Hop. induction fuel as [|fuel IH]; intros i Hfuel.
  - cbn [retry_loop]. destruct (Z.ltb_spec i maxRetries); [lia|].
    apply DecodeFacts.settles_throw.
  - rewrite RetryFacts.retry_loop_step.
    destruct (Z.ltb_spec i maxRetries); [|apply DecodeFacts.settles_throw].
    apply DecodeFacts.settles_try_catch; [exact Hop|]. intros e.
    destruct (i =? maxRetries - 1); [apply DecodeFacts.settles_throw|].
    apply DecodeFacts.settles_bind; [apply DecodeFacts.settles_emit|]. intros _.
    apply DecodeFacts.settles_bind; [apply DecodeFacts.settles_emit|]. intros _.
    apply IH. lia.
Qed.

Lemma retryOperation_settles {W A} (operation : Eff W A) (maxRetries delay : Z) :
  settles operation -> settles (retryOperation operation maxRetries delay).
Proof. intros H. apply retry_loop_settles; [exact H|lia]. Qed.

Section History.
Context {W : Type} (provider : Provider W).
Variable getTransactionCount : string -> Z -> Eff W Z.
Variable formatTimestamp : Z -> option string.
Variable formatEther : Z -> string.
Variable address : string.
Hypothesis Hcount : forall a b, settles (getTransactionCount a b).

(** A round ends by falling through to the next one, with the history
    as it was or with one more entry, for this block. *)
Lemma history_round_returns (block : Z) (balanceHistory : list HistoryEntry) (w : W) :
  exists balanceHistory' w' t,
    history_round provider getTransactionCount formatTimestamp formatEther
      address block balanceHistory w
    = (Returned balanceHistory', w', t) /\
    (balanceHistory' = balanceHistory \/
     exists entry, balanceHistory' = balanceHistory ++ [entry] /\
                   BalanceFinder.block entry = block).
Proof.
  unfold history_round.
  match goal with
  | |- context [try_catch ?m ?h] => set (body := m); set (handler := h)
  end.
  assert (Hbody : forall w0,
            (exists w1 t1 entry,
                body w0 = (Returned (balanceHistory ++ [entry]), w1, t1) /\
                BalanceFinder.block entry = block) \/
            (exists e w1 t1, body w0 = (Thrown e, w1, t1))).
  { intros w0. subst body. unfold bind.
    destruct (ObserveFacts.retried_round_trip_settles
                (GetBlock (Height block) false)
                (eth_getBlock provider (Height block) false) w0) as [[b Hb]|[e He]];
      fold (getBlock provider (Height block) false) in *;
      unfold outcome in *;
      destruct (retryOperation (getBlock provider (Height block) false)
                  defaultMaxRetries defaultDelay w0) as [[r1 w1] t1];
      cbn [fst] in *; subst r1; [|right; eauto].
    destruct (ObserveFacts.retried_round_trip_settles
                (GetBalance address (Some block))
                (eth_getBalance provider address (Some block)) w1)
      as [[bal Hbal]|[e He]];
      fold (getBalance provider address (Some block)) in *;
      unfold outcome in *;
      destruct (retryOperation (getBalance provider address (Some block))
                  defaultMaxRetries defaultDelay w1) as [[r2 w2] t2];
      cbn [fst] in *; subst r2; [|right; eauto].
    destruct (retryOperation_settles (getTransactionCount address block)
                defaultMaxRetries defaultDelay (Hcount address block) w2)
      as [[n Hn]|[e He]];
      unfold outcome in *;
      destruct (retryOperation (getTransactionCount address block)
                  defaultMaxRetries defaultDelay w2) as [[r3 w3] t3];
      cbn [fst] in *; subst r3; [|right; eauto].
    destruct b as [blockInfo|]; [|right; unfold throw; eauto].
    destruct (formatTimestamp (Js.timestamp blockInfo)) as [date|];
      [|right; unfold throw; eauto].
    left. unfold ret. eexists _, _, _. split; [reflexivity|reflexivity]. }
  unfold bind, try_catch.
  destruct (Hbody w) as [(w1 & t1 & entry & -> & Hentry)|(e & w1 & t1 & ->)].
  - unfold emit, ret. cbv beta iota zeta. eexists _, _, _.
    split; [reflexivity|]. right. exists entry. auto.
  - subst handler. unfold bind, emit, ret. cbv beta iota zeta.
    eexists _, _, _. split; [reflexivity|]. left. reflexivity.
Qed.

Lemma history_loop_step (fuel : nat) (block endBlock interval : Z)
    (balanceHistory : list HistoryEntry) :
  history_loop provider getTransactionCount formatTimestamp formatEther address
    (S fuel) block endBlock interval balanceHistory
  = if block <=? endBlock then
      balanceHistory' <- history_round provider getTransactionCount
                           formatTimestamp formatEther address
                           block balanceHistory ;;
      history_loop provider getTransactionCount formatTimestamp formatEther
        address fuel (block + interval) endBlock interval balanceHistory'
    else ret balanceHistory.
Proof. reflexivity. Qed.

(** With an interval of 0 the loop is still running after any number of
    rounds. *)
Lemma history_loop_stuck (fuel : nat) :
  forall (block endBlock : Z) (balanceHistory : list HistoryEntry) (w : W),
    block <= endBlock ->
    outcome (history_loop provider getTransactionCount formatTimestamp
               formatEther address fuel block endBlock 0 balanceHistory w)
    = OutOfFuel.
Proof.
  induction fuel as [|fuel IH]; intros block endBlock balanceHistory w Hle.
  - cbn [history_loop].
    replace (block <=? endBlock) with true by (symmetry; apply Z.leb_le; exact Hle).
    reflexivity.
  - rewrite history_loop_step.
    replace (block <=? endBlock) with true by (symmetry; apply Z.leb_le; exact Hle).
    destruct (history_round_returns block balanceHistory w)
      as (h' & w' & t & Hround & _).
    rewrite (DecodeFacts.bind_run _ _ _ _ _ _ Hround).
    unfold outcome at 1. cbn [fst]. rewrite Z.add_0_r. apply IH. exact Hle.
Qed.

(** With an interval of 1 or more the loop ends, and what it adds to
    the history are entries for blocks of the grid, in ascending order. *)
Lemma history_loop_returns (interval : Z) (fuel : nat) :
  1 <= interval ->
  forall (block endBlock : Z) (balanceHistory : list HistoryEntry) (w : W),
    (block <= endBlock -> (endBlock - block) / interval + 1 <= Z.of_nat fuel) ->
    exists added w' t,
      history_loop provider getTransactionCount formatTimestamp formatEther
        address fuel block endBlock interval balanceHistory w
      = (Returned (balanceHistory ++ added), w', t) /\
      Forall (fun entry => exists k, 0 <= k /\
                BalanceFinder.block entry = block + k * interval /\
                BalanceFinder.block entry <= endBlock) added /\
      StronglySorted (fun a b => BalanceFinder.block a < BalanceFinder.block b) added /\
      (block <= endBlock ->
       Z.of_nat (List.length added) <= (endBlock - block) / interval + 1) /\
      (endBlock < block -> added = []).
Proof.
  intros Hpos.
  induction fuel as [|fuel IH]; intros block endBlock balanceHistory w Hfuel.
  - cbn [history_loop]. destruct (Z.leb_spec block endBlock) as [Hle|Hgt].
    { specialize (Hfuel Hle).
      assert (0 <= (endBlock - block) / interval) by (apply Z.div_pos; lia).
      lia. }
    exists [], w, []. rewrite app_nil_r.
    split; [reflexivity|]. split; [constructor|]. split; [constructor|].
    split; [lia|reflexivity].
  - rewrite history_loop_step.
    destruct (Z.leb_spec block endBlock) as [Hle|Hgt].
    + specialize (Hfuel Hle).
      destruct (history_round_returns block balanceHistory w)
        as (h1 & w1 & t1 & Hround & Hh1).
      destruct (IH (block + interval) endBlock h1 w1)
        as (added & w2 & t2 & Hrest & Hgrid & Hsorted & Hlen & Hnone).
      { intros Hmore.
        replace (endBlock - block)
          with ((endBlock - (block + interval)) + 1 * interval) in Hfuel by lia.
        rewrite Z.div_add in Hfuel by lia. lia. }
      rewrite (DecodeFacts.bind_run _ _ _ _ _ _ Hround), Hrest.
      unfold outcome, world, trace. cbn [fst snd].
      assert (Hgrid' : Forall (fun entry => exists k, 0 <= k /\
                         BalanceFinder.block entry = block + k * interval /\
                         BalanceFinder.block entry <= endBlock) added).
      { eapply Forall_impl; [|exact Hgrid]. cbv beta.
        intros entry (k & Hk & Hb & Hend). exists (k + 1).
        split; [lia|]. split; [lia|exact Hend]. }
      assert (Hrounds : Z.of_nat (List.length added) + 1
                       <= (endBlock - block) / interval + 1).
      { destruct (Z_le_gt_dec (block + interval) endBlock) as [Hmore|Hdone].
        - specialize (Hlen Hmore).
          replace (endBlock - block) with ((endBlock - (block + interval)) + 1 * interval)
            by lia.
          rewrite Z.div_add by lia. lia.
        - rewrite (Hnone ltac:(lia)). cbn [List.length].
          assert (0 <= (endBlock - block) / interval)
            by (apply Z.div_pos; lia).
          lia. }
      destruct Hh1 as [->|(entry & -> & Hentry)].
      * exists added, w2, (t1 ++ t2).
        split; [reflexivity|]. split; [exact Hgrid'|]. split; [exact Hsorted|].
        split; [lia|lia].
      * exists (entry :: added), w2, (t1 ++ t2).
        split; [rewrite <- app_assoc; reflexivity|].
        split; [constructor; [exists 0; lia|exact Hgrid']|].
        split.
        -- constructor; [exact Hsorted|].
           eapply Forall_impl; [|exact Hgrid]. cbv beta.
           intros e (k & Hk & Hb & _). nia.
        -- cbn [List.length]. split; [lia|lia].
    + exists [], w, []. rewrite app_nil_r.
      split; [reflexivity|]. split; [constructor|]. split; [constructor|].
      split; [lia|reflexivity].
Qed.

(** Unrolled less often than the grid has blocks, the loop has not
    ended. *)
Lemma history_loop_exhausts (interval : Z) (fuel : nat) :
  1 <= interval ->
  forall (block endBlock : Z) (balanceHistory : list HistoryEntry) (w : W),
    block <= endBlock ->
    Z.of_nat fuel < (endBlock - block) / interval + 1 ->
    outcome (history_loop provider getTransactionCount formatTimestamp
               formatEther address fuel block endBlock interval balanceHistory w)
    = OutOfFuel.
Proof.
  intros Hpos.
  induction fuel as [|fuel IH]; intros block endBlock balanceHistory w Hle Hfuel.
  - cbn [history_loop].
    replace (block <=? endBlock) with true by (symmetry; apply Z.leb_le; exact Hle).
    reflexivity.
  - rewrite history_loop_step.
    replace (block <=? endBlock) with true by (symmetry; apply Z.leb_le; exact Hle).
    destruct (history_round_returns block balanceHistory w)
      as (h' & w' & t & Hround & _).
    rewrite (DecodeFacts.bind_run _ _ _ _ _ _ Hround).
    unfold outcome at 1. cbn [fst].
    assert (Hmore : block + interval <= endBlock).
    { destruct (Z_le_gt_dec (block + interval) endBlock) as [H|H]; [exact H|].
      rewrite Z.div_small in Hfuel by lia. lia. }
    apply IH; [exact Hmore|].
    replace (endBlock - block)
      with ((endBlock - (block + interval)) + 1 * interval) in Hfuel by lia.
    rewrite Z.div_add in Hfuel by lia. lia.
Qed.
End History.
End HistoryFacts.

(** X22.  The [history] command accepts an interval of 0, and its loop
    then never ends.  [isValidBlockNumber] lets 0 pass; with
    [startBlock <= endBlock] and [interval = 0] the loop variable stays
    at [startBlock]: every round ends, by the entry pushed or by the
    error caught, and the loop condition holds again, so that however far
    the loop is unrolled it has not ended. *)
Theorem history_with_interval_0_never_ends {W : Type} (provider : Provider W)
    (getTransactionCount : string -> Z -> Eff W Z)
    (formatTimestamp : Z -> option string) (formatEther : Z -> string)
    (address : string) (startBlock endBlock : Z) (w : W) :
  (forall a b, settles (getTransactionCount a b)) ->
  startBlock <= endBlock ->
  Utils.isValidBlockNumber (Some 0) = true /\
  forall fuel,
    outcome (BalanceFinder.history_loop provider getTransactionCount
               formatTimestamp formatEther address fuel
               startBlock endBlock 0 [] w)
    = OutOfFuel.
Proof.
  intros Hcount Hrange. split; [reflexivity|]. intros fuel.
  apply HistoryFacts.history_loop_stuck; assumption.
Qed.

Lemma history_with_interval_0_never_ends_witness :
  Utils.isValidBlockNumber (Some 0) = true /\
  forall fuel,
    outcome (BalanceFinder.history_loop MoreSamples.chain1000
               (fun _ _ => ret 0) (fun _ => Some "2020-09-13T12:26:40.000Z")
               toString "0xd8dA6BF26964aF9D7eEd9e03E53415D37aA96045" fuel
               100 200 0 [] tt)
    = OutOfFuel.
Proof.
  apply (history_with_interval_0_never_ends MoreSamples.chain1000
           (fun _ _ => ret 0) (fun _ => Some "2020-09-13T12:26:40.000Z")
           toString "0xd8dA6BF26964aF9D7eEd9e03E53415D37aA96045" 100 200 tt).
  - intros a b. apply DecodeFacts.settles_ret.
  - lia.
Defined.

(** X23.  With an interval of 1 or more and [startBlock <= endBlock],
    the loop of [history] makes exactly [totalBlocks] rounds, the number
    the command computes beforehand: unrolled less often it has not ended,
    unrolled that often or more it returns.  The history it returns holds
    at most one entry per round, each for a block [startBlock + k *
    interval] that is not above [endBlock], in ascending order of the
    blocks; a block whose calls failed does not stop the loop. *)
Theorem history_makes_totalBlocks_rounds {W : Type} (provider : Provider W)
    (getTransactionCount : string -> Z -> Eff W Z)
    (formatTimestamp : Z -> option string) (formatEther : Z -> string)
    (address : string) (startBlock endBlock interval : Z) (w : W) :
  (forall a b, settles (getTransactionCount a b)) ->
  1 <= interval ->
  startBlock <= endBlock ->
  let rounds := BalanceFinder.totalBlocks startBlock endBlock interval in
  let run fuel :=
    BalanceFinder.history_loop provider getTransactionCount formatTimestamp
      formatEther address fuel startBlock endBlock interval [] w in
  (forall fuel, Z.of_nat fuel < rounds -> outcome (run fuel) = OutOfFuel) /\
  (forall fuel, rounds <= Z.of_nat fuel ->
     exists balanceHistory,
       outcome (run fuel) = Returned balanceHistory /\
       Z.of_nat (List.length balanceHistory) <= rounds /\
       Forall (fun entry => exists k, 0 <= k /\
                 BalanceFinder.block entry = startBlock + k * interval /\
                 BalanceFinder.block entry <= endBlock) balanceHistory /\
       StronglySorted
         (fun a b => BalanceFinder.block a < BalanceFinder.block b)
         balanceHistory).
Proof.
  intros Hcount Hpos Hrange. cbv zeta. unfold BalanceFinder.totalBlocks. split.
  - intros fuel Hfuel.
    apply HistoryFacts.history_loop_exhausts; assumption.
  - intros fuel Hfuel.
    destruct (HistoryFacts.history_loop_returns provider getTransactionCount
                formatTimestamp formatEther address Hcount interval fuel Hpos
                startBlock endBlock [] w)
      as (added & w' & t & Hrun & Hgrid & Hsorted & Hlen & _).
    { intros _. exact Hfuel. }
    exists added. rewrite Hrun. cbn [app].
    split; [reflexivity|]. split; [exact (Hlen Hrange)|].
    split; [exact Hgrid|exact Hsorted].
Qed.

Lemma history_makes_totalBlocks_rounds_witness :
  let run fuel :=
    BalanceFinder.history_loop MoreSamples.chain1000
      (fun _ _ => ret 0) (fun _ => Some "2020-09-13T12:26:40.000Z")
      toString "0xd8dA6BF26964aF9D7eEd9e03E53415D37aA96045" fuel
      100 1000 100 [] tt in
  (forall fuel, Z.of_nat fuel < BalanceFinder.totalBlocks 100 1000 100 ->
                outcome (run fuel) = OutOfFuel) /\
  (forall fuel, BalanceFinder.totalBlocks 100 1000 100 <= Z.of_nat fuel ->
     exists balanceHistory,
       outcome (run fuel) = Returned balanceHistory /\
       Z.of_nat (List.length balanceHistory)
       <= BalanceFinder.totalBlocks 100 1000 100 /\
       Forall (fun entry => exists k, 0 <= k /\
                 BalanceFinder.block entry = 100 + k * 100 /\
                 BalanceFinder.block entry <= 1000) balanceHistory /\
       StronglySorted
         (fun a b => BalanceFinder.block a < BalanceFinder.block b)
         balanceHistory).
Proof.
  apply (history_makes_totalBlocks_rounds MoreSamples.chain1000
           (fun _ _ => ret 0) (fun _ => Some "2020-09-13T12:26:40.000Z")
           toString "0xd8dA6BF26964aF9D7eEd9e03E53415D37aA96045" 100 1000 100 tt).
  - intros a b. apply DecodeFacts.settles_ret.
  - lia.
  - lia.
Defined.

(* ===================================================================== *)
(** * The get action of balance-finder                                    *)
(* ===================================================================== *)

Module GetFacts.
Import Observe.

Section Calm.
Context {W : Type}.

Lemma calm_ret {A} (a : A) (w : W) : calm (ret a w).
Proof. unfold calm, ret, outcome, trace. cbn. constructor. Qed.

Lemma calm_throw {A} (e : JsError) (w : W) : calm (throw (A := A) e w).
Proof. unfold calm, throw, outcome, trace. cbn. constructor. Qed.

Lemma calm_exit_after_error {A} (line : string) (err : option JsError) (w : W) :
  calm ((emit (ConsoleError line err) ;; process_exit (A := A) 1) w).
Proof.
  unfold calm, bind, emit, process_exit, outcome, trace. cbn [fst snd].
  split; [reflexivity|]. exists [], line, err. split; [reflexivity|constructor].
Qed.

Lemma calm_like_a_call {A} (m : Eff W A) : like_a_call m -> forall w, calm (m w).
Proof.
  intros [Hsettles Hevents] w. unfold calm.
  destruct (Hsettles w) as [[a ->]|[e ->]]; apply Hevents.
Qed.

Lemma calm_bind {A B} (m : Eff W A) (k : A -> Eff W B) :
  (forall w, calm (m w)) -> (forall a w, calm (k a w)) ->
  forall w, calm (bind m k w).
Proof.
  intros Hm Hk w. specialize (Hm w). unfold calm, bind, outcome, trace in *.
  destruct (m w) as [[r w1] t1]. cbn [fst snd] in Hm.
  destruct r; cbn [fst snd]; try exact Hm.
  specialize (Hk a w1).
  destruct (k a w1) as [[r2 w2] t2]. cbn [fst snd] in *.
  destruct r2; try (apply Forall_app; split; assumption); try exact Hk.
  destruct Hk as (Hcode & tr & line & err & -> & Htr).
  split; [exact Hcode|]. exists (t1 ++ tr), line, err.
  split; [rewrite app_assoc; reflexivity|apply Forall_app; split; assumption].
Qed.

Lemma saved_bind {A B} (filename : string) (m : Eff W A) (k : A -> Eff W B) :
  (forall w, calm (m w)) -> (forall a w, saved filename (k a w)) ->
  forall w, saved filename (bind m k w).
Proof.
  intros Hm Hk w. specialize (Hm w). unfold calm, saved, bind, outcome, trace in *.
  destruct (m w) as [[r w1] t1]. cbn [fst snd] in Hm.
  destruct r; cbn [fst snd]; try exact Hm.
  specialize (Hk a w1).
  destruct (k a w1) as [[r2 w2] t2]. cbn [fst snd] in *.
  destruct r2; try (apply Forall_app; split; assumption); try exact Hk.
  - destruct Hk as (tr & -> & Htr). exists (t1 ++ tr).
    split; [rewrite app_assoc; reflexivity|apply Forall_app; split; assumption].
  - destruct Hk as (Hcode & tr & line & err & -> & Htr).
    split; [exact Hcode|]. exists (t1 ++ tr), line, err.
    split; [rewrite app_assoc; reflexivity|apply Forall_app; split; assumption].
Qed.

Lemma saved_throw {A} (filename : string) (e : JsError) (w : W) :
  saved filename (throw (A := A) e w).
Proof. unfold saved, throw, outcome, trace. cbn. constructor. Qed.

Lemma saved_emit (filename : string) (w : W) :
  saved filename (emit (SaveJson filename) w).
Proof.
  unfold saved, emit, outcome, trace. cbn [fst snd].
  exists []. split; [reflexivity|constructor].
Qed.

Lemma saved_saveToJson (fs : string -> option JsError) (filename : string)
    (w : W) :
  saved filename (Utils.saveToJson fs filename w).
Proof.
  unfold Utils.saveToJson. destruct (fs filename);
    [apply saved_throw|apply saved_emit].
Qed.

Lemma retried_call_like_a_call {A} (c : RpcCall) (reply : W -> Settled A * W) :
  like_a_call (Utils.retryOperation (round_trip c reply)
                 Utils.defaultMaxRetries Utils.defaultDelay).
Proof.
  split; [apply ObserveFacts.retried_round_trip_settles|].
  apply ObserveFacts.all_events_retryOperation; [|intros l; exact I|exact I].
  apply ObserveFacts.all_events_round_trip. exact I.
Qed.

Lemma retried_like_a_call {A} (operation : Eff W A) :
  like_a_call operation ->
  like_a_call (Utils.retryOperation operation
                 Utils.defaultMaxRetries Utils.defaultDelay).
Proof.
  intros [Hsettles Hevents]. split.
  - apply HistoryFacts.retryOperation_settles. exact Hsettles.
  - apply ObserveFacts.all_events_retryOperation;
      [exact Hevents|intros l; exact I|exact I].
Qed.
End Calm.
End GetFacts.

(** X24.  The [get] command checks its options before it calls the
    endpoint.  An address that [ethers.getAddress] rejects ends the run on
    the spot, with the line ["Invalid Ethereum address"] and
    [process.exit(1)]; with a good address, a block that is neither
    ['latest'] nor a number from 0 on ends it with the line ["Invalid
    block number"] and [process.exit(1)]; in both cases no round trip
    was made and the endpoint is as it was. *)
Theorem get_checks_its_options_before_any_call {W : Type} (provider : Provider W)
    (getAddress : string -> option string) (parseInt : string -> option Z)
    (getTransactionCount : string -> Z -> Eff W Z)
    (formatTimestamp : Z -> option string) (fs : string -> option JsError)
    (options : BalanceFinder.GetOptions) (w : W) :
  let run := BalanceFinder.get provider getAddress parseInt getTransactionCount
               formatTimestamp fs options w in
  (getAddress (BalanceFinder.opt_address options) = None ->
   run = (Exited 1, w, [ConsoleError "Invalid Ethereum address" None])) /\
  (getAddress (BalanceFinder.opt_address options) <> None ->
   BalanceFinder.opt_block options <> "latest"%string ->
   Utils.isValidBlockNumber (parseInt (BalanceFinder.opt_block options)) = false ->
   run = (Exited 1, w, [ConsoleError "Invalid block number" None])).
Proof.
  cbv zeta. unfold BalanceFinder.get, BlockFinder.isValidAddress. split.
  - intros ->. reflexivity.
  - intros Haddress Hblock Hnumber.
    destruct (getAddress (BalanceFinder.opt_address options));
      [|contradiction].
    apply String.eqb_neq in Hblock. rewrite Hblock, Hnumber. reflexivity.
Qed.

(** X25.  The [get] command saves its result exactly when it returns.
    With any endpoint, the run ends in one of two ways.  Either it
    returns, and then saving the result under the [--output] name was the
    last thing it did, after calls to the endpoint and nothing else; or it
    leaves through [process.exit(1)] right after a line on the error
    console, and then nothing was saved.  (What stands for
    [getTransactionCount] is assumed to behave like a call.) *)
Theorem get_saves_exactly_when_it_returns {W : Type} (provider : Provider W)
    (getAddress : string -> option string) (parseInt : string -> option Z)
    (getTransactionCount : string -> Z -> Eff W Z)
    (formatTimestamp : Z -> option string) (fs : string -> option JsError)
    (options : BalanceFinder.GetOptions) (w : W) :
  (forall a b, Observe.like_a_call (getTransactionCount a b)) ->
  let run := BalanceFinder.get provider getAddress parseInt getTransactionCount
               formatTimestamp fs options w in
  (outcome run = Returned tt /\
   exists tr, trace run = tr ++ [SaveJson (BalanceFinder.opt_output options)] /\
              Forall Observe.call_event tr) \/
  (outcome run = Exited 1 /\
   (forall filename, ~ In (SaveJson filename) (trace run)) /\
   exists tr line err, trace run = tr ++ [ConsoleError line err]).
Proof.
  intros Hcount. cbv zeta. unfold BalanceFinder.get.
  match goal with
  | |- context [try_catch (bind ?m1 (fun _ => bind ?m2 ?k)) ?h] =>
      set (checks := m1); set (resolve := m2); set (rest := k); set (handler := h)
  end.
  assert (Hformat : forall t w0,
            Observe.calm (BalanceFinder.format_or_throw (W := W) formatTimestamp t w0)).
  { intros t w0. unfold BalanceFinder.format_or_throw.
    destruct (formatTimestamp t); [apply GetFacts.calm_ret|apply GetFacts.calm_throw]. }
  assert (Hchecks : forall w0, Observe.calm (checks w0)).
  { intros w0. subst checks.
    destruct (negb (BlockFinder.isValidAddress _ _)).
    - apply GetFacts.calm_exit_after_error.
    - apply GetFacts.calm_ret. }
  assert (Hresolve : forall w0, Observe.calm (resolve w0)).
  { subst resolve. destruct (String.eqb _ _).
    - apply GetFacts.calm_bind.
      + apply GetFacts.calm_like_a_call, GetFacts.retried_call_like_a_call.
      + intros [latest|] w1; [apply GetFacts.calm_ret|apply GetFacts.calm_throw].
    - cbv zeta. apply GetFacts.calm_bind.
      + intros w0. destruct (negb (Utils.isValidBlockNumber _)).
        * apply GetFacts.calm_exit_after_error.
        * apply GetFacts.calm_ret.
      + intros _. destruct (parseInt _) as [n|]; [|apply GetFacts.calm_ret].
        apply GetFacts.calm_bind.
        * apply GetFacts.calm_like_a_call, GetFacts.retried_call_like_a_call.
        * intros b w1. apply GetFacts.calm_ret. }
  (* the body up to the point where the result is saved *)
  assert (Hbody : forall w0,
            Observe.saved (BalanceFinder.opt_output options)
              (bind checks (fun _ => bind resolve rest) w0)).
  { intros w0. cbv zeta.
    apply (GetFacts.saved_bind _ checks _ Hchecks). intros _.
    apply (GetFacts.saved_bind _ resolve _ Hresolve). intros resolved.
    subst rest. cbv beta.
    destruct (snd resolved) as [blockInfo|]; [|apply GetFacts.saved_throw].
    apply GetFacts.saved_bind.
    { intros w3. destruct (BalanceFinder.opt_verbose options);
        [apply Hformat|apply GetFacts.calm_ret]. }
    intros _. apply GetFacts.saved_bind.
    { apply GetFacts.calm_like_a_call, GetFacts.retried_call_like_a_call. }
    intros _. apply GetFacts.saved_bind.
    { apply GetFacts.calm_like_a_call, GetFacts.retried_like_a_call, Hcount. }
    intros _. apply GetFacts.saved_bind; [apply Hformat|].
    intros _. apply GetFacts.saved_saveToJson. }
  specialize (Hbody w). unfold Observe.saved in Hbody.
  unfold try_catch, outcome, trace in *.
  destruct (bind checks (fun _ => bind resolve rest) w) as [[r w1] t1].
  cbn [fst snd] in *.
  assert (Hnone : forall tr, Forall Observe.call_event tr ->
                             forall filename, ~ In (SaveJson filename) tr).
  { intros tr Htr filename Hin. rewrite Forall_forall in Htr. exact (Htr _ Hin). }
  destruct r as [[]|e|code|].
  - left. split; [reflexivity|exact Hbody].
  - right. subst handler. unfold bind, emit, process_exit. cbn [fst snd].
    split; [reflexivity|]. split.
    + intros filename Hin. apply in_app_or in Hin.
      destruct Hin as [Hin|[Hin|[]]]; [exact (Hnone _ Hbody _ Hin)|discriminate].
    + exists t1, "Error:", (Some e). reflexivity.
  - right. destruct Hbody as (-> & tr & line & err & -> & Htr).
    split; [reflexivity|]. split.
    + intros filename Hin. apply in_app_or in Hin.
      destruct Hin as [Hin|[Hin|[]]]; [exact (Hnone _ Htr _ Hin)|discriminate].
    + exists tr, line, err. reflexivity.
  - contradiction.
Qed.

Lemma get_saves_exactly_when_it_returns_witness :
  let run :=
    BalanceFinder.get MoreSamples.chain1000 (fun a => Some a)
      (fun _ => Some 500) (fun _ _ => ret 7)
      (fun _ => Some "2020-09-13T12:26:40.000Z") (fun _ => None)
      {| BalanceFinder.opt_address := "0xd8dA6BF26964aF9D7eEd9e03E53415D37aA96045";
         BalanceFinder.opt_block := "500";
         BalanceFinder.opt_output := "balance-info.json";
         BalanceFinder.opt_verbose := false |} tt in
  (outcome run = Returned tt /\
   exists tr, trace run = tr ++ [SaveJson "balance-info.json"] /\
              Forall Observe.call_event tr) \/
  (outcome run = Exited 1 /\
   (forall filename, ~ In (SaveJson filename) (trace run)) /\
   exists tr line err, trace run = tr ++ [ConsoleError line err]).
Proof.
  apply (get_saves_exactly_when_it_returns MoreSamples.chain1000 (fun a => Some a)
           (fun _ => Some 500) (fun _ _ => ret 7)
           (fun _ => Some "2020-09-13T12:26:40.000Z") (fun _ => None)
           {| BalanceFinder.opt_address := "0xd8dA6BF26964aF9D7eEd9e03E53415D37aA96045";
              BalanceFinder.opt_block := "500";
              BalanceFinder.opt_output := "balance-info.json";
              BalanceFinder.opt_verbose := false |} tt).
  intros a b. split.
  - apply DecodeFacts.settles_ret.
  - intros w. constructor.
Defined.
